(* ===== verification/_CoqProject ===== *)
-Q . S2P
Prelude.v
ListTail.v
Cpio.v
Decompress.v
Parse.v
ParseFree.v
Extract.v
Ls.v
Ueventd.v
UeventdWorker.v
ListHead.v
ListSort.v
UdevString.v
UdevRules.v
CString.v
UdevScanner.v
UdevParser.v
Depinfo.v
PutQueue.v
PutCanon.v
PutDeps.v
PutTables.v
LddPipe.v
DlopenPipe.v
PutMain.v
Workers.v
PutInstall.v
PutCli.v
Scanmod.v
ScanmodRes.v
Environ.v
NfsRpc.v
NfsMount.v
Mounts.v
Halt.v
Wtmp.v
Resume.v
Sysexec.v
Libinitramfs.v
MountsMain.v
UeventdMain.v
