(* ===== verification/Prelude.v ===== *)
(** * make-initrd: the C programs that build, read and run an initramfs image

    make-initrd puts an initramfs image together from features (shell and make rules)
    with the help of C programs, and brings other C programs into the image that run
    early in the boot. This library models those programs and proves what makes them
    correct. All paths below are under src/.

    ** The parts and the files that model them

    Image files (utils/). An image is a sequence of newc cpio archives, each plain or
    compressed, with an optional bootconfig at the end. initrd-ls and initrd-extract
    call the parser, the parser calls the decompressors and the cpio reader, and
    initrd-extract calls the cpio writer.
    - Cpio: initrd-cpio.c. Headers are records, the buffer a list of bytes with its
      announced size; [read_cpio], [write_cpio], [write_trailer].
    - Decompress: initrd-decompress*.c, the table of formats and the four wrappers.
      zlib, libbz2, liblzma and libzstd are [StreamDecoder] and [ZstdDecoder]; the
      parser uses them through the class [Decompressors].
    - Parse: initrd-parse.c, [read_stream] and [parse_initrd] with the list of streams.
      ParseFree: the release of what they have collected, on the heap of ListTail.
    - Extract: initrd-extract/. [extract_main] from the options to the bytes written.
    - Ls: initrd-ls/. [ls_main] from the options to the lines printed.
    - ListTail: initrd-common.c, the list that holds the entries of an archive, on a heap
      with malloc and calloc. The other files have the sequence of its elements.

    The event daemon in the image (features/runtime/src/ueventd/).
    - Ueventd: ueventd.c and path.c. [daemon] holds the static variables, [world] the
      directories and the inotify state; one definition per handler.
    - UeventdWorker: queue-processor.c, as a function and as phases, and the step
      relation of the whole system: daemon, workers that may die, forks and writes to the
      pipe that may fail, and the programs that add and remove events.
    - UeventdMain: the process of ueventd.c from its options to its exit: descriptors and
      signals, the child of [spawn_worker], the main loop and the way out.

    - Mounts: ueventd-mounts/, the program that turns changes of the mount table into
      events: the list of mounts, the backends of procfs and of fanotify with its binary
      records, and the files of the events, which may be impossible to write. MountsMain: its main with the loop over poll,
      and the procfs backend as steps that interleave with changes of the mount table.
    - Libinitramfs: libinitramfs/logging.c and console.c, and ask-pass.c of the feature
      sshfsroot.

    The programs that lead to the real root (features/runtime/src/).
    - Environ: environ/environ.c, which saves and restores environment variables.
    - NfsRpc, NfsMount: nfsmount/. NfsRpc has the messages of sunrpc.c, portmap.c and
      dummypmap.c as bytes, the loop over poll and the portmapper for the kernel;
      NfsMount has mount.c and main.c, which call it.
    - Resume: resume/, the names of devices and their numbers.
    - Sysexec: sysexec/, chrooted/, runas/ and timestamp/. The old root is a tree of
      nodes with their devices and mounts.
    - Halt: halt/, with the actions in order, the disks and the interfaces. Wtmp: the
      record of utmp.c.

    The checker of udev rules (utils/udev-rules/).
    - ListHead: list.h, on a heap of nodes; features/runtime/src/libinitramfs/rd/list.h
      is the same text. ListSort: list_sort.c, on the same heap.
    - UdevString: udev-string.c, with the buffers and their sizes.
    - UdevScanner: udev-rules-scanner.l. The patterns are expressions, and [yylex] takes
      the longest match and the first of equals, as flex documents.
    - UdevRules: udev-rules.c, udev-goto-label.c and the checks of udev-rules-parser.y on
      the sequence of pairs of the rules.
    - UdevParser: the grammar of udev-rules-parser.y as a machine that shifts and reduces,
      the loop over syntax errors, the files and directories, and the program as a whole,
      from the bytes of the files to the exit status.

    The modules and the files of an image.
    - CString: the functions of the C library on strings that the rest shares.
    - Depinfo: depinfo/kmod-depinfo.c, the walk over module dependencies. libkmod is a
      class, the queue of built-in modules with aliases a queue of pointers.
    - Workers: the threads of initrd-scanmod, which take work from a queue until it is
      empty, and that all their interleavings amount to an order of the items.
    - Scanmod: initrd-scanmod/. The rules, the matching of a module with what libkmod
      tells of it, and the threads. ScanmodRes: the mapping of a rules file and the release
      of the rules.
    - PutQueue, PutCanon, PutDeps, PutMain, PutInstall: initrd-put/. The queue and the
      tree of files (queue.c, tree.c), canonical paths, what a file needs
      (enqueue-shebang.c, enqueue-library.c, elf_dlopen.c), the loop that collects the
      files, and their installation in the order in which the threads come to them.
      PutMain calls the first three; PutInstall starts from the tree that PutMain leaves.
    - PutTables: the search trees behind the sets and maps of those files, with the
      comparison functions of the code (class [Orders]).
    - LddPipe, DlopenPipe: the processes and pipes of [pipe_command] (enqueue-library.c) and
      of [resolve_soname] (elf_dlopen.c); the second as an interleaving of parent and child,
      which can be killed at any step.
    - PutCli: main of initrd-put.c. The options, the dry run, the report, the log, and the
      composition of all the parts.

    ** Conventions

    A program part is a function to [out A]: [Ret] a value, [Die] with an exit code and
    a message (err, errx), [Undef] where the C program would have undefined behaviour
    (a null or dangling pointer, an access outside a buffer), [NoFuel] when the bound
    of a loop is used up. [let!] is its bind. Integers are [Z], with [u32] and [u64]
    where the code wraps around. A string of the program is a list of bytes; [#] turns
    a literal into one. What a program prints for information only is left out.

    Code that is not part of the sources is a parameter: a record or a class of the
    calls, with laws where a theorem needs them (decoder_spec, LibkmodLaws, DestLaws,
    alloc_fresh). What the kernel, a server or a device answers is a function of time or
    of the path, without any law in the theorems about safety.
    Each theorem with such a law has a witness that applies it to a concrete instance.

    ** What is shown

    - Round trips: what is written as cpio is read back ([write_read_roundtrip]); an
      image of archives, compressed parts and a bootconfig is taken apart again
      ([parse_initrd_image]); extraction gives the entries of the image and is
      idempotent ([extract_main_image], [extract_main_idempotent]).
      An environment that was saved is restored ([environ_restored]); a device number is
      resumed from unchanged ([resume_number]), and that of a partition is the right one if
      it stays in the block of minor numbers of its disk ([resume_partition]); the log of initrd-put is read back
      ([log_read_back]).
    - Safety and termination: [read_cpio_safe], [canonicalized_path], [string_append]
      and [copy_complete] exclude accesses outside buffers and loops without end, but for
      the magic that [read_cpio] compares behind the last entry ([read_cpio_overread]);
      [dummy_portmap_safe] the same for any packet, [rpc_call_udp_spec] for any answer of
      the network; [list_lifecycle] and [image_released] exclude leaks and double frees of
      the lists of an image, [rules_released] of the rules of initrd-scanmod, and
      [initrd_put_complete] of the structures of initrd-put; [pipe_balanced] and
      [map_balanced] exclude descriptors that are left open, whatever fails. Every file of
      udev rules without a NUL byte is read to its end, unless it has one of the pairs that
      make the program read a null pointer ([rules_parse_total]).
    - Shutting down and changing the root: before a reboot the disks that are found and
      can be opened are flushed ([flush_before_reboot], [disks_flushed]); the new root is
      entered before the old one is removed ([sysexec_order]), of which the files of its
      own device go and what is mounted from other devices stays ([old_root_emptied],
      [other_devices_kept]); a mount of the server is released if and
      only if it is not used ([nfs_mount_balanced]).
    - Mounts: the list and the events of the procfs backend for every mount table, with an
      end at the first file that cannot be written ([procfs_sync]), and of the fanotify
      backend ([fanotify_tracks], [fanotify_lists_all]). Without two mounts of one kind the
      list is the mount table and the events are the differences, also when the table
      changes while the daemon works ([mounts_in_sync]), and so for the program from its
      options on ([mounts_main_follows]).
    - The daemon: in any interleaving an event that stays behind belongs to a queue that is
      paused, or whose worker could not be started, has died or could not write to the
      pipe ([no_lost_events]), and workers exclude each other ([worker_exclusive_total]).
      This is for queues that are not removed, for inotify without an overflow and for
      handler directories that are empty at the start. The counter of dirty queues never
      trips the check of the main loop, and a worker refines [process_events]. A worker has
      none of the descriptors the daemon reads from ([worker_isolated]), and apart from a
      fatal error the daemon ends only for a signal or a failed waitpid, with its workers
      killed and its watches and all but one of its descriptors given back ([ueventd_ends]).
    - Data structures: list.h refines lists, list_sort is the stable sort, the queue of
      initrd-put stays a well-formed list under every sequence of operations, its search
      trees are the sets and maps of the model ([tables_refine]), and the two processes of
      resolve_soname do what one function does unless the child is killed
      ([resolve_soname_pipe]).
    - Closures: depinfo finds exactly the modules that are needed, initrd-put collects
      with every file its directory, link targets and interpreter, and all of them are
      installed, in whatever order the threads come to them; [initrd_put_complete] says so
      for the program as a whole, from the command line on. initrd-scanmod prints exactly the
      modules that match, for every schedule.
    - Checks: the warnings of udev-rules and its exit status are the ones specified, and on
      the bytes of written rules the program does what the checks do with their pairs
      ([udev_rules_refines]).
    - Flaws: the theorems of kind error give inputs on which a program does not do what
      it is meant to do (for instance [read_cpio_loops], [bunzip2_full_last_chunk],
      [directory_contents_lost], [stale_reply_truncates], [handle_overflow],
      [reboot_by_path_halts], [bind_mount_emptied], [positions_restart],
      [mount_lost_at_start]); they also show that the conditions of
      the positive theorems are needed.

    ** Bounds and fuel

    Loops that are not structural take fuel, and the theorems say how much is enough:
    one round more than the number of entries for [read_cpio], whose rounds are at
    most size / 112 + 1; [image_fuel] for the parser; the length of the list for the
    loops of list_sort; one level more than the number of modules for depinfo;
    [canon_fuel], the bytes that 21 names can have, for a path; [enough_fuel],
    quadratic in the number of paths that can come up, for the queue of initrd-put;
    two passes for the installation; the tries of the source (MAX_TRIES) for a call over
    UDP; one more than the cells of the heap for the list of initrd-common; one more
    than the mounts for the loop over listmount, and than the events for the records of
    fanotify; the bytes that are left and one more for the scanner and the parser of
    udev rules; the bytes of the buffer for [write_loop]. [copy_contents]
    computes its own fuel from the size of the file.

    ** Not modelled

    - What flex and bison generate: UdevScanner and UdevParser model the patterns, the
      grammar and the actions of the sources with the semantics that the manuals of the
      two programs give them.
    - In the modelled programs: reading options with getopt (the models take the options
      it returns), help and version texts, and allocation that fails, which ends the
      programs (also libinitramfs/memory.c, initrd-put/memory.c, initrd-scanmod-common.c).
      What ldd prints and what dlopen finds are parameters.
    - Freeing memory at the end of kmod-depinfo and udev-rules.
    - The texts that are only for a log or for debugging, such as dump_params and dump_fh of
      nfsmount, which are empty in the programs that are built.
    - Two threads of initrd-put that are in install_file at the same time: the files are
      installed one after the other, in any order. The threads of initrd-scanmod change
      nothing that others see but the output, which they print in one step.
    - In the steps of the event daemon: the removal of a queue and the overflow of inotify.
    - An endless loop over poll or epoll is a function of the sequence of its wakeups.
    - The definitions of mount-compat.h for system calls and constants that the headers of
      the system lack, other than the constants and structures the models use.
    - Shell scripts and make rules. *)

From Stdlib Require Import ZArith Ascii String Lia.
From stdpp Require Import base list strings gmap tactics numbers.

Declare Scope cprog_scope.
Delimit Scope cprog_scope with cprog.
Open Scope Z_scope.
Open Scope cprog_scope.

(** ** Outcomes of a C function

    [Ret a] is a normal return; [Die c m] ends the process with status [c]
    (err, errx, rd_fatal, exit) and tag [m]; [Undef] marks undefined behaviour
    (a read outside the object a pointer points into, a null dereference);
    [NoFuel] marks the bound on the iterations of a modelled loop. *)

Inductive out (A : Type) : Type :=
| Ret (a : A)
| Die (code : Z) (msg : string)
| Undef
| NoFuel.
Arguments Ret {A} a.
Arguments Die {A} code msg.
Arguments Undef {A}.
Arguments NoFuel {A}.

Definition obind {A B : Type} (m : out A) (k : A -> out B) : out B :=
  match m with
  | Ret a => k a
  | Die c s => Die c s
  | Undef => Undef
  | NoFuel => NoFuel
  end.

Notation "'let!' x ':=' m 'in' k" := (obind m (fun x => k))
  (at level 10, x pattern, m at level 100, k at level 200) : cprog_scope.

Definition EXIT_FAILURE : Z := 1.
Definition EXIT_SUCCESS : Z := 0.

(** ** Machine integers *)

Definition u64 (z : Z) : Z := z mod 2 ^ 64.
Definition u32 (z : Z) : Z := z mod 2 ^ 32.
Definition i32 (z : Z) : Z := (z + 2 ^ 31) mod 2 ^ 32 - 2 ^ 31.
Definition i64 (z : Z) : Z := (z + 2 ^ 63) mod 2 ^ 64 - 2 ^ 63.
Definition ULONG_MAX : Z := 2 ^ 64 - 1.

(** ** Bytes and C strings

    A [char *] into read-only memory is the list of the bytes from the pointer
    to the end of the object it points into; a C string is such a list with a
    NUL byte in it. *)

Abbreviation bytes := (list ascii).
Definition NUL : ascii := "000"%char.
Notation "# s" := (String.list_ascii_of_string s%string) (at level 1, s at level 0) : cprog_scope.

Fixpoint cstr (p : bytes) : option bytes :=
  match p with
  | [] => None
  | c :: p' => if decide (c = NUL) then Some [] else (c ::.) <$> cstr p'
  end.

(** [memcmp(p, lit, n) == 0] for a literal of [n] bytes. *)
Definition memcmp_eq (p lit : bytes) : out bool :=
  if decide (length p < length lit)%nat then Undef
  else Ret (bool_decide (take (length lit) p = lit)).

Definition ord (c : ascii) : Z := Z.of_nat (nat_of_ascii c).

Definition isspace (c : ascii) : bool :=
  (ord c =? 32) || ((9 <=? ord c) && (ord c <=? 13)).
Definition isblank (c : ascii) : bool := (ord c =? 32) || (ord c =? 9).
Definition isdigit (c : ascii) : bool := (48 <=? ord c) && (ord c <=? 57).

Definition digit_val (c : ascii) : option Z :=
  let k := ord c in
  if (48 <=? k) && (k <=? 57) then Some (k - 48)
  else if (97 <=? k) && (k <=? 122) then Some (k - 87)
  else if (65 <=? k) && (k <=? 90) then Some (k - 55)
  else None.

Definition is_digit_of (b : Z) (c : ascii) : bool :=
  match digit_val c with Some d => d <? b | None => false end.
Definition isxdigit (c : ascii) : bool := is_digit_of 16 c.

Fixpoint scan_digits (b : Z) (acc : Z) (s : bytes) : Z * bytes :=
  match s with
  | c :: s' =>
      match digit_val c with
      | Some d => if d <? b then scan_digits b (acc * b + d) s' else (acc, s)
      | None => (acc, s)
      end
  | [] => (acc, [])
  end.

Fixpoint skip_while (f : ascii -> bool) (s : bytes) : bytes :=
  match s with
  | c :: s' => if f c then skip_while f s' else s
  | [] => []
  end.

(** The sign and the base prefix [strtoul] accepts before the digits. *)
Definition strto_sign (s : bytes) : bool * bytes :=
  match s with
  | "-"%char :: s' => (true, s')
  | "+"%char :: s' => (false, s')
  | _ => (false, s)
  end.

Definition strto_base (b : Z) (s : bytes) : Z * bytes :=
  match s with
  | "0"%char :: x :: d :: s' =>
      if ((b =? 0) || (b =? 16)) && ((ord x =? 120) || (ord x =? 88)) && isxdigit d
      then (16, d :: s')
      else if b =? 0 then (8, s) else (b, s)
  | "0"%char :: _ => if b =? 0 then (8, s) else (b, s)
  | _ => if b =? 0 then (10, s) else (b, s)
  end.

(** [strtoul(s, &end, b)] (and [strtoull], of the same width): the value, whether
    it overflowed (errno = ERANGE) and the bytes [end] points to.  [s] is the
    string without its NUL. *)
Definition strtoul (b : Z) (s : bytes) : Z * bool * bytes :=
  let '(neg, s1) := strto_sign (skip_while isspace s) in
  let '(b', s2) := strto_base b s1 in
  match s2 with
  | c :: _ =>
      if is_digit_of b' c then
        let '(v, rest) := scan_digits b' 0 s2 in
        if ULONG_MAX <? v then (ULONG_MAX, true, rest)
        else ((if neg then u64 (- v) else v), false, rest)
      else (0, false, s)
  | [] => (0, false, s)
  end.

(** ** Printing numbers (the conversions %X and %u of printf) *)

Definition digit_char (d : Z) : ascii :=
  if d <? 10 then ascii_of_nat (Z.to_nat (48 + d)) else ascii_of_nat (Z.to_nat (55 + d)).

Fixpoint num_rev (b : Z) (fuel : nat) (z : Z) : bytes :=
  match fuel with
  | O => []
  | S f => digit_char (z mod b) :: (if z <? b then [] else num_rev b f (z / b))
  end.

Definition fmt_num (b : Z) (z : Z) : bytes := rev (num_rev b 64 z).
Definition pad_left (w : nat) (c : ascii) (s : bytes) : bytes :=
  replicate (w - length s) c ++ s.

Definition fmt_08X (z : Z) : bytes := pad_left 8 "0"%char (fmt_num 16 z).
Definition fmt_u (w : nat) (z : Z) : bytes := pad_left w " "%char (fmt_num 10 z).


(** ** Lengths and offsets as Z *)

Definition lenZ {A : Type} (l : list A) : Z := Z.of_nat (length l).

(** The pointer [p + n] of a read-only view; past the end nothing is readable. *)
Definition dropZ {A : Type} (n : Z) (l : list A) : list A :=
  if (0 <=? n) && (n <? lenZ l) then drop (Z.to_nat n) l else [].

Definition takeZ {A : Type} (n : Z) (l : list A) : list A :=
  if n <=? lenZ l then take (Z.to_nat n) l else l.

(** ** File types (sys/stat.h) *)

Definition S_IFMT : Z := 61440.
Definition S_IFSOCK : Z := 49152.
Definition S_IFLNK : Z := 40960.
Definition S_IFREG : Z := 32768.
Definition S_IFBLK : Z := 24576.
Definition S_IFDIR : Z := 16384.
Definition S_IFCHR : Z := 8192.
Definition S_IFIFO : Z := 4096.

(** ** Tactics

    [unbool] turns the boolean tests of the code that were cased on into
    propositions; [zlia] closes the arithmetic that is left. *)

Ltac unbool :=
  repeat match goal with
  | H : andb _ _ = true |- _ => apply andb_true_iff in H as [? ?]
  | H : andb _ _ = false |- _ => apply andb_false_iff in H as [?|?]
  | H : orb _ _ = false |- _ => apply orb_false_iff in H as [? ?]
  | H : orb _ _ = true |- _ => apply orb_true_iff in H as [?|?]
  | H : negb _ = true |- _ => apply negb_true_iff in H
  | H : negb _ = false |- _ => apply negb_false_iff in H
  | H : Z.ltb _ _ = true |- _ => apply Z.ltb_lt in H
  | H : Z.ltb _ _ = false |- _ => apply Z.ltb_ge in H
  | H : Z.leb _ _ = true |- _ => apply Z.leb_le in H
  | H : Z.leb _ _ = false |- _ => apply Z.leb_gt in H
  | H : Z.eqb _ _ = true |- _ => apply Z.eqb_eq in H
  | H : Z.eqb _ _ = false |- _ => apply Z.eqb_neq in H
  | H : bool_decide _ = true |- _ => apply bool_decide_eq_true in H
  | H : bool_decide _ = false |- _ => apply bool_decide_eq_false in H
  end.

Ltac zlia := unbool; lia.

(** Division and remainder by constants. *)
Ltac mlia := unbool; Z.div_mod_to_equations; lia.

(** ** Lemmas on integers *)

Lemma u64_small z : 0 <= z < 2 ^ 64 -> u64 z = z.
Proof. apply Z.mod_small. Qed.

Lemma u32_small z : 0 <= z < 2 ^ 32 -> u32 z = z.
Proof. apply Z.mod_small. Qed.

Lemma i64_small z : - 2 ^ 63 <= z < 2 ^ 63 -> i64 z = z.
Proof. intros H. unfold i64. rewrite Z.mod_small; lia. Qed.

Lemma i32_small z : - 2 ^ 31 <= z < 2 ^ 31 -> i32 z = z.
Proof. intros H. unfold i32. rewrite Z.mod_small; lia. Qed.

Lemma u64_range z : 0 <= u64 z < 2 ^ 64.
Proof. apply Z.mod_pos_bound. lia. Qed.

Lemma u32_range z : 0 <= u32 z < 2 ^ 32.
Proof. apply Z.mod_pos_bound. lia. Qed.

Lemma land_3 z : Z.land z 3 = z mod 4.
Proof. apply (Z.land_ones z 2). lia. Qed.

(** Clearing the two low bits of a 64-bit word. *)
Lemma land_not3 z : 0 <= z < 2 ^ 64 -> Z.land z (2 ^ 64 - 4) = z - z mod 4.
Proof.
  intros Hz.
  change (2 ^ 64 - 4) with (Z.land (Z.ones 64) (Z.lnot 3)).
  rewrite Z.land_assoc, Z.land_ones, Z.mod_small by lia.
  rewrite <- Z.ldiff_land. change 3 with (Z.ones 2).
  rewrite Z.ldiff_ones_r, Z.shiftl_mul_pow2, Z.shiftr_div_pow2 by lia.
  change (2 ^ 2) with 4. pose proof (Z.div_mod z 4 ltac:(lia)). lia.
Qed.

(** Clearing the eight low bits of a 32-bit word. *)
Lemma land_not255 z : 0 <= z < 2 ^ 32 -> Z.land z (2 ^ 32 - 256) = z - z mod 256.
Proof.
  intros Hz. change (2 ^ 32 - 256) with (Z.land (Z.ones 32) (Z.lnot 255)).
  rewrite Z.land_assoc, Z.land_ones, Z.mod_small by lia.
  rewrite <- Z.ldiff_land. change 255 with (Z.ones 8).
  rewrite Z.ldiff_ones_r, Z.shiftl_mul_pow2, Z.shiftr_div_pow2 by lia.
  change (2 ^ 8) with 256. pose proof (Z.div_mod z 256 ltac:(lia)). lia.
Qed.

(** [or] of two words with no bit in common. *)
Lemma lor_mul_pow2 k a b : 0 <= k -> 0 <= a < 2 ^ k -> Z.lor (b * 2 ^ k) a = b * 2 ^ k + a.
Proof.
  intros Hk Ha. rewrite <- Z.shiftl_mul_pow2 by done.
  rewrite <- Z.lxor_lor, <- Z.add_nocarry_lxor; [done|..];
    (apply Z.bits_inj'; intros n Hn; rewrite Z.land_spec, Z.bits_0, Z.shiftl_spec by lia;
     destruct (Z.lt_ge_cases n k); [by rewrite Z.testbit_neg_r by lia|];
     apply andb_false_intro2;
     destruct (Z.eq_dec a 0) as [->|]; [apply Z.bits_0|];
     apply Z.bits_above_log2; [lia|]; apply Z.log2_lt_pow2; [lia|];
     apply Z.lt_le_trans with (2 ^ k); [lia|]; apply Z.pow_le_mono_r; lia).
Qed.

(** ** Lemmas on views and lengths *)

Lemma lenZ_nonneg {A} (l : list A) : 0 <= lenZ l.
Proof. unfold lenZ. zlia. Qed.

Lemma lenZ_app {A} (l1 l2 : list A) : lenZ (l1 ++ l2) = lenZ l1 + lenZ l2.
Proof. unfold lenZ. rewrite length_app. zlia. Qed.

Lemma lenZ_cons {A} (x : A) (l : list A) : lenZ (x :: l) = 1 + lenZ l.
Proof. unfold lenZ. cbn [length]. zlia. Qed.

Lemma lenZ_nil {A} : lenZ (@nil A) = 0.
Proof. reflexivity. Qed.

Lemma lenZ_replicate {A} n (x : A) : lenZ (replicate n x) = Z.of_nat n.
Proof. unfold lenZ. by rewrite length_replicate. Qed.

Lemma lenZ_zero {A} (l : list A) : lenZ l = 0 -> l = [].
Proof. destruct l as [|x l]; [done|]. rewrite lenZ_cons. pose proof (lenZ_nonneg l). lia. Qed.

Lemma dropZ_app {A} (l1 l2 : list A) : dropZ (lenZ l1) (l1 ++ l2) = l2.
Proof.
  unfold dropZ, lenZ. rewrite length_app. case_match eqn:E.
  - rewrite Nat2Z.id. by rewrite drop_app_length.
  - destruct l2; [done|]. cbn [length] in E. zlia.
Qed.

Lemma dropZ_app' {A} n (l1 l2 : list A) : n = lenZ l1 -> dropZ n (l1 ++ l2) = l2.
Proof. intros ->. apply dropZ_app. Qed.

Lemma takeZ_0 {A} (l : list A) : takeZ 0 l = [].
Proof. unfold takeZ. case_match; [done|]. pose proof (lenZ_nonneg l). zlia. Qed.

Lemma takeZ_ge {A} n (l : list A) : lenZ l <= n -> takeZ n l = l.
Proof. intros H. unfold takeZ. destruct (Z.leb_spec n (lenZ l)); [|done]. apply take_ge. unfold lenZ in *. lia. Qed.

Lemma takeZ_app {A} n (l1 l2 : list A) : n = lenZ l1 -> takeZ n (l1 ++ l2) = l1.
Proof.
  intros ->. unfold takeZ. rewrite lenZ_app. pose proof (lenZ_nonneg l2).
  case_match; [|zlia]. unfold lenZ. rewrite Nat2Z.id. apply take_app_length.
Qed.

Lemma takeZ_all {A} (l : list A) : takeZ (lenZ l) l = l.
Proof. rewrite <- (app_nil_r l) at 2. by apply takeZ_app. Qed.

Lemma lenZ_takeZ {A} n (l : list A) : 0 <= n <= lenZ l -> lenZ (takeZ n l) = n.
Proof.
  intros H. unfold takeZ. case_match; [|zlia].
  unfold lenZ in *. rewrite length_take. zlia.
Qed.

Lemma lenZ_dropZ {A} n (l : list A) : 0 <= n <= lenZ l -> lenZ (dropZ n l) = lenZ l - n.
Proof.
  intros H. unfold dropZ. case_match.
  - unfold lenZ in *. rewrite length_drop. zlia.
  - change (lenZ (@nil A)) with 0. zlia.
Qed.

Create Rewrite HintDb lenz.
#[export] Hint Rewrite @lenZ_app @lenZ_cons @lenZ_nil @lenZ_replicate : lenz.

(** ** Lemmas on C strings *)

Lemma takeZ_dropZ {A} n (l : list A) : 0 <= n <= lenZ l -> takeZ n l ++ dropZ n l = l.
Proof.
  intros H. unfold takeZ, dropZ. rewrite (proj2 (Z.leb_le n (lenZ l))) by lia.
  destruct ((0 <=? n) && (n <? lenZ l)) eqn:E.
  - apply take_drop.
  - unbool; rewrite app_nil_r; apply take_ge; unfold lenZ in *; lia.
Qed.

Lemma dropZ_app_ge {A} n (l1 l2 : list A) : 0 <= n -> dropZ (lenZ l1 + n) (l1 ++ l2) = dropZ n l2.
Proof.
  intros Hn. unfold dropZ, lenZ. rewrite length_app.
  replace (Z.of_nat (length l1) + n <? _) with (n <? Z.of_nat (length l2))
    by (apply eq_true_iff_eq; rewrite !Z.ltb_lt; lia).
  rewrite !(proj2 (Z.leb_le 0 _)) by lia. cbn [andb]. case_match; [|done].
  rewrite Z2Nat.inj_add, Nat2Z.id by lia. by rewrite <- drop_drop, drop_app_length.
Qed.

Lemma dropZ_app_le {A} n (l1 l2 : list A) : 0 <= n <= lenZ l1 -> dropZ n (l1 ++ l2) = dropZ n l1 ++ l2.
Proof.
  intros H. rewrite <- (takeZ_dropZ n l1) at 1 by done. rewrite <- app_assoc.
  apply dropZ_app'. by rewrite lenZ_takeZ.
Qed.

Lemma cstr_app s t : NUL ∉ s -> cstr (s ++ NUL :: t) = Some s.
Proof.
  induction s as [|c s IH]; intros Hn; cbn [app cstr].
  - by rewrite decide_True.
  - apply not_elem_of_cons in Hn as [Hc Hn].
    rewrite decide_False by congruence. by rewrite IH.
Qed.

Lemma cstr_inv p s : cstr p = Some s -> exists t, p = s ++ NUL :: t /\ NUL ∉ s.
Proof.
  revert s. induction p as [|c p IH]; intros s H; cbn [cstr] in H; [done|].
  case_decide as Hc.
  - simplify_eq. exists p. split; [done|]. apply not_elem_of_nil.
  - apply fmap_Some in H as (s' & Hs & ->).
    destruct (IH s' Hs) as (t & -> & Hn). exists t. split; [done|].
    apply not_elem_of_cons. split; [congruence|done].
Qed.

Lemma memcmp_eq_app lit p : memcmp_eq (lit ++ p) lit = Ret true.
Proof.
  unfold memcmp_eq. rewrite length_app, decide_False by lia.
  rewrite take_app_length. by rewrite bool_decide_true.
Qed.

Lemma memcmp_eq_ne p lit : (length lit <= length p)%nat -> take (length lit) p <> lit ->
  memcmp_eq p lit = Ret false.
Proof.
  intros Hl Hne. unfold memcmp_eq. rewrite decide_False by lia. by rewrite bool_decide_false.
Qed.

Lemma memcmp_eq_in p lit : lenZ lit <= lenZ p ->
  memcmp_eq p lit = Ret (bool_decide (take (length lit) p = lit)).
Proof. intros H. unfold memcmp_eq, lenZ in *. by rewrite decide_False by lia. Qed.

(** ** Numerals: what is printed is read back *)

Lemma ascii_ind256 (P : ascii -> Prop) :
  (forall n, (n < 256)%nat -> P (ascii_of_nat n)) -> forall c, P c.
Proof.
  intros H c. rewrite <- (ascii_nat_embedding c). apply H, nat_ascii_bounded.
Qed.

Definition ascii_all (f : ascii -> bool) : bool :=
  forallb (fun n => f (ascii_of_nat n)) (seq 0 256).

Lemma ascii_all_spec f : ascii_all f = true -> forall c, f c = true.
Proof.
  intros H c. induction c as [n Hn] using ascii_ind256.
  unfold ascii_all in H. rewrite forallb_forall in H.
  apply H, in_seq. zlia.
Qed.

Lemma isxdigit_not_special c : isxdigit c = true ->
  isspace c = false /\ c <> NUL /\ c <> "-"%char /\ c <> "+"%char /\ ord c <> 120 /\ ord c <> 88.
Proof.
  intros H.
  pose proof (ascii_all_spec (fun c => implb (isxdigit c)
    (negb (isspace c) && bool_decide (c <> NUL) && bool_decide (c <> "-"%char)
     && bool_decide (c <> "+"%char) && negb (ord c =? 120) && negb (ord c =? 88)))
    eq_refl c) as Hc.
  cbv beta in Hc. rewrite H in Hc. cbn [implb] in Hc.
  repeat (apply andb_prop in Hc as [Hc ?]).
  rewrite ?negb_true_iff, ?Z.eqb_neq, ?bool_decide_eq_true in *. done.
Qed.

Definition digit_step (b : Z) (acc : Z) (c : ascii) : Z :=
  acc * b + default 0 (digit_val c).
Definition digits_val (b : Z) (s : bytes) : Z := fold_left (digit_step b) s 0.

Lemma is_digit_of_spec b c : is_digit_of b c = true ->
  exists d, digit_val c = Some d /\ 0 <= d < b.
Proof.
  unfold is_digit_of. destruct (digit_val c) as [d|] eqn:Hd; [|done].
  intros Hb. exists d. split; [done|]. split; [|zlia].
  unfold digit_val in Hd. repeat case_match; simplify_eq; zlia.
Qed.

(** What does not go on with a digit ends a number. *)
Definition no_digit (b : Z) (t : bytes) : Prop := match t with c :: _ => is_digit_of b c = false | [] => True end.

Lemma scan_digits_app b s t acc :
  Forall (fun c => is_digit_of b c = true) s -> no_digit b t ->
  scan_digits b acc (s ++ t) = (fold_left (digit_step b) s acc, t).
Proof.
  intros Hs Ht. revert acc. induction Hs as [|c s Hc Hs IH]; intros acc.
  - destruct t as [|c t]; [done|]. cbn in Ht |- *. unfold is_digit_of in Ht. by destruct (digit_val c) as [d|]; [rewrite Ht|].
  - apply is_digit_of_spec in Hc as (d & Hd & Hb). cbn [scan_digits fold_left app].
    rewrite Hd. rewrite (proj2 (Z.ltb_lt d b)) by lia.
    rewrite IH. unfold digit_step at 3. by rewrite Hd.
Qed.

Lemma scan_digits_all b s acc :
  Forall (fun c => is_digit_of b c = true) s ->
  scan_digits b acc s = (fold_left (digit_step b) s acc, []).
Proof. intros Hs. rewrite <- (app_nil_r s) at 1. by apply scan_digits_app. Qed.

Lemma digits_val_bound b s acc :
  2 <= b -> 0 <= acc -> Forall (fun c => is_digit_of b c = true) s ->
  0 <= fold_left (digit_step b) s acc < (acc + 1) * b ^ Z.of_nat (length s).
Proof.
  intros Hb. revert acc. induction s as [|c s IH]; intros acc Ha Hs.
  - cbn. lia.
  - inversion_clear Hs as [|? ? Hc Hs'].
    apply is_digit_of_spec in Hc as (d & Hd & Hdb). cbn [fold_left length].
    assert (digit_step b acc c = acc * b + d) as -> by (unfold digit_step; by rewrite Hd).
    specialize (IH (acc * b + d) ltac:(nia) Hs'). split; [lia|].
    rewrite Nat2Z.inj_succ, Z.pow_succ_r by lia.
    apply Z.lt_le_trans with (1 := proj2 IH).
    assert (0 < b ^ Z.of_nat (length s)) by (apply Z.pow_pos_nonneg; lia). nia.
Qed.

Lemma strto_base_16_hex c s : isxdigit c = true ->
  Forall (fun c => isxdigit c = true) s -> strto_base 16 (c :: s) = (16, c :: s).
Proof.
  intros Hc Hs. unfold strto_base.
  destruct (decide (c = "0"%char)) as [->|Hne].
  - destruct s as [|x [|d s']]; [done..|]. cbn [Z.eqb orb andb].
    apply Forall_cons_1 in Hs as [Hx' _]. apply isxdigit_not_special in Hx' as (_&_&_&_&Hx1&Hx2).
    change (16 =? 0) with false. change (16 =? 16) with true. cbn [orb andb].
    destruct ((ord x =? 120) || (ord x =? 88)) eqn:E; [|done].
    zlia.
  - destruct c as [[] [] [] [] [] [] [] []]; try reflexivity. done.
Qed.

(** A field of hexadecimal digits converts to its value. *)
Lemma strtoul_hex s : s <> [] -> Forall (fun c => isxdigit c = true) s ->
  (length s <= 16)%nat -> strtoul 16 s = (digits_val 16 s, false, []).
Proof.
  intros Hne Hs Hl. destruct s as [|c s]; [done|].
  pose proof Hs as Hs0. apply Forall_cons_1 in Hs as [Hc Hs].
  pose proof (isxdigit_not_special _ Hc) as (Hsp & _ & Hm & Hp & _).
  unfold strtoul. cbn [skip_while]. rewrite Hsp.
  assert (strto_sign (c :: s) = (false, c :: s)) as ->.
  { unfold strto_sign. destruct c as [[] [] [] [] [] [] [] []]; try reflexivity; done. }
  rewrite strto_base_16_hex by done. fold (isxdigit c). rewrite Hc.
  rewrite scan_digits_all by done. unfold digits_val.
  pose proof (digits_val_bound 16 (c :: s) 0 ltac:(lia) ltac:(lia) Hs0) as Hb.
  assert (16 ^ Z.of_nat (length (c :: s)) <= 16 ^ 16) by (apply Z.pow_le_mono_r; lia).
  replace (ULONG_MAX <? _) with false; [done|].
  symmetry. apply Z.ltb_ge. unfold ULONG_MAX. change (2 ^ 64) with (16 ^ 16). lia.
Qed.

Lemma digit_char_val d : 0 <= d < 16 -> digit_val (digit_char d) = Some d.
Proof.
  intros Hd. assert (In d (map Z.of_nat (seq 0 16))) as Hin.
  { apply in_map_iff. exists (Z.to_nat d). split; [lia|]. apply in_seq. lia. }
  cbn in Hin. repeat destruct Hin as [<-|Hin]; try reflexivity. done.
Qed.

Lemma num_rev_digits b f z : 2 <= b <= 16 -> 0 <= z ->
  Forall (fun c => is_digit_of b c = true) (num_rev b f z).
Proof.
  intros Hb. revert z. induction f as [|f IH]; intros z Hz; cbn [num_rev]; constructor.
  - pose proof (Z.mod_pos_bound z b ltac:(lia)).
    unfold is_digit_of. rewrite digit_char_val by lia. apply Z.ltb_lt. lia.
  - case_match; [constructor|]. apply IH. apply Z.div_pos; lia.
Qed.

Lemma num_rev_val b f z : 2 <= b <= 16 -> 0 <= z < b ^ Z.of_nat f ->
  fold_right (fun c acc => digit_step b acc c) 0 (num_rev b f z) = z.
Proof.
  intros Hb. revert z. induction f as [|f IH]; intros z Hz.
  - cbn in *. lia.
  - pose proof (Z.mod_pos_bound z b ltac:(lia)).
    pose proof (Z.div_mod z b ltac:(lia)).
    rewrite Nat2Z.inj_succ, Z.pow_succ_r in Hz by lia.
    cbn [num_rev fold_right]. unfold digit_step at 1. rewrite digit_char_val by lia.
    cbn [from_option id]. case_match eqn:E.
    + cbn. rewrite Z.mod_small by zlia. lia.
    + rewrite IH; [lia|]. split; [apply Z.div_pos; lia|].
      apply Z.div_lt_upper_bound; lia.
Qed.

Lemma num_rev_length b f n z : 2 <= b -> (0 < n)%nat -> 0 <= z < b ^ Z.of_nat n ->
  (length (num_rev b f z) <= n)%nat.
Proof.
  intros Hb. revert n z. induction f as [|f IH]; intros n z Hn Hz; cbn [num_rev length]; [lia|].
  case_match eqn:E; cbn [length]; [lia|].
  destruct n as [|[|n]]; [lia|cbn in Hz; zlia|].
  apply le_n_S, IH; [lia|].
  rewrite Nat2Z.inj_succ, Z.pow_succ_r in Hz by lia.
  split; [apply Z.div_pos; lia|]. apply Z.div_lt_upper_bound; lia.
Qed.

Lemma digits_val_pad b n s : digits_val b (replicate n "0"%char ++ s) = digits_val b s.
Proof.
  unfold digits_val. rewrite fold_left_app. f_equal.
  induction n as [|n IH]; [done|]. cbn [replicate fold_left].
  unfold digit_step at 2. change (default 0 (digit_val "0"%char)) with 0. exact IH.
Qed.

Lemma digits_val_fmt_num b z : 2 <= b <= 16 -> 0 <= z < 2 ^ 64 -> digits_val b (fmt_num b z) = z.
Proof.
  intros Hb Hz. unfold digits_val, fmt_num.
  rewrite <- (rev_involutive (rev _)), rev_involutive.
  rewrite <- fold_left_rev_right, rev_involutive.
  apply num_rev_val; [done|]. split; [lia|].
  apply Z.lt_le_trans with (1 := proj2 Hz). apply Z.pow_le_mono_l. lia.
Qed.

Lemma length_fmt_08X z : 0 <= z < 2 ^ 32 -> length (fmt_08X z) = 8%nat.
Proof.
  intros Hz. unfold fmt_08X, pad_left. rewrite length_app, length_replicate.
  assert (length (fmt_num 16 z) <= 8)%nat; [|lia].
  unfold fmt_num. rewrite length_rev. apply num_rev_length; [lia..|]. exact Hz.
Qed.

Lemma fmt_08X_xdigits z : 0 <= z -> Forall (fun c => isxdigit c = true) (fmt_08X z).
Proof.
  intros Hz. unfold fmt_08X, pad_left. apply Forall_app. split.
  - apply Forall_replicate. reflexivity.
  - unfold fmt_num. apply Forall_rev. apply num_rev_digits; lia.
Qed.

(** What %08X prints of a 32-bit value, strtoul reads back. *)
Lemma strtoul_fmt_08X z : 0 <= z < 2 ^ 32 -> strtoul 16 (fmt_08X z) = (z, false, []).
Proof.
  intros Hz. pose proof (length_fmt_08X z Hz) as Hl.
  rewrite strtoul_hex.
  - unfold fmt_08X, pad_left. rewrite digits_val_pad, digits_val_fmt_num by lia. done.
  - intros Hn. by rewrite Hn in Hl.
  - apply fmt_08X_xdigits. lia.
  - lia.
Qed.

Lemma strto_base_10 s : strto_base 10 s = (10, s).
Proof. unfold strto_base. repeat case_match; done. Qed.

Lemma fmt_num_nonempty b z : fmt_num b z <> [].
Proof. unfold fmt_num. cbn [num_rev rev]. intros H. by apply app_nil in H as [_ ?]. Qed.

(** ** Numbers in the order of the machine *)

Definition le_num (b : bytes) : Z := foldr (fun c z => ord c + 256 * z) 0 b.

(** Bytes of a number, in the order of the machine. *)
Fixpoint le_bytes (n : nat) (z : Z) : bytes :=
  match n with O => [] | S n => ascii_of_nat (Z.to_nat (z mod 256)) :: le_bytes n (z / 256) end.

Lemma le_num_bytes n z : 0 <= z < 256 ^ Z.of_nat n -> le_num (le_bytes n z) = z.
Proof.
  revert z. induction n as [|n IH]; intros z Hz; cbn; [lia|]. rewrite Nat2Z.inj_succ, Z.pow_succ_r in Hz by lia.
  rewrite IH by (split; [apply Z.div_pos; lia|apply Z.div_lt_upper_bound; lia]).
  unfold ord. pose proof (Z.mod_pos_bound z 256 ltac:(lia)). rewrite nat_ascii_embedding by lia.
  rewrite Z2Nat.id by lia. pose proof (Z.div_mod z 256 ltac:(lia)). lia.
Qed.

Lemma lenZ_le_bytes n z : lenZ (le_bytes n z) = Z.of_nat n.
Proof. revert z. induction n as [|n IH]; intros z; cbn [le_bytes]; [done|]. rewrite lenZ_cons, IH. lia. Qed.

(** A number below 10^k has at most k digits. *)
Lemma fmt_num_length k z : 0 <= z < 10 ^ Z.of_nat k -> (0 < k)%nat -> lenZ (fmt_num 10 z) <= Z.of_nat k.
Proof. intros Hz Hk. unfold lenZ, fmt_num. rewrite length_rev. pose proof (num_rev_length 10 64 k z ltac:(lia) Hk Hz). lia. Qed.

(** A decimal numeral converts to its value. *)
Lemma strtoul_fmt_num_app z t : 0 <= z < 2 ^ 64 -> no_digit 10 t -> strtoul 10 (fmt_num 10 z ++ t) = (z, false, t).
Proof.
  intros Hz Ht. assert (Forall (fun c => is_digit_of 10 c = true) (fmt_num 10 z)) as Hd
    by (unfold fmt_num; apply Forall_rev, num_rev_digits; lia).
  pose proof (digits_val_fmt_num 10 z ltac:(lia) Hz) as Hv. pose proof (fmt_num_nonempty 10 z) as Hne.
  destruct (fmt_num 10 z) as [|c s]; [done|]. pose proof Hd as Hall. apply Forall_cons_1 in Hd as [Hc _].
  assert (isxdigit c = true) as Hx.
  { unfold isxdigit, is_digit_of in *. case_match; [|done]. unbool. apply Z.ltb_lt. lia. }
  apply isxdigit_not_special in Hx as (Hsp & _ & Hm & Hp & _).
  unfold strtoul. cbn [skip_while app]. rewrite Hsp.
  assert (strto_sign (c :: s ++ t) = (false, c :: s ++ t)) as ->.
  { unfold strto_sign. destruct c as [[] [] [] [] [] [] [] []]; try reflexivity; done. }
  rewrite strto_base_10, Hc. change (c :: s ++ t) with ((c :: s) ++ t). rewrite scan_digits_app by done.
  fold (digits_val 10 (c :: s)). rewrite Hv.
  unfold ULONG_MAX. by rewrite (proj2 (Z.ltb_ge _ _)) by lia.
Qed.

Lemma strtoul_fmt_num_10 z : 0 <= z < 2 ^ 64 -> strtoul 10 (fmt_num 10 z) = (z, false, []).
Proof. intros Hz. rewrite <- (app_nil_r (fmt_num 10 z)) at 1. by apply strtoul_fmt_num_app. Qed.
