(* ===== verification/ListTail.v ===== *)
(** The singly linked list of the programs for images (utils/initrd-common.c and .h):
    [list_append], [list_shift] and [list_free] on a heap with the elements and the blocks
    of data. [Undef] is an access to memory that is not allocated, or freeing it. What
    malloc and calloc return is a parameter. *)

From Stdlib Require Import ZArith Lia.
From stdpp Require Import base gmap list fin_maps tactics.
From S2P Require Import Prelude.

Open Scope Z_scope.
Open Scope cprog_scope.

Notation loc := positive.

(** struct list_tail: [None] is NULL. *)
Record list_tail := { next : option loc; data : option loc }.

Record heap := { cells : gmap loc list_tail; blocks : gmap loc bytes }.

Definition deref (h : heap) (p : loc) : out list_tail :=
  match cells h !! p with Some e => Ret e | None => Undef end.
Definition set_cell (p : loc) (e : list_tail) (h : heap) : heap := {| cells := <[p := e]> (cells h); blocks := blocks h |}.
Definition free_cell (p : loc) (h : heap) : out heap :=
  match cells h !! p with Some _ => Ret {| cells := delete p (cells h); blocks := blocks h |} | None => Undef end.
Definition free_block (b : loc) (h : heap) : out heap :=
  match blocks h !! b with Some _ => Ret {| cells := cells h; blocks := delete b (blocks h) |} | None => Undef end.

(** if (e->data) free(e->data); free(e); *)
Definition free_element (p : loc) (h : heap) : out heap :=
  let! e := deref h p in
  let! h := match data e with Some b => free_block b h | None => Ret h end in
  free_cell p h.

(** malloc of an element and calloc of a block, [None] if there is no memory. *)
Record allocator := { malloc : heap -> option loc; calloc : heap -> Z -> option loc }.

(** No list has more elements than there are. *)
Definition fuel_of (h : heap) : nat := S (size (cells h)).

(** while (l->next != NULL) l = l->next; *)
Fixpoint last_element (fuel : nat) (h : heap) (l : loc) : out loc :=
  match fuel with
  | O => NoFuel
  | S fuel =>
      let! e := deref h l in
      match next e with
      | Some n => last_element fuel h n
      | None => Ret l
      end
  end.

(** The new state, the head and the result. *)
Definition list_append (A : allocator) (h : heap) (head : option loc) (sz : Z) : out (heap * option loc * option loc) :=
  match malloc A h with
  | None => Ret (h, head, None)
  | Some e =>
      let h1 := set_cell e {| next := None; data := None |} h in
      let! h2 :=
        if sz >? 0 then
          match calloc A h1 sz with
          | None => let! h1 := free_cell e h1 in Ret (inl h1)
          | Some b => Ret (inr {| cells := <[e := {| next := None; data := Some b |}]> (cells h1);
                                  blocks := <[b := replicate (Z.to_nat sz) NUL]> (blocks h1) |})
          end
        else Ret (inr h1) in
      match h2 with
      | inl h => Ret (h, head, None)
      | inr h =>
          match head with
          | Some l =>
              let! l := last_element (fuel_of h) h l in
              let! c := deref h l in
              Ret (set_cell l {| next := Some e; data := data c |} h, head, Some e)
          | None => Ret (h, Some e, Some e)
          end
      end
  end.

(** while (l && l->next) { p = l; l = l->next; } *)
Fixpoint last_two (fuel : nat) (h : heap) (p l : loc) : out (loc * loc) :=
  match fuel with
  | O => NoFuel
  | S fuel =>
      let! e := deref h l in
      match next e with
      | Some n => last_two fuel h l n
      | None => Ret (p, l)
      end
  end.

Definition list_shift (h : heap) (head : option loc) : out (heap * option loc) :=
  match head with
  | None => Ret (h, None)
  | Some l =>
      let! pl := last_two (fuel_of h) h l l in
      let '(p, l) := pl in
      if decide (p = l) then
        let! h := free_element l h in
        Ret (h, None)
      else
        let! h := free_element l h in
        let! c := deref h p in
        Ret (set_cell p {| next := None; data := data c |} h, head)
  end.

Fixpoint free_loop (fuel : nat) (h : heap) (l : option loc) : out heap :=
  match l with
  | None => Ret h
  | Some p =>
      match fuel with
      | O => NoFuel
      | S fuel =>
          let! e := deref h p in
          let! h := match data e with Some b => free_block b h | None => Ret h end in
          let n := next e in
          let! h := free_cell p h in
          free_loop fuel h n
      end
  end.
Definition list_free (h : heap) (head : option loc) : out heap := free_loop (fuel_of h) h head.

(** What a program does with a list until it frees it. *)
Inductive list_op := Append (sz : Z) | Shift.

Definition list_step (A : allocator) (op : list_op) (s : heap * option loc) : out (heap * option loc) :=
  let '(h, head) := s in
  match op with
  | Append sz => let! r := list_append A h head sz in Ret r.1
  | Shift => list_shift h head
  end.
Fixpoint list_steps (A : allocator) (ops : list list_op) (s : heap * option loc) : out (heap * option loc) :=
  match ops with
  | [] => Ret s
  | op :: ops => let! s := list_step A op s in list_steps A ops s
  end.

(** ** The list in the heap *)

(** The element and its data. *)
Notation element := (loc * option loc)%type.

(** The elements from [head] on until [stop]. *)
Fixpoint seg (m : gmap loc list_tail) (head : option loc) (l : list element) (stop : option loc) : Prop :=
  match l with
  | [] => head = stop
  | (p, d) :: l => head = Some p /\ exists n, m !! p = Some {| next := n; data := d |} /\ seg m n l stop
  end.

(** The heap is [base] with the list, all of whose memory is its own. *)
Record owns (base h : heap) (head : option loc) (l : list element) : Prop := {
  owns_seg : seg (cells h) head l None;
  owns_cells : NoDup l.*1;
  owns_blocks : NoDup (omap snd l);
  owns_old p : p ∈ l.*1 -> cells base !! p = None;
  owns_rest p : p ∉ l.*1 -> cells h !! p = cells base !! p;
  owns_data b : b ∈ omap snd l -> blocks base !! b = None /\ is_Some (blocks h !! b);
  owns_others b : b ∉ omap snd l -> blocks h !! b = blocks base !! b;
}.

Lemma seg_ext m m' head l stop : seg m head l stop -> (forall p, p ∈ l.*1 -> m' !! p = m !! p) -> seg m' head l stop.
Proof.
  revert head. induction l as [|[p d] l IH]; intros head; cbn; [done|]. intros (-> & n & Hp & Hc) Hm. split; [done|]. exists n.
  rewrite Hm by (apply elem_of_cons; by left). split; [done|]. apply IH; [done|]. intros q Hq. apply Hm. apply elem_of_cons. by right.
Qed.

Lemma seg_in m head l stop p : seg m head l stop -> p ∈ l.*1 -> is_Some (m !! p).
Proof.
  revert head. induction l as [|[q d] l IH]; intros head; cbn; [by intros _ ?%not_elem_of_nil|].
  intros (-> & n & Hq & Hc) [->|H]%elem_of_cons; [by rewrite Hq|eauto].
Qed.

Lemma seg_app m head l1 l2 stop : seg m head (l1 ++ l2) stop <-> exists mid, seg m head l1 mid /\ seg m mid l2 stop.
Proof.
  revert head. induction l1 as [|[p d] l1 IH]; intros head; cbn; [naive_solver|]. setoid_rewrite IH. naive_solver.
Qed.

(** A list with a last element. *)
Lemma seg_snoc m head l p d stop : seg m head (l ++ [(p, d)]) stop <-> seg m head l (Some p) /\ m !! p = Some {| next := stop; data := d |}.
Proof. rewrite seg_app. cbn. naive_solver. Qed.

Lemma seg_fuel h head l : seg (cells h) head l None -> NoDup l.*1 -> (length l < fuel_of h)%nat.
Proof.
  intros Hc Hn. unfold fuel_of. assert (length l <= size (cells h))%nat; [|lia].
  rewrite <- (length_fmap fst), <- (size_dom (D := gset loc)), <- (size_list_to_set (C := gset loc)) by done. apply subseteq_size.
  intros p. rewrite elem_of_list_to_set, elem_of_dom. by apply seg_in with head None.
Qed.

Lemma last_element_seg f h l p q : seg (cells h) (Some q) l (Some p) -> (exists d, cells h !! p = Some {| next := None; data := d |}) -> (length l < f)%nat ->
  last_element f h q = Ret p.
Proof.
  revert f q. induction l as [|[x e] l IH]; intros f q Hs [d Hp] Hf; (destruct f as [|f]; [cbn in Hf; lia|]); cbn in Hs.
  - injection Hs as ->. cbn. unfold deref. by rewrite Hp.
  - destruct Hs as ([= ->] & n & Hx & Hs). cbn. unfold deref. rewrite Hx. cbn. destruct n as [n|]; [|destruct l as [|[??]]; naive_solver].
    apply IH; [done|by exists d|cbn in Hf; lia].
Qed.

Lemma last_default {A} (x y r : A) k : default x (list.last (y :: k)) = default r (list.last (x :: y :: k)).
Proof. change (list.last (x :: y :: k)) with (list.last (y :: k)). destruct (list.last (y :: k)) eqn:E; [done|]. by apply last_None in E. Qed.

(** The element in front of the last one, or the only one twice. *)
Lemma last_two_seg f h l p q r d : seg (cells h) (Some q) l (Some p) -> cells h !! p = Some {| next := None; data := d |} -> (length l < f)%nat ->
  last_two f h r q = Ret (default r (list.last l.*1), p).
Proof.
  revert f q r. induction l as [|[x e] l IH]; intros f q r Hs Hp Hf; (destruct f as [|f]; [cbn in Hf; lia|]); cbn in Hs.
  - injection Hs as ->. cbn. unfold deref. by rewrite Hp.
  - destruct Hs as ([= ->] & n & Hx & Hs). cbn. unfold deref. rewrite Hx. cbn. destruct n as [n|]; [|destruct l as [|[??]]; naive_solver].
    rewrite (IH f n x Hs Hp) by (cbn in Hf; lia). destruct l as [|[y e'] l]; [done|].
    f_equal. f_equal. apply last_default.
Qed.

(** What malloc and calloc promise: memory that was not in use. *)
Record alloc_fresh (A : allocator) : Prop := {
  malloc_fresh h e : malloc A h = Some e -> cells h !! e = None;
  calloc_fresh h sz b : calloc A h sz = Some b -> blocks h !! b = None;
}.

(** The block of a new element, filled with zeros. *)
Definition block_of (d : option loc) (sz : Z) (m : gmap loc bytes) : gmap loc bytes :=
  match d with Some b => <[b := replicate (Z.to_nat sz) NUL]> m | None => m end.

Lemma omap_snoc (l : list element) e d : omap snd (l ++ [(e, d)]) = omap snd l ++ match d with Some b => [b] | None => [] end.
Proof. rewrite omap_app. by destruct d. Qed.

(** The list with a fresh element at its end. *)
Lemma owns_append base h head l e d sz h' head' : owns base h head l -> cells h !! e = None -> (forall b, d = Some b -> blocks h !! b = None) ->
  seg (cells h') head' (l ++ [(e, d)]) None -> (forall p, p ∉ (l ++ [(e, d)]).*1 -> cells h' !! p = cells h !! p) ->
  blocks h' = block_of d sz (blocks h) -> owns base h' head' (l ++ [(e, d)]).
Proof.
  intros [Hs Hc Hb Ho Hr Hd Hx] He Hfb Hs' Hr' Hb'.
  assert (Hel : e ∉ l.*1) by (intros H; destruct (seg_in _ _ _ _ _ Hs H); congruence).
  assert (Hbl : forall b, d = Some b -> b ∉ omap snd l) by (intros b Eb H; destruct (Hd b H) as [_ [? ?]]; rewrite Hfb in *; done).
  assert (Hl : (l ++ [(e, d)]).*1 = l.*1 ++ [e]) by (by rewrite fmap_app).
  constructor; rewrite ?Hl in *; [done|..].
  - apply list.NoDup_app. split; [done|]. split; [by intros x ? ->%list_elem_of_singleton|apply NoDup_singleton].
  - rewrite omap_snoc. apply list.NoDup_app. split; [done|]. destruct d as [b|]; [|split; [by intros x _ ?%not_elem_of_nil|apply base.NoDup_nil_2]].
    split; [intros x Hx' ->%list_elem_of_singleton; by apply (Hbl b)|apply NoDup_singleton].
  - intros p [H|H]%elem_of_app; [by apply Ho|]. apply list_elem_of_singleton in H as ->. by rewrite <- Hr.
  - intros p Hp. rewrite Hr' by done. apply Hr. intros H. apply Hp. apply elem_of_app. by left.
  - intros b. rewrite omap_snoc, elem_of_app, Hb'. intros [H|H].
    + destruct (Hd b H) as [H1 H2]. split; [done|]. destruct d as [c|]; [|done]. cbn. rewrite lookup_insert_is_Some'. by right.
    + destruct d as [c|]; [|by apply not_elem_of_nil in H]. apply list_elem_of_singleton in H as ->. cbn. rewrite lookup_insert_eq.
      split; [|by eauto]. rewrite <- Hx by (by apply Hbl). by apply Hfb.
  - intros b. rewrite omap_snoc, not_elem_of_app, Hb'. intros [H1 H2]. destruct d as [c|]; cbn; [|by apply Hx].
    rewrite lookup_insert_ne by (intros ->; apply H2; by apply list_elem_of_singleton). by apply Hx.
Qed.

(** The list without an element that was freed. *)
Lemma owns_remove base h head l1 p d l2 h' head' : owns base h head (l1 ++ (p, d) :: l2) ->
  seg (cells h') head' (l1 ++ l2) None -> cells h' !! p = None -> (forall q, q ∉ (l1 ++ (p, d) :: l2).*1 -> cells h' !! q = cells h !! q) ->
  blocks h' = match d with Some b => delete b (blocks h) | None => blocks h end -> owns base h' head' (l1 ++ l2).
Proof.
  intros [Hs Hc Hb Ho Hr Hd Hx] Hs' Hp Hr' Hb'.
  assert (Hl : (l1 ++ (p, d) :: l2).*1 ≡ₚ p :: (l1 ++ l2).*1) by (rewrite !fmap_app; cbn; by rewrite <- Permutation_middle).
  assert (Hm : omap snd (l1 ++ (p, d) :: l2) ≡ₚ match d with Some b => [b] | None => [] end ++ omap snd (l1 ++ l2)).
  { rewrite !omap_app. cbn. destruct d as [b|]; [|done]. cbn. by rewrite <- Permutation_middle. }
  assert (Hdn : forall b, d = Some b -> b ∉ omap snd (l1 ++ l2)).
  { intros b ->. rewrite Hm in Hb. cbn in Hb. by apply list.NoDup_cons in Hb as [? _]. }
  assert (Hpl : p ∉ (l1 ++ l2).*1) by (rewrite Hl in Hc; by apply list.NoDup_cons in Hc as [? _]).
  constructor; [done|..].
  - rewrite Hl in Hc. by apply list.NoDup_cons in Hc as [_ ?].
  - rewrite Hm in Hb. destruct d; [by apply list.NoDup_cons in Hb as [_ ?]|done].
  - intros q Hq. apply Ho. rewrite Hl. apply elem_of_cons. by right.
  - intros q Hq. destruct (decide (q = p)) as [->|Hne]; [rewrite Hp, Ho; [done|rewrite Hl; apply elem_of_cons; by left]|].
    assert (q ∉ (l1 ++ (p, d) :: l2).*1) as Hq' by (rewrite Hl, elem_of_cons; tauto). by rewrite Hr', Hr.
  - intros b Hin. rewrite Hb'. assert (b ∈ omap snd (l1 ++ (p, d) :: l2)) as Hin' by (rewrite Hm, elem_of_app; by right).
    destruct (Hd b Hin') as [H1 H2]. split; [done|]. destruct d as [c|]; [|done].
    rewrite lookup_delete_ne; [done|]. intros ->. by apply (Hdn b).
  - intros b Hin. rewrite Hb'. destruct d as [c|].
    + destruct (decide (b = c)) as [->|Hne]; [rewrite lookup_delete_eq; symmetry; apply Hd; rewrite Hm; apply elem_of_cons; by left|].
      rewrite lookup_delete_ne by done. apply Hx. rewrite Hm. cbn. rewrite not_elem_of_cons. done.
    + apply Hx. by rewrite Hm.
Qed.

(** Freeing an element of the list and its data. *)
Lemma free_element_owned base h head l p d : owns base h head l -> (p, d) ∈ l -> (exists n, cells h !! p = Some {| next := n; data := d |}) ->
  free_element p h = Ret {| cells := delete p (cells h); blocks := match d with Some b => delete b (blocks h) | None => blocks h end |}.
Proof.
  intros Ho Hin [n Hp]. unfold free_element, deref. rewrite Hp. cbn. destruct d as [b|].
  - destruct (owns_data _ _ _ _ Ho b) as [_ [x Hx]]; [apply list_elem_of_omap; by exists (p, Some b)|].
    unfold free_block. rewrite Hx. cbn. unfold free_cell. cbn. by rewrite Hp.
  - unfold free_cell. cbn. by rewrite Hp.
Qed.

Lemma seg_not_in m head l stop p (e : list_tail) : seg m head l stop -> p ∉ l.*1 -> seg (<[p := e]> m) head l stop.
Proof. intros Hs Hp. eapply seg_ext; [done|]. intros q Hq. rewrite lookup_insert_ne; [done|]. by intros ->. Qed.

Lemma seg_delete m head l stop p : seg m head l stop -> p ∉ l.*1 -> seg (delete p m) head l stop.
Proof. intros Hs Hp. eapply seg_ext; [done|]. intros q Hq. rewrite lookup_delete_ne; [done|]. by intros ->. Qed.

(** The names of the elements in front of the last one. *)
Lemma nodup_snoc (l : list element) p d : NoDup (l ++ [(p, d)]).*1 -> p ∉ l.*1 /\ NoDup l.*1.
Proof. rewrite fmap_app. intros (Hl & Hd & _)%list.NoDup_app. split; [|done]. intros H. apply (Hd p H). by apply list_elem_of_singleton. Qed.

(** list_shift takes away the last element. *)
Lemma shift_owned base h head l p d : owns base h head (l ++ [(p, d)]) -> exists h' head', list_shift h head = Ret (h', head') /\ owns base h' head' l.
Proof.
  intros Ho. pose proof (owns_seg _ _ _ _ Ho) as Hs. pose proof (owns_cells _ _ _ _ Ho) as Hn. pose proof (seg_fuel _ _ _ Hs Hn) as Hf.
  rewrite length_app in Hf. cbn in Hf. apply seg_snoc in Hs as [Hs Hp]. destruct (nodup_snoc _ _ _ Hn) as [Hpl Hnl].
  destruct head as [q|]; [|destruct l as [|[??] l]; [done|by destruct Hs]].
  unfold list_shift. rewrite (last_two_seg _ h l p q q d Hs Hp) by lia. cbn [obind].
  assert (Hfree := free_element_owned base h (Some q) _ p d Ho ltac:(apply elem_of_app; right; by apply list_elem_of_singleton) ltac:(by eauto)).
  destruct l as [|x l _] using rev_ind.
  - cbn in Hs. injection Hs as ->. cbn. rewrite decide_True by done. rewrite Hfree. cbn. eexists _, _. split; [done|].
    eapply (owns_remove base h _ [] p d []); [done|done|apply lookup_delete_eq| |done].
    intros r Hr. cbn in *. apply lookup_delete_ne. intros ->. apply Hr. by apply list_elem_of_singleton.
  - destruct x as [x dx]. rewrite fmap_app. change ([(x, dx)].*1) with [x]. rewrite last_snoc. cbn [default from_option id].
    rewrite fmap_app in Hpl. cbn in Hpl. apply not_elem_of_app in Hpl as [Hpl Hpx].
    assert (p <> x) by (intros ->; apply Hpx; by apply list_elem_of_singleton). rewrite decide_False by done. rewrite Hfree. cbn.
    apply seg_snoc in Hs as [Hs Hx]. unfold deref. cbn. rewrite lookup_delete_ne, Hx by done. cbn. eexists _, _. split; [done|].
    rewrite <- (app_nil_r (l ++ [(x, dx)])). destruct (nodup_snoc _ _ _ Hnl) as [Hxl _].
    eapply (owns_remove base h (Some q) _ p d []); [done|..]; rewrite ?app_nil_r; cbn.
    + apply seg_snoc. split; [apply seg_not_in, Hxl; by apply seg_delete|]. by rewrite lookup_insert_eq.
    + rewrite lookup_insert_ne by done. apply lookup_delete_eq.
    + intros r Hr. rewrite !fmap_app, !not_elem_of_app in Hr. cbn in Hr. rewrite !not_elem_of_cons in Hr.
      destruct Hr as [[_ [Hrx _]] [Hrp _]]. rewrite lookup_insert_ne, lookup_delete_ne by congruence. done.
    + done.
Qed.

Lemma heap_eta h : {| cells := cells h; blocks := blocks h |} = h.
Proof. by destruct h. Qed.

(** list_append after the memory was got: the element [e] is at the end. *)
Lemma link_owned base h head l e d sz : owns base h head l -> cells h !! e = None -> (forall b, d = Some b -> blocks h !! b = None) ->
  let h2 := {| cells := <[e := {| next := None; data := d |}]> (cells h); blocks := block_of d sz (blocks h) |} in
  exists h' head', match head with
                   | Some q => let! p := last_element (fuel_of h2) h2 q in
                               let! c := deref h2 p in
                               Ret (set_cell p {| next := Some e; data := data c |} h2, head, Some e)
                   | None => Ret (h2, Some e, Some e)
                   end = Ret (h', head', Some e) /\ owns base h' head' (l ++ [(e, d)]) /\ blocks h' = blocks h2.
Proof.
  intros Ho He Hb h2. pose proof (owns_seg _ _ _ _ Ho) as Hs. pose proof (owns_cells _ _ _ _ Ho) as Hn.
  assert (Hel : e ∉ l.*1) by (intros H; destruct (seg_in _ _ _ _ _ Hs H); congruence).
  destruct head as [q|].
  - destruct l as [|[p dp] l _] using rev_ind; [done|]. destruct (nodup_snoc _ _ _ Hn) as [Hpl Hnl].
    assert (Hf : (length l < fuel_of h2)%nat).
    { pose proof (seg_fuel _ _ _ Hs Hn) as H. rewrite length_app in H. unfold fuel_of, h2 in *. cbn in *. rewrite map_size_insert_None by done. lia. }
    apply seg_snoc in Hs as [Hs Hp]. rewrite fmap_app, not_elem_of_app in Hel. cbn in Hel. rewrite not_elem_of_cons in Hel. destruct Hel as [Hel [Hep _]].
    assert (Hp2 : cells h2 !! p = Some {| next := None; data := dp |}) by (cbn; by rewrite lookup_insert_ne).
    rewrite (last_element_seg _ h2 l p q); [|by apply seg_not_in|by eauto|done]. cbn [obind]. unfold deref. rewrite Hp2. cbn [obind].
    eexists _, _. split; [done|]. split; [|done]. eapply (owns_append base h (Some q) _ e d sz); [done..| | |done].
    + cbn. apply seg_snoc. split.
      * apply seg_snoc. split; [by apply seg_not_in, Hpl; apply seg_not_in|]. by rewrite lookup_insert_eq.
      * rewrite lookup_insert_ne by done. apply lookup_insert_eq.
    + intros r Hr. cbn. rewrite !fmap_app, !not_elem_of_app in Hr. cbn in Hr. rewrite !not_elem_of_cons in Hr. destruct Hr as [[_ [Hrp _]] [Hre _]].
      by rewrite !lookup_insert_ne by congruence.
  - assert (l = []) as -> by (by destruct l as [|[??]]; [|destruct Hs]). eexists _, _. split; [done|]. split; [|done].
    eapply (owns_append base h None [] e d sz); [done..| | |done].
    + cbn. split; [done|]. eexists. split; [apply lookup_insert_eq|done].
    + intros r Hr. cbn in *. apply lookup_insert_ne. intros ->. apply Hr. by apply list_elem_of_singleton.
Qed.

Lemma append_owned A base h head l sz : alloc_fresh A -> owns base h head l ->
  (list_append A h head sz = Ret (h, head, None)) \/
  (exists h' head' e d, list_append A h head sz = Ret (h', head', Some e) /\ owns base h' head' (l ++ [(e, d)]) /\
   (0 < sz -> exists b, d = Some b /\ blocks h' !! b = Some (replicate (Z.to_nat sz) NUL)) /\ (sz <= 0 -> d = None)).
Proof.
  intros HA Ho. unfold list_append. destruct (malloc A h) as [e|] eqn:Em; [|by left]. apply (malloc_fresh A HA) in Em.
  rewrite Z.gtb_ltb. destruct (Z.ltb_spec 0 sz) as [Hz|Hz].
  - destruct (calloc A _ sz) as [b|] eqn:Ec.
    + right. apply (calloc_fresh A HA) in Ec. cbn in Ec. cbn [obind].
      change (cells (set_cell e _ h)) with (<[e := {| next := None; data := None |}]> (cells h)). change (blocks (set_cell e _ h)) with (blocks h).
      rewrite insert_insert_eq.
      destruct (link_owned base h head l e (Some b) sz Ho Em) as (h' & head' & E & Hown & Hb); [by intros ? [= <-]|].
      cbn [block_of] in E, Hb. exists h', head', e, (Some b). split; [exact E|]. split; [done|]. split; [|lia]. intros _. exists b. split; [done|].
      rewrite Hb. apply lookup_insert_eq.
    + left. unfold free_cell. cbn. rewrite lookup_insert_eq. cbn. rewrite delete_insert_id by done. by rewrite heap_eta.
  - right. cbn [obind]. destruct (link_owned base h head l e None sz Ho Em) as (h' & head' & E & Hown & Hb); [done|].
    exists h', head', e, None. split; [exact E|]. split; [done|]. split; [lia|done].
Qed.

Lemma free_loop_owned base h head l f : owns base h head l -> (length l < f)%nat -> free_loop f h head = Ret base.
Proof.
  revert h head f. induction l as [|[p d] l IH]; intros h head f Ho Hf.
  - pose proof (owns_seg _ _ _ _ Ho) as Hs. cbn in Hs. subst head. destruct f as [|f]; [lia|]. cbn. f_equal.
    rewrite <- (heap_eta h), <- (heap_eta base). f_equal; apply map_eq; intros i; [apply (owns_rest _ _ _ _ Ho)|apply (owns_others _ _ _ _ Ho)]; by apply not_elem_of_nil.
  - pose proof (owns_seg _ _ _ _ Ho) as Hs. cbn in Hs. destruct Hs as (-> & n & Hp & Hs). destruct f as [|f]; [lia|].
    pose proof (free_element_owned base h (Some p) _ p d Ho ltac:(apply elem_of_cons; by left) ltac:(by eauto)) as Hfree.
    set (h1 := {| cells := delete p (cells h); blocks := _ |}) in Hfree.
    assert (Hstep : free_loop (S f) h (Some p) = free_loop f h1 n).
    { cbn [free_loop]. unfold free_element in Hfree. unfold deref in *. rewrite Hp in *. cbn [obind data next] in *.
      destruct (match d with Some b => free_block b h | None => Ret h end) as [h0| | |]; try done. cbn [obind] in *. by rewrite Hfree. }
    rewrite Hstep. pose proof (owns_cells _ _ _ _ Ho) as Hn. cbn in Hn. apply list.NoDup_cons in Hn as [Hpl Hn].
    apply IH; [|cbn in Hf; lia]. eapply (owns_remove base h (Some p) [] p d l); [done|..]; cbn.
    + by apply seg_delete.
    + apply lookup_delete_eq.
    + intros q Hq. rewrite not_elem_of_cons in Hq. apply lookup_delete_ne. naive_solver.
    + done.
Qed.

(** The list as the program sees it: what the operations do with the number of elements. *)
Lemma steps_owned A base ops h head l : alloc_fresh A -> owns base h head l ->
  exists h' head' l', list_steps A ops (h, head) = Ret (h', head') /\ owns base h' head' l'.
Proof.
  intros HA. revert h head l. induction ops as [|op ops IH]; intros h head l Ho; [by eauto|]. cbn. destruct op as [sz|]; cbn.
  - destruct (append_owned A base h head l sz HA Ho) as [-> | (h' & head' & e & d & -> & Ho' & _)]; cbn; eauto.
  - destruct l as [|[p d] l _] using rev_ind.
    + pose proof (owns_seg _ _ _ _ Ho) as Hs. cbn in Hs. subst head. cbn. eauto.
    + destruct (shift_owned base h head l p d Ho) as (h' & head' & -> & Ho'). cbn. eauto.
Qed.

Lemma owns_nil h : owns h h None [].
Proof. constructor; try done; try apply base.NoDup_nil_2; by intros ? ?%not_elem_of_nil. Qed.

(** Whatever is appended to and shifted from a new list, and whichever allocations
    fail, no memory is used or freed that is not allocated, and after list_free the heap
    is what it was before: nothing is lost. *)
Theorem list_lifecycle A ops h : alloc_fresh A ->
  exists h' head', list_steps A ops (h, None) = Ret (h', head') /\ list_free h' head' = Ret h.
Proof.
  intros HA. destruct (steps_owned A h ops h None [] HA (owns_nil h)) as (h' & head' & l & Hs & Ho). exists h', head'. split; [done|].
  unfold list_free. apply (free_loop_owned h h' head' l _ Ho). eapply seg_fuel; [apply (owns_seg _ _ _ _ Ho)|apply (owns_cells _ _ _ _ Ho)].
Qed.

(** list_append puts a new element with zeroed data at the end of the list and returns
    it, or changes nothing if there is no memory; list_shift takes the last element away. *)
Theorem append_shift A base h head l sz : alloc_fresh A -> owns base h head l ->
  (list_append A h head sz = Ret (h, head, None) \/
   exists h' head' e d, list_append A h head sz = Ret (h', head', Some e) /\ owns base h' head' (l ++ [(e, d)]) /\
   (0 < sz -> exists b, d = Some b /\ blocks h' !! b = Some (replicate (Z.to_nat sz) NUL)) /\
   exists h'' head'', list_shift h' head' = Ret (h'', head'') /\ owns base h'' head'' l).
Proof.
  intros HA Ho. destruct (append_owned A base h head l sz HA Ho) as [?|(h' & head' & e & d & Ha & Ho' & Hd & _)]; [by left|right].
  exists h', head', e, d. split; [done|]. split; [done|]. split; [done|]. by apply shift_owned with e d.
Qed.

(** ** Witnesses *)

Definition demo_heap : heap := {| cells := ∅; blocks := {[ 1%positive := [NUL] ]} |}.
Definition demo_allocator : allocator :=
  {| malloc h := Some (fresh (dom (cells h) : gset loc)); calloc h sz := if sz >? 1000 then None else Some (fresh (dom (blocks h) : gset loc)) |}.

Lemma demo_fresh : alloc_fresh demo_allocator.
Proof.
  constructor.
  - intros h e [= <-]. apply (not_elem_of_dom (D := gset loc)). apply is_fresh.
  - intros h sz b. cbn. destruct (sz >? 1000); [done|]. intros [= <-]. apply (not_elem_of_dom (D := gset loc)). apply is_fresh.
Qed.

Lemma list_lifecycle_witness :
  exists h' head', list_steps demo_allocator [Append 4; Append 2000; Append 8; Shift; Append 0] (demo_heap, None) = Ret (h', head') /\
  list_free h' head' = Ret demo_heap.
Proof. exact (list_lifecycle demo_allocator [Append 4; Append 2000; Append 8; Shift; Append 0] demo_heap demo_fresh). Defined.

Lemma append_shift_witness : list_append demo_allocator demo_heap None 4 = Ret (demo_heap, None, None) \/
  exists h' head' e d, list_append demo_allocator demo_heap None 4 = Ret (h', head', Some e) /\ owns demo_heap h' head' [(e, d)].
Proof.
  destruct (append_shift demo_allocator demo_heap demo_heap None [] 4 demo_fresh (owns_nil demo_heap)) as [H|(h' & head' & e & d & Ha & Ho & _)].
  - left. exact H.
  - right. exists h', head', e, d. split; [exact Ha|exact Ho].
Defined.
