(* ===== verification/Cpio.v ===== *)
(** The newc cpio reader and writer (src/utils/initrd-cpio.c, initrd-cpio.h). *)

From S2P Require Import Prelude.
From Stdlib Require Import ZArith Ascii String Lia.
From stdpp Require Import base list strings gmap tactics numbers.
Open Scope Z_scope.
Open Scope cprog_scope.

Definition CPIO_HEADER_SIZE : Z := 110.
Definition CPIO_TRAILER : bytes := #"TRAILER!!!".
Definition CPIO_FORMAT_NEWASCII : bytes := #"070701".
Definition CPIO_FORMAT_OLDASCII : bytes := #"070707".
Definition CPIO_FORMAT_LENGTH : Z := 6.
Definition CPIO_HDR_FIELD_SIZE : Z := 8.
Definition CPIO_HDR_N_FIELDS : nat := 13.

Definition MINORBITS : Z := 20.
Definition MINORMASK : Z := Z.shiftl 1 MINORBITS - 1.
Definition MAJOR (dev : Z) : Z := u32 (Z.shiftr dev MINORBITS).
Definition MINOR (dev : Z) : Z := u32 (Z.land dev MINORMASK).
Definition MKDEV (ma mi : Z) : Z := Z.lor (u64 (Z.shiftl ma MINORBITS)) mi.

(** [~3UL] *)
Definition not3 : Z := 2 ^ 64 - 4.
Definition N_ALIGN (len : Z) : Z := u64 (Z.land (u64 (len + 1)) not3 + 2).

Definition new_encode_dev (dev : Z) : Z :=
  let v := 255 in
  let major := MAJOR dev in
  let minor := MINOR dev in
  Z.lor (Z.lor (Z.land minor 255) (u32 (Z.shiftl major 8)))
        (u32 (Z.shiftl (Z.land minor (u32 (Z.lnot v))) 12)).

Inductive cpio_type := CPIO_UNKNOWN | CPIO_ARCHIVE | CPIO_BOOTCONFIG.

Record cpio_header := {
  ino : Z; major : Z; minor : Z; rmajor : Z; rminor : Z; nlink : Z;
  mode : Z;
  mtime : Z;
  body_len : Z; name_len : Z;
  uid : Z;
  gid : Z;
  rdev : Z;
  name : bytes;
  body : bytes;
}.

Record cpio := {
  type : cpio_type;
  compress : option string;
  raw : bytes;
  size : Z;
  headers : list cpio_header;
}.

(** The while loop of parse_header: [n] fields of eight characters, each
    copied to hexbuf, terminated and converted; the loop ends with [s] moved
    past them. *)
Fixpoint parse_fields (n : nat) (s : bytes) : list Z * bytes :=
  match n with
  | O => ([], s)
  | S n' =>
      let hexbuf := takeZ CPIO_HDR_FIELD_SIZE s ++ [NUL] in
      let v := fst (fst (strtoul 16 (default [] (cstr hexbuf)))) in
      let '(vs, s') := parse_fields n' (drop (Z.to_nat CPIO_HDR_FIELD_SIZE) s) in
      (v :: vs, s')
  end.

Definition parse_header (s : bytes) : out cpio_header :=
  if lenZ s <? CPIO_HEADER_SIZE then Undef else
  let '(parsed, s) := parse_fields CPIO_HDR_N_FIELDS (drop (Z.to_nat CPIO_FORMAT_LENGTH) s) in
  let p i := nth i parsed 0 in
  Ret {| ino := p 0%nat;
         mode := u32 (p 1%nat);
         uid := u32 (p 2%nat);
         gid := u32 (p 3%nat);
         nlink := p 4%nat;
         mtime := i64 (p 5%nat);
         body_len := p 6%nat;
         major := p 7%nat;
         minor := p 8%nat;
         rmajor := p 9%nat;
         rminor := p 10%nat;
         rdev := new_encode_dev (MKDEV (p 9%nat) (p 10%nat));
         name_len := p 11%nat;
         name := s;
         body := dropZ (N_ALIGN (p 11%nat)) s |}.

(** [while (offset % m) offset++], at most [m] rounds. *)
Fixpoint align_up (fuel : nat) (m offset : Z) : Z :=
  match fuel with
  | O => offset
  | S f => if offset mod m =? 0 then offset else align_up f m (u64 (offset + 1))
  end.

(** One round of the while loop of read_cpio; the boolean is [break]. *)
Definition read_cpio_iter (raw : bytes) (size : Z) (headers : list cpio_header) (offset : Z)
  : out (list cpio_header * Z * bool) :=
  if size <? CPIO_FORMAT_LENGTH + CPIO_HEADER_SIZE then
    Die EXIT_FAILURE "archive less than header" else
  let p := dropZ offset raw in
  let! old := memcmp_eq p CPIO_FORMAT_OLDASCII in
  if (old : bool) then Die EXIT_FAILURE "incorrect cpio method used: use -H newc option" else
  let! new := memcmp_eq p CPIO_FORMAT_NEWASCII in
  if negb new then Die EXIT_FAILURE "no cpio magic" else
  if size <? u64 (offset + CPIO_HEADER_SIZE) then
    Die EXIT_FAILURE "cpio header exceeds archive size" else
  let! h := parse_header p in
  let headers := headers ++ [h] in
  if name_len h =? 0 then Die EXIT_FAILURE "invalid cpio name length" else
  let offset := u64 (offset + CPIO_HEADER_SIZE) in
  if size <? u64 (u64 (offset + N_ALIGN (name_len h)) + body_len h) then
    Die EXIT_FAILURE "cpio entry exceeds archive size" else
  let offset := u64 (offset + u64 (N_ALIGN (name_len h) + body_len h)) in
  let offset := Z.land (u64 (offset + 3)) not3 in
  if size <? offset then Die EXIT_FAILURE "cpio entry exceeds archive size" else
  if lenZ CPIO_TRAILER + 1 <=? name_len h then
    let! trailer := memcmp_eq (name h) CPIO_TRAILER in
    if (trailer : bool) then Ret (removelast headers, align_up 512 512 offset, true)
    else Ret (headers, offset, false)
  else Ret (headers, offset, false).

Fixpoint read_cpio_loop (fuel : nat) (raw : bytes) (size : Z)
    (headers : list cpio_header) (offset : Z) : out (list cpio_header * Z) :=
  match fuel with
  | O => NoFuel
  | S f =>
      if offset <? size then
        let! (headers, offset, brk) := read_cpio_iter raw size headers offset in
        if (brk : bool) then Ret (headers, offset)
        else read_cpio_loop f raw size headers offset
      else Ret (headers, offset)
  end.

Definition read_cpio (fuel : nat) (a : cpio) : out (Z * cpio) :=
  let! (hs, offset) := read_cpio_loop fuel (raw a) (size a) (headers a) 0 in
  Ret (offset, {| type := type a; compress := compress a; raw := raw a;
                  size := size a; headers := hs |}).

(** The writer: the FILE is the list of the bytes written to it. *)

Definition push_hdr (s : bytes) (offset : Z) (output : bytes) : Z * bytes :=
  (u64 (offset + CPIO_HEADER_SIZE), output ++ take (Z.to_nat CPIO_HEADER_SIZE) s).

Fixpoint push_rest_pad (fuel : nat) (tmp_ofs offset : Z) (output : bytes) : Z * bytes :=
  match fuel with
  | O => (offset, output)
  | S f =>
      if Z.land tmp_ofs 3 =? 0 then (offset, output)
      else push_rest_pad f (u64 (tmp_ofs + 1)) (u64 (offset + 1)) (output ++ [NUL])
  end.

Definition push_rest (name : bytes) (offset : Z) (output : bytes) : out (Z * bytes) :=
  match cstr name with
  | None => Undef
  | Some s =>
      let name_len := lenZ s + 1 in
      let offset := u64 (offset + name_len) in
      Ret (push_rest_pad 4 (u64 (CPIO_HEADER_SIZE + name_len)) offset (output ++ s ++ [NUL]))
  end.

Definition push_string (name : bytes) (offset : Z) (output : bytes) : out (Z * bytes) :=
  match cstr name with
  | None => Undef
  | Some s => Ret (u64 (offset + (lenZ s + 1)), output ++ s ++ [NUL])
  end.

Fixpoint push_pad_loop (fuel : nat) (offset : Z) (output : bytes) : Z * bytes :=
  match fuel with
  | O => (offset, output)
  | S f =>
      if Z.land offset 3 =? 0 then (offset, output)
      else push_pad_loop f (u64 (offset + 1)) (output ++ [NUL])
  end.
Definition push_pad (offset : Z) (output : bytes) : Z * bytes := push_pad_loop 4 offset output.

Definition header_fields (data : cpio_header) : list Z :=
  [ino data; mode data; uid data; gid data; nlink data; u64 (mtime data);
   body_len data; major data; minor data; rmajor data; rminor data; name_len data; 0].

(** The string snprintf leaves in [s]. *)
Definition header_string (fields : list Z) : bytes :=
  CPIO_FORMAT_NEWASCII ++ concat (map fmt_08X fields).

(** The cases of the switch on [mode & S_IFMT]. *)
Definition no_body_mode (mode : Z) : bool :=
  let fmt := Z.land mode S_IFMT in
  (fmt =? S_IFBLK) || (fmt =? S_IFCHR) || (fmt =? S_IFDIR) || (fmt =? S_IFIFO)
  || (fmt =? S_IFSOCK).

Definition write_cpio (data : cpio_header) (offset : Z) (output : bytes) : out (Z * bytes) :=
  let '(offset, output) := push_hdr (header_string (header_fields data)) offset output in
  if no_body_mode (mode data)
  then push_rest (name data) offset output
  else
    let! (offset, output) := push_string (name data) offset output in
    let '(offset, output) := push_pad offset output in
    if body_len data =? 0 then Ret (offset, output)
    else
      if lenZ (body data) <? body_len data then Undef
      else Ret (push_pad (u64 (offset + body_len data)) (output ++ takeZ (body_len data) (body data))).

Fixpoint trailer_pad (fuel : nat) (offset : Z) (output : bytes) : bytes :=
  match fuel with
  | O => output
  | S f => if offset mod 512 =? 0 then output
           else trailer_pad f (u64 (offset + 1)) (output ++ [NUL])
  end.

Definition write_trailer (offset : Z) (output : bytes) : out bytes :=
  let name := CPIO_TRAILER ++ [NUL] in
  let s := header_string [0; 0; 0; 0; 1; 0; 0; 0; 0; 0; 0; lenZ CPIO_TRAILER + 1; 0] in
  let '(offset, output) := push_hdr s offset output in
  let! (offset, output) := push_rest name offset output in
  Ret (trailer_pad 512 offset output).

(** The inner loop of initrd-extract: the headers of one archive, in order. *)
Fixpoint write_headers (hs : list cpio_header) (offset : Z) (output : bytes) : out (Z * bytes) :=
  match hs with
  | [] => Ret (offset, output)
  | h :: hs =>
      let! (offset, output) := write_cpio h offset output in
      write_headers hs offset output
  end.

Definition cpio_free (c : cpio) : cpio :=
  {| type := type c; compress := None; raw := []; size := 0; headers := [] |}.

(** ** What an archive entry is

    [wf_entry] is what a header of the archive must satisfy to be written so
    that it can be read again; [encode] is the entry's image in the archive. *)

Definition u32_field (z : Z) : Prop := 0 <= z < 2 ^ 32.

Record wf_entry (h : cpio_header) (nm : bytes) : Prop := {
  wf_fields : Forall u32_field (header_fields h);
  wf_mtime : u32_field (mtime h);
  wf_rdev : rdev h = new_encode_dev (MKDEV (rmajor h) (rminor h));
  wf_name : cstr (name h) = Some nm;
  wf_name_len : name_len h = lenZ nm + 1;
  wf_no_trailer : take 10 nm <> CPIO_TRAILER;
  wf_special : no_body_mode (mode h) = true -> body_len h = 0;
  wf_body : body_len h <= lenZ (body h);
}.

Definition pad4 (n : Z) : bytes := replicate (Z.to_nat ((- n) mod 4)) NUL.
Definition pad512 (n : Z) : bytes := replicate (Z.to_nat ((- n) mod 512)) NUL.

Definition encode (h : cpio_header) (nm : bytes) : bytes :=
  header_string (header_fields h) ++ (nm ++ [NUL] ++ pad4 (lenZ nm + 111))
  ++ (takeZ (body_len h) (body h) ++ pad4 (body_len h)).

Definition wf_archive (es : list (cpio_header * bytes)) : Prop :=
  Forall (fun e => wf_entry e.1 e.2) es.

Definition encode_all (es : list (cpio_header * bytes)) : bytes :=
  concat (map (fun e => encode e.1 e.2) es).

(** The header write_trailer prints, and the bytes of the trailer up to its
    512-byte padding. *)
Definition trailer_header : cpio_header :=
  {| ino := 0; major := 0; minor := 0; rmajor := 0; rminor := 0; nlink := 1; mode := 0;
     mtime := 0; body_len := 0; name_len := 11; uid := 0; gid := 0; rdev := 0;
     name := CPIO_TRAILER ++ [NUL]; body := [] |}.
Definition trailer_image : bytes :=
  header_string (header_fields trailer_header) ++ CPIO_TRAILER ++ [NUL] ++ pad4 121.

(** A whole archive, padded to 512 bytes. *)
Definition archive_image (es : list (cpio_header * bytes)) : bytes :=
  encode_all es ++ trailer_image ++ pad512 (lenZ (encode_all es) + 124).

(** The two headers describe the same file. *)
Record same_entry (h h' : cpio_header) : Prop := {
  same_fields : header_fields h' = header_fields h;
  same_mtime : mtime h' = mtime h;
  same_rdev : rdev h' = rdev h;
  same_name : cstr (name h') = cstr (name h);
  same_body : takeZ (body_len h) (body h') = takeZ (body_len h) (body h);
  same_body_in : body_len h <= lenZ (body h');
}.

(** The offsets at which the loop of read_cpio looks for a header. *)
Inductive visited (raw : bytes) (size : Z) : Z -> Prop :=
  | visited_start : visited raw size 0
  | visited_next offset hs hs' offset' :
      visited raw size offset -> offset < size ->
      read_cpio_iter raw size hs offset = Ret (hs', offset', false) -> visited raw size offset'.

(** The fields of the header are hexadecimal digits. *)
Definition hex_header (p : bytes) : Prop :=
  Forall (fun c => isxdigit c = true) (take (8 * CPIO_HDR_N_FIELDS) (drop 6 p)).

(** The name and the body of the header lie inside the archive. *)
Definition in_archive (h : cpio_header) : Prop :=
  0 < name_len h <= lenZ (name h) /\ 0 <= body_len h <= lenZ (body h).

(** A header whose body length is "-0000070". *)
Definition looping_archive : bytes :=
  header_string [0; 0; 0; 0; 0; 0] ++ #"-0000070"
  ++ concat (map fmt_08X [0; 0; 0; 0; 1; 0]) ++ replicate 20 NUL.

(** The header that parse_header builds for the image of [h] followed by [rest]. *)
Definition reread (h : cpio_header) (rest : bytes) : cpio_header :=
  {| ino := ino h; major := major h; minor := minor h; rmajor := rmajor h; rminor := rminor h;
     nlink := nlink h; mode := mode h; mtime := mtime h; body_len := body_len h;
     name_len := name_len h; uid := uid h; gid := gid h;
     rdev := new_encode_dev (MKDEV (rmajor h) (rminor h));
     name := rest; body := dropZ (N_ALIGN (name_len h)) rest |}.

(** What follows the header in the image of an entry. *)
Definition entry_tail (h : cpio_header) (nm post : bytes) : bytes :=
  (nm ++ [NUL] ++ pad4 (lenZ nm + 111)) ++ (takeZ (body_len h) (body h) ++ pad4 (body_len h)) ++ post.

(** A directory and a file, used as the running example. *)
Definition demo_header (m : Z) (nm bd : bytes) : cpio_header :=
  {| ino := 7; major := 8; minor := 1; rmajor := 0; rminor := 0; nlink := 1; mode := m;
     mtime := 1700000000; body_len := lenZ bd; name_len := lenZ nm + 1; uid := 0; gid := 0;
     rdev := 0; name := nm ++ [NUL]; body := bd |}.

Definition demo_archive : list (cpio_header * bytes) :=
  [(demo_header 16877 #"etc" [], #"etc"); (demo_header 33188 #"etc/fstab" #"proc", #"etc/fstab")].

Definition demo_image : bytes := encode_all demo_archive ++ trailer_image.

Definition demo_cpio : cpio :=
  {| type := CPIO_ARCHIVE; compress := None; raw := demo_image ++ replicate 5 NUL;
     size := lenZ demo_image; headers := [] |}.

(** ** Closed forms of the padding loops *)

Lemma pad4_0 n : n mod 4 = 0 -> pad4 n = [].
Proof. intros H. unfold pad4. replace ((- n) mod 4) with 0 by mlia. done. Qed.

Lemma pad4_S n : n mod 4 <> 0 -> pad4 n = NUL :: pad4 (n + 1).
Proof.
  intros H. unfold pad4.
  replace ((- n) mod 4) with ((- (n + 1)) mod 4 + 1) by mlia.
  rewrite Z2Nat.inj_add, Nat.add_comm by mlia. done.
Qed.

Lemma pad4_congr n m : n mod 4 = m mod 4 -> pad4 n = pad4 m.
Proof. intros H. unfold pad4. do 2 f_equal. mlia. Qed.

Lemma lenZ_pad4 n : lenZ (pad4 n) = (- n) mod 4.
Proof. unfold pad4. rewrite lenZ_replicate. mlia. Qed.

Lemma push_pad_loop_spec fuel offset output :
  0 <= offset -> offset + (- offset) mod 4 < 2 ^ 64 -> (- offset) mod 4 <= Z.of_nat fuel ->
  push_pad_loop fuel offset output = (offset + (- offset) mod 4, output ++ pad4 offset).
Proof.
  revert offset output. induction fuel as [|f IH]; intros offset output H0 H1 Hf; cbn [push_pad_loop].
  - rewrite pad4_0, app_nil_r by mlia. f_equal. mlia.
  - rewrite land_3. case_match eqn:E; unbool.
    + rewrite pad4_0, app_nil_r by done. f_equal. mlia.
    + rewrite u64_small, IH by mlia. rewrite (pad4_S offset), <- app_assoc by done.
      f_equal. mlia.
Qed.

Lemma push_rest_pad_spec fuel tmp offset output :
  0 <= tmp -> tmp + (- tmp) mod 4 < 2 ^ 64 ->
  0 <= offset -> offset + (- tmp) mod 4 < 2 ^ 64 -> (- tmp) mod 4 <= Z.of_nat fuel ->
  push_rest_pad fuel tmp offset output = (offset + (- tmp) mod 4, output ++ pad4 tmp).
Proof.
  revert tmp offset output.
  induction fuel as [|f IH]; intros tmp offset output H0 H1 H2 H3 Hf; cbn [push_rest_pad].
  - rewrite pad4_0, app_nil_r by mlia. f_equal. mlia.
  - rewrite land_3. case_match eqn:E; unbool.
    + rewrite pad4_0, app_nil_r by done. f_equal. mlia.
    + rewrite !u64_small, IH by mlia. rewrite (pad4_S tmp), <- app_assoc by done.
      f_equal. mlia.
Qed.

Lemma trailer_pad_spec fuel offset output :
  0 <= offset -> offset + (- offset) mod 512 < 2 ^ 64 -> (- offset) mod 512 <= Z.of_nat fuel ->
  trailer_pad fuel offset output = output ++ pad512 offset.
Proof.
  revert offset output. induction fuel as [|f IH]; intros offset output H0 H1 Hf; cbn [trailer_pad].
  - unfold pad512. replace ((- offset) mod 512) with 0 by mlia. by rewrite app_nil_r.
  - case_match eqn:E; unbool.
    + unfold pad512. replace ((- offset) mod 512) with 0 by mlia. by rewrite app_nil_r.
    + rewrite u64_small, IH by mlia. unfold pad512.
      replace ((- offset) mod 512) with ((- (offset + 1)) mod 512 + 1) by mlia.
      rewrite Z2Nat.inj_add, Nat.add_comm, <- app_assoc by mlia. done.
Qed.

Lemma align_up_spec fuel offset :
  0 <= offset -> offset + (- offset) mod 512 < 2 ^ 64 -> (- offset) mod 512 <= Z.of_nat fuel ->
  align_up fuel 512 offset = offset + (- offset) mod 512.
Proof.
  revert offset. induction fuel as [|f IH]; intros offset H0 H1 Hf; cbn [align_up]; [mlia|].
  case_match eqn:E; unbool; [mlia|]. rewrite u64_small, IH by mlia. mlia.
Qed.

Lemma N_ALIGN_spec len : 0 <= len < 2 ^ 63 -> N_ALIGN len = len + (- (110 + len)) mod 4.
Proof.
  intros H. unfold N_ALIGN, not3. rewrite (u64_small (len + 1)), land_not3 by mlia.
  rewrite u64_small by mlia. mlia.
Qed.

(** ** The header: printed, then parsed *)

Lemma parse_fields_spec l rest : Forall u32_field l ->
  parse_fields (length l) (concat (map fmt_08X l) ++ rest) = (l, rest).
Proof.
  induction l as [|z l IH]; intros Hl; [done|].
  apply Forall_cons_1 in Hl as [Hz Hl]. pose proof (length_fmt_08X z Hz) as Hlen.
  cbn [length map concat parse_fields]. rewrite <- app_assoc.
  rewrite takeZ_app by (unfold lenZ; by rewrite Hlen).
  assert (NUL ∉ fmt_08X z) as Hn.
  { intros Hin. pose proof (fmt_08X_xdigits z (proj1 Hz)) as Hx.
    rewrite list.Forall_forall in Hx. specialize (Hx _ Hin). done. }
  rewrite cstr_app by done. cbn [from_option id default].
  rewrite strtoul_fmt_08X by done.
  change (Z.to_nat CPIO_HDR_FIELD_SIZE) with 8%nat. rewrite <- Hlen, drop_app_length.
  by rewrite IH.
Qed.

Lemma length_header_string l : Forall u32_field l -> lenZ (header_string l) = 6 + 8 * lenZ l.
Proof.
  intros Hl. unfold header_string. rewrite lenZ_app. change (lenZ CPIO_FORMAT_NEWASCII) with 6.
  induction l as [|z l IH]; [done|]. apply Forall_cons_1 in Hl as [Hz Hl].
  cbn [map concat]. rewrite lenZ_app, lenZ_cons. unfold lenZ at 1.
  rewrite length_fmt_08X by done. specialize (IH Hl). lia.
Qed.

Lemma length_header_fields h : Forall u32_field (header_fields h) ->
  lenZ (header_string (header_fields h)) = CPIO_HEADER_SIZE.
Proof. intros Hf. by rewrite length_header_string. Qed.

Lemma parse_header_spec h rest :
  Forall u32_field (header_fields h) -> u32_field (mtime h) ->
  parse_header (header_string (header_fields h) ++ rest) = Ret (reread h rest).
Proof.
  intros Hf Hm. unfold parse_header.
  replace (_ <? _) with false.
  2:{ symmetry. apply Z.ltb_ge. rewrite lenZ_app, length_header_fields by done.
      pose proof (lenZ_nonneg rest). lia. }
  unfold header_string. rewrite <- app_assoc.
  change (Z.to_nat CPIO_FORMAT_LENGTH) with (length CPIO_FORMAT_NEWASCII).
  rewrite drop_app_length.
  change CPIO_HDR_N_FIELDS with (length (header_fields h)).
  rewrite parse_fields_spec by done. unfold reread. unfold header_fields in *. cbn [nth].
  repeat match goal with H : Forall _ (_ :: _) |- _ => apply Forall_cons_1 in H as [? H] end.
  unfold u32_field in *.
  rewrite !u32_small by done. rewrite u64_small, i64_small by lia. done.
Qed.

Lemma wf_ranges h nm : wf_entry h nm -> u32_field (body_len h) /\ u32_field (name_len h).
Proof.
  intros W. pose proof (wf_fields _ _ W) as Hf. unfold header_fields in Hf.
  repeat match goal with H : Forall _ (_ :: _) |- _ => apply Forall_cons_1 in H as [? H] end.
  done.
Qed.

Lemma lenZ_encode h nm : wf_entry h nm ->
  lenZ (encode h nm) = 110 + N_ALIGN (name_len h) + body_len h + (- body_len h) mod 4.
Proof.
  intros W. unfold encode.
  rewrite !lenZ_app, length_header_fields by apply W. rewrite !lenZ_pad4.
  pose proof (lenZ_nonneg nm). pose proof (wf_name_len _ _ W) as Hn.
  pose proof (wf_ranges _ _ W) as [Hb Hl].
  unfold u32_field in *.
  rewrite lenZ_takeZ by (pose proof (wf_body _ _ W); lia).
  rewrite N_ALIGN_spec by lia. change (lenZ [NUL]) with 1. unfold CPIO_HEADER_SIZE.
  rewrite Hn. mlia.
Qed.

(** ** The writer produces the image *)

Lemma push_hdr_spec h offset output :
  Forall u32_field (header_fields h) -> 0 <= offset -> offset + 110 < 2 ^ 64 ->
  push_hdr (header_string (header_fields h)) offset output
  = (offset + 110, output ++ header_string (header_fields h)).
Proof.
  intros Hf H0 H1. unfold push_hdr. rewrite u64_small by (unfold CPIO_HEADER_SIZE; lia).
  rewrite take_ge; [done|]. pose proof (length_header_fields h Hf) as Hl.
  unfold lenZ, CPIO_HEADER_SIZE in *. lia.
Qed.

Lemma write_cpio_encode h nm offset output :
  wf_entry h nm -> 0 <= offset -> offset mod 4 = 0 ->
  offset + lenZ (encode h nm) < 2 ^ 64 ->
  write_cpio h offset output = Ret (offset + lenZ (encode h nm), output ++ encode h nm).
Proof.
  intros W H0 Hal Hmax. pose proof (lenZ_encode h nm W) as Hlen.
  pose proof (wf_ranges _ _ W) as [Hb Hl]. unfold u32_field in *.
  pose proof (wf_name_len _ _ W) as Hnl. pose proof (lenZ_nonneg nm) as Hnm.
  rewrite N_ALIGN_spec in Hlen by lia.
  unfold write_cpio. rewrite push_hdr_spec by (apply W || mlia).
  destruct (no_body_mode (mode h)) eqn:Hs.
  - pose proof (wf_special _ _ W Hs) as Hb0. rewrite Hb0 in *.
    unfold push_rest. rewrite (wf_name _ _ W). unfold CPIO_HEADER_SIZE.
    rewrite !u64_small by mlia.
    rewrite push_rest_pad_spec by mlia. rewrite Hlen. unfold encode. rewrite Hb0, takeZ_0.
    rewrite (pad4_0 0), !app_nil_r by done. rewrite <- !app_assoc.
    replace (110 + (lenZ nm + 1)) with (lenZ nm + 111) by lia.
    apply f_equal, f_equal2; [|done].
    replace (110 + name_len h) with (lenZ nm + 111) by lia. mlia.
  - unfold push_string. rewrite (wf_name _ _ W). cbn [obind]. rewrite u64_small by mlia.
    unfold push_pad. rewrite push_pad_loop_spec by mlia. cbn beta iota.
    set (o1 := offset + 110 + (lenZ nm + 1)).
    assert (o1 + (- o1) mod 4 = offset + 110 + N_ALIGN (name_len h)) as Ho1.
    { rewrite N_ALIGN_spec by lia. unfold o1. mlia. }
    rewrite Ho1. rewrite N_ALIGN_spec by lia.
    rewrite (pad4_congr o1 (lenZ nm + 111)) by (unfold o1; mlia).
    case_match eqn:Eb; unbool.
    + rewrite Hlen. unfold encode. rewrite Eb, takeZ_0, (pad4_0 0), !app_nil_r by done.
      rewrite <- !app_assoc. apply f_equal, f_equal2; [mlia|done].
    + replace (_ <? _) with false by (symmetry; apply Z.ltb_ge; apply W).
      rewrite u64_small by mlia. rewrite push_pad_loop_spec by mlia.
      match goal with |- context [pad4 (?x + body_len h)] =>
        rewrite (pad4_congr (x + body_len h) (body_len h)) by mlia end.
      apply f_equal, f_equal2; [rewrite Hlen; mlia|].
      unfold encode. by rewrite <- !app_assoc.
Qed.

(** ** The reader recovers the entry *)

Lemma encode_app h nm post :
  encode h nm ++ post = header_string (header_fields h) ++ entry_tail h nm post.
Proof. unfold encode, entry_tail. by rewrite <- !app_assoc. Qed.

Lemma reread_same h nm post : wf_entry h nm -> same_entry h (reread h (entry_tail h nm post)).
Proof.
  intros W. pose proof (wf_ranges _ _ W) as [Hb Hl]. unfold u32_field in *.
  pose proof (wf_name_len _ _ W) as Hnl. pose proof (lenZ_nonneg nm) as Hnm.
  destruct (cstr_inv _ _ (wf_name _ _ W)) as (t & _ & Hnul).
  assert (body (reread h (entry_tail h nm post))
          = (takeZ (body_len h) (body h) ++ pad4 (body_len h)) ++ post) as Hbody.
  { cbn [reread body]. unfold entry_tail. apply dropZ_app'.
    rewrite !lenZ_app, lenZ_pad4. change (lenZ [NUL]) with 1. rewrite N_ALIGN_spec by lia. mlia. }
  pose proof (wf_body _ _ W) as Hbl.
  assert (lenZ (takeZ (body_len h) (body h)) = body_len h) as Htk by (apply lenZ_takeZ; lia).
  constructor; try done.
  - cbn [reread rdev]. by rewrite (wf_rdev _ _ W).
  - cbn [reread name]. rewrite (wf_name _ _ W). unfold entry_tail.
    rewrite <- app_assoc. by apply cstr_app.
  - rewrite Hbody, <- app_assoc. apply takeZ_app. done.
  - rewrite Hbody, !lenZ_app, Htk. pose proof (lenZ_nonneg (pad4 (body_len h))).
    pose proof (lenZ_nonneg post). lia.
Qed.

Lemma memcmp_magic s : memcmp_eq (CPIO_FORMAT_NEWASCII ++ s) CPIO_FORMAT_OLDASCII = Ret false
  /\ memcmp_eq (CPIO_FORMAT_NEWASCII ++ s) CPIO_FORMAT_NEWASCII = Ret true.
Proof.
  split; [|apply memcmp_eq_app]. apply memcmp_eq_ne; [cbn; lia|].
  change (length CPIO_FORMAT_OLDASCII) with (length CPIO_FORMAT_NEWASCII).
  rewrite take_app_length. done.
Qed.

Lemma take_app_long {A} n (l1 l2 : list A) : (n <= length l1)%nat -> take n (l1 ++ l2) = take n l1.
Proof. apply take_app_le. Qed.

Lemma read_iter_encode raw pre h nm post size hs :
  raw = pre ++ encode h nm ++ post -> wf_entry h nm ->
  lenZ pre mod 4 = 0 -> 116 <= size -> size < 2 ^ 63 ->
  lenZ pre + lenZ (encode h nm) <= size ->
  read_cpio_iter raw size hs (lenZ pre)
  = Ret (hs ++ [reread h (entry_tail h nm post)], lenZ pre + lenZ (encode h nm), false).
Proof.
  intros -> W Hal Hmin Hmax Hfit. pose proof (lenZ_nonneg pre) as Hpre.
  pose proof (wf_ranges _ _ W) as [Hb Hl]. unfold u32_field in *.
  pose proof (wf_name_len _ _ W) as Hnl. pose proof (lenZ_nonneg nm) as Hnm.
  pose proof (lenZ_encode _ _ W) as Hlen. rewrite N_ALIGN_spec in Hlen by lia.
  unfold read_cpio_iter, CPIO_FORMAT_LENGTH, CPIO_HEADER_SIZE.
  rewrite (proj2 (Z.ltb_ge size _)) by lia.
  rewrite dropZ_app, encode_app.
  unfold header_string. rewrite <- app_assoc. rewrite !(proj1 (memcmp_magic _)), !(proj2 (memcmp_magic _)).
  cbn [obind negb]. rewrite (u64_small (lenZ pre + 110)) by mlia.
  rewrite (proj2 (Z.ltb_ge size _)) by mlia.
  rewrite app_assoc. fold (header_string (header_fields h)).
  rewrite parse_header_spec by apply W. cbn [obind].
  set (h' := reread h _). change (name_len h') with (name_len h). change (body_len h') with (body_len h).
  rewrite (proj2 (Z.eqb_neq (name_len h) 0)) by lia.
  rewrite N_ALIGN_spec by lia.
  set (na := name_len h + (- (110 + name_len h)) mod 4) in *.
  assert (0 <= na < 2 ^ 33 /\ (110 + na) mod 4 = 0) as [? ?] by (unfold na; split; mlia).
  rewrite !(u64_small (_ + na)), !(u64_small (_ + body_len h)), (u64_small (lenZ pre + 110 + _)) by mlia.
  rewrite (proj2 (Z.ltb_ge size _)) by mlia.
  rewrite (u64_small (_ + 3)) by mlia. unfold not3. rewrite land_not3 by mlia.
  replace (_ - _) with (lenZ pre + lenZ (encode h nm)) by (rewrite Hlen; mlia).
  rewrite (proj2 (Z.ltb_ge size _)) by lia.
  change (lenZ CPIO_TRAILER + 1) with 11. case_match eqn:E; [|done]. unbool.
  rewrite memcmp_eq_ne; [done|..]; cbn [h' reread name]; unfold entry_tail; change (length CPIO_TRAILER) with 10%nat.
  - rewrite !length_app. unfold lenZ in *. lia.
  - rewrite <- app_assoc, take_app_long by (unfold lenZ in *; lia). apply W.
Qed.

Lemma trailer_fields : Forall u32_field (header_fields trailer_header).
Proof.
  unfold header_fields. cbn [trailer_header ino mode uid gid nlink mtime body_len major minor rmajor
    rminor name_len]. repeat (apply Forall_cons_2; [unfold u32_field; vm_compute; intuition congruence|]). apply Forall_nil_2.
Qed.

Lemma lenZ_trailer : lenZ trailer_image = 124.
Proof. vm_compute. done. Qed.

Lemma read_iter_trailer pre post size hs :
  lenZ pre mod 4 = 0 -> size < 2 ^ 63 -> lenZ pre + 124 <= size ->
  read_cpio_iter (pre ++ trailer_image ++ post) size hs (lenZ pre)
  = Ret (hs, lenZ pre + 124 + (- (lenZ pre + 124)) mod 512, true).
Proof.
  intros Hal Hmax Hfit. pose proof (lenZ_nonneg pre) as Hpre.
  unfold read_cpio_iter, CPIO_FORMAT_LENGTH, CPIO_HEADER_SIZE.
  rewrite (proj2 (Z.ltb_ge size _)) by lia. rewrite dropZ_app.
  unfold trailer_image, header_string. rewrite <- !app_assoc.
  rewrite !(proj1 (memcmp_magic _)), !(proj2 (memcmp_magic _)).
  cbn [obind negb]. rewrite (u64_small (lenZ pre + 110)) by mlia.
  rewrite (proj2 (Z.ltb_ge size _)) by mlia.
  rewrite app_assoc. fold (header_string (header_fields trailer_header)).
  rewrite parse_header_spec by (apply trailer_fields || (unfold u32_field; cbn; lia)). cbn [obind].
  set (h' := reread _ _). change (name_len h') with 11. change (body_len h') with 0.
  change (11 =? 0) with false. change (N_ALIGN 11) with 14. cbn beta iota.
  rewrite !Z.add_0_r, !(u64_small 14), !(u64_small (_ + 14)), !(u64_small (_ + 3)) by mlia.
  rewrite (proj2 (Z.ltb_ge size _)) by mlia.
  unfold not3. rewrite land_not3 by mlia.
  replace (_ - _) with (lenZ pre + 124) by mlia.
  rewrite (proj2 (Z.ltb_ge size _)) by lia.
  change (lenZ CPIO_TRAILER + 1 <=? 11) with true. cbn beta iota.
  change (name h') with (CPIO_TRAILER ++ [NUL] ++ pad4 121 ++ post).
  rewrite memcmp_eq_app. cbn [obind]. rewrite removelast_last, align_up_spec by mlia. done.
Qed.

(** ** A whole archive *)

Lemma encode_mod4 h nm : wf_entry h nm -> 112 <= lenZ (encode h nm) /\ lenZ (encode h nm) mod 4 = 0.
Proof.
  intros W. rewrite (lenZ_encode _ _ W). pose proof (wf_ranges _ _ W) as [Hb Hl].
  unfold u32_field in *. pose proof (wf_name_len _ _ W). pose proof (lenZ_nonneg nm).
  rewrite N_ALIGN_spec by lia. split; mlia.
Qed.

Lemma encode_all_cons h nm es : encode_all ((h, nm) :: es) = encode h nm ++ encode_all es.
Proof. done. Qed.

Lemma write_headers_encode es offset output :
  wf_archive es -> 0 <= offset -> offset mod 4 = 0 -> offset + lenZ (encode_all es) < 2 ^ 64 ->
  write_headers (map fst es) offset output
  = Ret (offset + lenZ (encode_all es), output ++ encode_all es).
Proof.
  intros W. revert offset output. induction W as [|[h nm] es We W IH]; intros offset output H0 Hal Hmax.
  - cbn. rewrite Z.add_0_r, app_nil_r. done.
  - rewrite encode_all_cons, lenZ_app in *. cbn [map fst write_headers]. cbn [fst snd] in We.
    pose proof (encode_mod4 _ _ We). pose proof (lenZ_nonneg (encode_all es)).
    rewrite write_cpio_encode with (nm := nm) by (done || lia). cbn [obind].
    rewrite IH by mlia. rewrite <- app_assoc, Z.add_assoc. done.
Qed.

Lemma write_trailer_image offset output :
  0 <= offset -> offset < 2 ^ 63 -> offset mod 4 = 0 ->
  write_trailer offset output = Ret (output ++ trailer_image ++ pad512 (offset + 124)).
Proof.
  intros H0 Hmax Hal. unfold write_trailer.
  change (header_string _) with (header_string (header_fields trailer_header)).
  rewrite push_hdr_spec by (done || apply trailer_fields || lia).
  unfold push_rest. change (cstr (CPIO_TRAILER ++ [NUL])) with (Some CPIO_TRAILER).
  cbn beta iota zeta.
  change (lenZ CPIO_TRAILER + 1) with 11. change (CPIO_HEADER_SIZE) with 110.
  rewrite !u64_small by lia. rewrite push_rest_pad_spec by mlia. cbn [obind].
  change ((- (110 + 11)) mod 4) with 3. rewrite trailer_pad_spec by mlia.
  unfold trailer_image. rewrite <- !app_assoc.
  replace (offset + 110 + 11 + 3) with (offset + 124) by lia. done.
Qed.

Lemma read_loop_encode es : forall fuel pre post size hs,
  wf_archive es -> lenZ pre mod 4 = 0 -> size < 2 ^ 63 ->
  lenZ (pre ++ encode_all es ++ trailer_image) <= size -> (length es < fuel)%nat ->
  let off := lenZ (pre ++ encode_all es ++ trailer_image) in
  exists hs', Forall2 same_entry (map fst es) hs'
  /\ read_cpio_loop fuel (pre ++ encode_all es ++ trailer_image ++ post) size hs (lenZ pre)
     = Ret (hs ++ hs', off + (- off) mod 512).
Proof.
  induction es as [|[h nm] es IH]; intros fuel pre post size hs W Hal Hmax Hfit Hfuel off;
    (destruct fuel as [|fuel]; [lia|]); cbn [read_cpio_loop]; subst off;
    rewrite !lenZ_app, lenZ_trailer in *.
  - exists []. split; [constructor|]. change (encode_all []) with (@nil ascii) in *. cbn [app] in *.
    change (lenZ []) with 0 in *. rewrite (proj2 (Z.ltb_lt _ _)) by lia.
    rewrite read_iter_trailer by lia. cbn [obind]. rewrite app_nil_r. done.
  - apply Forall_cons_1 in W as [We W]. cbn [fst snd] in We.
    rewrite encode_all_cons, lenZ_app in *. pose proof (encode_mod4 _ _ We) as [Hge Hm4].
    pose proof (lenZ_nonneg pre). pose proof (lenZ_nonneg (encode_all es)).
    rewrite (proj2 (Z.ltb_lt _ _)) by lia.
    rewrite (read_iter_encode _ pre h nm (encode_all es ++ trailer_image ++ post))
      by (done || lia || by rewrite <- !app_assoc). cbn [obind].
    destruct (IH fuel (pre ++ encode h nm) post size
                (hs ++ [reread h (entry_tail h nm (encode_all es ++ trailer_image ++ post))]))
      as (hs' & Hsame & Hrd); [done| rewrite lenZ_app; mlia | done | | cbn [length] in Hfuel; lia |].
    { rewrite !lenZ_app, lenZ_trailer. lia. }
    eexists (_ :: hs'). split; [constructor; [by apply reread_same|exact Hsame]|].
    rewrite <- !app_assoc in Hrd. rewrite <- app_assoc. rewrite !lenZ_app, lenZ_trailer in Hrd.
    rewrite Hrd. apply f_equal, f_equal2; [done|].
    rewrite !Z.add_assoc. done.
Qed.

Lemma encode_all_mod4 es : wf_archive es -> lenZ (encode_all es) mod 4 = 0.
Proof.
  intros W. induction W as [|[h nm] es We W IH]; [done|].
  cbn [fst snd] in We. rewrite encode_all_cons, lenZ_app. pose proof (encode_mod4 _ _ We). mlia.
Qed.

Lemma lenZ_archive_image es : let n := lenZ (encode_all es) in
  lenZ (archive_image es) = n + 124 + (- (n + 124)) mod 512.
Proof.
  unfold archive_image, pad512. autorewrite with lenz. rewrite lenZ_trailer.
  pose proof (lenZ_nonneg (encode_all es)). mlia.
Qed.

Lemma write_archive_image es : wf_archive es -> lenZ (encode_all es) < 2 ^ 62 ->
  (let! (offset, output) := write_headers (map fst es) 0 [] in write_trailer offset output)
  = Ret (archive_image es).
Proof.
  intros W Hmax. pose proof (lenZ_nonneg (encode_all es)). pose proof (encode_all_mod4 es W).
  rewrite write_headers_encode by (done || lia). cbn [obind app]. rewrite Z.add_0_l.
  rewrite write_trailer_image by lia. done.
Qed.

Lemma read_cpio_image es fuel post cmp sz :
  wf_archive es -> sz < 2 ^ 63 -> lenZ (archive_image es) <= sz -> (length es < fuel)%nat ->
  let c hs := {| type := CPIO_ARCHIVE; compress := cmp; raw := archive_image es ++ post;
                 size := sz; headers := hs |} in
  exists hs, read_cpio fuel (c []) = Ret (lenZ (archive_image es), c hs)
             /\ Forall2 same_entry (map fst es) hs.
Proof.
  intros W Hsz Hfit Hfuel c. rewrite lenZ_archive_image in *. set (n := lenZ (encode_all es)) in *.
  pose proof (lenZ_nonneg (encode_all es)) as H0. fold n in H0.
  destruct (read_loop_encode es fuel [] (pad512 (n + 124) ++ post) sz [])
    as (hs & Hsame & Hrd); try done.
  { cbn [app]. rewrite lenZ_app, lenZ_trailer. fold n. mlia. }
  exists hs. split; [|done]. unfold read_cpio. cbn [app] in Hrd. change (lenZ []) with 0 in Hrd.
  rewrite lenZ_app, lenZ_trailer in Hrd. fold n in Hrd.
  cbn [raw size headers c]. unfold archive_image. fold n. rewrite <- !app_assoc, Hrd. cbn [obind].
  unfold c, archive_image. fold n. rewrite <- !app_assoc. done.
Qed.

(** ** Every archive with hexadecimal fields is read inside its bounds *)

Lemma hex_header_bool p :
  forallb isxdigit (take (8 * CPIO_HDR_N_FIELDS) (drop 6 p)) = true -> hex_header p.
Proof. intros H. apply Forall_forall. by apply forallb_forall. Qed.

Lemma field_hex s : length s = 8%nat -> Forall (fun c => isxdigit c = true) s ->
  u32_field (strtoul 16 (default [] (cstr (s ++ [NUL])))).1.1.
Proof.
  intros Hl Hs. rewrite cstr_app.
  2:{ intros Hin. rewrite list.Forall_forall in Hs. apply Hs, isxdigit_not_special in Hin.
      by destruct Hin as (_ & ? & _). }
  cbn [from_option id]. rewrite strtoul_hex by (done || lia || by destruct s). cbn [fst].
  pose proof (digits_val_bound 16 s 0 ltac:(lia) ltac:(lia)) as Hd. rewrite Hl in Hd.
  unfold u32_field, digits_val. change (2 ^ 32) with ((0 + 1) * 16 ^ Z.of_nat 8).
  apply Hd. eapply list.Forall_impl; [exact Hs|]. done.
Qed.

Lemma parse_fields_hex n : forall s vs s',
  Forall (fun c => isxdigit c = true) (take (8 * n) s) -> (8 * n <= length s)%nat ->
  parse_fields n s = (vs, s') -> Forall u32_field vs /\ length vs = n /\ s' = drop (8 * n) s.
Proof.
  induction n as [|n IH]; intros s vs s' Hx Hlen Hp; cbn [parse_fields] in Hp.
  { simplify_eq. split_and!; [constructor|done|by rewrite drop_0]. }
  change (Z.to_nat CPIO_HDR_FIELD_SIZE) with 8%nat in *.
  destruct (parse_fields n (drop 8 s)) as [vs0 s0] eqn:E. simplify_eq.
  replace (8 * S n)%nat with (8 + 8 * n)%nat in * by lia.
  rewrite <- take_take_drop, Forall_app in Hx. destruct Hx as [Hx1 Hx2].
  destruct (IH _ _ _ Hx2 ltac:(rewrite length_drop; lia) E) as (IH1 & IH2 & ->).
  split_and!; [|cbn [length]; lia|by rewrite drop_drop]. constructor; [|done].
  unfold takeZ, CPIO_HDR_FIELD_SIZE. rewrite (proj2 (Z.leb_le _ _)) by (unfold lenZ; lia).
  apply field_hex; [apply length_take_le; lia|done].
Qed.

Lemma parse_header_hex p : 110 <= lenZ p -> hex_header p ->
  exists h, parse_header p = Ret h /\ u32_field (name_len h) /\ u32_field (body_len h)
    /\ lenZ (name h) = lenZ p - 110 /\ body h = dropZ (N_ALIGN (name_len h)) (name h).
Proof.
  intros Hl Hx. unfold parse_header, CPIO_HEADER_SIZE. rewrite (proj2 (Z.ltb_ge _ _)) by done.
  change (Z.to_nat CPIO_FORMAT_LENGTH) with 6%nat. unfold lenZ in Hl.
  destruct (parse_fields _ _) as [vs s'] eqn:E.
  apply parse_fields_hex in E as (Hvs & Hn & ->);
    [|exact Hx|rewrite length_drop; unfold CPIO_HDR_N_FIELDS; lia].
  eexists. split; [done|]. cbn [name_len body_len name body].
  assert (forall i, (i < 13)%nat -> u32_field (nth i vs 0)) as Hi.
  { intros i Hi. apply (List.Forall_nth _ vs); [done|]. by rewrite Hn. }
  split_and!; [apply Hi; lia|apply Hi; lia| |done].
  unfold lenZ. rewrite !length_drop. unfold CPIO_HDR_N_FIELDS. lia.
Qed.

(** What one round does on a header with hexadecimal fields. *)
Lemma read_iter_hex raw size hs offset :
  0 <= offset < size -> size < 2 ^ 63 -> size <= lenZ raw -> offset + 6 <= lenZ raw ->
  offset mod 4 = 0 -> (offset + 110 <= size -> hex_header (dropZ offset raw)) ->
  (exists msg, read_cpio_iter raw size hs offset = Die EXIT_FAILURE msg)
  \/ (exists h offset', read_cpio_iter raw size hs offset = Ret (hs ++ [h], offset', false)
      /\ in_archive h /\ offset + 112 <= offset' <= size /\ offset' mod 4 = 0)
  \/ (exists offset', read_cpio_iter raw size hs offset = Ret (hs, offset', true)
      /\ offset + 112 <= offset' < size + 512).
Proof.
  intros Hoff Hmax Hraw Hmagic Hal Hx. pose proof (lenZ_dropZ offset raw ltac:(lia)) as Hlp.
  unfold read_cpio_iter. set (p := dropZ offset raw) in *.
  destruct (size <? _) eqn:E0; [by left; eexists|]. unbool. unfold CPIO_FORMAT_LENGTH in E0.
  unfold CPIO_HEADER_SIZE in *.
  rewrite !memcmp_eq_in by (change (lenZ _ <= lenZ p) with (6 <= lenZ p); lia). cbn [obind].
  case_match; [by left; eexists|]. case_match; [by left; eexists|].
  rewrite (u64_small (offset + 110)) by lia.
  case_match eqn:E1; [by left; eexists|]. unbool.
  destruct (parse_header_hex p ltac:(lia) (Hx ltac:(lia))) as (h & -> & Hn & Hb & Hln & Hbody).
  cbn [obind]. unfold u32_field in *.
  destruct (name_len h =? 0) eqn:E2; [by left; eexists|]. unbool.
  rewrite N_ALIGN_spec in * by lia.
  set (na := name_len h + (- (110 + name_len h)) mod 4) in *.
  assert (name_len h <= na < 2 ^ 33 /\ (110 + na) mod 4 = 0) as [? ?] by (unfold na; split; mlia).
  rewrite !(u64_small (_ + na)), !(u64_small (_ + body_len h)), (u64_small (offset + 110 + _)) by lia.
  case_match eqn:E3; [by left; eexists|]. unbool.
  rewrite (u64_small (_ + 3)) by lia. unfold not3. rewrite land_not3 by lia.
  set (o' := _ - _). assert (offset + 112 <= o' < 2 ^ 63 + 4 /\ o' mod 4 = 0) as [? ?]
    by (unfold o'; split; mlia).
  case_match eqn:E4; [by left; eexists|]. unbool.
  assert (in_archive h) as Hin.
  { split; [lia|]. rewrite Hbody, lenZ_dropZ by lia. lia. }
  change (lenZ CPIO_TRAILER + 1) with 11. case_match eqn:E5; unbool; cycle 1.
  { right; left. exists h, o'. split_and!; done || lia. }
  rewrite memcmp_eq_in by (change (10 <= lenZ (name h)); lia). cbn [obind]. case_match.
  - right; right. eexists. rewrite removelast_last. split; [done|].
    rewrite align_up_spec by mlia. mlia.
  - right; left. exists h, o'. split_and!; done || lia.
Qed.

(** The magic is compared before the end of the archive is. *)
Lemma read_iter_short raw size hs offset : 0 <= offset < size -> size <= lenZ raw -> lenZ raw < offset + 6 ->
  (exists msg, read_cpio_iter raw size hs offset = Die EXIT_FAILURE msg) \/ read_cpio_iter raw size hs offset = Undef.
Proof.
  intros Ho Hs Hr. unfold read_cpio_iter. destruct (size <? _); [left; by eexists|]. right.
  unfold memcmp_eq at 1. rewrite decide_True; [done|]. pose proof (lenZ_dropZ offset raw ltac:(lia)) as Hl. unfold lenZ in *.
  change (length CPIO_FORMAT_OLDASCII) with 6%nat. lia.
Qed.

Lemma read_loop_hex raw size : size < 2 ^ 63 -> size <= lenZ raw ->
  (forall o, visited raw size o -> o + 110 <= size -> hex_header (dropZ o raw)) ->
  forall fuel hs offset,
  visited raw size offset -> 0 <= offset <= size -> offset mod 4 = 0 -> Forall in_archive hs ->
  (size - offset) / 112 < Z.of_nat fuel ->
  (exists msg, read_cpio_loop fuel raw size hs offset = Die EXIT_FAILURE msg)
  \/ (read_cpio_loop fuel raw size hs offset = Undef /\ exists o, visited raw size o /\ 0 <= o < size /\ lenZ raw < o + 6)
  \/ (exists hs' offset', read_cpio_loop fuel raw size hs offset = Ret (hs', offset')
      /\ Forall in_archive hs' /\ offset <= offset' < size + 512
      /\ (offset < size -> offset + 112 <= offset')).
Proof.
  intros Hmax Hraw Hhex. induction fuel as [|fuel IH]; intros hs offset Hv Hoff Hal Hhs Hf; [mlia|].
  cbn [read_cpio_loop]. case_match eqn:E; unbool.
  2:{ right; right. exists hs, offset. split_and!; done || lia. }
  destruct (Z_lt_le_dec (lenZ raw) (offset + 6)) as [Hr|Hr].
  { destruct (read_iter_short raw size hs offset ltac:(lia) Hraw Hr) as [[msg ->]| ->]; [left; by eexists|right; left].
    split; [done|]. exists offset. split_and!; done || lia. }
  destruct (read_iter_hex raw size hs offset ltac:(lia) Hmax Hraw Hr Hal (Hhex _ Hv))
    as [[msg ->]|[(h & o' & Hit & Hin & Ho & Hal')|(o' & -> & Ho)]].
  - left. by eexists.
  - rewrite Hit. cbn [obind].
    destruct (IH (hs ++ [h]) o') as [[msg ->]|[[-> Hu]|(hs' & o'' & -> & Hhs' & Ho'' & _)]].
    + by eapply visited_next; [exact Hv| |exact Hit].
    + lia.
    + done.
    + apply Forall_app. split; [done|]. by constructor.
    + mlia.
    + left. by eexists.
    + by right; left.
    + right; right. exists hs', o''. split_and!; done || lia.
  - right; right. cbn [obind]. exists hs, o'. split_and!; done || lia.
Qed.

(** ** Theorems *)

(** C1. Writing then reading an archive. Take any list of well-formed entries
    (fields of 32 bits, a NUL-terminated name of the announced length that is
    not the trailer's, no body on a directory, device, fifo or socket), write
    them one after the other with write_cpio and finish with write_trailer, as
    initrd-extract does. The image is a whole number of 512-byte blocks, and
    read_cpio on it, whatever bytes follow it, stops with no error at the end of
    the image and has found exactly the entries written: same fields, same
    names, same bodies, in order. *)
Theorem write_read_roundtrip es :
  wf_archive es -> lenZ (encode_all es) < 2 ^ 62 ->
  exists output,
    (let! (offset, output) := write_headers (map fst es) 0 [] in write_trailer offset output)
      = Ret output
    /\ lenZ output mod 512 = 0
    /\ forall post cmp fuel, lenZ (output ++ post) < 2 ^ 63 -> (length es < fuel)%nat ->
       let c hs := {| type := CPIO_ARCHIVE; compress := cmp; raw := output ++ post;
                      size := lenZ (output ++ post); headers := hs |} in
       exists hs, read_cpio fuel (c []) = Ret (lenZ output, c hs)
                  /\ Forall2 same_entry (map fst es) hs.
Proof.
  intros W Hmax. pose proof (lenZ_archive_image es) as Hlen. cbv zeta in Hlen.
  exists (archive_image es). split; [by apply write_archive_image|].
  split; [rewrite Hlen; mlia|]. intros post cmp fuel Hm Hfuel c.
  apply read_cpio_image; try done. rewrite lenZ_app. pose proof (lenZ_nonneg post). lia.
Qed.

Lemma demo_archive_wf : wf_archive demo_archive.
Proof.
  unfold demo_archive, wf_archive. repeat (apply Forall_cons_2); try apply Forall_nil_2;
  (constructor; [| vm_compute; done | done | done | done | done | done | vm_compute; done];
   apply Forall_forall; intros z Hz; vm_compute in Hz;
   unfold u32_field; repeat (destruct Hz as [<-|Hz]; [lia|]); done).
Qed.

Lemma write_read_roundtrip_witness :
  exists output,
    (let! (offset, output) := write_headers (map fst demo_archive) 0 [] in
     write_trailer offset output) = Ret output
    /\ lenZ output mod 512 = 0
    /\ forall post cmp fuel, lenZ (output ++ post) < 2 ^ 63 -> (length demo_archive < fuel)%nat ->
       let c hs := {| type := CPIO_ARCHIVE; compress := cmp; raw := output ++ post;
                      size := lenZ (output ++ post); headers := hs |} in
       exists hs, read_cpio fuel (c []) = Ret (lenZ output, c hs)
                  /\ Forall2 same_entry (map fst demo_archive) hs.
Proof. apply (write_read_roundtrip demo_archive demo_archive_wf). vm_compute. reflexivity. Defined.

(** C15. read_cpio is safe and terminates, but for the comparison of the magic. If the
    size is below 2^63 and every header that the loop reaches and that lies inside the
    archive has hexadecimal digits in its fields, then [size / 112 + 1] rounds are enough.
    The call ends with one of its error messages, or with an offset below size + 512 and
    a list of headers whose names and bodies all lie inside the buffer, without a
    read outside of the buffer. The one exception is a rest of less than six bytes behind
    the last entry: the magic is compared before the size is checked, and this reads
    up to five bytes behind the archive, outside of a buffer that ends there. *)
Theorem read_cpio_safe fuel a :
  0 <= size a < 2 ^ 63 -> size a <= lenZ (raw a) -> headers a = [] ->
  (forall o, visited (raw a) (size a) o -> o + 110 <= size a -> hex_header (dropZ o (raw a))) ->
  size a / 112 < Z.of_nat fuel ->
  (exists msg, read_cpio fuel a = Die EXIT_FAILURE msg)
  \/ (read_cpio fuel a = Undef /\ exists o, visited (raw a) (size a) o /\ 0 <= o < size a /\ lenZ (raw a) < o + 6)
  \/ (exists offset a', read_cpio fuel a = Ret (offset, a')
      /\ Forall in_archive (headers a') /\ 0 <= offset < size a + 512
      /\ (0 < size a -> 112 <= offset)).
Proof.
  intros Hs Hraw Hnil Hhex Hf. unfold read_cpio. rewrite Hnil.
  destruct (read_loop_hex (raw a) (size a) ltac:(lia) Hraw Hhex fuel [] 0)
    as [[msg ->]|[[-> Hu]|(hs & o & -> & Hhs & Ho & Hlt)]]; try done; try lia.
  - constructor.
  - by rewrite Z.sub_0_r.
  - left. by eexists.
  - by right; left.
  - right; right. do 2 eexists. split; [done|]. split_and!; done || lia.
Qed.

Lemma demo_visited o : visited (raw demo_cpio) (size demo_cpio) o ->
  o = 0 \/ o = 116 \/ o = 240.
Proof.
  induction 1 as [|o hs hs' o' Hv IH Hlt Hit]; [auto|].
  destruct IH as [->|[->| ->]]; vm_compute in Hit; simplify_eq; auto.
Qed.

Lemma read_cpio_safe_witness :
  (exists msg, read_cpio 4 demo_cpio = Die EXIT_FAILURE msg)
  \/ (read_cpio 4 demo_cpio = Undef /\ exists o, visited (raw demo_cpio) (size demo_cpio) o /\ 0 <= o < size demo_cpio /\ lenZ (raw demo_cpio) < o + 6)
  \/ (exists offset a', read_cpio 4 demo_cpio = Ret (offset, a')
      /\ Forall in_archive (headers a') /\ 0 <= offset < size demo_cpio + 512
      /\ (0 < size demo_cpio -> 112 <= offset)).
Proof.
  apply (read_cpio_safe 4 demo_cpio).
  - vm_compute. split; [discriminate|reflexivity].
  - vm_compute. discriminate.
  - reflexivity.
  - intros o Ho _. apply demo_visited in Ho as [->|[->| ->]]; apply hex_header_bool; vm_compute; reflexivity.
  - vm_compute. reflexivity.
Defined.

(** The exception is real: of an archive that is cut one byte behind an entry, the
    comparison of the magic reads bytes that the buffer does not have. *)
Theorem read_cpio_overread fuel : (1 < fuel)%nat ->
  let raw := takeZ 117 (raw demo_cpio) in
  lenZ raw = 117 /\ read_cpio fuel {| type := CPIO_ARCHIVE; compress := compress demo_cpio; raw := raw; size := 117; headers := [] |} = Undef.
Proof. intros Hf. destruct fuel as [|[|fuel]]; [lia..|]. split; vm_compute; reflexivity. Qed.

(** The condition on the fields cannot be dropped. strtoul accepts a sign, and
    the check of line 119 is on the wrapped sum: there is an archive of 130 bytes,
    whose only header announces a body of "-0000070" bytes, on which the offset
    comes back to 0 after the first entry and the loop of read_cpio never ends. *)
Theorem read_cpio_loops :
  lenZ looping_archive = 130 /\
  forall fuel cmp,
    read_cpio fuel {| type := CPIO_ARCHIVE; compress := cmp; raw := looping_archive;
                      size := 130; headers := [] |} = NoFuel.
Proof.
  split; [vm_compute; done|]. intros fuel cmp. unfold read_cpio. cbn [raw size headers].
  enough (forall hs, read_cpio_loop fuel looping_archive 130 hs 0 = NoFuel) as -> by done.
  induction fuel as [|fuel IH]; intros hs; [done|]. cbn [read_cpio_loop].
  assert (exists h, read_cpio_iter looping_archive 130 hs 0 = Ret (hs ++ [h], 0, false))
    as [h ->] by (eexists; vm_compute; reflexivity).
  cbn [obind]. apply IH.
Qed.
