(* ===== verification/Decompress.v ===== *)
(** The decompressors (src/utils/initrd-decompress*.c).

    zlib, libbz2, liblzma and libzstd are not part of the sources: a library is
    a [StreamDecoder] or a [ZstdDecoder], the operations the wrappers call, and
    the documented behaviour the wrappers rely on is a [decoder_spec] or a
    [zstd_spec]. The wrappers themselves, and the table of formats, are
    translated. The result of a wrapper is [Some (unpack, inread)] for DECOMP_OK
    and [None] for DECOMP_FAIL. *)

From Stdlib Require Import ZArith Ascii String Lia.
From stdpp Require Import base list strings gmap tactics numbers.
From S2P Require Import Prelude.

Open Scope Z_scope.
Open Scope cprog_scope.

Definition CHUNK : Z := 16384.

(** The status of a call of inflate, BZ2_bzDecompress or lzma_code. *)
Inductive dret := D_OK | D_STREAM_END | D_OTHER.

(** The stream object of a library. [dcode] is one call with an output buffer of
    CHUNK bytes: the status, the bytes written to the buffer, the next state. *)
Class StreamDecoder := {
  dstate : Type;
  dinit : bytes -> option dstate;
  dcode : dstate -> dret * bytes * dstate;
  dtotal_in : dstate -> Z;
  dtotal_in_hi32 : dstate -> Z;
  dtotal_in_lo32 : dstate -> Z;
}.

Section Wrappers.
Context {D : StreamDecoder}.

(** The do-while loop the three wrappers share: the last status, the stream, the
    output and its size. *)
Fixpoint chunk_loop (fuel : nat) (strm : dstate) (unpack : bytes) (out_size : Z)
  : out (dret * dstate * bytes * Z) :=
  match fuel with
  | O => NoFuel
  | S f =>
      match dcode strm with
      | (D_OTHER, _, strm) => Ret (D_OTHER, strm, unpack, out_size)
      | (ret, obuf, strm) =>
          let avail_out := CHUNK - lenZ obuf in
          let have := CHUNK - avail_out in
          let out_size := u64 (out_size + have) in
          let unpack := unpack ++ obuf in
          if avail_out =? 0 then chunk_loop f strm unpack out_size
          else Ret (ret, strm, unpack, out_size)
      end
  end.

Definition decomp_result (ret : dret) (unpack : bytes) (inread : Z) : option (bytes * Z) :=
  match ret with D_STREAM_END => Some (unpack, inread) | _ => None end.

Definition gunzip (fuel : nat) (inbuf : bytes) (in_size : Z) : out (option (bytes * Z)) :=
  match dinit (takeZ (u32 in_size) inbuf) with
  | None => Ret None
  | Some strm =>
      let! (ret, strm, unpack, _) := chunk_loop fuel strm [] 0 in
      Ret (decomp_result ret unpack (u64 (dtotal_in strm)))
  end.

Definition unlzma (fuel : nat) (inbuf : bytes) (in_size : Z) : out (option (bytes * Z)) :=
  match dinit (takeZ in_size inbuf) with
  | None => Ret None
  | Some strm =>
      let! (ret, strm, unpack, _) := chunk_loop fuel strm [] 0 in
      Ret (decomp_result ret unpack (u64 (dtotal_in strm)))
  end.

Definition bunzip2 (fuel : nat) (inbuf : bytes) (in_size : Z) : out (option (bytes * Z)) :=
  match dinit (takeZ (u32 in_size) inbuf) with
  | None => Ret None
  | Some strm =>
      let! (ret, strm, unpack, _) := chunk_loop fuel strm [] 0 in
      let total_in_hi32 := dtotal_in_hi32 strm in
      let inread := u64 (u64 (Z.shiftl total_in_hi32 32) + dtotal_in_lo32 strm) in
      Ret (decomp_result ret unpack inread)
  end.

(** What the library documentation promises about decoding [input] into
    [payload], of which it consumes [n] bytes: [pending st p] when [p] is still to
    be delivered, [ended st] once the end of the stream has been reported. A call
    fills the output buffer if it can. When the end of the payload and the end of
    the buffer coincide, the end may be reported at once or by the next call. A
    call after the end returns [after_end]: zlib and liblzma report the end again,
    libbz2 reports a sequence error. *)
Record decoder_spec (after_end : dret) (input payload : bytes) (n : Z)
    (pending : dstate -> bytes -> Prop) (ended : dstate -> Prop) : Prop := {
  ds_init : exists st, dinit input = Some st /\ pending st payload;
  ds_more st p : pending st p -> CHUNK < lenZ p ->
    exists st', dcode st = (D_OK, takeZ CHUNK p, st') /\ pending st' (dropZ CHUNK p);
  ds_full st p : pending st p -> lenZ p = CHUNK ->
    exists st', (dcode st = (D_STREAM_END, p, st') /\ ended st')
                \/ (dcode st = (D_OK, p, st') /\ pending st' []);
  ds_last st p : pending st p -> lenZ p < CHUNK ->
    exists st', dcode st = (D_STREAM_END, p, st') /\ ended st';
  ds_ended st : ended st -> dcode st = (after_end, [], st);
  ds_total st : ended st -> dtotal_in st = n
    /\ dtotal_in_hi32 st = n / 2 ^ 32 /\ dtotal_in_lo32 st = n mod 2 ^ 32;
}.

End Wrappers.

(** ** libzstd *)

(** A call of ZSTD_decompressStream on the unread part of the input buffer, with
    an output buffer of ZSTD_DStreamOutSize() bytes. *)
Inductive zret (S : Type) :=
  | ZError
  | ZOk (hint : Z) (produced : bytes) (consumed : Z) (st : S).
Arguments ZError {S}.
Arguments ZOk {S}.

Class ZstdDecoder := {
  zstate : Type;
  zcreate : option zstate;
  ZSTD_DStreamInSize : Z;
  zcode : zstate -> bytes -> zret zstate;
}.

Section Zstd.
Context {D : ZstdDecoder}.

(** [while (input.pos < input.size)]; [None] is [goto out]. [to_read] is the
    variable of the outer loop, which the call overwrites. *)
Fixpoint zstd_inner (fuel : nat) (ds : zstate) (input : bytes) (unpack : bytes) (to_read : Z)
  : out (option (zstate * bytes * Z)) :=
  match fuel with
  | O => NoFuel
  | S f =>
      if 0 <? lenZ input then
        match zcode ds input with
        | ZError => Ret None
        | ZOk to_read produced consumed ds =>
            if ULONG_MAX - lenZ produced <? lenZ unpack then Ret None
            else zstd_inner f ds (dropZ consumed input) (unpack ++ produced) to_read
        end
      else Ret (Some (ds, unpack, to_read))
  end.

Fixpoint zstd_outer (fuel : nat) (ds : zstate) (inbuf : bytes) (in_size : Z) (buff_size : Z)
    (pos to_read : Z) (unpack : bytes) : out (option bytes) :=
  match fuel with
  | O => NoFuel
  | S f =>
      if pos <? in_size then
        let bytes_read := if in_size - pos <? to_read then in_size - pos else to_read in
        if (buff_size <? bytes_read) || (lenZ inbuf - pos <? bytes_read) then Undef else
        let input := takeZ bytes_read (dropZ pos inbuf) in
        let pos := u64 (pos + bytes_read) in
        let! r := zstd_inner fuel ds input unpack to_read in
        match r with
        | None => Ret None
        | Some (ds, unpack, to_read) => zstd_outer f ds inbuf in_size buff_size pos to_read unpack
        end
      else Ret (Some unpack)
  end.

Definition unzstd (fuel : nat) (inbuf : bytes) (in_size : Z) : out (option (bytes * Z)) :=
  match zcreate with
  | None => Ret None
  | Some dstream =>
      let to_read := ZSTD_DStreamInSize in
      let! r := zstd_outer fuel dstream inbuf in_size to_read 0 to_read [] in
      Ret (option_map (fun unpack => (unpack, in_size)) r)
  end.

(** The documented behaviour on one frame: [zpending st rest p] when the bytes
    [rest] of the frame are still to be read and [p] is still to be delivered. A
    call makes progress on at least one of them, and never holds output back once
    it has taken the last byte of the frame. The value it returns is 0 exactly when
    the frame is complete, and otherwise the size of the next read, at most
    ZSTD_DStreamInSize() and never more than what is left of the frame. *)
Record zstd_spec (zpending : zstate -> bytes -> bytes -> Prop) (frame payload : bytes) : Prop := {
  zs_in_size : 0 < ZSTD_DStreamInSize;
  zs_create : exists st, zcreate = Some st /\ zpending st frame payload;
  zs_step st i r p : zpending st (i ++ r) p -> i <> [] ->
    exists hint produced consumed p' st',
      zcode st i = ZOk hint produced consumed st'
      /\ 0 <= consumed <= lenZ i /\ p = produced ++ p'
      /\ zpending st' (dropZ consumed (i ++ r)) p'
      /\ lenZ (dropZ consumed (i ++ r)) + lenZ p' < lenZ (i ++ r) + lenZ p
      /\ 0 <= hint <= ZSTD_DStreamInSize /\ hint <= lenZ (dropZ consumed (i ++ r))
      /\ (hint = 0 <-> dropZ consumed (i ++ r) = []);
  zs_done st p : zpending st [] p -> p = [];
}.

End Zstd.

(** ** The table of formats (initrd-decompress.c) *)

Inductive decompress_fn := Gunzip | Bunzip2 | Unlzma | Unzstd.

Global Instance decompress_fn_eq_dec : EqDecision decompress_fn.
Proof. solve_decision. Defined.

(** The HAVE_* macros of the build. *)
Record build := { HAVE_GZIP : bool; HAVE_BZIP2 : bool; HAVE_LZMA : bool; HAVE_ZSTD : bool }.

Record compress_format := {
  magic : bytes;
  cf_name : string;
  decompressor : option decompress_fn;
}.

Definition magic2 (a b : nat) : bytes := [ascii_of_nat a; ascii_of_nat b].

Definition compressed_formats (b : build) : list compress_format :=
  (if HAVE_GZIP b then
     [{| magic := magic2 31 139; cf_name := "gzip"; decompressor := Some Gunzip |};
      {| magic := magic2 31 158; cf_name := "gzip"; decompressor := Some Gunzip |}] else [])
  ++ (if HAVE_BZIP2 b then
     [{| magic := magic2 66 90; cf_name := "bzip2"; decompressor := Some Bunzip2 |}] else [])
  ++ (if HAVE_LZMA b then
     [{| magic := magic2 93 0; cf_name := "lzma"; decompressor := None |};
      {| magic := magic2 253 55; cf_name := "xz"; decompressor := Some Unlzma |}] else [])
  ++ (if HAVE_ZSTD b then
     [{| magic := magic2 40 181; cf_name := "zstd"; decompressor := Some Unzstd |}] else [])
  ++ [{| magic := magic2 137 76; cf_name := "lzo"; decompressor := None |};
      {| magic := magic2 2 33; cf_name := "lz4"; decompressor := None |}].

(** The scan up to the entry whose name is NULL. *)
Fixpoint find_format (cfs : list compress_format) (inbuf : bytes) : option compress_format :=
  match cfs with
  | [] => None
  | cf :: cfs => if decide (take 2 inbuf = magic cf) then Some cf else find_format cfs inbuf
  end.

(** The name stored through the pointer, the function returned, and what is
    printed on stdout. *)
Definition decompress_method (b : build) (inbuf : bytes) (len : Z)
  : out (option string * option decompress_fn * bytes) :=
  if len <? 2 then Ret (None, None, [])
  else if lenZ inbuf <? 2 then Undef
  else match find_format (compressed_formats b) inbuf with
       | None => Ret (None, None, [])
       | Some cf =>
           let msg := match decompressor cf with
                      | None => #"Decompression of '" ++ #(cf_name cf) ++ #"' is not supported" ++ [ascii_of_nat 10]
                      | Some _ => []
                      end in
           Ret (Some (cf_name cf), decompressor cf, msg)
       end.

(** What the parser needs of the four functions. *)
Class Decompressors := run_decompress : decompress_fn -> bytes -> Z -> out (option (bytes * Z)).

(** The functions of this file, linked with the four libraries. *)
Definition linked_decompressors (fuel : nat) (zlib bz2 lzma : StreamDecoder) (zstd : ZstdDecoder)
  : Decompressors := fun fn inbuf in_size =>
  match fn with
  | Gunzip => @gunzip zlib fuel inbuf in_size
  | Bunzip2 => @bunzip2 bz2 fuel inbuf in_size
  | Unlzma => @unlzma lzma fuel inbuf in_size
  | Unzstd => @unzstd zstd fuel inbuf in_size
  end.

(** [fn] unpacks [blob] into [payload] whatever follows it, inside the announced
    size and after it, and says how long the blob was: the contract the parser of the image relies on. *)
Definition unpacks {R : Decompressors} (fn : decompress_fn) (blob payload : bytes) : Prop :=
  forall rest post, lenZ (blob ++ rest) < 2 ^ 32 ->
    run_decompress fn (blob ++ rest ++ post) (lenZ (blob ++ rest)) = Ret (Some (payload, lenZ blob)).

(** ** Example libraries

    [toy_decoder] delivers what [decode] says of the input; it reports the end of
    the stream together with the last bytes, and answers [after] from then on.
    [stored_zstd] is a frame decoder whose compressed format is the data itself. *)

Definition toy_decoder (after : dret) (decode : bytes -> bytes * Z) : StreamDecoder := {|
  dstate := option bytes * Z;
  dinit input := Some (Some (decode input).1, (decode input).2);
  dcode st :=
    match st.1 with
    | None => (after, [], st)
    | Some p => if CHUNK <? lenZ p then (D_OK, takeZ CHUNK p, (Some (dropZ CHUNK p), st.2))
                else (D_STREAM_END, p, (None, st.2))
    end;
  dtotal_in st := st.2;
  dtotal_in_hi32 st := st.2 / 2 ^ 32;
  dtotal_in_lo32 st := st.2 mod 2 ^ 32;
|}.

Definition toy_pending after decode (n : Z) (st : @dstate (toy_decoder after decode)) (p : bytes) : Prop :=
  st = (Some p, n).
Definition toy_ended after decode (n : Z) (st : @dstate (toy_decoder after decode)) : Prop :=
  st = (None, n).

Definition stored (input : bytes) : bytes * Z := (input, lenZ input).

(** The state is the number of bytes of the frame still to come. *)
Definition stored_zstd (frame_len : Z) : ZstdDecoder := {|
  zstate := Z;
  zcreate := Some frame_len;
  ZSTD_DStreamInSize := 16;
  zcode st input :=
    let n := Z.min st (lenZ input) in
    if st =? 0 then ZError
    else ZOk (Z.min 16 (st - n)) (takeZ n input) n (st - n);
|}.

Definition stored_zpending (n : Z) (st : @zstate (stored_zstd n)) (rest p : bytes) : Prop :=
  (st : Z) = lenZ rest /\ p = rest.

(** ** The chunk loop delivers the payload *)

Section Chunks.
Context {D : StreamDecoder}.
Context (after_end : dret) (input payload : bytes) (n : Z).
Context (pending : dstate -> bytes -> Prop) (ended : dstate -> Prop).
Context (spec : decoder_spec after_end input payload n pending ended).

Lemma chunk_loop_step f st p unpack size :
  pending st p -> CHUNK < lenZ p ->
  exists st' size', chunk_loop (S f) st unpack size
    = chunk_loop f st' (unpack ++ takeZ CHUNK p) size' /\ pending st' (dropZ CHUNK p).
Proof using spec.
  intros Hp Hl. destruct (ds_more _ _ _ _ _ _ spec _ _ Hp Hl) as (st' & Hc & Hp').
  cbn [chunk_loop]. rewrite Hc, lenZ_takeZ by (unfold CHUNK in *; lia).
  do 2 eexists. split; [|exact Hp']. by rewrite Z.sub_diag.
Qed.

Lemma chunk_loop_last f st p unpack size :
  pending st p -> lenZ p < CHUNK ->
  exists st' size', chunk_loop (S f) st unpack size = Ret (D_STREAM_END, st', unpack ++ p, size')
    /\ ended st'.
Proof using spec.
  intros Hp Hl. destruct (ds_last _ _ _ _ _ _ spec _ _ Hp Hl) as (st' & Hc & He).
  cbn [chunk_loop]. rewrite Hc, (proj2 (Z.eqb_neq _ 0)) by lia. by do 2 eexists.
Qed.

Lemma lenZ_dropZ_chunk {A} (p : list A) : CHUNK < lenZ p ->
  lenZ (dropZ CHUNK p) = lenZ p - CHUNK /\ lenZ p / CHUNK = lenZ (dropZ CHUNK p) / CHUNK + 1
  /\ lenZ p mod CHUNK = lenZ (dropZ CHUNK p) mod CHUNK /\ takeZ CHUNK p ++ dropZ CHUNK p = p.
Proof.
  intros Hl. rewrite takeZ_dropZ, lenZ_dropZ by (unfold CHUNK in *; lia).
  unfold CHUNK in *. split_and!; [done|mlia..|done].
Qed.

Lemma chunk_loop_ok fuel : forall st p unpack size,
  pending st p -> lenZ p / CHUNK + 1 < Z.of_nat fuel ->
  after_end = D_STREAM_END \/ lenZ p mod CHUNK <> 0 \/ p = [] ->
  exists st' size', chunk_loop fuel st unpack size = Ret (D_STREAM_END, st', unpack ++ p, size')
    /\ ended st'.
Proof using spec.
  induction fuel as [|f IH]; intros st p unpack size Hp Hf Hc.
  { pose proof (lenZ_nonneg p). unfold CHUNK in *. mlia. }
  pose proof (lenZ_nonneg p) as H0. destruct (Z.lt_trichotomy (lenZ p) CHUNK) as [Hl|[Hl|Hl]].
  - by apply chunk_loop_last.
  - destruct (ds_full _ _ _ _ _ _ spec _ _ Hp Hl) as (st' & [[Hd He]|[Hd Hp']]);
      cbn [chunk_loop]; rewrite Hd, Hl, Z.sub_diag; cbn beta iota zeta; change (0 =? 0) with true;
      cbn beta iota.
    + destruct Hc as [Hc|[Hc| ->]]; [|by rewrite Hl in Hc|by cbn in Hl].
      destruct f as [|f]; [rewrite Hl in Hf; change (CHUNK / CHUNK) with 1 in Hf; lia|].
      cbn [chunk_loop]. rewrite (ds_ended _ _ _ _ _ _ spec _ He), Hc. change (lenZ []) with 0.
      change (CHUNK - 0 =? 0) with false. cbn beta iota. rewrite app_nil_r. by do 2 eexists.
    + destruct f as [|f]; [rewrite Hl in Hf; change (CHUNK / CHUNK) with 1 in Hf; lia|].
      destruct (chunk_loop_last f st' [] (unpack ++ p) (u64 (size + (CHUNK - 0))) Hp')
        as (st'' & size' & -> & He); [done|]. rewrite app_nil_r. by do 2 eexists.
  - destruct (chunk_loop_step f st p unpack size Hp Hl) as (st' & size' & -> & Hp').
    destruct (lenZ_dropZ_chunk p Hl) as (H1 & H2 & H3 & H4).
    destruct (IH st' (dropZ CHUNK p) (unpack ++ takeZ CHUNK p) size' Hp') as (st'' & sz & -> & He).
    + lia.
    + destruct Hc as [Hc|[Hc| ->]]; [by left|right; left; congruence|by cbn in Hl].
    + rewrite <- app_assoc, H4. by do 2 eexists.
Qed.

(** A decoder that reports the end with a full buffer is called once more. *)
Lemma chunk_loop_seq_error fuel :
  after_end = D_OTHER ->
  (forall st p, pending st p -> lenZ p = CHUNK ->
     exists st', dcode st = (D_STREAM_END, p, st') /\ ended st') ->
  forall st p unpack size,
  pending st p -> lenZ p / CHUNK + 1 < Z.of_nat fuel -> lenZ p mod CHUNK = 0 -> p <> [] ->
  exists st' size' out, chunk_loop fuel st unpack size = Ret (D_OTHER, st', out, size').
Proof using spec.
  intros Ha Heager. induction fuel as [|f IH]; intros st p unpack size Hp Hf Hm Hne.
  { pose proof (lenZ_nonneg p). unfold CHUNK in *. mlia. }
  destruct (Z.lt_trichotomy (lenZ p) CHUNK) as [Hl|[Hl|Hl]].
  - pose proof (lenZ_nonneg p). rewrite Z.mod_small in Hm by lia. by destruct p.
  - destruct (Heager st p Hp Hl) as (st' & Hd & He). cbn [chunk_loop].
    rewrite Hd, Hl, Z.sub_diag. change (0 =? 0) with true. cbn beta iota zeta.
    destruct f as [|f]; [rewrite Hl in Hf; change (CHUNK / CHUNK) with 1 in Hf; lia|].
    cbn [chunk_loop]. rewrite (ds_ended _ _ _ _ _ _ spec _ He), Ha. by do 3 eexists.
  - destruct (chunk_loop_step f st p unpack size Hp Hl) as (st' & size' & -> & Hp').
    destruct (lenZ_dropZ_chunk p Hl) as (H1 & H2 & H3 & H4).
    apply (IH st' (dropZ CHUNK p)); [done|lia|congruence|]. intros Hnil. rewrite Hnil in H1. change (lenZ []) with 0 in H1. lia.
Qed.

End Chunks.

(** ** The zstd loops *)

Section ZstdLoops.
Context {D : ZstdDecoder}.
Context (zpending : zstate -> bytes -> bytes -> Prop) (frame payload : bytes).
Context (spec : zstd_spec zpending frame payload).

Lemma zstd_inner_ok fuel : forall st i r p unpack to_read,
  zpending st (i ++ r) p -> lenZ unpack + lenZ p <= ULONG_MAX ->
  (i = [] -> 0 <= to_read <= ZSTD_DStreamInSize /\ to_read <= lenZ r /\ (to_read = 0 <-> r = [])) ->
  (zstd_inner fuel st i unpack to_read = NoFuel /\ Z.of_nat fuel <= lenZ (i ++ r) + lenZ p)
  \/ exists st' p' produced to_read',
    zstd_inner fuel st i unpack to_read = Ret (Some (st', unpack ++ produced, to_read'))
    /\ p = produced ++ p' /\ zpending st' r p'
    /\ 0 <= to_read' <= ZSTD_DStreamInSize /\ to_read' <= lenZ r /\ (to_read' = 0 <-> r = []).
Proof using spec.
  induction fuel as [|f IH]; intros st i r p unpack to_read Hp Hmax Hti.
  { pose proof (lenZ_nonneg (i ++ r)). pose proof (lenZ_nonneg p). left. split; [done|lia]. }
  cbn [zstd_inner]. case_match eqn:E; unbool.
  - destruct (zs_step _ _ _ spec st i r p Hp)
      as (hint & o & c & p' & st' & -> & Hc & -> & Hp' & Hlt & Hh & Hh' & Hz).
    { intros ->. by cbn in E. }
    rewrite !lenZ_app in *. pose proof (lenZ_nonneg p').
    rewrite (proj2 (Z.ltb_ge _ _)) by lia.
    rewrite dropZ_app_le in Hp', Hlt, Hz, Hh' by lia.
    destruct (IH st' (dropZ c i) r p' (unpack ++ o) hint)
      as [[-> Hf]|(st'' & p'' & o' & t' & -> & -> & Hres)];
      [done|rewrite !lenZ_app in *; lia| | |].
    { intros Hnil. rewrite Hnil in *. done. }
    { left. split; [done|]. rewrite !lenZ_app in *. lia. }
    right. exists st'', p'', (o ++ o'), t'. rewrite <- !app_assoc. done.
  - assert (i = []) as -> by (destruct i; [done|]; rewrite lenZ_cons in E; pose proof (lenZ_nonneg i); lia).
    right. exists st, p, [], to_read. rewrite app_nil_r. naive_solver.
Qed.

(** One round of the outer loop, inside the frame; [trail] follows the frame. *)
Lemma zstd_outer_step f st pre rest trail p unpack to_read :
  zpending st rest p -> rest <> [] ->
  lenZ (pre ++ rest ++ trail) < 2 ^ 63 -> lenZ unpack + lenZ p <= ULONG_MAX ->
  0 < to_read <= ZSTD_DStreamInSize -> (trail = [] \/ to_read <= lenZ rest) ->
  let run f pre rest st to_read unpack :=
    zstd_outer f st (pre ++ rest ++ trail) (lenZ (pre ++ rest ++ trail)) ZSTD_DStreamInSize
      (lenZ pre) to_read unpack in
  (run (S f) pre rest st to_read unpack = NoFuel /\ Z.of_nat (S f) <= lenZ rest + lenZ p)
  \/ exists i r st' p' o to_read',
    run (S f) pre rest st to_read unpack = run f (pre ++ i) r st' to_read' (unpack ++ o)
    /\ rest = i ++ r /\ 0 < lenZ i /\ p = o ++ p' /\ zpending st' r p'
    /\ 0 <= to_read' <= ZSTD_DStreamInSize /\ to_read' <= lenZ r /\ (to_read' = 0 <-> r = []).
Proof using spec.
  intros Hp Hne Hsz Hmax Ht Htr run. unfold run at 1 2. cbn [zstd_outer]. rewrite !lenZ_app in *.
  pose proof (lenZ_nonneg pre). pose proof (lenZ_nonneg trail) as H0.
  assert (0 < lenZ rest) by (destruct rest; [done|]; rewrite lenZ_cons; pose proof (lenZ_nonneg rest); lia).
  rewrite (proj2 (Z.ltb_lt (lenZ pre) _)) by lia.
  set (br := if _ <? to_read then _ else _).
  assert (0 < br <= lenZ rest /\ br <= ZSTD_DStreamInSize) as [Hbr Hbr'].
  { unfold br. destruct Htr as [-> |Htr]; [change (lenZ []) with 0 in *|];
      case_match eqn:E; unbool; lia. }
  rewrite (proj2 (Z.ltb_ge ZSTD_DStreamInSize br)), (proj2 (Z.ltb_ge _ br)) by lia. cbn [orb].
  rewrite dropZ_app, u64_small by lia.
  pose proof (takeZ_dropZ br rest ltac:(lia)) as Hsplit.
  pose proof (lenZ_takeZ br rest ltac:(lia)) as Hi.
  set (i := takeZ br rest) in *. set (r := dropZ br rest) in *. clearbody i r br. subst rest.
  rewrite <- app_assoc, takeZ_app by done.
  destruct (zstd_inner_ok (S f) st i r p unpack to_read Hp)
    as [[-> Hf]|(st' & p' & o & t' & -> & -> & Hp' & Ht' & Hti')]; [lia| | |].
  { intros ->. change (lenZ []) with 0 in Hi. lia. }
  { left. rewrite !lenZ_app in *. done. }
  right. exists i, r, st', p', o, t'. cbn [obind]. split.
  { unfold run. rewrite <- !app_assoc, !lenZ_app, Hi, !Z.add_assoc. done. }
  do 2 (split; [done || lia|]). done.
Qed.

Lemma zstd_outer_ok fuel : forall st pre rest p unpack to_read,
  zpending st rest p -> lenZ rest + lenZ p < Z.of_nat fuel ->
  lenZ (pre ++ rest) < 2 ^ 63 -> lenZ unpack + lenZ p <= ULONG_MAX ->
  0 <= to_read <= ZSTD_DStreamInSize -> (to_read = 0 -> rest = []) ->
  zstd_outer fuel st (pre ++ rest) (lenZ (pre ++ rest)) ZSTD_DStreamInSize (lenZ pre) to_read unpack
  = Ret (Some (unpack ++ p)).
Proof using spec.
  induction fuel as [|f IH]; intros st pre rest p unpack to_read Hp Hf Hsz Hmax Ht Hti.
  { pose proof (lenZ_nonneg rest). pose proof (lenZ_nonneg p). lia. }
  destruct (decide (rest = [])) as [->|Hne].
  { cbn [zstd_outer]. rewrite app_nil_r, Z.ltb_irrefl.
    rewrite (zs_done _ _ _ spec _ _ Hp), app_nil_r. done. }
  assert (to_read <> 0) by naive_solver.
  pose proof (zstd_outer_step f st pre rest [] p unpack to_read Hp Hne) as Hs.
  cbv zeta in Hs. rewrite !(app_nil_r rest) in Hs.
  destruct (Hs Hsz Hmax ltac:(lia) (or_introl eq_refl))
    as [[-> Hbad]|(i & r & st' & p' & o & t' & -> & -> & Hi & -> & Hp' & Ht' & Htr & Hz)]; [lia|].
  clear Hs. pose proof (lenZ_nonneg o). rewrite app_nil_r.
  rewrite (IH st' (pre ++ i) r p');
    [by rewrite <- app_assoc|done|autorewrite with lenz in *; lia..|lia|by apply Hz].
Qed.

(** With bytes after the frame, the loop reaches its end with [to_read = 0]. *)
Lemma zstd_outer_stuck fuel trail : trail <> [] -> forall st pre rest p unpack to_read,
  zpending st rest p -> lenZ (pre ++ rest ++ trail) < 2 ^ 63 ->
  lenZ unpack + lenZ p <= ULONG_MAX ->
  0 <= to_read <= ZSTD_DStreamInSize -> to_read <= lenZ rest -> (to_read = 0 <-> rest = []) ->
  zstd_outer fuel st (pre ++ rest ++ trail) (lenZ (pre ++ rest ++ trail)) ZSTD_DStreamInSize
    (lenZ pre) to_read unpack = NoFuel.
Proof using spec.
  intros Htrail. induction fuel as [|f IH]; [done|]. intros st pre rest p unpack to_read Hp Hsz Hmax Ht Htr Hti.
  destruct (decide (rest = [])) as [->|Hne].
  - assert (to_read = 0) as -> by naive_solver. pose proof (lenZ_nonneg pre).
    assert (0 < lenZ trail) by (destruct trail; [done|]; rewrite lenZ_cons; pose proof (lenZ_nonneg trail); lia).
    cbn [app] in *. specialize (IH st pre [] p unpack 0 Hp Hsz Hmax Ht Htr Hti). cbn [app] in IH.
    cbn [zstd_outer zstd_inner]. rewrite !lenZ_app in *. rewrite (proj2 (Z.ltb_lt _ _)) by lia.
    rewrite (proj2 (Z.ltb_ge (lenZ pre + lenZ trail - lenZ pre) 0)) by lia.
    rewrite (proj2 (Z.ltb_ge _ 0)), (proj2 (Z.ltb_ge _ 0)) by lia.
    cbn [orb]. unfold takeZ. rewrite (proj2 (Z.leb_le _ _)) by apply lenZ_nonneg.
    change (take (Z.to_nat 0) _) with (@nil ascii). change (0 <? lenZ []) with false. cbn [obind].
    rewrite Z.add_0_r, u64_small by lia. exact IH.
  - destruct (zstd_outer_step f st pre rest trail p unpack to_read Hp Hne Hsz Hmax)
      as [[-> _]|(i & r & st' & p' & o & t' & -> & -> & Hi & -> & Hp' & Ht' & Htr' & Hz)];
      [assert (to_read <> 0) by naive_solver; lia|by right|done|].
    apply (IH st' (pre ++ i) r p'); [done|autorewrite with lenz in *; lia..|lia|lia|done].
Qed.

End ZstdLoops.

(** ** The example libraries meet their specifications *)

Lemma toy_decoder_spec after decode input p n :
  decode input = (p, n) ->
  @decoder_spec (toy_decoder after decode) after input p n
    (toy_pending after decode n) (toy_ended after decode n).
Proof.
  intros Hd. constructor; cbn; rewrite ?Hd.
  - by eexists.
  - intros st q -> Hl. cbn. rewrite (proj2 (Z.ltb_lt _ _)) by done. by eexists.
  - intros st q -> Hl. cbn. rewrite (proj2 (Z.ltb_ge _ _)) by lia. eexists. by left.
  - intros st q -> Hl. cbn. rewrite (proj2 (Z.ltb_ge _ _)) by lia. by eexists.
  - intros st Hst. red in Hst. subst st. reflexivity.
  - intros st Hst. red in Hst. subst st. split_and!; reflexivity.
Qed.

Lemma stored_zstd_spec frame : @zstd_spec (stored_zstd (lenZ frame)) (stored_zpending (lenZ frame)) frame frame.
Proof.
  constructor; cbn; [done|by eexists| |].
  - intros st i r p [-> ->] Hi.
    assert (0 < lenZ i) by (destruct i; [done|]; rewrite lenZ_cons; pose proof (lenZ_nonneg i); lia).
    rewrite lenZ_app. pose proof (lenZ_nonneg r).
    rewrite (proj2 (Z.eqb_neq _ 0)), (Z.min_r _ (lenZ i)) by lia.
    rewrite (takeZ_all i).
    exists (Z.min 16 (lenZ i + lenZ r - lenZ i)), i, (lenZ i), r, (lenZ i + lenZ r - lenZ i).
    split; [done|]. rewrite dropZ_app. unfold stored_zpending. split_and!; try done; try lia. split.
    + intros H1. destruct r; [done|]. rewrite lenZ_cons in *. pose proof (lenZ_nonneg r). lia.
    + intros ->. change (lenZ []) with 0 in *. lia.
  - by intros st p [_ ->].
Qed.

Section Payload.
Context {D : StreamDecoder}.
Context (inbuf payload : bytes) (n : Z) (pending : dstate -> bytes -> Prop) (ended : dstate -> Prop).
Context (spec : decoder_spec D_STREAM_END inbuf payload n pending ended) (Hn : 0 <= n < 2 ^ 64).

Lemma chunked_payload fuel : lenZ payload / CHUNK + 1 < Z.of_nat fuel ->
  exists strm st' size, dinit inbuf = Some strm
  /\ chunk_loop fuel strm [] 0 = Ret (D_STREAM_END, st', payload, size) /\ u64 (dtotal_in st') = n.
Proof using spec Hn.
  intros Hf. destruct (ds_init _ _ _ _ _ _ spec) as (st & Hi & Hp).
  destruct (chunk_loop_ok _ _ _ _ _ _ spec fuel st payload [] 0 Hp Hf (or_introl eq_refl))
    as (st' & size' & Hl & He).
  exists st, st', size'. split_and!; [done|done|].
  destruct (ds_total _ _ _ _ _ _ spec _ He) as [-> _]. by rewrite u64_small.
Qed.

Lemma gunzip_ok fuel post : lenZ inbuf < 2 ^ 32 -> lenZ payload / CHUNK + 1 < Z.of_nat fuel ->
  gunzip fuel (inbuf ++ post) (lenZ inbuf) = Ret (Some (payload, n)).
Proof using spec Hn.
  intros Hin Hf. pose proof (lenZ_nonneg inbuf). unfold gunzip. rewrite u32_small, takeZ_app by lia.
  destruct (chunked_payload fuel Hf) as (strm & st' & size & -> & -> & Ht). cbn [obind]. by rewrite Ht.
Qed.

Lemma unlzma_ok fuel post : lenZ payload / CHUNK + 1 < Z.of_nat fuel ->
  unlzma fuel (inbuf ++ post) (lenZ inbuf) = Ret (Some (payload, n)).
Proof using spec Hn.
  intros Hf. unfold unlzma. rewrite takeZ_app by done.
  destruct (chunked_payload fuel Hf) as (strm & st' & size & -> & -> & Ht). cbn [obind]. by rewrite Ht.
Qed.

End Payload.

(** zlib, behaving as documented, gives the parser what it expects. *)
Lemma gunzip_unpacks fuel zlib bz2 lzma zstd blob payload :
  (forall rest, exists pending ended,
     @decoder_spec zlib D_STREAM_END (blob ++ rest) payload (lenZ blob) pending ended) ->
  lenZ payload / CHUNK + 1 < Z.of_nat fuel ->
  @unpacks (linked_decompressors fuel zlib bz2 lzma zstd) Gunzip blob payload.
Proof.
  intros Hs Hf rest post Hsz. destruct (Hs rest) as (pending & ended & Hr).
  pose proof (lenZ_nonneg blob). pose proof (lenZ_nonneg rest). rewrite app_assoc.
  eapply gunzip_ok; [exact Hr| |done|done]. rewrite lenZ_app in Hsz. lia.
Qed.

(** ** Theorems *)

(** C16. gunzip and unlzma hand over the whole payload. Whatever the library, as
    long as it decodes the input into [payload], consuming [n] bytes of it, and
    keeps reporting the end once reached, both wrappers return DECOMP_OK with
    exactly that payload and that count, whether or not the payload is a whole
    number of CHUNK-byte buffers, after at most one call per buffer and two more. *)
Theorem gunzip_unlzma_payload {D : StreamDecoder} fuel inbuf in_size payload n pending ended :
  decoder_spec D_STREAM_END inbuf payload n pending ended ->
  0 <= n < 2 ^ 64 -> lenZ inbuf = in_size -> in_size < 2 ^ 32 ->
  lenZ payload / CHUNK + 1 < Z.of_nat fuel ->
  gunzip fuel inbuf in_size = Ret (Some (payload, n))
  /\ unlzma fuel inbuf in_size = Ret (Some (payload, n)).
Proof.
  intros Hs Hn <- Hin Hf. pose proof (gunzip_ok _ _ _ _ _ Hs Hn fuel [] Hin Hf) as Hg.
  pose proof (unlzma_ok _ _ _ _ _ Hs Hn fuel [] Hf) as Hl. rewrite app_nil_r in *. done.
Qed.

Lemma gunzip_unlzma_payload_witness :
  let D := toy_decoder D_STREAM_END stored in
  gunzip 3 #"initrd" 6 = Ret (Some (#"initrd", 6)) /\ unlzma 3 #"initrd" 6 = Ret (Some (#"initrd", 6)).
Proof.
  apply (@gunzip_unlzma_payload (toy_decoder D_STREAM_END stored) 3 #"initrd" 6 #"initrd" 6 _ _
           (toy_decoder_spec D_STREAM_END stored #"initrd" #"initrd" 6 eq_refl)); vm_compute; done || (split; congruence).
Defined.

(** bunzip2 fails on payloads that fill its last buffer. libbz2 answers with
    a sequence error when it is called after the end of the stream. The loop of
    bunzip2 calls again whenever the buffer is full, so when the end is reported
    with a full buffer a valid stream is rejected (DECOMP_FAIL): this happens for
    every non-empty payload that is a multiple of CHUNK bytes, and for no other. *)
Theorem bunzip2_full_last_chunk {D : StreamDecoder} fuel inbuf in_size payload n pending ended :
  decoder_spec D_OTHER inbuf payload n pending ended ->
  (forall st p, pending st p -> lenZ p = CHUNK ->
     exists st', dcode st = (D_STREAM_END, p, st') /\ ended st') ->
  0 <= n < 2 ^ 63 -> lenZ inbuf = in_size -> in_size < 2 ^ 32 ->
  lenZ payload / CHUNK + 1 < Z.of_nat fuel ->
  bunzip2 fuel inbuf in_size
  = Ret (if decide (payload <> [] /\ lenZ payload mod CHUNK = 0) then None else Some (payload, n)).
Proof.
  intros Hs Heager Hn <- Hin Hf. pose proof (lenZ_nonneg inbuf).
  unfold bunzip2. rewrite u32_small, takeZ_all by lia.
  destruct (ds_init _ _ _ _ _ _ Hs) as (st & -> & Hp). case_decide as Hd.
  - destruct Hd as [Hne Hm].
    destruct (chunk_loop_seq_error _ _ _ _ _ _ Hs fuel eq_refl Heager st payload [] 0 Hp Hf Hm Hne)
      as (st' & size' & o & ->). done.
  - destruct (chunk_loop_ok _ _ _ _ _ _ Hs fuel st payload [] 0 Hp Hf) as (st' & size' & -> & He).
    { right. destruct (decide (payload = [])); [by right|left]. tauto. }
    cbn [obind app]. destruct (ds_total _ _ _ _ _ _ Hs _ He) as (_ & -> & ->).
    rewrite Z.shiftl_mul_pow2 by lia.
    pose proof (Z.div_mod n (2 ^ 32) ltac:(lia)). pose proof (Z.mod_pos_bound n (2 ^ 32) ltac:(lia)).
    pose proof (Z.div_pos n (2 ^ 32) ltac:(lia) ltac:(lia)).
    rewrite (u64_small (n / 2 ^ 32 * 2 ^ 32)), u64_small by lia. cbn [decomp_result].
    apply f_equal, f_equal, f_equal. lia.
Qed.

Lemma bunzip2_full_last_chunk_witness :
  let D := toy_decoder D_OTHER stored in
  let payload := replicate (Z.to_nat CHUNK) NUL in
  lenZ payload = CHUNK /\
  bunzip2 3 payload CHUNK
  = Ret (if decide (payload <> [] /\ lenZ payload mod CHUNK = 0) then None else Some (payload, CHUNK)).
Proof.
  intros D payload. assert (lenZ payload = CHUNK) as Hl by (vm_compute; reflexivity).
  split; [exact Hl|].
  apply (@bunzip2_full_last_chunk (toy_decoder D_OTHER stored) 3 payload CHUNK payload CHUNK
           (toy_pending D_OTHER stored CHUNK) (toy_ended D_OTHER stored CHUNK)).
  - apply toy_decoder_spec. unfold stored. rewrite Hl. reflexivity.
  - intros st p -> Hp. cbn. rewrite (proj2 (Z.ltb_ge _ _)) by lia. by eexists.
  - vm_compute. split; congruence.
  - exact Hl.
  - reflexivity.
  - rewrite Hl. reflexivity.
Defined.

(** unzstd decodes one frame. On an input that is exactly one frame, the two
    nested loops end and return DECOMP_OK with the whole payload, having read the
    whole input, for every library that behaves as documented. *)
Theorem unzstd_payload {D : ZstdDecoder} fuel zpending frame payload :
  zstd_spec zpending frame payload ->
  lenZ frame < 2 ^ 63 -> lenZ payload <= ULONG_MAX ->
  lenZ frame + lenZ payload < Z.of_nat fuel ->
  unzstd fuel frame (lenZ frame) = Ret (Some (payload, lenZ frame)).
Proof.
  intros Hs Hsz Hmax Hf. unfold unzstd. destruct (zs_create _ _ _ Hs) as (st & -> & Hp).
  pose proof (zs_in_size _ _ _ Hs).
  pose proof (zstd_outer_ok _ _ _ Hs fuel st [] frame payload [] ZSTD_DStreamInSize Hp Hf) as Ho.
  cbn [app] in Ho. change (lenZ []) with 0 in Ho. rewrite Ho by lia. done.
Qed.

Lemma unzstd_payload_witness :
  let D := stored_zstd 26 in
  unzstd 60 #"abcdefghijklmnopqrstuvwxyz" 26 = Ret (Some (#"abcdefghijklmnopqrstuvwxyz", 26)).
Proof.
  apply (@unzstd_payload (stored_zstd 26) 60 _ #"abcdefghijklmnopqrstuvwxyz" #"abcdefghijklmnopqrstuvwxyz"
           (stored_zstd_spec #"abcdefghijklmnopqrstuvwxyz")); vm_compute; congruence.
Defined.

(** unzstd does not return when anything follows a long frame. The size of
    the next read is the value of the last call, which is 0 once the frame is
    complete: on a frame of at least ZSTD_DStreamInSize() bytes followed by
    anything at all (padding, another archive), the outer loop goes on reading
    zero bytes for ever. *)
Theorem unzstd_trailing_data {D : ZstdDecoder} fuel zpending frame payload trail :
  zstd_spec zpending frame payload ->
  ZSTD_DStreamInSize <= lenZ frame -> trail <> [] ->
  lenZ (frame ++ trail) < 2 ^ 63 -> lenZ payload <= ULONG_MAX ->
  unzstd fuel (frame ++ trail) (lenZ (frame ++ trail)) = NoFuel.
Proof.
  intros Hs Hin Ht Hsz Hmax. unfold unzstd. destruct (zs_create _ _ _ Hs) as (st & -> & Hp).
  pose proof (zs_in_size _ _ _ Hs).
  pose proof (zstd_outer_stuck _ _ _ Hs fuel trail Ht st [] frame payload [] ZSTD_DStreamInSize Hp) as Ho.
  cbn [app] in Ho. change (lenZ []) with 0 in Ho. rewrite Ho; [done|lia..|].
  split; [lia|]. intros ->. change (lenZ []) with 0 in Hin. lia.
Qed.

Lemma unzstd_trailing_data_witness :
  let D := stored_zstd 26 in
  unzstd 1000 (#"abcdefghijklmnopqrstuvwxyz" ++ [NUL]) 27 = NoFuel.
Proof.
  apply (@unzstd_trailing_data (stored_zstd 26) 1000 _ #"abcdefghijklmnopqrstuvwxyz"
           #"abcdefghijklmnopqrstuvwxyz" [NUL] (stored_zstd_spec #"abcdefghijklmnopqrstuvwxyz"));
    vm_compute; congruence.
Defined.
