(* ===== verification/Parse.v ===== *)
(** The parser of an initramfs image (src/utils/initrd-parse.c).

    An image is a sequence of cpio archives, each as it is or compressed, with an
    optional bootconfig at the end. read_stream walks it, unpacking compressed
    parts into streams of their own, which it walks in turn. The list of streams
    and the list of archives of [struct result] are lists; the stream being walked
    is its index in the list, because bootconfig handling changes its size in
    place. *)

From Stdlib Require Import ZArith Ascii String Lia.
From stdpp Require Import base list strings gmap tactics numbers.
From S2P Require Import Prelude Cpio Decompress.

Open Scope Z_scope.
Open Scope cprog_scope.

Definition BOOTCONFIG_MAGIC : bytes := #"#BOOTCONFIG" ++ [ascii_of_nat 10].
Definition BOOTCONFIG_MAGIC_LEN : Z := 12.

Record stream := {
  allocated : bool;
  addr : bytes;
  s_size : Z;
}.

Record result := {
  streams : list stream;
  cpios : list cpio;
}.

(** The static counter, the result being built, and stdout. *)
Record pstate := {
  stream_level : Z;
  res : result;
  stdout : bytes;
}.

Definition set_level (z : Z) (st : pstate) : pstate :=
  {| stream_level := z; res := res st; stdout := stdout st |}.
Definition add_stream (s : stream) (st : pstate) : pstate :=
  {| stream_level := stream_level st;
     res := {| streams := streams (res st) ++ [s]; cpios := cpios (res st) |};
     stdout := stdout st |}.
Definition add_cpio (c : cpio) (st : pstate) : pstate :=
  {| stream_level := stream_level st;
     res := {| streams := streams (res st); cpios := cpios (res st) ++ [c] |};
     stdout := stdout st |}.
Definition put (msg : bytes) (st : pstate) : pstate :=
  {| stream_level := stream_level st; res := res st; stdout := stdout st ++ msg |}.
Definition set_stream_size (i : nat) (z : Z) (st : pstate) : pstate :=
  {| stream_level := stream_level st;
     res := {| streams := alter (fun s => {| allocated := allocated s; addr := addr s; s_size := z |})
                            i (streams (res st));
               cpios := cpios (res st) |};
     stdout := stdout st |}.

(** The four positions, from the end of the stream backwards, where the magic of
    a bootconfig is looked for; the result is the offset of the magic. *)
Fixpoint find_magic (tries : nat) (a : bytes) (data : Z) : out (option Z) :=
  match tries with
  | O => Ret None
  | S n =>
      if data <? 0 then Undef else
      let! eq := memcmp_eq (dropZ data a) BOOTCONFIG_MAGIC in
      if (eq : bool) then Ret (Some data) else find_magic n a (data - 1)
  end.

Definition le32 (b : bytes) : Z :=
  fold_right (fun c acc => ord c + 256 * acc) 0 (take 4 b).

(** The bootconfig label: the offset of the data, its size, and the new size of
    the stream. *)
Definition cut_bootconfig (arv : stream) (data : Z) : out (Z * Z * Z) :=
  let hdr := data - 8 in
  if hdr <? 0 then Undef else
  let size := le32 (dropZ hdr (addr arv)) in
  let data := hdr - size in
  if s_size arv <? size then Die EXIT_FAILURE "bootconfig size is greater than initrd size"
  else Ret (data, size, u64 data).

Definition bootconfig_cpio (arv : stream) (data size : Z) : cpio :=
  {| type := CPIO_BOOTCONFIG; compress := None; raw := dropZ data (addr arv);
     Cpio.size := size; headers := [] |}.

Abbreviation entries := (list (cpio_header * bytes)).

Section Parser.
Context (b : build) {R : Decompressors}.

(** The while loop and the function, which call each other. *)
Fixpoint stream_loop (fuel : nat) (cmp : option string) (arv : nat) (offset : Z) (st : pstate)
  {struct fuel} : out pstate :=
  match fuel with
  | O => NoFuel
  | S f =>
      match streams (res st) !! arv with
      | None => Undef
      | Some a =>
          if offset <? s_size a then
            let p := dropZ offset (addr a) in
            let! (compress_name, decompress, msg) := decompress_method b p (s_size a - offset) in
            let st := put msg st in
            match decompress with
            | Some fn =>
                let! r := run_decompress fn p (s_size a - offset) in
                match r with
                | None => Die EXIT_FAILURE "decompressor failed"
                | Some (unpack, readed) =>
                    let l := length (streams (res st)) in
                    let st := add_stream {| allocated := true; addr := unpack;
                                            s_size := lenZ unpack |} st in
                    let! st := read_stream f compress_name l st in
                    stream_loop f cmp arv (u64 (offset + readed)) st
                end
            | None =>
                let! (n, c) := read_cpio f {| type := CPIO_ARCHIVE; compress := cmp; raw := p;
                                              Cpio.size := s_size a - offset; headers := [] |} in
                stream_loop f cmp arv (u64 (offset + n)) (add_cpio c st)
            end
          else Ret st
      end
  end
with read_stream (fuel : nat) (cmp : option string) (arv : nat) (st : pstate)
  {struct fuel} : out pstate :=
  match fuel with
  | O => NoFuel
  | S f =>
      let st := set_level (stream_level st + 1) st in
      match streams (res st) !! arv with
      | None => Undef
      | Some a =>
          let! magic := (if stream_level st =? 1
                         then find_magic 4 (addr a) (s_size a - BOOTCONFIG_MAGIC_LEN)
                         else Ret None) in
          match magic with
          | None =>
              let! st := stream_loop f cmp arv 0 st in
              Ret (set_level (stream_level st - 1) st)
          | Some data =>
              let! (data, size, asize) := cut_bootconfig a data in
              let! st := stream_loop f cmp arv 0 (set_stream_size arv asize st) in
              let st := add_cpio (bootconfig_cpio a data size) st in
              Ret (set_level (stream_level st - 1) st)
          end
      end
  end.

(** The part of main that initrd-ls and initrd-extract share: the mapped file is
    the first stream. *)
Definition parse_initrd (fuel : nat) (file : bytes) : out pstate :=
  read_stream fuel (Some "raw"%string) 0
    {| stream_level := 0;
       res := {| streams := [{| allocated := false; addr := file; s_size := lenZ file |}];
                 cpios := [] |};
       stdout := [] |}.

(** ** What an image is *)

(** A part of an image: an archive, or a compressed sequence of archives with the
    entry of the table of formats it was packed for. *)
Inductive segment :=
  | Plain (es : entries)
  | Packed (cf : compress_format) (fn : decompress_fn) (blob : bytes) (ess : list entries).

Definition images (ess : list entries) : bytes := concat (map archive_image ess).

Definition segment_image (s : segment) : bytes :=
  match s with
  | Plain es => archive_image es
  | Packed _ _ blob _ => blob
  end.

Definition wf_segment (s : segment) : Prop :=
  match s with
  | Plain es => wf_archive es
  | Packed cf fn blob ess =>
      2 <= lenZ blob
      /\ (forall rest, find_format (compressed_formats b) (blob ++ rest) = Some cf)
      /\ decompressor cf = Some fn
      /\ unpacks fn blob (images ess)
      /\ Forall wf_archive ess /\ lenZ (images ess) < 2 ^ 63
  end.

(** The archives of a part, each with the name of its compression. *)
Definition segment_archives (s : segment) : list (option string * entries) :=
  match s with
  | Plain es => [(Some "raw"%string, es)]
  | Packed cf _ _ ess => map (fun es => (Some (cf_name cf), es)) ess
  end.

(** A bootconfig: its data, the checksum, and the number of padding bytes a boot
    loader added. *)
Record bootconfig := { bc_data : bytes; bc_csum : bytes; bc_pad : nat }.

Definition le32_bytes (z : Z) : bytes :=
  map (fun i => ascii_of_nat (Z.to_nat (Z.shiftr z (8 * i) mod 256))) [0; 1; 2; 3].

Definition bootconfig_image (bc : bootconfig) : bytes :=
  bc_data bc ++ le32_bytes (lenZ (bc_data bc)) ++ bc_csum bc ++ BOOTCONFIG_MAGIC
  ++ replicate (bc_pad bc) NUL.

Definition wf_bootconfig (bc : bootconfig) : Prop :=
  lenZ (bc_data bc) < 2 ^ 32 /\ length (bc_csum bc) = 4%nat /\ (bc_pad bc < 4)%nat.

(** The parser has found the archive. *)
Definition found (x : option string * entries) (c : cpio) : Prop :=
  type c = CPIO_ARCHIVE /\ compress c = x.1 /\ Forall2 same_entry (map fst x.2) (headers c).

(** Rounds enough for a list of archives and for a list of parts. *)
Definition archives_fuel (ess : list entries) : nat := sum_list (map (fun es => length es + 2)%nat ess).
Definition segment_fuel (s : segment) : nat :=
  match s with
  | Plain es => length es + 2
  | Packed _ _ _ ess => archives_fuel ess + 4
  end.
Definition image_fuel (segs : list segment) : nat := sum_list (map segment_fuel segs).

End Parser.

(** The last [cpio] of the result, for an image with a bootconfig. *)
Definition found_bootconfig (bc : option bootconfig) (cs : list cpio) : Prop :=
  match bc with
  | None => cs = []
  | Some bc => exists c, cs = [c] /\ type c = CPIO_BOOTCONFIG /\ takeZ (size c) (raw c) = bc_data bc
  end.

Definition image (segs : list segment) (bc : option bootconfig) : bytes :=
  concat (map segment_image segs) ++ from_option bootconfig_image [] bc.

(** The call adds the archives [cs], perhaps new streams, and nothing else. *)
Definition extends (st st' : pstate) (cs : list cpio) : Prop :=
  stream_level st' = stream_level st /\ stdout st' = stdout st
  /\ streams (res st) `prefix_of` streams (res st') /\ cpios (res st') = cpios (res st) ++ cs.

(** An example: an archive, a gzip blob that stands for the same archive, and a
    bootconfig. *)
Definition all_formats : build :=
  {| HAVE_GZIP := true; HAVE_BZIP2 := true; HAVE_LZMA := true; HAVE_ZSTD := true |}.
Definition gzip_format : compress_format :=
  {| magic := magic2 31 139; cf_name := "gzip"; decompressor := Some Gunzip |}.
Definition demo_zlib : StreamDecoder :=
  toy_decoder D_STREAM_END (fun _ => (images [demo_archive], 2)).
Definition demo_libraries : Decompressors :=
  linked_decompressors 10 demo_zlib demo_zlib demo_zlib (stored_zstd 0).
Definition demo_segments : list segment :=
  [Plain demo_archive; Packed gzip_format Gunzip (magic2 31 139) [demo_archive]].
Definition demo_bootconfig : bootconfig :=
  {| bc_data := #"kernel.quiet"; bc_csum := #"abcd"; bc_pad := 2 |}.

(** A 20-byte image that claims a bootconfig of 20 bytes. *)
Definition short_bootconfig : stream :=
  let f := le32_bytes 20 ++ #"abcd" ++ BOOTCONFIG_MAGIC in
  {| allocated := false; addr := f; s_size := lenZ f |}.

(** ** Reading a sequence of archives *)

Lemma extends_refl st : extends st st [].
Proof. split_and!; try done. by rewrite app_nil_r. Qed.

Lemma extends_trans st1 st2 st3 cs1 cs2 :
  extends st1 st2 cs1 -> extends st2 st3 cs2 -> extends st1 st3 (cs1 ++ cs2).
Proof.
  intros (L1 & O1 & S1 & C1) (L2 & O2 & S2 & C2). split_and!; try congruence.
  - by etrans.
  - by rewrite C2, C1, app_assoc.
Qed.

Lemma extends_add_cpio st c : extends st (add_cpio c st) [c].
Proof. by split_and!. Qed.

Lemma put_nil st : put [] st = st.
Proof. destruct st. unfold put. cbn. by rewrite app_nil_r. Qed.

Lemma extends_lookup st st' cs i s :
  extends st st' cs -> streams (res st) !! i = Some s -> streams (res st') !! i = Some s.
Proof. intros (_ & _ & Hp & _) Hi. by eapply prefix_lookup_Some. Qed.

Lemma archive_image_magic es : exists t, archive_image es = CPIO_FORMAT_NEWASCII ++ t.
Proof.
  unfold archive_image. destruct es as [|[h nm] es].
  - change (encode_all []) with (@nil ascii). cbn [app]. unfold trailer_image, header_string.
    rewrite <- !app_assoc. by eexists.
  - rewrite encode_all_cons. unfold encode, header_string. rewrite <- !app_assoc. by eexists.
Qed.

Lemma decompress_method_archive b es rest n :
  2 <= n -> decompress_method b (archive_image es ++ rest) n = Ret (None, None, []).
Proof.
  intros Hn. destruct (archive_image_magic es) as [t ->]. unfold decompress_method.
  rewrite (proj2 (Z.ltb_ge n 2)) by done. rewrite <- app_assoc, (proj2 (Z.ltb_ge _ 2)).
  2:{ rewrite lenZ_app. change (lenZ CPIO_FORMAT_NEWASCII) with 6. pose proof (lenZ_nonneg (t ++ rest)). lia. }
  destruct b as [[] [] [] []]; reflexivity.
Qed.

Lemma lenZ_archive_image_pos es : 124 <= lenZ (archive_image es).
Proof. rewrite lenZ_archive_image. pose proof (lenZ_nonneg (encode_all es)). mlia. Qed.

Lemma archives_fuel_cons es ess :
  archives_fuel (es :: ess) = (length es + 2 + archives_fuel ess)%nat.
Proof. reflexivity. Qed.

Lemma image_fuel_cons s segs : image_fuel (s :: segs) = (segment_fuel s + image_fuel segs)%nat.
Proof. reflexivity. Qed.

Section Loops.
Context (b : build) {R : Decompressors}.

Lemma stream_loop_S f cmp arv offset st :
  stream_loop b (S f) cmp arv offset st =
  match streams (res st) !! arv with
  | None => Undef
  | Some a =>
      if offset <? s_size a then
        let p := dropZ offset (addr a) in
        let! (compress_name, decompress, msg) := decompress_method b p (s_size a - offset) in
        let st := put msg st in
        match decompress with
        | Some fn =>
            let! r := run_decompress fn p (s_size a - offset) in
            match r with
            | None => Die EXIT_FAILURE "decompressor failed"
            | Some (unpack, readed) =>
                let st1 := add_stream {| allocated := true; addr := unpack; s_size := lenZ unpack |} st in
                let! st := read_stream b f compress_name (length (streams (res st))) st1 in
                stream_loop b f cmp arv (u64 (offset + readed)) st
            end
        | None =>
            let! (n, c) := read_cpio f {| type := CPIO_ARCHIVE; compress := cmp; raw := p;
                                          Cpio.size := s_size a - offset; headers := [] |} in
            stream_loop b f cmp arv (u64 (offset + n)) (add_cpio c st)
        end
      else Ret st
  end.
Proof. reflexivity. Qed.

Lemma read_stream_S f cmp arv st :
  read_stream b (S f) cmp arv st =
  let st := set_level (stream_level st + 1) st in
  match streams (res st) !! arv with
  | None => Undef
  | Some a =>
      let! magic := (if stream_level st =? 1
                     then find_magic 4 (addr a) (s_size a - BOOTCONFIG_MAGIC_LEN)
                     else Ret None) in
      match magic with
      | None =>
          let! st := stream_loop b f cmp arv 0 st in
          Ret (set_level (stream_level st - 1) st)
      | Some data =>
          let! (data, size, asize) := cut_bootconfig a data in
          let! st := stream_loop b f cmp arv 0 (set_stream_size arv asize st) in
          let st := add_cpio (bootconfig_cpio a data size) st in
          Ret (set_level (stream_level st - 1) st)
      end
  end.
Proof. reflexivity. Qed.

Lemma loop_end fuel cmp arv offset st a :
  streams (res st) !! arv = Some a -> s_size a <= offset -> (0 < fuel)%nat ->
  stream_loop b fuel cmp arv offset st = Ret st.
Proof.
  intros Ha Hs Hf. destruct fuel as [|f]; [lia|]. rewrite stream_loop_S, Ha.
  by rewrite (proj2 (Z.ltb_ge _ _)).
Qed.

(** One round on an archive. *)
Lemma loop_archive f cmp arv pre es rest sz al st :
  streams (res st) !! arv
    = Some {| allocated := al; addr := pre ++ archive_image es ++ rest; s_size := sz |} ->
  wf_archive es -> lenZ pre + lenZ (archive_image es) <= sz -> sz < 2 ^ 63 -> (length es < f)%nat ->
  exists c, found (cmp, es) c /\ extends st (add_cpio c st) [c]
    /\ stream_loop b (S f) cmp arv (lenZ pre) st
       = stream_loop b f cmp arv (lenZ (pre ++ archive_image es)) (add_cpio c st).
Proof.
  intros Ha W Hfit Hsz Hf. rewrite stream_loop_S, Ha. cbn [addr s_size].
  pose proof (lenZ_archive_image_pos es). pose proof (lenZ_nonneg pre).
  rewrite (proj2 (Z.ltb_lt _ _)) by lia. rewrite dropZ_app, decompress_method_archive by lia.
  cbn [obind]. rewrite put_nil.
  destruct (read_cpio_image es f rest cmp (sz - lenZ pre) W ltac:(lia) ltac:(lia) Hf)
    as (hs & -> & Hsame).
  cbn [obind]. rewrite u64_small, lenZ_app by lia.
  eexists. split; [|split; [apply extends_add_cpio|reflexivity]]. by split_and!.
Qed.

Lemma loop_images ess : forall fuel cmp arv pre rest al st,
  streams (res st) !! arv = Some {| allocated := al; addr := pre ++ images ess ++ rest;
                                    s_size := lenZ (pre ++ images ess) |} ->
  Forall wf_archive ess -> lenZ (pre ++ images ess) < 2 ^ 63 -> (archives_fuel ess < fuel)%nat ->
  exists st' cs, stream_loop b fuel cmp arv (lenZ pre) st = Ret st' /\ extends st st' cs
    /\ Forall2 found (map (fun es => (cmp, es)) ess) cs.
Proof.
  induction ess as [|es ess IH]; intros fuel cmp arv pre rest al st Ha W Hsz Hf.
  - exists st, []. split; [|split; [apply extends_refl|constructor]].
    eapply loop_end; [exact Ha| |lia]. cbn [s_size]. rewrite app_nil_r. lia.
  - apply Forall_cons_1 in W as [We W]. unfold images in *. cbn [map concat] in *.
    rewrite archives_fuel_cons in Hf.
    destruct fuel as [|f]; [lia|].
    rewrite <- app_assoc in Ha.
    destruct (loop_archive f cmp arv pre es _ _ al st Ha We) as (c & Hc & He & ->).
    { rewrite !lenZ_app. pose proof (lenZ_nonneg (concat (map archive_image ess))). lia. }
    { done. }
    { lia. }
    rewrite !app_assoc in Ha. rewrite <- (app_assoc _ _ rest) in Ha.
    destruct (IH f cmp arv (pre ++ archive_image es) rest al (add_cpio c st)) as (st' & cs & -> & He' & Hcs).
    + eapply extends_lookup; [exact He|exact Ha].
    + done.
    + by rewrite <- app_assoc.
    + lia.
    + exists st', (c :: cs). split; [done|]. split; [by apply (extends_trans _ _ _ [c] cs He)|].
      by constructor.
Qed.

(** One round on a compressed part. *)
Lemma loop_packed f cmp arv pre cf fn blob ess rest post al st :
  streams (res st) !! arv = Some {| allocated := al; addr := pre ++ blob ++ rest ++ post;
                                    s_size := lenZ (pre ++ blob ++ rest) |} ->
  wf_segment b (Packed cf fn blob ess) -> 1 <= stream_level st ->
  lenZ (pre ++ blob ++ rest) < 2 ^ 32 -> (archives_fuel ess + 2 < f)%nat ->
  exists st' cs, extends st st' cs
    /\ Forall2 found (map (fun es => (Some (cf_name cf), es)) ess) cs
    /\ stream_loop b (S f) cmp arv (lenZ pre) st = stream_loop b f cmp arv (lenZ (pre ++ blob)) st'.
Proof.
  intros Ha (Hb & Hfind & Hfn & Hun & W & Hpl) Hlev Hsz Hf. rewrite stream_loop_S, Ha.
  cbn [addr s_size]. rewrite !lenZ_app in *.
  pose proof (lenZ_nonneg pre). pose proof (lenZ_nonneg rest).
  rewrite (proj2 (Z.ltb_lt _ _)) by lia. rewrite dropZ_app.
  replace (lenZ pre + (lenZ blob + lenZ rest) - lenZ pre) with (lenZ (blob ++ rest)) by (rewrite lenZ_app; lia).
  unfold decompress_method. rewrite (proj2 (Z.ltb_ge (lenZ (blob ++ rest)) 2)) by (rewrite lenZ_app; lia).
  rewrite (proj2 (Z.ltb_ge _ 2)) by (rewrite !lenZ_app; pose proof (lenZ_nonneg post); lia).
  rewrite Hfind. cbn [obind]. rewrite Hfn, put_nil, (Hun rest post) by (rewrite lenZ_app; lia). cbn [obind].
  rewrite u64_small by lia.
  destruct f as [|f]; [lia|]. rewrite read_stream_S.
  cbv zeta. set (s1 := add_stream _ st). set (s2 := set_level _ s1).
  assert (streams (res s2) !! length (streams (res st))
          = Some {| allocated := true; addr := [] ++ images ess ++ []; s_size := lenZ ([] ++ images ess) |})
    as Hs2.
  { cbn. rewrite list_lookup_middle by done. by rewrite app_nil_r. }
  rewrite Hs2. rewrite (proj2 (Z.eqb_neq (stream_level s2) 1)) by (cbn; lia). cbn [obind].
  destruct (loop_images ess f (Some (cf_name cf)) _ [] [] true s2 Hs2 W) as (st' & cs & Hl & He & Hcs);
    [done|lia|].
  change (lenZ []) with 0 in Hl. rewrite Hl. cbn [obind]. do 2 eexists. split_and!; [|exact Hcs|reflexivity].
  destruct He as (E1 & E2 & E3 & E4). split_and!; cbn.
  - rewrite E1. cbn. lia.
  - by rewrite E2.
  - etrans; [|exact E3]. apply prefix_app_r. done.
  - by rewrite E4.
Qed.

Lemma loop_segments segs : forall fuel arv pre post al st,
  let img := concat (map segment_image segs) in
  streams (res st) !! arv = Some {| allocated := al; addr := pre ++ img ++ post;
                                    s_size := lenZ (pre ++ img) |} ->
  Forall (wf_segment b) segs -> 1 <= stream_level st -> lenZ (pre ++ img) < 2 ^ 32 ->
  (image_fuel segs < fuel)%nat ->
  exists st' cs, stream_loop b fuel (Some "raw"%string) arv (lenZ pre) st = Ret st'
    /\ extends st st' cs /\ Forall2 found (concat (map segment_archives segs)) cs.
Proof.
  induction segs as [|s segs IH]; intros fuel arv pre post al st img Ha W Hlev Hsz Hf;
    subst img; cbn [map concat] in *.
  { exists st, []. split; [|split; [apply extends_refl|constructor]].
    eapply loop_end; [exact Ha| |lia]. cbn [s_size]. rewrite app_nil_r. lia. }
  apply Forall_cons_1 in W as [Ws W]. rewrite image_fuel_cons in Hf.
  destruct fuel as [|f]; [lia|]. set (img := concat (map segment_image segs)) in *.
  pose proof (lenZ_nonneg img).
  assert (exists st1 cs1, extends st st1 cs1 /\ Forall2 found (segment_archives s) cs1
    /\ stream_loop b (S f) (Some "raw"%string) arv (lenZ pre) st
       = stream_loop b f (Some "raw"%string) arv (lenZ (pre ++ segment_image s)) st1)
    as (st1 & cs1 & He & Hcs & ->).
  { destruct s as [es|cf fn blob ess]; cbn [segment_image segment_archives segment_fuel] in *.
    - rewrite <- app_assoc in Ha.
      destruct (loop_archive f (Some "raw"%string) arv pre es _ _ al st Ha Ws) as (c & Hc & He & Hl);
        [rewrite !lenZ_app; lia|lia|lia|].
      exists (add_cpio c st), [c]. split_and!; [done|by constructor|done].
    - rewrite <- app_assoc in Ha. eapply loop_packed; [exact Ha|exact Ws|done|done|lia]. }
  destruct (IH f arv (pre ++ segment_image s) post al st1) as (st' & cs & -> & He' & Hcs').
  - rewrite <- (app_assoc (segment_image s)), !app_assoc in Ha. rewrite <- (app_assoc _ _ post) in Ha.
    by eapply extends_lookup.
  - done.
  - by destruct He as (-> & _).
  - by rewrite <- app_assoc.
  - destruct s; cbn [segment_fuel] in Hf; lia.
  - exists st', (cs1 ++ cs). split; [done|]. split; [by eapply extends_trans|]. by apply Forall2_app.
Qed.

End Loops.

(** ** The bootconfig *)

Lemma ord_byte z : 0 <= z < 256 -> ord (ascii_of_nat (Z.to_nat z)) = z.
Proof. intros Hz. unfold ord. rewrite nat_ascii_embedding by lia. lia. Qed.

Lemma le32_le32_bytes z t : 0 <= z < 2 ^ 32 -> le32 (le32_bytes z ++ t) = z.
Proof.
  intros Hz. unfold le32, le32_bytes. cbn [map app take fold_right]. rewrite take_0. cbn [fold_right].
  rewrite !ord_byte by (apply Z.mod_pos_bound; lia). rewrite !Z.shiftr_div_pow2 by lia.
  change (2 ^ (8 * 0)) with 1. change (2 ^ (8 * 1)) with 256.
  change (2 ^ (8 * 2)) with (256 * 256). change (2 ^ (8 * 3)) with (256 * 256 * 256).
  rewrite <- !Z.div_div, Z.div_1_r by lia.
  pose proof (Z.div_mod z 256 ltac:(lia)). pose proof (Z.div_mod (z / 256) 256 ltac:(lia)).
  pose proof (Z.div_mod (z / 256 / 256) 256 ltac:(lia)).
  rewrite (Z.mod_small (z / 256 / 256 / 256)); [lia|].
  rewrite !Z.div_div by lia. split; [apply Z.div_pos; lia|]. apply Z.div_lt_upper_bound; lia.
Qed.

Lemma find_magic_bootconfig a k : (k < 4)%nat ->
  let s := a ++ BOOTCONFIG_MAGIC ++ replicate k NUL in
  find_magic 4 s (lenZ s - BOOTCONFIG_MAGIC_LEN) = Ret (Some (lenZ a)).
Proof.
  intros Hk s. pose proof (lenZ_nonneg a).
  assert (lenZ s - BOOTCONFIG_MAGIC_LEN = lenZ a + Z.of_nat k) as ->.
  { unfold s. rewrite !lenZ_app, lenZ_replicate. change (lenZ BOOTCONFIG_MAGIC) with 12.
    unfold BOOTCONFIG_MAGIC_LEN. lia. }
  assert (forall j, (j <= k)%nat -> memcmp_eq (dropZ (lenZ a + Z.of_nat j) s) BOOTCONFIG_MAGIC
                    = Ret (bool_decide (j = 0%nat))) as Hcmp.
  { intros j Hj. unfold s. rewrite dropZ_app_ge by lia.
    do 4 (destruct k as [|k]; [do 4 (destruct j as [|j]; [reflexivity || (exfalso; lia)|]); lia|]). lia. }
  enough (forall n, (k < n)%nat -> find_magic n s (lenZ a + Z.of_nat k) = Ret (Some (lenZ a))) as He
    by (by apply He).
  clearbody s. clear Hk. induction k as [|k IH]; intros n Hn; (destruct n as [|n]; [lia|]);
    cbn [find_magic]; rewrite (proj2 (Z.ltb_ge _ 0)) by lia; rewrite Hcmp by lia; cbn [obind].
  - rewrite bool_decide_true by done. do 3 f_equal. lia.
  - rewrite bool_decide_false by done.
    replace (lenZ a + Z.of_nat (S k) - 1) with (lenZ a + Z.of_nat k) by lia.
    apply IH; [|lia]. intros j Hj. apply Hcmp. lia.
Qed.

Lemma cut_bootconfig_image pre bc al sz :
  wf_bootconfig bc -> lenZ (pre ++ bootconfig_image bc) < 2 ^ 32 ->
  lenZ (pre ++ bootconfig_image bc) = sz ->
  cut_bootconfig {| allocated := al; addr := pre ++ bootconfig_image bc; s_size := sz |}
    (lenZ (pre ++ bc_data bc ++ le32_bytes (lenZ (bc_data bc)) ++ bc_csum bc))
  = Ret (lenZ pre, lenZ (bc_data bc), lenZ pre).
Proof.
  intros (Hd & Hc & Hp) Hsz <-. pose proof (lenZ_nonneg pre). pose proof (lenZ_nonneg (bc_data bc)).
  unfold cut_bootconfig. cbn [addr s_size]. unfold bootconfig_image in *. rewrite !lenZ_app in *.
  change (lenZ (le32_bytes _)) with 4 in *.
  assert (lenZ (bc_csum bc) = 4) as Hc4 by (unfold lenZ; lia). rewrite Hc4 in *.
  replace (lenZ pre + (lenZ (bc_data bc) + (4 + 4)) - 8) with (lenZ (pre ++ bc_data bc))
    by (rewrite lenZ_app; lia).
  pose proof (lenZ_nonneg (replicate (bc_pad bc) NUL)). change (lenZ BOOTCONFIG_MAGIC) with 12 in *.
  rewrite (proj2 (Z.ltb_ge _ 0)) by (rewrite lenZ_app; lia).
  rewrite (app_assoc pre), dropZ_app, le32_le32_bytes by lia.
  rewrite (proj2 (Z.ltb_ge _ _)) by lia. rewrite lenZ_app, u64_small by lia.
  do 3 f_equal; lia.
Qed.

Lemma parse_image_ok b {R : Decompressors} segs bc fuel :
  Forall (wf_segment b) segs ->
  match bc with
  | None => find_magic 4 (image segs bc) (lenZ (image segs bc) - BOOTCONFIG_MAGIC_LEN) = Ret None
  | Some bc => wf_bootconfig bc
  end ->
  lenZ (image segs bc) < 2 ^ 32 -> (image_fuel segs + 1 < fuel)%nat ->
  exists st cs bcs, parse_initrd b fuel (image segs bc) = Ret st
    /\ stream_level st = 0 /\ stdout st = [] /\ cpios (res st) = cs ++ bcs
    /\ Forall2 found (concat (map segment_archives segs)) cs /\ found_bootconfig bc bcs.
Proof.
  intros W Hbc Hsz Hf. destruct fuel as [|f]; [lia|]. unfold parse_initrd.
  set (img := concat (map segment_image segs)). rewrite read_stream_S. cbv zeta.
  set (s0 := set_level _ _). change (streams (res s0) !! 0%nat) with
    (Some {| allocated := false; addr := image segs bc; s_size := lenZ (image segs bc) |}).
  change (stream_level s0 =? 1) with true. cbn [addr s_size]. cbn iota.
  destruct bc as [bc|].
  - set (a := img ++ bc_data bc ++ le32_bytes (lenZ (bc_data bc)) ++ bc_csum bc).
    assert (image segs (Some bc) = a ++ BOOTCONFIG_MAGIC ++ replicate (bc_pad bc) NUL) as Himg.
    { unfold image, a, bootconfig_image. cbn [from_option]. fold img. by rewrite <- !app_assoc. }
    rewrite Himg, find_magic_bootconfig by apply Hbc. rewrite <- Himg. cbn [obind].
    unfold image, a in *. cbn [from_option] in *. fold img in Hsz, Himg |- *.
    rewrite cut_bootconfig_image by (done || lia). cbn [obind].
    destruct (loop_segments b segs f 0 [] (bootconfig_image bc) false (set_stream_size 0 (lenZ img) s0))
      as (st & cs & Hl & He & Hcs); [done|done|done|rewrite lenZ_app in Hsz; fold img;
        cbn [app]; pose proof (lenZ_nonneg (bootconfig_image bc)); lia|lia|].
    change (lenZ []) with 0 in Hl. rewrite Hl. cbn [obind].
    destruct He as (E1 & E2 & E3 & E4). do 3 eexists. split; [reflexivity|]. cbn.
    rewrite E1, E2, E4. split_and!; [done|done|reflexivity|exact Hcs|].
    cbn. eexists. split; [done|]. split; [done|]. cbn.
    rewrite dropZ_app. unfold bootconfig_image. by apply takeZ_app.
  - rewrite Hbc. cbn [obind].
    destruct (loop_segments b segs f 0 [] [] false s0) as (st & cs & Hl & He & Hcs);
      [|done|done| |lia|].
    { change (streams (res s0) !! 0%nat) with
        (Some {| allocated := false; addr := image segs None; s_size := lenZ (image segs None) |}).
      unfold image. cbn [from_option app]. fold img. by rewrite app_nil_r. }
    { unfold image in Hsz. cbn in Hsz. rewrite app_nil_r in Hsz. done. }
    change (lenZ []) with 0 in Hl. rewrite Hl. cbn [obind].
    destruct He as (E1 & E2 & E3 & E4). eexists _, cs, []. split; [reflexivity|]. cbn.
    rewrite E1, E2, E4, app_nil_r. done.
Qed.

Lemma bootconfig_wraps arv data size :
  8 <= data <= s_size arv -> s_size arv < 2 ^ 63 ->
  le32 (dropZ (data - 8) (addr arv)) = size -> data - 8 < size <= s_size arv ->
  cut_bootconfig arv data = Ret (data - 8 - size, size, 2 ^ 64 + (data - 8 - size)).
Proof.
  intros Hd Hmax Hs Hr. unfold cut_bootconfig. rewrite Hs. rewrite (proj2 (Z.ltb_ge _ 0)) by lia.
  rewrite (proj2 (Z.ltb_ge _ _)) by lia. apply f_equal, f_equal2; [done|].
  unfold u64. symmetry. apply (Z.mod_unique_pos _ _ (-1)); lia.
Qed.

(** ** Theorem *)

(** C7. The parser recovers the contents of an image. Take any sequence of parts,
    each an archive or a compressed sequence of archives that one of the
    decompressors unpacks, optionally followed by a bootconfig with up to three
    bytes of padding; without a bootconfig, the image must not end like one. Then
    read_stream ends without error and lists exactly the archives of the image, in
    order, each with its entries and with the name of its compression, then the
    bootconfig with its data. The nesting counter is back to 0. *)
Theorem parse_initrd_image b {R : Decompressors} segs bc fuel :
  Forall (wf_segment b) segs ->
  match bc with
  | None => find_magic 4 (image segs bc) (lenZ (image segs bc) - BOOTCONFIG_MAGIC_LEN) = Ret None
  | Some bc => wf_bootconfig bc
  end ->
  lenZ (image segs bc) < 2 ^ 32 -> (image_fuel segs + 1 < fuel)%nat ->
  exists st cs bcs, parse_initrd b fuel (image segs bc) = Ret st
    /\ stream_level st = 0 /\ stdout st = [] /\ cpios (res st) = cs ++ bcs
    /\ Forall2 found (concat (map segment_archives segs)) cs /\ found_bootconfig bc bcs.
Proof. apply parse_image_ok. Qed.

Lemma demo_segments_wf : Forall (@wf_segment all_formats demo_libraries) demo_segments.
Proof.
  apply Forall_cons_2; [apply demo_archive_wf|]. apply Forall_cons_2; [|apply Forall_nil_2].
  split_and!; [by vm_compute|done|done| | |by vm_compute].
  - apply gunzip_unpacks; [|by vm_compute].
    intros rest. do 2 eexists. by apply (toy_decoder_spec D_STREAM_END (fun _ => _)).
  - apply Forall_cons_2; [apply demo_archive_wf|apply Forall_nil_2].
Qed.

Lemma parse_initrd_image_witness :
  exists st cs bcs,
    @parse_initrd all_formats demo_libraries 100 (image demo_segments (Some demo_bootconfig)) = Ret st
    /\ stream_level st = 0 /\ stdout st = [] /\ cpios (res st) = cs ++ bcs
    /\ Forall2 found (concat (map segment_archives demo_segments)) cs
    /\ found_bootconfig (Some demo_bootconfig) bcs.
Proof.
  apply (@parse_initrd_image all_formats demo_libraries demo_segments (Some demo_bootconfig) 100
           demo_segments_wf).
  - split_and!; vm_compute; reflexivity || lia.
  - vm_compute. reflexivity.
  - vm_compute. lia.
Defined.

(** The size of a bootconfig is not fully checked. The size in the trailer is
    compared with the size of the whole image, although 20 bytes of it (24 with
    padding) are the trailer itself. A size between the two is accepted: the data
    then starts before the image, and the size left for the archives, computed by
    subtraction, wraps to a value close to 2^64. *)
Theorem bootconfig_size_wraps arv data size :
  8 <= data <= s_size arv -> s_size arv < 2 ^ 63 ->
  le32 (dropZ (data - 8) (addr arv)) = size -> data - 8 < size <= s_size arv ->
  exists start asize, cut_bootconfig arv data = Ret (start, size, asize)
    /\ start < 0 /\ 2 ^ 63 < asize /\ s_size arv < asize.
Proof.
  intros Hd Hmax Hs Hr. do 2 eexists. split; [by apply bootconfig_wraps|]. lia.
Qed.

Lemma bootconfig_size_wraps_witness :
  exists start asize, cut_bootconfig short_bootconfig 8 = Ret (start, 20, asize)
    /\ start < 0 /\ 2 ^ 63 < asize /\ s_size short_bootconfig < asize.
Proof.
  apply (bootconfig_size_wraps short_bootconfig 8 20).
  - vm_compute. split; congruence.
  - vm_compute. reflexivity.
  - vm_compute. reflexivity.
  - vm_compute. split; congruence.
Defined.
