(* ===== verification/ParseFree.v ===== *)
(** The release of what read_stream has collected (utils/initrd-parse.c, [free_streams]
    and [free_cpios]; utils/initrd-cpio.c, [cpio_free]), on the heap of ListTail.

    A block of data of the first list is a struct stream, one of the second a struct
    cpio. How a structure lies in the bytes of its block is a parameter: [stream_addr]
    is the buffer of a stream that was allocated, [None] for one that was not;
    [cpio_headers] is the list of the headers of an archive, and [cpio_clear] the
    structure after the assignments of cpio_free. *)

From Stdlib Require Import ZArith Ascii String Lia.
From stdpp Require Import base gmap list strings fin_maps tactics.
From S2P Require Import Prelude ListTail.

Open Scope Z_scope.
Open Scope cprog_scope.

Definition set_block (b : loc) (v : bytes) (h : heap) : heap := {| cells := cells h; blocks := <[b := v]> (blocks h) |}.
Definition load_block (h : heap) (b : loc) : out bytes :=
  match blocks h !! b with Some v => Ret v | None => Undef end.

Section Layout.
Context (stream_addr : bytes -> option loc) (cpio_headers : bytes -> option loc) (cpio_clear : bytes -> bytes).

(** The loop reads the structure of every element without looking whether there is one. *)
Fixpoint streams_loop (fuel : nat) (h : heap) (l : option loc) : out heap :=
  match l with
  | None => Ret h
  | Some p =>
      match fuel with
      | O => NoFuel
      | S fuel =>
          let! e := deref h p in
          match data e with
          | None => Undef
          | Some b =>
              let! st := load_block h b in
              let! h := match stream_addr st with Some a => free_block a h | None => Ret h end in
              let! e := deref h p in
              streams_loop fuel h (next e)
          end
      end
  end.

Definition free_streams (h : heap) (stream : option loc) : out heap :=
  let! h := streams_loop (fuel_of h) h stream in
  match stream with Some _ => list_free h stream | None => Ret h end.

Definition cpio_free (b : loc) (h : heap) : out heap :=
  let! c := load_block h b in
  let! h := list_free h (cpio_headers c) in
  let! c := load_block h b in
  Ret (set_block b (cpio_clear c) h).

Fixpoint cpios_loop (fuel : nat) (h : heap) (l : option loc) : out heap :=
  match l with
  | None => Ret h
  | Some p =>
      match fuel with
      | O => NoFuel
      | S fuel =>
          let! e := deref h p in
          let! h := match data e with Some b => cpio_free b h | None => Ret h end in
          let! e := deref h p in
          cpios_loop fuel h (next e)
      end
  end.

Definition free_cpios (h : heap) (cpios : option loc) : out heap :=
  let! h := cpios_loop (fuel_of h) h cpios in
  list_free h cpios.

(** The cleanups at the end of initrd-ls and initrd-extract, the last variable first. *)
Definition release (h : heap) (streams cpios : option loc) : out heap :=
  let! h := match cpios with Some _ => free_cpios h cpios | None => Ret h end in
  match streams with Some _ => free_streams h streams | None => Ret h end.

(** ** What the heap holds *)

(** [h] is [h1] with the buffers [bs]. *)
Record has_buffers (h1 h : heap) (bs : list loc) : Prop := {
  hb_cells : cells h = cells h1;
  hb_nodup : NoDup bs;
  hb_new b : b ∈ bs -> blocks h1 !! b = None /\ is_Some (blocks h !! b);
  hb_rest b : b ∉ bs -> blocks h !! b = blocks h1 !! b;
}.

(** [h] is [h1] with the lists at [hds]. *)
Inductive has_lists (h1 : heap) : list (option loc) -> heap -> Prop :=
  | no_list : has_lists h1 [] h1
  | one_list h2 h hd els hds : has_lists h1 hds h2 -> owns h2 h hd els -> has_lists h1 (hd :: hds) h.

Definition content (h : heap) (x : element) : option bytes := x.2 ≫= fun b => blocks h !! b.

(** The heap after an image was read: on top of [base] are the list of the streams, the
    buffers of the streams that were unpacked, the list of the archives, and the list of
    the headers of each archive. *)
Record image_heap (base h : heap) (streams cpios : option loc) : Prop := {
  im_parts : exists h1 h2 h3 sl cl bs hds,
    owns base h1 streams sl /\ (forall x, x ∈ sl -> is_Some (content h1 x)) /\
    has_buffers h1 h2 bs /\ bs = omap (fun x => content h1 x ≫= stream_addr) sl /\
    owns h2 h3 cpios cl /\ (forall x, x ∈ cl -> is_Some (content h3 x)) /\
    has_lists h3 hds h /\ hds = map (fun x => content h3 x ≫= cpio_headers) cl;
}.

(** ** Lemmas *)

Lemma heap_ext h h' : cells h = cells h' -> (forall b, blocks h !! b = blocks h' !! b) -> h = h'.
Proof. destruct h, h'. cbn. intros -> H. f_equal. by apply map_eq. Qed.

Lemma deref_seg h p d n : cells h !! p = Some {| next := n; data := d |} -> deref h p = Ret {| next := n; data := d |}.
Proof. unfold deref. by intros ->. Qed.

Lemma streams_loop_ok h1 h head sl f :
  seg (cells h) head sl None -> (forall x, x ∈ sl -> is_Some (content h1 x)) ->
  has_buffers h1 h (omap (fun x => content h1 x ≫= stream_addr) sl) -> (length sl < f)%nat ->
  streams_loop f h head = Ret h1.
Proof.
  revert h head f. induction sl as [|[p d] sl IH]; intros h head f Hs Hc Hb Hf; (destruct f as [|f]; [cbn in Hf; lia|]).
  - cbn in Hs. subst head. cbn. f_equal. apply heap_ext; [by apply hb_cells with []|].
    intros b. eapply hb_rest; [done|]. apply not_elem_of_nil.
  - destruct Hs as (-> & n & Hp & Hs). cbn [streams_loop]. rewrite (deref_seg _ _ _ _ Hp). cbn [obind data next].
    destruct (Hc (p, d)) as [st Hst]; [by left|]. destruct d as [b|]; [|done]. cbn in Hst, Hb. rewrite Hst in Hb. cbn in Hb.
    assert (Hld : blocks h !! b = Some st).
    { rewrite (hb_rest _ _ _ Hb); [done|]. intros Hin. destruct (hb_new _ _ _ Hb b Hin) as [? _]. congruence. }
    unfold load_block. rewrite Hld. cbn [obind]. destruct (stream_addr st) as [a|].
    + destruct (hb_new _ _ _ Hb a ltac:(by left)) as [Ha [v Hv]]. unfold free_block. rewrite Hv. cbn [obind].
      rewrite (deref_seg _ p (Some b) n) by done. cbn [obind next].
      pose proof (hb_nodup _ _ _ Hb) as [Hna Hnd]%list.NoDup_cons.
      apply IH; [done|intros; apply Hc; by right| |cbn in Hf; lia]. constructor; cbn; [by apply (hb_cells _ _ _ Hb)|done| |].
      * intros c Hin. rewrite lookup_delete_ne by (intros ->; done). apply (hb_new _ _ _ Hb). by right.
      * intros c Hin. destruct (decide (c = a)) as [->|Hne]; [by rewrite lookup_delete_eq|].
        rewrite lookup_delete_ne by done. apply (hb_rest _ _ _ Hb). rewrite elem_of_cons. tauto.
    + cbn [obind]. rewrite (deref_seg _ _ _ _ Hp). cbn [obind next].
      apply IH; [done|intros; apply Hc; by right|done|cbn in Hf; lia].
Qed.

Lemma list_free_owned base h head l : owns base h head l -> list_free h head = Ret base.
Proof.
  intros Ho. unfold list_free. eapply free_loop_owned; [done|].
  eapply seg_fuel; [by eapply owns_seg|by eapply owns_cells].
Qed.

Lemma free_streams_ok base h1 h streams sl :
  owns base h1 streams sl -> (forall x, x ∈ sl -> is_Some (content h1 x)) ->
  has_buffers h1 h (omap (fun x => content h1 x ≫= stream_addr) sl) -> free_streams h streams = Ret base.
Proof.
  intros Ho Hc Hb. unfold free_streams. pose proof (hb_cells _ _ _ Hb) as Hcells.
  rewrite (streams_loop_ok h1 h streams sl); [|rewrite Hcells; by eapply owns_seg|done..|].
  - cbn [obind]. pose proof (list_free_owned _ _ _ _ Ho) as Hl. by destruct streams.
  - apply seg_fuel with streams; [rewrite Hcells; by eapply owns_seg|by eapply owns_cells].
Qed.

(** Lists above a heap, and a change of a block below them. *)
Lemma has_lists_cells h1 hds h p e : has_lists h1 hds h -> cells h1 !! p = Some e -> cells h !! p = Some e.
Proof.
  induction 1 as [|h2 h hd els hds Hl IH Ho]; intros Hp; [done|]. specialize (IH Hp).
  rewrite (owns_rest _ _ _ _ Ho); [done|]. intros Hin. pose proof (owns_old _ _ _ _ Ho p Hin). congruence.
Qed.

Lemma has_lists_blocks h1 hds h b v : has_lists h1 hds h -> blocks h1 !! b = Some v -> blocks h !! b = Some v.
Proof.
  induction 1 as [|h2 h hd els hds Hl IH Ho]; intros Hp; [done|]. specialize (IH Hp).
  rewrite (owns_others _ _ _ _ Ho); [done|]. intros Hin. pose proof (owns_data _ _ _ _ Ho b Hin) as [? _]. congruence.
Qed.

Lemma owns_set_below base h head l b v :
  owns base h head l -> is_Some (blocks base !! b) -> owns (set_block b v base) (set_block b v h) head l.
Proof.
  intros Ho [w Hb]. destruct Ho as [O1 O2 O3 O4 O5 O6 O7].
  assert (Hn : b ∉ omap snd l) by (intros Hin; destruct (O6 b Hin); congruence).
  constructor; cbn; try done.
  - intros c Hc. rewrite !lookup_insert_ne by (intros ->; done). by apply O6.
  - intros c Hc. rewrite !lookup_insert. case_decide; [done|]. by apply O7.
Qed.

Lemma has_lists_set h1 hds h b v :
  has_lists h1 hds h -> is_Some (blocks h1 !! b) -> has_lists (set_block b v h1) hds (set_block b v h).
Proof.
  intros Hl [w Hb]. induction Hl as [|h2 h hd els hds Hl IH Ho]; [constructor|].
  econstructor; [exact IH|]. apply owns_set_below; [done|]. exists w. by eapply has_lists_blocks.
Qed.

Lemma owns_set_own base h head l b v : owns base h head l -> b ∈ omap snd l -> owns base (set_block b v h) head l.
Proof.
  intros [O1 O2 O3 O4 O5 O6 O7] Hb. constructor; cbn; try done.
  - intros c Hc. rewrite lookup_insert. case_decide; [subst; split; [by apply O6|done]|by apply O6].
  - intros c Hc. rewrite lookup_insert_ne by (intros ->; done). by apply O7.
Qed.

Lemma cpios_loop_ok h2 cpios cl h3 h l head f :
  owns h2 h3 cpios cl -> seg (cells h3) head l None -> (forall x, x ∈ l -> x ∈ cl) -> NoDup (omap snd l) ->
  (forall x, x ∈ l -> is_Some (content h3 x)) ->
  has_lists h3 (map (fun x => content h3 x ≫= cpio_headers) l) h -> (length l < f)%nat ->
  exists h3', cpios_loop f h head = Ret h3' /\ owns h2 h3' cpios cl.
Proof.
  revert h3 h head f. induction l as [|[p d] l IH]; intros h3 h head f Ho Hs Hin Hnd Hc Hl Hf; (destruct f as [|f]; [cbn in Hf; lia|]).
  - cbn in Hs. subst head. inversion Hl; subst. cbn. eauto.
  - destruct Hs as (-> & n & Hp & Hs). cbn [cpios_loop].
    rewrite (deref_seg _ p d n) by (by eapply has_lists_cells). cbn [obind data].
    destruct (Hc (p, d)) as [c Hcc]; [by left|]. destruct d as [b|]; [|done]. cbn in Hcc.
    inversion Hl as [|h4 h' hd els hds Hl' Ho' E1 E2]; subst. cbn in Ho', Hl'. rewrite Hcc in Ho'. cbn in Ho'.
    cbn in Hnd. apply list.NoDup_cons in Hnd as [Hnb Hnd].
    assert (Hb4 : blocks h4 !! b = Some c) by (by eapply has_lists_blocks).
    unfold cpio_free, load_block. rewrite (has_lists_blocks _ _ _ b c Hl Hcc). cbn [obind].
    rewrite (list_free_owned _ _ _ _ Ho'). cbn [obind]. rewrite Hb4. cbn [obind].
    rewrite (deref_seg _ p (Some b) n) by exact (has_lists_cells _ _ _ _ _ Hl' Hp). cbn [obind next].
    apply (IH (set_block b (cpio_clear c) h3)).
    + apply owns_set_own; [done|]. apply list_elem_of_omap. exists (p, Some b). split; [apply Hin; by left|done].
    + done.
    + intros x Hx. apply Hin. by right.
    + done.
    + intros [q [d|]] Hx; [|by destruct (Hc (q, None)); [right|]]. unfold content. cbn. rewrite lookup_insert_is_Some'.
      right. apply (Hc (q, Some d)). by right.
    + erewrite map_ext_in; [apply has_lists_set; [exact Hl'|by rewrite Hcc]|].
      intros [q [d|]] Hx; unfold content; cbn; [|done]. rewrite lookup_insert_ne; [done|]. intros ->. apply Hnb.
      apply list_elem_of_omap. exists (q, Some d). split; [by apply list_elem_of_In|done].
    + cbn in Hf. lia.
Qed.

Lemma free_cpios_ok h2 h3 h cpios cl :
  owns h2 h3 cpios cl -> (forall x, x ∈ cl -> is_Some (content h3 x)) ->
  has_lists h3 (map (fun x => content h3 x ≫= cpio_headers) cl) h -> free_cpios h cpios = Ret h2.
Proof.
  intros Ho Hc Hl. unfold free_cpios.
  assert (Hs : seg (cells h) cpios cl None).
  { eapply seg_ext; [by eapply owns_seg|]. intros p Hp. destruct (seg_in _ _ _ _ p (owns_seg _ _ _ _ Ho) Hp) as [e He].
    rewrite He. by eapply has_lists_cells. }
  destruct (cpios_loop_ok h2 cpios cl h3 h cl cpios (fuel_of h)) as (h3' & -> & Ho'); [done|by eapply owns_seg|done|by eapply owns_blocks|done|done|
    apply seg_fuel with cpios; [done|by eapply owns_cells]|].
  cbn [obind]. by eapply list_free_owned.
Qed.

(** C17. After an image was read, the cleanups of initrd-ls and initrd-extract end, free the
    two lists, the structures in them, the unpacked buffers and the headers of all
    archives, each exactly once, and leave the memory as it was before; nothing that has
    been freed is read. *)
Theorem image_released base h streams cpios :
  image_heap base h streams cpios -> release h streams cpios = Ret base.
Proof.
  intros [(h1 & h2 & h3 & sl & cl & bs & hds & Hos & Hcs & Hb & -> & Hoc & Hcc & Hl & ->)]. unfold release.
  assert (match cpios with Some _ => free_cpios h cpios | None => Ret h end = Ret h2) as ->.
  { pose proof (free_cpios_ok h2 h3 h cpios cl Hoc Hcc Hl) as Hf. destruct cpios; [done|]. done. }
  cbn [obind]. pose proof (free_streams_ok base h1 h2 streams sl Hos Hcs Hb) as Hf. by destruct streams.
Qed.

End Layout.

(** ** An image with one unpacked stream and one archive with one header *)

Definition add_one (p b : loc) (v : bytes) (h : heap) : heap :=
  {| cells := <[p := {| next := None; data := Some b |}]> (cells h); blocks := <[b := v]> (blocks h) |}.

Lemma owns_one h p b v : cells h !! p = None -> blocks h !! b = None -> owns h (add_one p b v h) (Some p) [(p, Some b)].
Proof.
  intros Hp Hb. constructor; cbn.
  - split; [done|]. exists None. split; [apply lookup_insert_eq|done].
  - apply list.NoDup_singleton.
  - apply list.NoDup_singleton.
  - by intros q ->%list_elem_of_singleton.
  - intros q Hq. rewrite lookup_insert_ne; [done|]. intros ->. apply Hq. by left.
  - intros c ->%list_elem_of_singleton. by rewrite lookup_insert_eq.
  - intros c Hc. rewrite lookup_insert_ne; [done|]. intros ->. apply Hc. by left.
Qed.

Definition demo_addr (st : bytes) : option loc := if decide (st = #"stream") then Some 3%positive else None.
Definition demo_headers (c : bytes) : option loc := if decide (c = #"cpio") then Some 6%positive else None.
Definition demo_image : heap :=
  add_one 6 7 #"header" (add_one 4 5 #"cpio" (set_block 3 #"unpacked" (add_one 1 2 #"stream" {| cells := ∅; blocks := ∅ |}))).

Lemma image_released_witness :
  release demo_addr demo_headers (fun _ => []) demo_image (Some 1%positive) (Some 4%positive) = Ret {| cells := ∅; blocks := ∅ |}.
Proof.
  apply (image_released demo_addr demo_headers (fun _ => []) {| cells := ∅; blocks := ∅ |}). constructor.
  eexists (add_one 1 2 #"stream" _), (set_block 3 #"unpacked" _), (add_one 4 5 #"cpio" _), [(1%positive, Some 2%positive)], [(4%positive, Some 5%positive)], [3%positive], [Some 6%positive].
  split_and!.
  - by apply owns_one.
  - intros x ->%list_elem_of_singleton. vm_compute. by eexists.
  - constructor; [done|apply list.NoDup_singleton| |].
    + intros c ->%list_elem_of_singleton. by vm_compute; split; [|eexists].
    + intros c Hc. cbn. rewrite lookup_insert_ne; [done|]. intros <-. apply Hc. by left.
  - by vm_compute.
  - by apply owns_one.
  - intros x ->%list_elem_of_singleton. vm_compute. by eexists.
  - econstructor; [constructor|]. by apply owns_one.
  - by vm_compute.
Defined.
