(* ===== verification/Extract.v ===== *)
(** initrd-extract (src/utils/initrd-extract/initrd-extract.c): the entries of
    all the archives of an image, or of one of them, written as one archive. *)

From Stdlib Require Import ZArith Ascii String Lia.
From stdpp Require Import base list strings gmap tactics numbers.
From S2P Require Import Prelude Cpio Decompress Parse.

Open Scope Z_scope.
Open Scope cprog_scope.

(** [strtoul(value, &p, 10)] must consume the whole string; the result is
    converted to int. *)
Definition str2int (value : bytes) : out Z :=
  match value with
  | [] => Die EXIT_FAILURE "invalid value for option"
  | _ => let '(n, _, p) := strtoul 10 value in
         match p with
         | [] => Ret (i32 n)
         | _ => Die EXIT_FAILURE "invalid value for option"
         end
  end.

(** The options getopt_long returns, in order; for -o, whether fopen succeeds. *)
Inductive extract_opt :=
  | Opt_a (optarg : bytes)
  | Opt_o (optarg : string) (fopen_ok : bool)
  | Opt_V
  | Opt_h
  | Opt_unknown.

Fixpoint extract_options (os : list extract_opt) (n_archive : Z) (output : option string)
  : out (Z * option string) :=
  match os with
  | [] => Ret (n_archive, output)
  | Opt_a v :: os =>
      let! n := str2int v in
      if n <=? 0 then Die EXIT_FAILURE "invalid value for option"
      else extract_options os n output
  | Opt_o f true :: os => extract_options os n_archive (Some f)
  | Opt_o f false :: os => Die EXIT_FAILURE "ERROR: fopen"
  | Opt_V :: os => Die EXIT_SUCCESS "version"
  | Opt_h :: os => Die EXIT_SUCCESS "help"
  | Opt_unknown :: os => Die EXIT_FAILURE ""
  end.

Definition is_archive (c : cpio) : bool :=
  match type c with CPIO_ARCHIVE => true | _ => false end.

(** The loop over the archives: [c] is the number of the current one. *)
Fixpoint extract_loop (l : list cpio) (c n_archive offset : Z) (output : bytes) : out (Z * bytes) :=
  match l with
  | [] => Ret (offset, output)
  | a :: l =>
      if negb (is_archive a) then extract_loop l (i32 (c + 1)) n_archive offset output
      else
        let! (offset, output) :=
          (if (n_archive =? 0) || (c =? n_archive) then write_headers (headers a) offset output
           else Ret (offset, output)) in
        extract_loop l (i32 (c + 1)) n_archive offset output
  end.

(** main: [file] is the contents of the image, [None] when stat or open fails;
    mmap fails on an empty file. The result is the output file (stdout when there
    is no -o), what the parser printed on stdout, and what was written. *)
Definition extract_main (b : build) {R : Decompressors} (fuel : nat)
    (os : list extract_opt) (arg : bool) (file : option bytes)
  : out (option string * bytes * bytes) :=
  let! (n_archive, output) := extract_options os 0 None in
  if negb arg then Die EXIT_FAILURE "Missing initrd file" else
  match file with
  | None => Die EXIT_FAILURE "ERROR: stat"
  | Some [] => Die EXIT_FAILURE "ERROR: mmap"
  | Some f =>
      let! st := parse_initrd b fuel f in
      let! (offset, written) := extract_loop (cpios (res st)) 1 n_archive 0 [] in
      let! written := write_trailer offset written in
      Ret (output, stdout st, written)
  end.

(** The entries that [n_archive] selects from archives numbered from [c]: all of
    them for 0, otherwise those of the archive with that number, if any. *)
Definition selected (c n_archive : Z) (archives : list (option string * entries)) : entries :=
  if n_archive =? 0 then concat (map snd archives)
  else if n_archive <? c then []
  else default [] (snd <$> archives !! Z.to_nat (n_archive - c)).

(** ** Entries read are written back unchanged *)

Lemma same_entry_wf h h' nm : wf_entry h nm -> same_entry h h' ->
  wf_entry h' nm /\ encode h' nm = encode h nm.
Proof.
  intros W [S1 S2 S3 S4 S5 S6]. pose proof S1 as Hf. unfold header_fields in Hf.
  injection Hf as Hino Hmode Huid Hgid Hnl Hmt Hbl Hma Hmi Hrma Hrmi Hname.
  split.
  - destruct W. constructor; try congruence.
    intros Hm. rewrite Hbl. apply wf_special. congruence.
  - unfold encode. rewrite S1, Hbl. by rewrite S5.
Qed.

Lemma same_entries_wf es hs : wf_archive es -> Forall2 same_entry (map fst es) hs ->
  exists es', hs = map fst es' /\ wf_archive es' /\ encode_all es' = encode_all es.
Proof.
  revert hs. induction es as [|[h nm] es IH]; intros hs W Hs; cbn [map fst] in Hs.
  - inversion Hs. by exists [].
  - inversion Hs as [|? h' ? hs' Hh Hhs]; subst. apply Forall_cons_1 in W as [We W].
    destruct (IH hs' W Hhs) as (es' & -> & W' & He).
    destruct (same_entry_wf h h' nm We Hh) as [We' Hh'].
    exists ((h', nm) :: es'). split; [done|]. split; [by constructor|].
    by rewrite !encode_all_cons, He, Hh'.
Qed.

Lemma encode_all_app es1 es2 : encode_all (es1 ++ es2) = encode_all es1 ++ encode_all es2.
Proof. unfold encode_all. by rewrite map_app, concat_app. Qed.

Lemma selected_cons c n x xs : 0 <= c ->
  selected c n (x :: xs) = (if (n =? 0) || (c =? n) then snd x else []) ++ selected (c + 1) n xs.
Proof.
  intros Hc. unfold selected. destruct (n =? 0) eqn:E0; [done|]. unbool. cbn [orb].
  destruct (c =? n) eqn:E1; unbool.
  - subst n. rewrite Z.ltb_irrefl, Z.sub_diag. rewrite (proj2 (Z.ltb_lt c (c + 1))) by lia.
    cbn. by rewrite app_nil_r.
  - cbn [app]. destruct (n <? c) eqn:E2; unbool.
    + by rewrite (proj2 (Z.ltb_lt n (c + 1))) by lia.
    + rewrite (proj2 (Z.ltb_ge n (c + 1))) by lia.
      by replace (Z.to_nat (n - c)) with (S (Z.to_nat (n - (c + 1)))) by lia.
Qed.

Lemma selected_wf c n xs : Forall (fun x => wf_archive (snd x)) xs -> wf_archive (selected c n xs).
Proof.
  intros W. unfold selected. repeat case_match; try apply Forall_nil_2.
  - induction W; [apply Forall_nil_2|]. by apply Forall_app.
  - destruct (xs !! _) as [x|] eqn:E; cbn; [|apply Forall_nil_2]. by eapply Forall_lookup_1 in W.
Qed.

(** The loop writes the entries selected. *)
Lemma extract_loop_encode xs : forall cs c n offset output rest,
  Forall2 found xs cs -> Forall (fun x => wf_archive (snd x)) xs ->
  0 <= c -> c + lenZ xs < 2 ^ 31 -> 0 <= offset -> offset mod 4 = 0 ->
  let e := encode_all (selected c n xs) in
  offset + lenZ e < 2 ^ 64 ->
  extract_loop (cs ++ rest) c n offset output
  = extract_loop rest (c + lenZ xs) n (offset + lenZ e) (output ++ e).
Proof.
  induction xs as [|x xs IH]; intros cs c n offset output rest Hf W Hc Hn H0 Hal e Hsz; subst e.
  - inversion Hf; subst. cbn [app]. unfold selected. cbn.
    replace (if n =? 0 then _ else _) with (@nil (cpio_header * bytes)) by (by repeat case_match).
    change (lenZ (encode_all [])) with 0. change (lenZ []) with 0. by rewrite !Z.add_0_r, app_nil_r.
  - inversion Hf as [|? a ? cs' Hx Hxs]; subst. apply Forall_cons_1 in W as [We W].
    destruct Hx as (Ht & _ & Hs). destruct (same_entries_wf _ _ We Hs) as (es' & Hh & W' & He).
    cbn [app extract_loop]. unfold is_archive. rewrite Ht. cbn [negb].
    rewrite selected_cons, encode_all_app, lenZ_app in * by done.
    rewrite lenZ_cons in *. pose proof (lenZ_nonneg xs).
    pose proof (lenZ_nonneg (encode_all (selected (c + 1) n xs))).
    assert ((if (n =? 0) || (c =? n) then write_headers (headers a) offset output else Ret (offset, output))
      = let e := encode_all (if (n =? 0) || (c =? n) then snd x else []) in
        Ret (offset + lenZ e, output ++ e)) as ->.
    { destruct ((n =? 0) || (c =? n)).
      - cbv zeta. rewrite Hh, write_headers_encode, He by (done || rewrite ?He; lia). done.
      - cbn. by rewrite Z.add_0_r, app_nil_r. }
    cbn [obind]. rewrite i32_small by lia.
    set (e1 := encode_all (if (n =? 0) || (c =? n) then snd x else [])) in *.
    assert (lenZ e1 mod 4 = 0).
    { unfold e1. case_match; [by apply encode_all_mod4|done]. }
    pose proof (lenZ_nonneg e1).
    rewrite IH by (done || mlia || lia). rewrite <- app_assoc, !Z.add_assoc. f_equal; lia.
Qed.

Lemma extract_loop_bootconfig bc bcs c n offset output :
  found_bootconfig bc bcs -> extract_loop bcs c n offset output = Ret (offset, output).
Proof.
  destruct bc as [bc|]; cbn; [|by intros ->]. intros (x & -> & Ht & _). cbn. unfold is_archive.
  by rewrite Ht.
Qed.

Lemma segment_archives_wf b {R : Decompressors} segs : Forall (wf_segment b) segs ->
  Forall (fun x => wf_archive (snd x)) (concat (map segment_archives segs)).
Proof.
  induction 1 as [|s segs Hs W IH]; [apply Forall_nil_2|]. cbn [map concat]. apply Forall_app.
  split; [|done]. destruct s as [es|cf fn blob ess]; cbn [segment_archives].
  - by constructor.
  - destruct Hs as (_ & _ & _ & _ & We & _). by apply Forall_map.
Qed.

(** ** Images that extraction produces *)

Lemma memcmp_magic_newline p : memcmp_eq p BOOTCONFIG_MAGIC = Ret true -> p !! 11%nat = Some (ascii_of_nat 10).
Proof.
  unfold memcmp_eq. case_decide; [done|]. intros Hb. injection Hb as Hb. apply bool_decide_eq_true in Hb.
  rewrite <- (lookup_take_lt _ 12) by lia. by rewrite Hb.
Qed.

Lemma dropZ_lookup {A} n (l : list A) i : 0 <= n <= lenZ l -> dropZ n l !! i = l !! (Z.to_nat n + i)%nat.
Proof.
  intros Hn. unfold dropZ. destruct ((0 <=? n) && (n <? lenZ l)) eqn:E; [by rewrite lookup_drop|].
  unbool; symmetry; apply lookup_ge_None_2; unfold lenZ in *; lia.
Qed.

(** Nothing that ends with four NUL bytes looks like a bootconfig. *)
Lemma find_magic_nul t n : (n <= 4)%nat -> 120 <= lenZ t ->
  let s := t ++ replicate 4 NUL in
  find_magic n s (lenZ s - BOOTCONFIG_MAGIC_LEN - (4 - Z.of_nat n)) = Ret None.
Proof.
  intros Hn Ht s. assert (lenZ s = lenZ t + 4) as Hs by (unfold s; by rewrite lenZ_app).
  unfold BOOTCONFIG_MAGIC_LEN. induction n as [|n IH]; [done|]. cbn [find_magic].
  rewrite (proj2 (Z.ltb_ge _ 0)) by lia.
  set (d := lenZ s - 12 - (4 - Z.of_nat (S n))).
  assert (dropZ d s !! 11%nat = Some NUL) as Hl.
  { rewrite dropZ_lookup by lia. unfold s. rewrite lookup_app_r by (unfold lenZ in *; lia).
    apply lookup_replicate_2. unfold lenZ in *. lia. }
  rewrite memcmp_eq_in.
  2:{ change (lenZ BOOTCONFIG_MAGIC) with 12. rewrite lenZ_dropZ by lia. lia. }
  cbn [obind]. case_bool_decide as Hb.
  - assert (memcmp_eq (dropZ d s) BOOTCONFIG_MAGIC = Ret true) as Hm.
    { rewrite memcmp_eq_in; [by rewrite bool_decide_true|]. change (lenZ BOOTCONFIG_MAGIC) with 12.
      rewrite lenZ_dropZ by lia. lia. }
    apply memcmp_magic_newline in Hm. rewrite Hl in Hm. discriminate.
  - replace (d - 1) with (lenZ s - 12 - (4 - Z.of_nat n)) by lia. apply IH. lia.
Qed.

Lemma archive_image_nul es : exists t, archive_image es = t ++ replicate 4 NUL /\ 120 <= lenZ t.
Proof.
  pose proof (lenZ_archive_image_pos es) as Hl. unfold archive_image in *. unfold pad512 in *.
  set (k := Z.to_nat _) in *. clearbody k.
  change trailer_image with (take 120 trailer_image ++ replicate 4 NUL) in *.
  exists (encode_all es ++ take 120 trailer_image ++ replicate k NUL).
  assert (replicate 4 NUL ++ replicate k NUL = replicate k NUL ++ replicate 4 NUL) as Hc.
  { rewrite <- !replicate_add. f_equal. lia. }
  split; [by rewrite <- !app_assoc, Hc|]. rewrite !lenZ_app in *.
  change (lenZ (replicate 4 NUL)) with 4 in Hl. lia.
Qed.

Lemma archive_image_no_bootconfig es :
  find_magic 4 (archive_image es) (lenZ (archive_image es) - BOOTCONFIG_MAGIC_LEN) = Ret None.
Proof.
  destruct (archive_image_nul es) as (t & -> & Ht). pose proof (find_magic_nul t 4 ltac:(lia) Ht) as H.
  cbv zeta in H. by rewrite Z.sub_diag, Z.sub_0_r in H.
Qed.

(** ** The program on an image *)

Lemma image_cons segs bc :
  match bc with
  | None => find_magic 4 (image segs bc) (lenZ (image segs bc) - BOOTCONFIG_MAGIC_LEN) = Ret None
  | Some bc => wf_bootconfig bc
  end -> exists x t, image segs bc = x :: t.
Proof.
  destruct (image segs bc) as [|x t] eqn:E; [|by do 2 eexists]. destruct bc as [bc|].
  - intros _. exfalso. apply (f_equal lenZ) in E. unfold image in E. cbn [from_option] in E.
    unfold bootconfig_image in E. rewrite !lenZ_app in E. change (lenZ BOOTCONFIG_MAGIC) with 12 in E.
    change (lenZ []) with 0 in E.
    pose proof (lenZ_nonneg (concat (map segment_image segs))). pose proof (lenZ_nonneg (bc_data bc)).
    pose proof (lenZ_nonneg (le32_bytes (lenZ (bc_data bc)))). pose proof (lenZ_nonneg (bc_csum bc)).
    pose proof (lenZ_nonneg (replicate (bc_pad bc) NUL)). lia.
  - done.
Qed.

Lemma extract_image b {R : Decompressors} segs bc fuel os n dest :
  let xs := concat (map segment_archives segs) in
  Forall (wf_segment b) segs ->
  match bc with
  | None => find_magic 4 (image segs bc) (lenZ (image segs bc) - BOOTCONFIG_MAGIC_LEN) = Ret None
  | Some bc => wf_bootconfig bc
  end ->
  lenZ (image segs bc) < 2 ^ 32 -> lenZ xs < 2 ^ 31 - 1 ->
  lenZ (encode_all (selected 1 n xs)) < 2 ^ 62 -> (image_fuel segs + 1 < fuel)%nat ->
  extract_options os 0 None = Ret (n, dest) ->
  extract_main b fuel os true (Some (image segs bc)) = Ret (dest, [], archive_image (selected 1 n xs)).
Proof.
  intros xs W Hbc Hsz Hn Hmax Hf Ho. unfold extract_main. rewrite Ho. cbn [obind negb].
  destruct (image_cons segs bc Hbc) as (x & t & Hx).
  destruct (parse_image_ok b segs bc fuel W Hbc Hsz Hf) as (st & cs & bcs & Hp & _ & Hout & Hc & Hcs & Hb).
  rewrite Hx in *. rewrite Hp. cbn [obind]. rewrite Hc, Hout.
  pose proof (segment_archives_wf b segs W) as Wx. fold xs in Hcs, Wx.
  rewrite (extract_loop_encode xs) by (done || lia). rewrite (extract_loop_bootconfig bc) by done.
  cbn [obind app]. rewrite Z.add_0_l. pose proof (lenZ_nonneg (encode_all (selected 1 n xs))).
  rewrite write_trailer_image; [done|lia|lia|]. by apply encode_all_mod4, selected_wf.
Qed.

(** ** Theorems *)

(** C11. What initrd-extract writes. On an image made of archives, compressed
    sequences of archives and an optional bootconfig, the program ends without
    error and writes one archive: the entries of all the archives in order, or,
    with -a N, the entries of the N-th one (none if there is no such archive),
    each unchanged, with one trailer and padded to 512 bytes. *)
Theorem extract_main_image b {R : Decompressors} segs bc fuel os n dest :
  let xs := concat (map segment_archives segs) in
  Forall (wf_segment b) segs ->
  match bc with
  | None => find_magic 4 (image segs bc) (lenZ (image segs bc) - BOOTCONFIG_MAGIC_LEN) = Ret None
  | Some bc => wf_bootconfig bc
  end ->
  lenZ (image segs bc) < 2 ^ 32 -> lenZ xs < 2 ^ 31 - 1 ->
  lenZ (encode_all (selected 1 n xs)) < 2 ^ 62 -> (image_fuel segs + 1 < fuel)%nat ->
  extract_options os 0 None = Ret (n, dest) ->
  extract_main b fuel os true (Some (image segs bc)) = Ret (dest, [], archive_image (selected 1 n xs)).
Proof. apply extract_image. Qed.

Lemma extract_main_image_witness :
  extract_options [Opt_o "out" true; Opt_a #"2"] 0 None = Ret (2, Some "out"%string) /\
  @extract_main all_formats demo_libraries 100 [Opt_o "out" true; Opt_a #"2"] true
    (Some (image demo_segments (Some demo_bootconfig)))
  = Ret (Some "out"%string, [], archive_image (selected 1 2 (concat (map segment_archives demo_segments)))).
Proof.
  split; [vm_compute; reflexivity|].
  apply (@extract_main_image all_formats demo_libraries demo_segments (Some demo_bootconfig) 100
           [Opt_o "out" true; Opt_a #"2"] 2 (Some "out"%string) demo_segments_wf).
  - split_and!; vm_compute; reflexivity || lia.
  - vm_compute. reflexivity.
  - vm_compute. reflexivity.
  - vm_compute. reflexivity.
  - vm_compute. lia.
  - vm_compute. reflexivity.
Defined.

(** Extraction is idempotent. The archive that initrd-extract writes is
    itself an image, and extracting it again gives the same bytes. *)
Theorem extract_main_idempotent b {R : Decompressors} segs bc fuel :
  let xs := concat (map segment_archives segs) in
  Forall (wf_segment b) segs ->
  match bc with
  | None => find_magic 4 (image segs bc) (lenZ (image segs bc) - BOOTCONFIG_MAGIC_LEN) = Ret None
  | Some bc => wf_bootconfig bc
  end ->
  lenZ (image segs bc) < 2 ^ 32 -> lenZ xs < 2 ^ 31 - 1 ->
  lenZ (archive_image (concat (map snd xs))) < 2 ^ 32 ->
  (image_fuel segs + 1 < fuel)%nat -> (length (concat (map snd xs)) + 3 < fuel)%nat ->
  exists written,
    extract_main b fuel [] true (Some (image segs bc)) = Ret (None, [], written)
    /\ extract_main b fuel [] true (Some written) = Ret (None, [], written).
Proof.
  intros xs W Hbc Hsz Hn Hmax Hf Hf'. set (es := concat (map snd xs)) in *.
  assert (lenZ (encode_all es) <= lenZ (archive_image es)) as Hle.
  { rewrite lenZ_archive_image. pose proof (lenZ_nonneg (encode_all es)). mlia. }
  pose proof (segment_archives_wf b segs W) as Wx. fold xs in Wx.
  pose proof (selected_wf 1 0 xs Wx) as We. change (selected 1 0 xs) with es in We.
  exists (archive_image es). split.
  - apply (extract_image b segs bc fuel [] 0 None); try done. fold xs. change (selected 1 0 xs) with es. lia.
  - assert (image [Plain es] None = archive_image es) as Hi.
    { unfold image. cbn. by rewrite !app_nil_r. }
    pose proof (extract_image b [Plain es] None fuel [] 0 None) as H. cbv zeta in H. rewrite Hi in H.
    cbn [map concat segment_archives app] in H.
    assert (selected 1 0 [(Some "raw"%string, es)] = es) as Hsel
      by (unfold selected; cbn [Z.eqb map snd concat]; apply app_nil_r).
    rewrite Hsel in H. apply H; try done.
    + by constructor.
    + apply archive_image_no_bootconfig.
    + lia.
    + unfold image_fuel. cbn. lia.
Qed.

Lemma extract_main_idempotent_witness :
  exists written,
    @extract_main all_formats demo_libraries 100 [] true
      (Some (image demo_segments (Some demo_bootconfig))) = Ret (None, [], written)
    /\ @extract_main all_formats demo_libraries 100 [] true (Some written) = Ret (None, [], written).
Proof.
  apply (@extract_main_idempotent all_formats demo_libraries demo_segments (Some demo_bootconfig) 100
           demo_segments_wf).
  - split_and!; vm_compute; reflexivity || lia.
  - vm_compute. reflexivity.
  - vm_compute. reflexivity.
  - vm_compute. reflexivity.
  - vm_compute. lia.
  - vm_compute. lia.
Defined.

(** The argument of -a is reduced modulo 2^32. Every decimal numeral below
    2^64 is accepted by str2int, which returns it converted to int, so the
    numeral of [2^32 + n] selects the archive [n] instead of being refused. *)
Theorem str2int_truncates n :
  0 < n < 2 ^ 31 ->
  str2int (fmt_num 10 n) = Ret n
  /\ extract_options [Opt_a (fmt_num 10 (2 ^ 32 + n))] 0 None = Ret (n, None).
Proof.
  intros Hn. assert (forall z, 0 <= z < 2 ^ 64 -> str2int (fmt_num 10 z) = Ret (i32 z)) as Hs.
  { intros z Hz. pose proof (strtoul_fmt_num_10 z Hz) as H. unfold str2int.
    destruct (fmt_num 10 z) eqn:E; [by apply fmt_num_nonempty in E|]. by rewrite H. }
  rewrite Hs, i32_small by lia. split; [done|]. cbn [extract_options]. rewrite Hs by lia. cbn [obind].
  assert (i32 (2 ^ 32 + n) = n) as ->.
  { unfold i32. replace (2 ^ 32 + n + 2 ^ 31) with (n + 2 ^ 31 + 1 * 2 ^ 32) by lia.
    rewrite Z.mod_add, Z.mod_small by lia. lia. }
  by rewrite (proj2 (Z.leb_gt _ _)) by lia.
Qed.

Lemma str2int_truncates_witness :
  str2int (fmt_num 10 1) = Ret 1
  /\ extract_options [Opt_a (fmt_num 10 (2 ^ 32 + 1))] 0 None = Ret (1, None).
Proof. apply (str2int_truncates 1). lia. Defined.
