(* ===== verification/Ls.v ===== *)
(** initrd-ls (src/utils/initrd-ls): the listing of an image. Printing is a
    list of bytes; the rendering of a time, which depends on the time zone of the
    process, is a parameter. *)

From Stdlib Require Import ZArith Ascii String Lia.
From stdpp Require Import base list strings gmap tactics numbers.
From S2P Require Import Prelude Cpio Decompress Parse.

Open Scope Z_scope.
Open Scope cprog_scope.

Definition SHOW_COMPRESSION : Z := Z.shiftl 1 1.
Definition SHOW_NAME_ONLY : Z := Z.shiftl 1 2.
Definition SHOW_NO_MTIME : Z := Z.shiftl 1 3.
Definition SHOW_BRIEF : Z := Z.shiftl 1 4.

Definition opt_set (opts flag : Z) : bool := negb (Z.land opts flag =? 0).

(** major() and minor() of sys/sysmacros.h on a 64-bit dev_t. *)
Definition dev_major (dev : Z) : Z :=
  Z.lor (Z.land (Z.shiftr dev 8) 4095) (Z.land (Z.shiftr dev 32) (2 ^ 32 - 4096)).
Definition dev_minor (dev : Z) : Z :=
  Z.lor (Z.land dev 255) (Z.land (Z.shiftr dev 12) (2 ^ 32 - 256)).

Definition S_ISTYPE (mode t : Z) : bool := Z.land mode S_IFMT =? t.
Definition is_device (mode : Z) : bool := S_ISTYPE mode S_IFCHR || S_ISTYPE mode S_IFBLK.

(** The widths of the columns (the static variables of initrd-ls-format.c). *)
Record widths := {
  max_nlinks : Z;
  max_size : Z;
  max_uid : Z;
  max_gid : Z;
  max_min : Z;
  max_maj : Z;
}.

Definition widths0 : widths :=
  {| max_nlinks := 1; max_size := 1; max_uid := 1; max_gid := 1; max_min := 1; max_maj := 1 |}.

(** What snprintf returns for a decimal conversion. *)
Definition ndigits (z : Z) : Z := lenZ (fmt_num 10 z).

Definition preformat (h : cpio_header) (w : widths) : widths :=
  let wider old z := if old <? ndigits z then ndigits z else old in
  let nl := wider (max_nlinks w) (nlink h) in
  let u := wider (max_uid w) (uid h) in
  let g := wider (max_gid w) (gid h) in
  if is_device (mode h) then
    let ma := wider (max_maj w) (dev_major (rdev h)) in
    let mi := wider (max_min w) (dev_minor (rdev h)) in
    {| max_nlinks := nl;
       max_size := if max_size w <? ma + mi + 1 then ma + mi + 1 else max_size w;
       max_uid := u; max_gid := g; max_min := mi; max_maj := ma |}
  else
    {| max_nlinks := nl; max_size := wider (max_size w) (body_len h);
       max_uid := u; max_gid := g; max_min := max_min w; max_maj := max_maj w |}.

(** The first character of the mode, and the three groups. *)
Definition type_char (m : Z) : ascii :=
  let t := Z.land m S_IFMT in
  if t =? S_IFBLK then "b" else if t =? S_IFCHR then "c" else if t =? S_IFDIR then "d"
  else if t =? S_IFIFO then "p" else if t =? S_IFLNK then "l" else if t =? S_IFSOCK then "s"
  else if t =? S_IFREG then "-" else "?".

Definition STAT_ISSET (m mask : Z) : bool := Z.land m mask =? mask.
Definition bit_char (m mask : Z) (c : ascii) : ascii := if STAT_ISSET m mask then c else "-"%char.
Definition exec_char (m special x : Z) (c : ascii) : ascii :=
  if negb (STAT_ISSET m special) then bit_char m x "x" else c.

Definition mode_string (m : Z) : bytes :=
  [type_char m; bit_char m 256 "r"; bit_char m 128 "w"; exec_char m 2048 64 "S";
   bit_char m 32 "r"; bit_char m 16 "w"; exec_char m 1024 8 "S";
   bit_char m 4 "r"; bit_char m 2 "w"; exec_char m 512 1 (if S_ISTYPE m S_IFDIR then "t" else "T")].

(** The conversion %<w>u; a width that is not positive pads nothing. *)
Definition fmt_w (w z : Z) : bytes := fmt_u (Z.to_nat w) z.

(** "%.*s": at most [n] bytes of the string, all of it when [n] is negative. *)
Fixpoint until_nul (n : nat) (s : bytes) : out bytes :=
  match n with
  | O => Ret []
  | S n' => match s with
            | [] => Undef
            | c :: s' => if decide (c = NUL) then Ret []
                         else let! r := until_nul n' s' in Ret (c :: r)
            end
  end.
Definition fmt_prec (n : Z) (s : bytes) : out bytes :=
  if n <? 0 then match cstr s with Some r => Ret r | None => Undef end
  else until_nul (Z.to_nat n) s.

(** The columns between the mode and the time. *)
Definition columns (w : widths) (h : cpio_header) : bytes :=
  #" " ++ fmt_w (max_nlinks w) (nlink h) ++ #" " ++ fmt_w (max_uid w) (uid h) ++ #" "
  ++ fmt_w (max_gid w) (gid h) ++ #" "
  ++ (if is_device (mode h)
      then fmt_w (max_size w - max_maj w - max_min w) (dev_major (rdev h)) ++ #","
           ++ fmt_w (max_min w) (dev_minor (rdev h))
      else fmt_w (max_size w) (body_len h))
  ++ #" ".

Definition newline : bytes := [ascii_of_nat 10].

Section Listing.
Context (time_string : Z -> bytes).

Definition show_header (opts : Z) (w : widths) (h : cpio_header) : out bytes :=
  let timbuf := if negb (opt_set opts SHOW_NO_MTIME) then time_string (mtime h) else [] in
  match cstr (name h) with
  | None => Undef
  | Some nm =>
      let! target := (if S_ISTYPE (mode h) S_IFLNK
                      then let! t := fmt_prec (i32 (body_len h)) (body h) in Ret (#" -> " ++ t)
                      else Ret []) in
      Ret (mode_string (mode h) ++ columns w h ++ timbuf ++ nm ++ target ++ newline)
  end.

(** What printf prints for a string pointer. *)
Definition fmt_s (w : Z) (s : option string) : bytes :=
  pad_left (Z.to_nat w) " " (from_option (fun x => #x) #"(null)" s).

Fixpoint preformat_all (hs : list cpio_header) (w : widths) : widths :=
  match hs with [] => w | h :: hs => preformat_all hs (preformat h w) end.

(** The first loop of main: the widths, and the number of parts. *)
Fixpoint measure (opts : Z) (l : list cpio) (w : widths) (max_compress_name n_cpio : Z)
  : widths * Z * Z :=
  match l with
  | [] => (w, max_compress_name, n_cpio)
  | part :: l =>
      match opt_set opts SHOW_BRIEF, type part with
      | false, CPIO_ARCHIVE =>
          let n := lenZ (fmt_s 0 (compress part)) in
          let max_compress_name :=
            if opt_set opts SHOW_COMPRESSION && (max_compress_name <? n) then n
            else max_compress_name in
          measure opts l (preformat_all (headers part) w) max_compress_name (n_cpio + 1)
      | _, _ => measure opts l w max_compress_name (n_cpio + 1)
      end
  end.

Definition brief_line (c : Z) (part : cpio) : out bytes :=
  let! kind :=
    match type part with
    | CPIO_ARCHIVE =>
        match compress part with
        | None => Undef
        | Some z => Ret ((if decide (z = "raw"%string) then [] else #z ++ #" compressed ")
                         ++ #"cpio archive")
        end
    | CPIO_BOOTCONFIG => Ret #"bootconfig"
    | CPIO_UNKNOWN => Ret #"unknown"
    end in
  Ret (fmt_num 10 c ++ [ascii_of_nat 9] ++ kind ++ #", size " ++ fmt_num 10 (Cpio.size part)
       ++ #" bytes" ++ newline).

Definition line_prefix (opts digits max_compress_name c : Z) (part : cpio) : bytes :=
  fmt_w digits c ++ #" "
  ++ (if opt_set opts SHOW_COMPRESSION then fmt_s max_compress_name (compress part) ++ #" " else []).

Fixpoint show_headers (opts : Z) (w : widths) (prefix : bytes) (hs : list cpio_header) : out bytes :=
  match hs with
  | [] => Ret []
  | h :: hs =>
      let! line := (if opt_set opts SHOW_NAME_ONLY
                    then match cstr (name h) with Some nm => Ret (nm ++ newline) | None => Undef end
                    else show_header opts w h) in
      let! rest := show_headers opts w prefix hs in
      Ret (prefix ++ line ++ rest)
  end.

(** The second loop of main. *)
Fixpoint list_parts (opts : Z) (w : widths) (digits max_compress_name c : Z) (l : list cpio) : out bytes :=
  match l with
  | [] => Ret []
  | part :: l =>
      if opt_set opts SHOW_BRIEF then
        let! line := brief_line c part in
        let! rest := list_parts opts w digits max_compress_name (c + 1) l in
        Ret (line ++ rest)
      else match type part with
           | CPIO_ARCHIVE =>
               let! lines := show_headers opts w (line_prefix opts digits max_compress_name c part)
                               (headers part) in
               let! rest := list_parts opts w digits max_compress_name (c + 1) l in
               Ret (lines ++ rest)
           | _ => list_parts opts w digits max_compress_name c l
           end
  end.

(** The options getopt_long returns. *)
Inductive ls_opt := Ls_no_mtime | Ls_b | Ls_n | Ls_C | Ls_V | Ls_h | Ls_unknown.

Fixpoint ls_options (os : list ls_opt) (opts : Z) : out Z :=
  match os with
  | [] => Ret opts
  | Ls_no_mtime :: os => ls_options os (Z.lxor opts SHOW_NO_MTIME)
  | Ls_b :: os => ls_options os (Z.lxor opts SHOW_BRIEF)
  | Ls_n :: os => ls_options os (Z.lxor opts SHOW_NAME_ONLY)
  | Ls_C :: os => ls_options os (Z.lxor opts SHOW_COMPRESSION)
  | Ls_V :: os => Die EXIT_SUCCESS "version"
  | Ls_h :: os => Die EXIT_SUCCESS "help"
  | Ls_unknown :: os => Die EXIT_FAILURE ""
  end.

Definition ls_main (b : build) {R : Decompressors} (fuel : nat) (os : list ls_opt) (arg : bool)
    (file : option bytes) : out bytes :=
  let! opts := ls_options os 0 in
  if negb arg then Die EXIT_FAILURE "ERROR: Missing initrd file" else
  match file with
  | None => Die EXIT_FAILURE "ERROR: stat"
  | Some [] => Die EXIT_FAILURE "ERROR: mmap"
  | Some f =>
      let! st := parse_initrd b fuel f in
      let '(w, max_compress_name, n_cpio) := measure opts (cpios (res st)) widths0 3 0 in
      let! listing := list_parts opts w (ndigits n_cpio) max_compress_name 1 (cpios (res st)) in
      Ret (stdout st ++ listing)
  end.

End Listing.

(** [w2] has room for everything that [w1] has room for. *)
Record wider (w1 w2 : widths) : Prop := {
  wd_nlinks : max_nlinks w1 <= max_nlinks w2;
  wd_size : max_size w1 <= max_size w2;
  wd_uid : max_uid w1 <= max_uid w2;
  wd_gid : max_gid w1 <= max_gid w2;
  wd_min : max_min w1 <= max_min w2;
  wd_maj : max_maj w1 <= max_maj w2;
}.

(** The columns of [h] fit in [w]. *)
Definition fits (w : widths) (h : cpio_header) : Prop :=
  ndigits (nlink h) <= max_nlinks w /\ ndigits (uid h) <= max_uid w /\ ndigits (gid h) <= max_gid w
  /\ if is_device (mode h)
     then ndigits (dev_major (rdev h)) <= max_maj w /\ ndigits (dev_minor (rdev h)) <= max_min w
     else ndigits (body_len h) <= max_size w.

(** The size column has room for a device number. *)
Definition room (w : widths) : Prop := max_maj w + max_min w + 1 <= max_size w.

(** Two entries of a listing: a disk partition and a file of ten megabytes. *)
Definition demo_device : cpio_header :=
  {| ino := 1; major := 0; minor := 0; rmajor := 259; rminor := 1; nlink := 1; mode := 24576 + 432;
     mtime := 0; body_len := 0; name_len := 4; uid := 0; gid := 6;
     rdev := new_encode_dev (MKDEV 259 1); name := #"sda" ++ [NUL]; body := [] |}.
Definition demo_big_file : cpio_header :=
  {| ino := 2; major := 0; minor := 0; rmajor := 0; rminor := 0; nlink := 1; mode := 32768 + 420;
     mtime := 0; body_len := 10000000; name_len := 4; uid := 0; gid := 0; rdev := 0;
     name := #"big" ++ [NUL]; body := [] |}.

(** ** Device numbers *)

Lemma MKDEV_arith ma mi : 0 <= ma < 2 ^ 12 -> 0 <= mi < 2 ^ 20 ->
  MAJOR (MKDEV ma mi) = ma /\ MINOR (MKDEV ma mi) = mi.
Proof.
  intros Hma Hmi. unfold MAJOR, MINOR, MKDEV, MINORMASK, MINORBITS.
  rewrite Z.shiftl_mul_pow2, u64_small, lor_mul_pow2 by lia.
  rewrite Z.shiftr_div_pow2 by lia. change (Z.shiftl 1 20 - 1) with (Z.ones 20).
  rewrite Z.land_ones by lia. rewrite Z.div_add_l, (Z.div_small mi), Z.add_0_r by lia.
  rewrite (Z.add_comm _ mi), Z.mod_add, Z.mod_small by lia. rewrite !u32_small by lia. done.
Qed.

Lemma new_encode_dev_arith ma mi : 0 <= ma < 2 ^ 12 -> 0 <= mi < 2 ^ 20 ->
  new_encode_dev (MKDEV ma mi) = mi / 256 * 2 ^ 20 + (ma * 2 ^ 8 + mi mod 256).
Proof.
  intros Hma Hmi. unfold new_encode_dev. destruct (MKDEV_arith ma mi Hma Hmi) as [-> ->].
  change (u32 (Z.lnot 255)) with (2 ^ 32 - 256). rewrite land_not255 by lia.
  change (Z.land mi 255) with (Z.land mi (Z.ones 8)). rewrite Z.land_ones by lia. change (2 ^ 8) with 256.
  pose proof (Z.mod_pos_bound mi 256 ltac:(lia)). pose proof (Z.div_mod mi 256 ltac:(lia)).
  rewrite !Z.shiftl_mul_pow2 by lia. change (2 ^ 8) with 256. change (2 ^ 12) with 4096 in *.
  replace (mi - mi mod 256) with (mi / 256 * 256) by lia.
  assert (0 <= mi / 256 < 4096) by mlia. rewrite !u32_small by lia.
  rewrite (Z.lor_comm (mi mod 256)). change 256 with (2 ^ 8) at 1. rewrite lor_mul_pow2 by lia.
  rewrite Z.lor_comm. replace (mi / 256 * 256 * 4096) with (mi / 256 * 2 ^ 20) by lia.
  rewrite lor_mul_pow2 by lia. done.
Qed.

Lemma dev_encode ma mi : 0 <= ma < 2 ^ 12 -> 0 <= mi < 2 ^ 20 ->
  dev_major (new_encode_dev (MKDEV ma mi)) = ma /\ dev_minor (new_encode_dev (MKDEV ma mi)) = mi.
Proof.
  intros Hma Hmi. rewrite new_encode_dev_arith by done. change (2 ^ 8) with 256.
  pose proof (Z.mod_pos_bound mi 256 ltac:(lia)). pose proof (Z.div_mod mi 256 ltac:(lia)).
  assert (0 <= mi / 256 < 4096) by mlia. set (h := mi / 256) in *. set (l := mi mod 256) in *.
  unfold dev_major, dev_minor. rewrite !Z.shiftr_div_pow2 by lia.
  change 4095 with (Z.ones 12). change 255 with (Z.ones 8). rewrite !Z.land_ones by lia.
  replace (h * 2 ^ 20 + (ma * 256 + l)) with ((h * 4096 + ma) * 256 + l) by lia.
  change (2 ^ 8) with 256. change (2 ^ 12) with 4096.
  rewrite Z.div_add_l, (Z.div_small l), Z.add_0_r by lia.
  rewrite (Z.div_small _ (2 ^ 32)) by lia. change (Z.land 0 _) with 0. rewrite Z.lor_0_r.
  replace (((h * 4096 + ma) * 256 + l) / 4096) with (h * 256 + (ma * 256 + l) / 4096).
  2:{ replace ((h * 4096 + ma) * 256 + l) with (h * 256 * 4096 + (ma * 256 + l)) by lia.
      by rewrite Z.div_add_l by lia. }
  assert (0 <= (ma * 256 + l) / 4096 < 256) by mlia.
  rewrite land_not255 by lia. split; [rewrite (Z.add_comm _ ma), Z.mod_add, Z.mod_small by lia; lia|].
  rewrite (Z.add_comm _ l), Z.mod_add, (Z.mod_small l) by lia.
  rewrite (Z.add_comm (h * 256)), Z.mod_add, Z.mod_small by lia.
  replace (_ - _) with (h * 2 ^ 8) by lia. rewrite Z.lor_comm, lor_mul_pow2 by lia. lia.
Qed.

(** ** Column widths *)

Global Instance wider_preorder : PreOrder wider.
Proof. split; [intros w; constructor; lia|]. intros a b c [] []. constructor; lia. Qed.

Lemma preformat_wider h w : wider w (preformat h w) /\ fits (preformat h w) h.
Proof.
  unfold preformat, fits. destruct (is_device (mode h)); split; try constructor; cbn;
    split_and?; repeat case_match; unbool; lia.
Qed.

Lemma fits_wider w1 w2 h : wider w1 w2 -> fits w1 h -> fits w2 h.
Proof. intros [] (? & ? & ? & H). unfold fits. destruct (is_device (mode h)); split_and!; lia. Qed.

Lemma preformat_all_fits hs w : wider w (preformat_all hs w) /\ Forall (fits (preformat_all hs w)) hs.
Proof.
  revert w. induction hs as [|h hs IH]; intros w; cbn [preformat_all]; [by split|].
  destruct (IH (preformat h w)) as [H1 H2]. destruct (preformat_wider h w) as [H3 H4]. split.
  - by etrans.
  - constructor; [by eapply fits_wider|done].
Qed.

Lemma lenZ_fmt_w w z : 0 <= w -> lenZ (fmt_w w z) = Z.max w (ndigits z).
Proof.
  intros Hw. unfold fmt_w, fmt_u, pad_left, ndigits. rewrite lenZ_app, lenZ_replicate. unfold lenZ. lia.
Qed.

Lemma preformat_room h w : (room w \/ is_device (mode h) = true) -> room (preformat h w).
Proof.
  unfold room, preformat. destruct (is_device (mode h)) eqn:E; intros [H|H]; cbn; try done;
    repeat case_match; unbool; lia.
Qed.

Lemma preformat_all_room hs w :
  room w \/ Exists (fun h => is_device (mode h) = true) hs -> room (preformat_all hs w).
Proof.
  revert w. induction hs as [|h hs IH]; intros w H; cbn [preformat_all].
  - destruct H as [H|H]; [done|]. inversion H.
  - apply IH. destruct H as [H|H]; [left; by apply preformat_room; left|].
    apply Exists_cons in H as [H|H]; [left; by apply preformat_room; right|by right].
Qed.

Lemma ndigits_pos z : 0 < ndigits z.
Proof.
  unfold ndigits. pose proof (fmt_num_nonempty 10 z). destruct (fmt_num 10 z); [done|].
  rewrite lenZ_cons. pose proof (lenZ_nonneg l). lia.
Qed.

Lemma lenZ_columns w h : fits w h -> (is_device (mode h) = true -> room w) ->
  lenZ (columns w h) = 5 + max_nlinks w + max_uid w + max_gid w
    + (if is_device (mode h)
       then Z.max (max_size w - max_maj w - max_min w) (ndigits (dev_major (rdev h))) + 1 + max_min w
       else max_size w).
Proof.
  intros (Hn & Hu & Hg & Hf) Hr. pose proof (ndigits_pos (nlink h)). pose proof (ndigits_pos (uid h)).
  pose proof (ndigits_pos (gid h)). unfold columns. rewrite !lenZ_app. change (lenZ #" ") with 1.
  rewrite !lenZ_fmt_w by lia. destruct (is_device (mode h)).
  - specialize (Hr eq_refl). unfold room in Hr. pose proof (ndigits_pos (dev_minor (rdev h))).
    rewrite !lenZ_app, !lenZ_fmt_w by lia. change (lenZ #",") with 1. lia.
  - pose proof (ndigits_pos (body_len h)). rewrite lenZ_fmt_w by lia. lia.
Qed.

(** ** Theorems *)

(** Device numbers survive the archive. The header stores the major and the
    minor number; read_cpio packs them into a 32-bit device number, which
    initrd-ls takes apart again with the macros of the C library. For every major
    below 4096 and every minor below 2^20, the numbers shown are the ones of the
    header. *)
Theorem device_number_shown h ma mi :
  0 <= ma < 2 ^ 12 -> 0 <= mi < 2 ^ 20 ->
  rmajor h = ma -> rminor h = mi -> rdev h = new_encode_dev (MKDEV (rmajor h) (rminor h)) ->
  dev_major (rdev h) = ma /\ dev_minor (rdev h) = mi.
Proof. intros Hma Hmi -> -> ->. by apply dev_encode. Qed.

Lemma device_number_shown_witness :
  dev_major (rdev demo_device) = 259 /\ dev_minor (rdev demo_device) = 1.
Proof. apply (device_number_shown demo_device 259 1); vm_compute; intuition congruence. Defined.

(** The columns line up, except for devices. After the first pass has
    measured all the headers, every line that is not a device has the same number
    of characters before the time stamp, and no value is cut. A device line is
    aligned with them only when no device of the listing has a major number of
    more than one digit: otherwise, when the sizes leave room, the line is shorter
    by [max_maj - 1] characters, because the width of the major number is
    [max_size - max_maj - max_min] instead of [max_size - max_min - 1]. *)
Theorem listing_columns hs h :
  h ∈ hs ->
  let w := preformat_all hs widths0 in
  let common := 5 + max_nlinks w + max_uid w + max_gid w + max_size w in
  fits w h /\
  if is_device (mode h)
  then ndigits (dev_major (rdev h)) <= max_size w - max_maj w - max_min w ->
       lenZ (columns w h) = common - (max_maj w - 1)
  else lenZ (columns w h) = common.
Proof.
  intros Hin w common. destruct (preformat_all_fits hs widths0) as [_ Hf].
  assert (fits w h) as Hh by (rewrite list.Forall_forall in Hf; by apply Hf). split; [done|].
  pose proof (lenZ_columns w h Hh) as Hc. destruct (is_device (mode h)) eqn:E.
  - intros Hd. rewrite Hc; [unfold common; lia|]. intros _. apply preformat_all_room. right.
    apply list.Exists_exists. by exists h.
  - rewrite Hc by done. unfold common. lia.
Qed.

Lemma listing_columns_witness :
  let w := preformat_all [demo_device; demo_big_file] widths0 in
  let common := 5 + max_nlinks w + max_uid w + max_gid w + max_size w in
  fits w demo_device /\
  (ndigits (dev_major (rdev demo_device)) <= max_size w - max_maj w - max_min w /\
   lenZ (columns w demo_device) = common - 2).
Proof.
  destruct (listing_columns [demo_device; demo_big_file] demo_device) as [Hf Hd]; [left|].
  split; [exact Hf|]. change (is_device (mode demo_device)) with true in Hd. cbn iota in Hd.
  split; [vm_compute; congruence|].
  rewrite Hd; [vm_compute; reflexivity|]. vm_compute. congruence.
Defined.
