(* ===== verification/Ueventd.v ===== *)
(** ueventd (src/features/runtime/src/ueventd): the daemon that watches the event
    queues of the early userspace and starts a worker for every queue with events.

    The daemon's static variables are the record [daemon]. The kernel objects it
    talks to are the record [world]: directories, inotify watches and their event
    queue, the boot-time clock and the timer. A directory is named by the tree it
    belongs to (the environment variables filterdir, timerdir, ueventdir, and the
    pause directory of the configuration) and its name inside it, "." for the tree
    itself. The watch list is a list, its first element the most recent one. *)

From Stdlib Require Import ZArith Ascii String Lia.
From stdpp Require Import base list strings gmap tactics numbers.
From S2P Require Import Prelude.

Open Scope Z_scope.
Open Scope cprog_scope.

(** ** Constants (ueventd.h, ueventd.c, sys/inotify.h) *)

Definition F_ROOT_DIR : Z := Z.shiftl 1 0.
Definition F_QUEUE_DIR : Z := Z.shiftl 1 1.
Definition F_PAUSE_DIR : Z := Z.shiftl 1 2.
Definition F_DIRTY : Z := Z.shiftl 1 3.
Definition F_PAUSED : Z := Z.shiftl 1 4.
Definition F_TIMER_ROOT : Z := Z.shiftl 1 5.
Definition F_TIMER_DIR : Z := Z.shiftl 1 6.

Definition IN_CLOSE_WRITE : Z := 8.
Definition IN_MOVED_TO : Z := 128.
Definition IN_CREATE : Z := 256.
Definition IN_DELETE : Z := 512.
Definition IN_DELETE_SELF : Z := 1024.
Definition IN_ONLYDIR : Z := 16777216.

Definition EV_PAUSE_MASK : Z := Z.lor (Z.lor IN_CREATE IN_DELETE) IN_ONLYDIR.
Definition EV_ROOT_MASK : Z := Z.lor IN_CREATE IN_ONLYDIR.
Definition EV_QUEUE_MASK : Z := Z.lor (Z.lor IN_CLOSE_WRITE IN_MOVED_TO) IN_DELETE_SELF.
Definition EV_TIMER_MASK : Z := Z.lor (Z.lor IN_CLOSE_WRITE IN_MOVED_TO) IN_DELETE_SELF.

Definition SIGCHLD : Z := 17.

Definition has (flags f : Z) : bool := negb (Z.land flags f =? 0).
Definition set_flag (flags f : Z) : Z := Z.lor flags f.
Definition clear_flag (flags f : Z) : Z := Z.land flags (Z.lnot f).

(** ** The kernel's side *)

Inductive place := Filter | Timer | Uevent | Pause.
Global Instance place_eq_dec : EqDecision place.
Proof. solve_decision. Defined.
Global Instance place_countable : Countable place.
Proof.
  refine (inj_countable' (fun p => match p with Filter => 0 | Timer => 1 | Uevent => 2 | Pause => 3 end)
    (fun n => match n with 0 => Filter | 1 => Timer | 2 => Uevent | _ => Pause end) _).
  by intros [].
Defined.

Abbreviation path := (place * string)%type.

Inductive dtype := DT_DIR | DT_REG | DT_OTHER.
Global Instance dtype_eq_dec : EqDecision dtype.
Proof. solve_decision. Defined.

Record dirent := { d_name : string; d_type : dtype }.
Record dirinfo := { d_ino : Z; d_entries : list dirent }.

Record inotify_event := { ev_wd : Z; ev_mask : Z; ev_name : string }.

Record kwatch := { k_wd : Z; k_ino : Z; k_mask : Z }.

Record world := {
  dirs : gmap path dirinfo;
  kwatches : list kwatch;
  next_wd : Z;
  next_ino : Z;
  inq : list inotify_event;
  now : Z;
  timer_value : Z;
}.

(** ** The daemon's side *)

Record watch := {
  q_flags : Z;
  q_watchfd : Z;
  q_parentfd : Z;
  q_ino : Z;
  q_pid : Z;
  q_name : string;
}.

Record daemon := {
  watch_list : list watch;
  pause_all : bool;
  dirty_queues : Z;
  timer_changed : bool;
  session : Z;
  pipe_write : Z;
}.

Record sys := { dm : daemon; wld : world }.

Definition with_flags (f : Z) (p : watch) : watch :=
  {| q_flags := f; q_watchfd := q_watchfd p; q_parentfd := q_parentfd p; q_ino := q_ino p;
     q_pid := q_pid p; q_name := q_name p |}.
Definition with_pid (z : Z) (p : watch) : watch :=
  {| q_flags := q_flags p; q_watchfd := q_watchfd p; q_parentfd := q_parentfd p; q_ino := q_ino p;
     q_pid := z; q_name := q_name p |}.

Definition set_list (l : list watch) (d : daemon) : daemon :=
  {| watch_list := l; pause_all := pause_all d; dirty_queues := dirty_queues d;
     timer_changed := timer_changed d; session := session d; pipe_write := pipe_write d |}.
Definition set_dirty_queues (n : Z) (d : daemon) : daemon :=
  {| watch_list := watch_list d; pause_all := pause_all d; dirty_queues := n;
     timer_changed := timer_changed d; session := session d; pipe_write := pipe_write d |}.
Definition set_timer_changed (b : bool) (d : daemon) : daemon :=
  {| watch_list := watch_list d; pause_all := pause_all d; dirty_queues := dirty_queues d;
     timer_changed := b; session := session d; pipe_write := pipe_write d |}.
Definition set_pause_all (b : bool) (d : daemon) : daemon :=
  {| watch_list := watch_list d; pause_all := b; dirty_queues := dirty_queues d;
     timer_changed := timer_changed d; session := session d; pipe_write := pipe_write d |}.
Definition set_session (n : Z) (d : daemon) : daemon :=
  {| watch_list := watch_list d; pause_all := pause_all d; dirty_queues := dirty_queues d;
     timer_changed := timer_changed d; session := n; pipe_write := pipe_write d |}.

Definition on_daemon (f : daemon -> daemon) (s : sys) : sys := {| dm := f (dm s); wld := wld s |}.
Definition on_world (f : world -> world) (s : sys) : sys := {| dm := dm s; wld := f (wld s) |}.

Definition set_dirs (m : gmap path dirinfo) (w : world) : world :=
  {| dirs := m; kwatches := kwatches w; next_wd := next_wd w; next_ino := next_ino w; inq := inq w;
     now := now w; timer_value := timer_value w |}.

(** The kernel reports an event on an inode to the watch it has, if the watch asks
    for it. *)
Definition notify (ino mask : Z) (nm : string) (w : world) : world :=
  {| dirs := dirs w; kwatches := kwatches w; next_wd := next_wd w; next_ino := next_ino w;
     inq := inq w ++
       map (fun k => {| ev_wd := k_wd k; ev_mask := mask; ev_name := nm |})
         (List.filter (fun k => (k_ino k =? ino) && has (k_mask k) mask) (kwatches w));
     now := now w; timer_value := timer_value w |}.

(** inotify_add_watch with IN_MASK_CREATE: EEXIST when the inode is watched. *)
Inductive add_result := AddOk (wd : Z) | AddExists | AddError.

Definition inotify_add_watch (p : path) (mask : Z) (w : world) : add_result * world :=
  match dirs w !! p with
  | None => (AddError, w)
  | Some d =>
      if existsb (fun k => k_ino k =? d_ino d) (kwatches w) then (AddExists, w)
      else (AddOk (next_wd w),
            {| dirs := dirs w;
               kwatches := kwatches w ++ [{| k_wd := next_wd w; k_ino := d_ino d; k_mask := mask |}];
               next_wd := next_wd w + 1; next_ino := next_ino w; inq := inq w; now := now w;
               timer_value := timer_value w |})
  end.

Definition inotify_rm_watch (wd : Z) (w : world) : world :=
  {| dirs := dirs w; kwatches := List.filter (fun k => negb (k_wd k =? wd)) (kwatches w);
     next_wd := next_wd w; next_ino := next_ino w; inq := inq w; now := now w;
     timer_value := timer_value w |}.

(** ** path.c *)

Definition first_char_dot (s : string) : bool :=
  match s with String c _ => if decide (c = "."%char) then true else false | EmptyString => false end.

Definition is_dot_dir (e : dirent) : bool :=
  bool_decide (d_type e = DT_DIR) && (bool_decide (d_name e = "."%string) || bool_decide (d_name e = ".."%string)).

(** opendir and readdir of a whole directory; a failure is fatal. *)
Definition xreaddir (p : path) (w : world) : out (list dirent) :=
  match dirs w !! p with
  | None => Die EXIT_FAILURE "opendir"
  | Some d => Ret (d_entries d)
  end.

Definition empty_directory (p : path) (w : world) : out bool :=
  let! l := xreaddir p w in
  Ret (forallb (fun e => first_char_dot (d_name e)) l).

(** ** ueventd.c *)

Definition add_queue_dir (p : path) (mask : Z) (s : sys) : Z * sys :=
  match inotify_add_watch p mask (wld s) with
  | (AddOk wd, w) => (wd, {| dm := dm s; wld := w |})
  | (AddExists, w) => (-128, {| dm := dm s; wld := w |})
  | (AddError, w) => (-1, {| dm := dm s; wld := w |})
  end.

Definition watch_path (dir : place) (name : string) (mask flags : Z) (s : sys) : out (Z * sys) :=
  let p := (dir, name) in
  let '(wfd, s) := add_queue_dir p mask s in
  if wfd <? 0 then Ret (if wfd =? -128 then 0 else wfd, s) else
  match dirs (wld s) !! p with
  | None => Ret (-1, on_world (inotify_rm_watch wfd) s)
  | Some st =>
      let d := dm s in
      let! (f, d, parent) :=
        (if has flags F_QUEUE_DIR then
           let! e := empty_directory p (wld s) in
           if negb e then Ret (set_flag flags F_DIRTY, set_dirty_queues (dirty_queues d + 1) d, pipe_write d)
           else Ret (flags, d, pipe_write d)
         else Ret (flags, d, 0)) in
      let! d :=
        (if has flags F_TIMER_DIR then
           let! e := empty_directory p (wld s) in
           Ret (if negb e then set_timer_changed true d else d)
         else Ret d) in
      let f := if pause_all d then set_flag f F_PAUSED else f in
      let new := {| q_flags := f; q_watchfd := wfd; q_parentfd := parent; q_ino := d_ino st;
                    q_pid := 0; q_name := name |} in
      Ret (0, {| dm := set_list (new :: watch_list d) d; wld := wld s |})
  end.

(** The list without its first element with that inode, and that element. *)
Fixpoint unlink_ino (ino : Z) (l : list watch) : option (watch * list watch) :=
  match l with
  | [] => None
  | e :: l => if q_ino e =? ino then Some (e, l)
              else match unlink_ino ino l with
                   | None => None
                   | Some (x, l') => Some (x, e :: l')
                   end
  end.

Definition unwatch_path (ino : Z) (s : sys) : sys :=
  match unlink_ino ino (watch_list (dm s)) with
  | None => s
  | Some (e, l) => on_world (inotify_rm_watch (q_watchfd e)) (on_daemon (set_list l) s)
  end.

Definition watch_pauses (s : sys) : out sys :=
  let! (r, s) := watch_path Pause "." EV_PAUSE_MASK F_PAUSE_DIR s in
  if r <? 0 then Die EXIT_FAILURE "" else Ret s.

Definition subdir (e : dirent) : bool := bool_decide (d_type e = DT_DIR) && negb (is_dot_dir e).

(** The loop of apply_pause over the directory entries. *)
Fixpoint pause_loop (ents : list dirent) (d : daemon) : daemon :=
  match ents with
  | [] => d
  | e :: ents =>
      if negb (subdir e) then pause_loop ents d else
      let d := if bool_decide (d_name e = ".all"%string) then set_pause_all true d else d in
      let d := set_list (map (fun p =>
                 if has (q_flags p) F_QUEUE_DIR && (pause_all d || bool_decide (d_name e = q_name p))
                 then with_flags (set_flag (q_flags p) F_PAUSED) p else p) (watch_list d)) d in
      if pause_all d then d else pause_loop ents d
  end.

Definition apply_pause (s : sys) : out sys :=
  let! ents := xreaddir (Pause, "."%string) (wld s) in
  let d := set_pause_all false (dm s) in
  let d := set_list (map (fun p => with_flags (clear_flag (q_flags p) F_PAUSED) p) (watch_list d)) d in
  Ret {| dm := pause_loop ents d; wld := wld s |}.

Fixpoint watch_subdirs (dir : place) (mask flags : Z) (ents : list dirent) (s : sys) : out sys :=
  match ents with
  | [] => Ret s
  | e :: ents =>
      if negb (subdir e) then watch_subdirs dir mask flags ents s else
      let! (r, s) := watch_path dir (d_name e) mask flags s in
      if r <? 0 then Die EXIT_FAILURE "unable to start watching" else watch_subdirs dir mask flags ents s
  end.

Definition watch_queues (s : sys) : out sys :=
  let! ents := xreaddir (Filter, "."%string) (wld s) in
  watch_subdirs Filter EV_QUEUE_MASK F_QUEUE_DIR ents s.

Definition watch_timer_queues (s : sys) : out sys :=
  let! ents := xreaddir (Timer, "."%string) (wld s) in
  watch_subdirs Timer EV_TIMER_MASK F_TIMER_DIR ents s.

(** A pointer to a watch is its position in the list. *)
Fixpoint find_watch (f : watch -> bool) (l : list watch) : option nat :=
  match l with
  | [] => None
  | p :: l => if f p then Some O else S <$> find_watch f l
  end.

Definition find_queue_watch (name : string) (d : daemon) : option nat :=
  find_watch (fun p => has (q_flags p) F_QUEUE_DIR && bool_decide (q_name p = name)) (watch_list d).

Definition mark_queue_dirty (i : nat) (d : daemon) : daemon :=
  match watch_list d !! i with
  | None => d
  | Some p =>
      if negb (has (q_flags p) F_DIRTY)
      then set_dirty_queues (dirty_queues d + 1)
             (set_list (<[i := with_flags (set_flag (q_flags p) F_DIRTY) p]> (watch_list d)) d)
      else d
  end.

Definition parse_timer_due (name : string) : Z :=
  let '(due, erange, rest) := strtoul 10 #name in
  if erange then 0 else
  match rest with
  | c :: _ => if decide (c = "."%char /\ rest <> #name) then due else 0
  | [] => 0
  end.

(** mkdir: the new directory, its entry in the tree, and the kernel's event. *)
Definition mkdir (dir : place) (name : string) (s : sys) : sys :=
  let w := wld s in
  match dirs w !! (dir, name), dirs w !! (dir, "."%string) with
  | None, Some root =>
      let root' := {| d_ino := d_ino root;
                      d_entries := d_entries root ++ [{| d_name := name; d_type := DT_DIR |}] |} in
      let m := <[(dir, "."%string) := root']>
                 (<[(dir, name) := {| d_ino := next_ino w; d_entries := [] |}]> (dirs w)) in
      let w' := {| dirs := m; kwatches := kwatches w; next_wd := next_wd w; next_ino := next_ino w + 1;
                   inq := inq w; now := now w; timer_value := timer_value w |} in
      {| dm := dm s; wld := notify (d_ino root) IN_CREATE name w' |}
  | _, _ => s
  end.

(** [.tmp], a dot name, is not visible to the daemon. *)
Definition ensure_queue_dir (name : string) (s : sys) : out sys :=
  let s := mkdir Filter name s in
  match find_queue_watch name (dm s) with
  | Some _ => Ret s
  | None =>
      let! (r, s) := watch_path Filter name EV_QUEUE_MASK F_QUEUE_DIR s in
      if r <? 0 then Die EXIT_FAILURE "unable to start watching" else Ret s
  end.

Definition remove_entry (nm : string) (d : dirinfo) : dirinfo :=
  {| d_ino := d_ino d; d_entries := List.filter (fun e => negb (bool_decide (d_name e = nm))) (d_entries d) |}.
Definition add_entry (e : dirent) (d : dirinfo) : dirinfo :=
  {| d_ino := d_ino d; d_entries := d_entries (remove_entry (d_name e) d) ++ [e] |}.

(** rename of a regular file from one directory to another: [None] is a failure,
    for which the daemon only logs. *)
Definition rename (src : path) (nm : string) (dst : path) (nm' : string) (w : world) : option world :=
  match dirs w !! src, dirs w !! dst with
  | Some a, Some b =>
      match List.find (fun e => bool_decide (d_name e = nm)) (d_entries a) with
      | None => None
      | Some e =>
          let m := <[dst := add_entry {| d_name := nm'; d_type := d_type e |} b]>
                     (<[src := remove_entry nm a]> (dirs w)) in
          Some (notify (d_ino b) IN_MOVED_TO nm' (set_dirs m w))
      end
  | _, _ => None
  end.

(** What follows the first dot of the name, if there is one. *)
Fixpoint after_dot (s : string) : option string :=
  match s with
  | EmptyString => None
  | String c s => if decide (c = "."%char) then Some s else after_dot s
  end.

Definition move_timer_event (queue_name : string) (timer_name : string) (s : sys) : out sys :=
  match after_dot timer_name with
  | None | Some EmptyString => Ret s
  | Some event_name =>
      let! s := ensure_queue_dir queue_name s in
      match rename (Timer, queue_name) timer_name (Filter, queue_name) event_name (wld s) with
      | None => Ret s
      | Some w =>
          let d := match find_queue_watch queue_name (dm s) with
                   | Some i => mark_queue_dirty i (dm s)
                   | None => dm s
                   end in
          Ret {| dm := d; wld := w |}
      end
  end.

(** The timers of one queue; [next] is the earliest one that is not due. *)
Fixpoint timer_entries (queue_name : string) (ents : list dirent) (next : Z) (s : sys) : out (Z * sys) :=
  match ents with
  | [] => Ret (next, s)
  | e :: ents =>
      if first_char_dot (d_name e) || negb (bool_decide (d_type e = DT_REG))
      then timer_entries queue_name ents next s else
      let due := parse_timer_due (d_name e) in
      if due =? 0 then timer_entries queue_name ents next s
      else if now (wld s) <? due then
        timer_entries queue_name ents (if due <? next then due else next) s
      else
        let! s := move_timer_event queue_name (d_name e) s in
        timer_entries queue_name ents next s
  end.

Fixpoint timer_queues (ents : list dirent) (next : Z) (s : sys) : out (Z * sys) :=
  match ents with
  | [] => Ret (next, s)
  | e :: ents =>
      if negb (subdir e) then timer_queues ents next s else
      let! q := xreaddir (Timer, d_name e) (wld s) in
      let! (next, s) := timer_entries (d_name e) q next s in
      timer_queues ents next s
  end.

Definition set_timer (z : Z) (w : world) : world :=
  {| dirs := dirs w; kwatches := kwatches w; next_wd := next_wd w; next_ino := next_ino w; inq := inq w;
     now := now w; timer_value := z |}.

Definition update_timerfd (s : sys) : out sys :=
  let! ents := xreaddir (Timer, "."%string) (wld s) in
  let! (next, s) := timer_queues ents ULONG_MAX s in
  let its := if negb (next =? ULONG_MAX) then next else 0 in
  Ret (on_daemon (set_timer_changed false) (on_world (set_timer its) s)).

(** The handlers return the value of the C function and the new state. A signal:
    [None] when the read fails, otherwise its number, the pids that waitpid returns until
    there is none left, and whether waitpid then fails for another reason than ECHILD. *)
Definition process_signal_events (info : option (Z * list Z * bool)) (s : sys) : Z * sys :=
  match info with
  | None => (0, s)
  | Some (signo, pids, failed) =>
      if signo =? SIGCHLD then
        (if failed : bool then -1 else 0, on_daemon (fun d => set_list (foldl (fun l pid =>
               map (fun p => if q_pid p =? pid then with_pid 0 p else p) l) (watch_list d) pids) d) s)
      else (-1, s)
  end.

Definition process_inotify_event (e : inotify_event) (s : sys) : out sys :=
  match find_watch (fun p => q_watchfd p =? ev_wd e) (watch_list (dm s)) with
  | None => Ret s
  | Some i =>
      match watch_list (dm s) !! i with
      | None => Ret s
      | Some p =>
          if has (ev_mask e) IN_DELETE_SELF then Ret (unwatch_path (q_ino p) s)
          else if has (q_flags p) F_ROOT_DIR then
            if has (ev_mask e) IN_CREATE then watch_queues s else Ret s
          else if has (q_flags p) F_TIMER_ROOT then
            let! s := (if has (ev_mask e) IN_CREATE then watch_timer_queues s else Ret s) in
            Ret (on_daemon (set_timer_changed true) s)
          else if has (q_flags p) F_PAUSE_DIR then apply_pause s
          else if has (q_flags p) F_TIMER_DIR then Ret (on_daemon (set_timer_changed true) s)
          else Ret (on_daemon (mark_queue_dirty i) s)
      end
  end.

Fixpoint process_inotify_events (evs : list inotify_event) (s : sys) : out sys :=
  match evs with
  | [] => Ret s
  | e :: evs => let! s := process_inotify_event e s in process_inotify_events evs s
  end.

Definition process_pipe_value (value : Z) (d : daemon) : daemon :=
  match find_watch (fun p => has (q_flags p) F_QUEUE_DIR && (q_watchfd p =? value)) (watch_list d) with
  | None => d
  | Some i => mark_queue_dirty i d
  end.

Definition process_pipefd_events (values : list Z) (s : sys) : sys :=
  on_daemon (fun d => foldl (fun d v => process_pipe_value v d) d values) s.

Definition process_timerfd_events (eagain : bool) (s : sys) : sys :=
  if eagain then s else on_daemon (set_timer_changed true) s.

(** What epoll_wait reports, with what the handler reads. *)
Inductive fd_event :=
  | FD_SIGNAL (info : option (Z * list Z * bool))
  | FD_INOTIFY
  | FD_PIPE (values : list Z)
  | FD_TIMER (eagain : bool).

Definition flush_inq (w : world) : world :=
  {| dirs := dirs w; kwatches := kwatches w; next_wd := next_wd w; next_ino := next_ino w; inq := [];
     now := now w; timer_value := timer_value w |}.

Definition fd_handler (e : fd_event) (s : sys) : out (Z * sys) :=
  match e with
  | FD_SIGNAL info => Ret (process_signal_events info s)
  | FD_INOTIFY =>
      let! s := process_inotify_events (inq (wld s)) (on_world flush_inq s) in Ret (0, s)
  | FD_PIPE values => Ret (0, process_pipefd_events values s)
  | FD_TIMER eagain => Ret (0, process_timerfd_events eagain s)
  end.

(** [Some s] to go on, [None] for [goto done]. *)
Fixpoint fd_handlers (es : list fd_event) (s : sys) : out (option sys) :=
  match es with
  | [] => Ret (Some s)
  | e :: es =>
      let! (r, s) := fd_handler e s in
      if negb (r =? 0) then Ret None else fd_handlers es s
  end.

Section Fork.
(** The result of the fork of a session; negative when it fails. *)
Context (fork : Z -> Z).

Definition spawn_worker (session : Z) : Z := if fork session <? 0 then 0 else fork session.

Definition runnable (e : watch) : bool :=
  has (q_flags e) F_QUEUE_DIR && has (q_flags e) F_DIRTY && (q_pid e =? 0) && negb (has (q_flags e) F_PAUSED).

(** The last loop of an iteration: it changes the list, dirty_queues and session. *)
Fixpoint start_workers (l : list watch) (dirty session : Z) : out (list watch * Z * Z) :=
  match l with
  | [] => Ret ([], dirty, session)
  | e :: l =>
      if negb (runnable e) then
        let! (l, dirty, session) := start_workers l dirty session in Ret (e :: l, dirty, session)
      else if dirty =? 0 then Die EXIT_FAILURE "BUG: dirty_queues == 0, but dirty queues are present"
      else
        let session := session + 1 in
        let e := with_pid (spawn_worker session) (with_flags (clear_flag (q_flags e) F_DIRTY) e) in
        let! (l, dirty, session) := start_workers l (dirty - 1) session in
        Ret (e :: l, dirty, session)
  end.

Definition start_all (s : sys) : out sys :=
  let d := dm s in
  let! (l, dirty, n) := start_workers (watch_list d) (dirty_queues d) (session d) in
  Ret {| dm := set_session n (set_dirty_queues dirty (set_list l d)); wld := wld s |}.

(** One iteration of the main loop. *)
Definition main_iteration (es : list fd_event) (s : sys) : out (option sys) :=
  let! r := fd_handlers es s in
  match r with
  | None => Ret None
  | Some s =>
      let! s := (if timer_changed (dm s) then update_timerfd s else Ret s) in
      let! s := start_all s in
      Ret (Some s)
  end.

(** main, up to the loop. *)
Definition main_init (s : sys) : out sys :=
  let! s := watch_pauses s in
  let! (r, s) := watch_path Filter "." EV_ROOT_MASK F_ROOT_DIR s in
  if r <? 0 then Die EXIT_FAILURE "" else
  let! (r, s) := watch_path Timer "." EV_ROOT_MASK F_TIMER_ROOT s in
  if r <? 0 then Die EXIT_FAILURE "" else
  let! s := watch_queues s in
  let! s := watch_timer_queues s in
  let! s := apply_pause s in
  update_timerfd s.

End Fork.

(** ** The invariant of the daemon

    Every watch is of exactly one kind, only queues are dirty, and the counter is
    at least the number of dirty queues. *)

(** Root, pause, timer root and timer directories, paused or not; a queue, with
    or without F_DIRTY and F_PAUSED. *)
Definition valid_flags : list Z := [1; 17; 4; 20; 32; 48; 64; 80; 2; 18; 10; 26].
Definition kinds : list Z := [F_ROOT_DIR; F_QUEUE_DIR; F_PAUSE_DIR; F_TIMER_ROOT; F_TIMER_DIR].

Definition is_dirty (p : watch) : bool := has (q_flags p) F_DIRTY.
Definition ndirty (l : list watch) : Z := lenZ (List.filter is_dirty l).

Definition inv (d : daemon) : Prop :=
  Forall (fun p => q_flags p ∈ valid_flags) (watch_list d) /\ ndirty (watch_list d) <= dirty_queues d.

(** The daemon before main has watched anything. *)
Definition daemon0 (pipe : Z) : daemon :=
  {| watch_list := []; pause_all := false; dirty_queues := 0; timer_changed := false; session := 0;
     pipe_write := pipe |}.

(** The states in which an iteration of the main loop can start. The world may
    change in any way between two iterations. *)
Inductive reachable : sys -> Prop :=
  | reach_init pipe w s : main_init {| dm := daemon0 pipe; wld := w |} = Ret s -> reachable s
  | reach_world s w : reachable s -> reachable {| dm := dm s; wld := w |}
  | reach_iteration fork es s s' :
      reachable s -> main_iteration fork es s = Ret (Some s') -> reachable s'.

(** The timeout main gives to epoll_wait. *)
Definition epoll_timeout (d : daemon) : Z := if dirty_queues d =? 0 then -1 else 250.

(** The directories of the pause tree that stop a queue. *)
Definition paused_by (ents : list dirent) (name : string) : bool :=
  existsb (fun e => subdir e && (bool_decide (d_name e = ".all"%string) || bool_decide (d_name e = name))) ents.
Definition pauses_all (ents : list dirent) : bool :=
  existsb (fun e => subdir e && bool_decide (d_name e = ".all"%string)) ents.
Definition pause_mark (b : bool) (p : watch) : watch :=
  if has (q_flags p) F_QUEUE_DIR && b then with_flags (set_flag (q_flags p) F_PAUSED) p else p.

(** An example: the queue "net", paused, with one event waiting. *)
Definition demo_dir (n : string) : dirent := {| d_name := n; d_type := DT_DIR |}.
Definition demo_world : world :=
  {| dirs := <[(Filter, "."%string) := {| d_ino := 2; d_entries := [demo_dir "."; demo_dir "net"] |}]>
             (<[(Filter, "net"%string) := {| d_ino := 7; d_entries := [{| d_name := "ev1"; d_type := DT_REG |}] |}]>
             (<[(Timer, "."%string) := {| d_ino := 3; d_entries := [] |}]>
             (<[(Pause, "."%string) := {| d_ino := 4; d_entries := [demo_dir "net"] |}]> ∅)));
     kwatches := []; next_wd := 1; next_ino := 100; inq := []; now := 5; timer_value := 0 |}.
Definition demo_fork (session : Z) : Z := 1000 + session.
Definition demo_watch : watch :=
  {| q_flags := 10; q_watchfd := 1; q_parentfd := 9; q_ino := 7; q_pid := 0; q_name := "net" |}.
Definition demo_sys : sys :=
  {| dm := {| watch_list := [demo_watch]; pause_all := false; dirty_queues := 1; timer_changed := false;
              session := 0; pipe_write := 9 |};
     wld := demo_world |}.

Definition demo_ready : sys :=
  match main_init {| dm := daemon0 9; wld := demo_world |} with Ret s => s | _ => demo_sys end.

(** ** Flags *)

Ltac valid_cases H :=
  unfold valid_flags in H;
  repeat (apply elem_of_cons in H as [H|H]; [|]); [..|by apply elem_of_nil in H].

Lemma valid_kind f : f ∈ kinds -> f ∈ valid_flags /\ has f F_DIRTY = false.
Proof.
  intros H. unfold kinds in H. repeat (apply elem_of_cons in H as [->|H]; [split; [set_solver|done]|]).
  by apply elem_of_nil in H.
Qed.

Lemma valid_paused f : f ∈ valid_flags ->
  set_flag f F_PAUSED ∈ valid_flags /\ clear_flag f F_PAUSED ∈ valid_flags
  /\ has (set_flag f F_PAUSED) F_DIRTY = has f F_DIRTY
  /\ has (clear_flag f F_PAUSED) F_DIRTY = has f F_DIRTY.
Proof.
  intros H. valid_cases H; subst f; (split_and!; [..|done|done]);
    vm_compute; repeat (first [left; reflexivity | constructor 2]); reflexivity.
Qed.

Lemma valid_dirty f : f ∈ valid_flags -> has f F_QUEUE_DIR = true ->
  set_flag f F_DIRTY ∈ valid_flags /\ has (set_flag f F_DIRTY) F_DIRTY = true.
Proof.
  intros H Hq. valid_cases H; subst f; try discriminate Hq; (split; [|done]);
    vm_compute; repeat (first [left; reflexivity | constructor 2]); reflexivity.
Qed.

Lemma valid_clean f : f ∈ valid_flags ->
  clear_flag f F_DIRTY ∈ valid_flags /\ has (clear_flag f F_DIRTY) F_DIRTY = false.
Proof.
  intros H. valid_cases H; subst f; (split; [|done]);
    vm_compute; repeat (first [left; reflexivity | constructor 2]); reflexivity.
Qed.

Lemma valid_queue f : f ∈ valid_flags ->
  has f F_ROOT_DIR = false -> has f F_TIMER_ROOT = false -> has f F_PAUSE_DIR = false ->
  has f F_TIMER_DIR = false -> has f F_QUEUE_DIR = true.
Proof. intros H. valid_cases H; subst f; done. Qed.

(** ** The operations keep the invariant *)

Lemma ndirty_nonneg l : 0 <= ndirty l.
Proof. apply lenZ_nonneg. Qed.

Lemma ndirty_cons p l : ndirty (p :: l) = (if is_dirty p then 1 else 0) + ndirty l.
Proof. unfold ndirty. cbn. destruct (is_dirty p); [rewrite lenZ_cons|]; lia. Qed.

Lemma ndirty_map f l : (forall p, p ∈ l -> is_dirty (f p) = is_dirty p) -> ndirty (map f l) = ndirty l.
Proof.
  induction l as [|p l IH]; intros H; [done|]. cbn [map]. rewrite !ndirty_cons, H by left.
  rewrite IH; [done|]. intros q Hq. apply H. by right.
Qed.

Lemma ndirty_insert l i p p' : l !! i = Some p -> is_dirty p = false -> is_dirty p' = true ->
  ndirty (<[i := p']> l) = ndirty l + 1.
Proof.
  revert i. induction l as [|q l IH]; intros i Hi Hp Hp'; [done|]. destruct i as [|i].
  - injection Hi as ->. cbn [list_insert insert]. change (<[0%nat:=p']> (p :: l)) with (p' :: l).
    rewrite !ndirty_cons, Hp, Hp'. lia.
  - change (<[S i:=p']> (q :: l)) with (q :: <[i:=p']> l). rewrite !ndirty_cons, IH by done. lia.
Qed.

Lemma find_watch_Some f l i : find_watch f l = Some i -> exists p, l !! i = Some p /\ f p = true.
Proof.
  revert i. induction l as [|p l IH]; intros i H; [done|]. cbn in H. destruct (f p) eqn:E.
  - injection H as <-. by exists p.
  - destruct (find_watch f l) as [j|]; [|done]. injection H as <-. by apply IH.
Qed.

Lemma mark_queue_dirty_inv i p d :
  inv d -> watch_list d !! i = Some p -> has (q_flags p) F_QUEUE_DIR = true -> inv (mark_queue_dirty i d).
Proof.
  intros [Hv Hn] Hi Hq. unfold mark_queue_dirty. rewrite Hi.
  destruct (has (q_flags p) F_DIRTY) eqn:Hd; cbn [negb]; [done|].
  pose proof (Forall_lookup_1 _ _ _ _ Hv Hi) as Hp. destruct (valid_dirty _ Hp Hq) as [H1 H2].
  split; cbn.
  - by apply Forall_insert.
  - rewrite (ndirty_insert _ i p) by done. lia.
Qed.

Lemma find_mark_inv f d : inv d -> (forall p, f p = true -> has (q_flags p) F_QUEUE_DIR = true) ->
  inv (match find_watch f (watch_list d) with Some i => mark_queue_dirty i d | None => d end).
Proof.
  intros Hi Hf. destruct (find_watch _ _) as [i|] eqn:E; [|done].
  apply find_watch_Some in E as (p & Hp & Hfp). by eapply mark_queue_dirty_inv; [|done|apply Hf].
Qed.

Lemma push_inv d d' p f (pa : bool) :
  inv d -> f ∈ valid_flags -> q_flags p = (if pa then set_flag f F_PAUSED else f) ->
  (if has f F_DIRTY then 1 else 0) + dirty_queues d <= dirty_queues d' ->
  inv (set_list (p :: watch_list d) d').
Proof.
  intros [Hv Hn] Hf Hp Hd. destruct (valid_paused f Hf) as (H1 & _ & H2 & _). split; cbn.
  - constructor; [|done]. rewrite Hp. by destruct pa.
  - rewrite ndirty_cons. unfold is_dirty. rewrite Hp. destruct pa; rewrite ?H2; lia.
Qed.

Lemma watch_path_inv dir name mask flags s r s' :
  flags ∈ kinds -> inv (dm s) -> watch_path dir name mask flags s = Ret (r, s') -> inv (dm s').
Proof.
  intros Hk Hinv H. unfold watch_path, add_queue_dir in H.
  destruct (inotify_add_watch _ _ _) as [[wd| |] w]; cbn in H; try (by simplify_eq).
  case_match; [by simplify_eq|]. cbn in H. case_match; [|by simplify_eq].
  unfold empty_directory, xreaddir in H. rewrite H1 in H. cbn in H.
  destruct (valid_kind flags Hk) as [Hvk Hcl].
  assert (has flags F_QUEUE_DIR = true -> has flags F_TIMER_DIR = false) as Hexcl.
  { intros Hq. unfold kinds in Hk.
    repeat (apply elem_of_cons in Hk as [->|Hk]; [done|]). by apply elem_of_nil in Hk. }
  destruct (has flags F_QUEUE_DIR) eqn:Hq; [rewrite Hexcl in H by done; destruct (forallb _ _)|
    destruct (has flags F_TIMER_DIR); [destruct (forallb _ _)|]]; cbn in H;
    injection H as <- <-; cbn;
    (eapply (push_inv (dm s)); [done| |reflexivity|]); try done; rewrite ?Hcl; cbn; try lia.
  - by apply valid_dirty.
  - destruct (valid_dirty _ Hvk Hq) as [_ ->]. lia.
Qed.

Lemma unlink_ino_inv ino l e l' : unlink_ino ino l = Some (e, l') ->
  (forall P, Forall P l -> Forall P l') /\ ndirty l = (if is_dirty e then 1 else 0) + ndirty l'.
Proof.
  revert e l'. induction l as [|p l IH]; intros e l' H; [done|]. cbn in H. case_match.
  - injection H as <- <-. split; [by intros P HP; apply Forall_cons_1 in HP as [_ ?]|]. apply ndirty_cons.
  - destruct (unlink_ino ino l) as [[x l0]|] eqn:E; [|done]. injection H as <- <-.
    destruct (IH _ _ eq_refl) as [H1 H2]. split.
    + intros P HP. apply Forall_cons_1 in HP as [? ?]. constructor; [done|]. by apply H1.
    + rewrite !ndirty_cons, H2. lia.
Qed.

Lemma unwatch_path_inv ino s : inv (dm s) -> inv (dm (unwatch_path ino s)).
Proof.
  intros [Hv Hn]. unfold unwatch_path. destruct (unlink_ino _ _) as [[e l]|] eqn:E; [|done].
  apply unlink_ino_inv in E as [H1 H2]. split; cbn; [by apply H1|]. destruct (is_dirty e); lia.
Qed.

(** Changing only F_PAUSED, or only the pid, keeps the invariant. *)
Lemma map_inv f d d' :
  inv d -> (forall p, q_flags p ∈ valid_flags ->
              q_flags (f p) ∈ valid_flags /\ has (q_flags (f p)) F_DIRTY = has (q_flags p) F_DIRTY) ->
  watch_list d' = map f (watch_list d) -> dirty_queues d' = dirty_queues d -> inv d'.
Proof.
  intros [Hv Hn] Hf Hl Hd. rewrite list.Forall_forall in Hv. split; rewrite Hl, ?Hd.
  - rewrite list.Forall_forall. intros q Hq. apply list_elem_of_In, in_map_iff in Hq as (p & <- & Hp).
    apply Hf, Hv. by apply list_elem_of_In.
  - rewrite ndirty_map; [done|]. intros p Hp. by apply Hf, Hv.
Qed.

Lemma pause_loop_inv ents d : inv d -> inv (pause_loop ents d).
Proof.
  revert d. induction ents as [|e ents IH]; intros d Hd; [done|]. cbn [pause_loop].
  case_match; [by apply IH|].
  match goal with |- inv (if _ then ?d2 else _) => assert (inv d2) as H2 end.
  { case_bool_decide; (eapply map_inv; [exact Hd| |reflexivity|done]);
      intros p Hp; cbn beta; destruct (valid_paused _ Hp) as (H1 & _ & H2 & _); case_match; by split. }
  match goal with |- inv (if ?b then _ else _) => destruct b end; [done|by apply IH].
Qed.

Lemma apply_pause_inv s s' : inv (dm s) -> apply_pause s = Ret s' -> inv (dm s').
Proof.
  intros Hd H. unfold apply_pause in H. destruct (xreaddir _ _); cbn in H; try done.
  injection H as <-. cbn. apply pause_loop_inv. eapply map_inv; [exact Hd| |reflexivity|done].
  intros p Hp. by destruct (valid_paused _ Hp) as (_ & H1 & _ & H2).
Qed.

Lemma watch_subdirs_inv dir mask flags ents : flags ∈ kinds -> forall s s',
  inv (dm s) -> watch_subdirs dir mask flags ents s = Ret s' -> inv (dm s').
Proof.
  intros Hk. induction ents as [|e ents IH]; intros s s' Hi H; cbn in H; [by simplify_eq|].
  case_match; [by eapply IH|].
  destruct (watch_path _ _ _ _ s) as [[r s1]| | |] eqn:E; cbn in H; try done.
  case_match; [done|]. eapply IH; [|exact H]. by eapply watch_path_inv.
Qed.

Lemma watch_queues_inv s s' : inv (dm s) -> watch_queues s = Ret s' -> inv (dm s').
Proof.
  intros Hi H. unfold watch_queues in H. destruct (xreaddir _ _); cbn in H; try done.
  eapply watch_subdirs_inv; [|exact Hi|exact H]. set_solver.
Qed.

Lemma watch_timer_queues_inv s s' : inv (dm s) -> watch_timer_queues s = Ret s' -> inv (dm s').
Proof.
  intros Hi H. unfold watch_timer_queues in H. destruct (xreaddir _ _); cbn in H; try done.
  eapply watch_subdirs_inv; [|exact Hi|exact H]. set_solver.
Qed.

Lemma ensure_queue_dir_inv name s s' : inv (dm s) -> ensure_queue_dir name s = Ret s' -> inv (dm s').
Proof.
  intros Hi H. unfold ensure_queue_dir in H.
  assert (inv (dm (mkdir Filter name s))) as Hi'.
  { unfold mkdir. repeat case_match; done. }
  case_match; [by simplify_eq|].
  destruct (watch_path _ _ _ _ _) as [[r s1]| | |] eqn:E; cbn in H; try done.
  case_match; [done|]. simplify_eq. eapply watch_path_inv; [|exact Hi'|exact E]. set_solver.
Qed.

Lemma move_timer_event_inv q t s s' : inv (dm s) -> move_timer_event q t s = Ret s' -> inv (dm s').
Proof.
  intros Hi H. unfold move_timer_event in H. case_match; [|by simplify_eq]. case_match; [by simplify_eq|].
  destruct (ensure_queue_dir q s) as [sq| | |] eqn:E; cbn in H; try done.
  apply ensure_queue_dir_inv in E; [|done]. case_match; [|by simplify_eq]. simplify_eq. cbn.
  apply find_mark_inv; [done|]. intros p Hp. by apply andb_prop in Hp as [? _].
Qed.

Lemma timer_entries_inv q ents : forall next s next' s',
  inv (dm s) -> timer_entries q ents next s = Ret (next', s') -> inv (dm s').
Proof.
  induction ents as [|e ents IH]; intros next s next' s' Hi H; cbn in H; [by simplify_eq|].
  repeat case_match; try (by eapply IH).
  all: destruct (move_timer_event _ _ s) as [s1| | |] eqn:E; cbn in H; try done;
    eapply IH; [|exact H]; by eapply move_timer_event_inv.
Qed.

Lemma timer_queues_inv ents : forall next s next' s',
  inv (dm s) -> timer_queues ents next s = Ret (next', s') -> inv (dm s').
Proof.
  induction ents as [|e ents IH]; intros next s next' s' Hi H; cbn in H; [by simplify_eq|].
  case_match; [by eapply IH|]. destruct (xreaddir _ _); cbn in H; try done.
  destruct (timer_entries _ _ _ s) as [[n1 s1]| | |] eqn:E; cbn in H; try done.
  eapply IH; [|exact H]. by eapply timer_entries_inv.
Qed.

Lemma update_timerfd_inv s s' : inv (dm s) -> update_timerfd s = Ret s' -> inv (dm s').
Proof.
  intros Hi H. unfold update_timerfd in H. destruct (xreaddir _ _); cbn in H; try done.
  destruct (timer_queues _ _ s) as [[n1 s1]| | |] eqn:E; cbn in H; try done.
  simplify_eq. cbn. by apply timer_queues_inv in E.
Qed.

Lemma process_inotify_event_inv e s s' : inv (dm s) -> process_inotify_event e s = Ret s' -> inv (dm s').
Proof.
  intros Hi H. unfold process_inotify_event in H. case_match eqn:Ef; [|by simplify_eq].
  destruct (watch_list (dm s) !! n) as [p|] eqn:Hp; [|by simplify_eq].
  case_match; [simplify_eq; by apply unwatch_path_inv|].
  case_match. { case_match; [by eapply watch_queues_inv|by simplify_eq]. }
  case_match. { case_match; cbn in H; [|by simplify_eq].
    destruct (watch_timer_queues s) as [s1| | |] eqn:E; cbn in H; try done. simplify_eq. cbn.
    by eapply watch_timer_queues_inv. }
  case_match; [by eapply apply_pause_inv|]. case_match; [by simplify_eq|]. simplify_eq. cbn.
  eapply mark_queue_dirty_inv; [done|exact Hp|]. apply valid_queue; try done.
  by eapply (Forall_lookup_1 _ _ _ _ (proj1 Hi)).
Qed.

Lemma process_inotify_events_inv evs : forall s s',
  inv (dm s) -> process_inotify_events evs s = Ret s' -> inv (dm s').
Proof.
  induction evs as [|e evs IH]; intros s s' Hi H; cbn in H; [by simplify_eq|].
  destruct (process_inotify_event e s) as [s1| | |] eqn:E; cbn in H; try done.
  eapply IH; [|exact H]. by eapply process_inotify_event_inv.
Qed.

Lemma reap_inv pids d : inv d ->
  inv (set_list (foldl (fun l pid => map (fun p => if q_pid p =? pid then with_pid 0 p else p) l)
                   (watch_list d) pids) d).
Proof.
  revert d. induction pids as [|pid pids IH]; intros d Hi; cbn; [by destruct d|].
  specialize (IH (set_list (map (fun p => if q_pid p =? pid then with_pid 0 p else p) (watch_list d)) d)).
  apply IH. eapply map_inv; [exact Hi| |reflexivity|done]. intros p Hp. cbn beta. case_match; by split.
Qed.

Lemma process_pipe_inv vs d : inv d -> inv (foldl (fun d v => process_pipe_value v d) d vs).
Proof.
  revert d. induction vs as [|v vs IH]; intros d Hi; cbn; [done|]. apply IH.
  apply find_mark_inv; [done|]. intros p Hp. by apply andb_prop in Hp as [? _].
Qed.

Lemma fd_handlers_inv es : forall s s',
  inv (dm s) -> fd_handlers es s = Ret (Some s') -> inv (dm s').
Proof.
  induction es as [|e es IH]; intros s s' Hi H; cbn in H; [by simplify_eq|].
  destruct (fd_handler e s) as [[r s1]| | |] eqn:E; cbn in H; try done. case_match; [done|].
  eapply IH; [|exact H]. destruct e; cbn in E.
  - injection E as E. unfold process_signal_events in E. repeat case_match; simplify_eq; [|done..].
    by apply reap_inv.
  - destruct (process_inotify_events _ _) as [s2| | |] eqn:E2; cbn in E; try done. simplify_eq.
    by eapply process_inotify_events_inv; [|exact E2].
  - simplify_eq. by apply process_pipe_inv.
  - simplify_eq. unfold process_timerfd_events. by case_match.
Qed.

(** Under the invariant the loop that starts the workers cannot fail. [k] is the
    part of the counter that other watches account for. *)
Lemma start_workers_inv fork l : forall k dirty session,
  Forall (fun p => q_flags p ∈ valid_flags) l -> 0 <= k -> ndirty l + k <= dirty ->
  exists l' dirty' session', start_workers fork l dirty session = Ret (l', dirty', session')
    /\ Forall (fun p => q_flags p ∈ valid_flags) l' /\ ndirty l' + k <= dirty'.
Proof.
  induction l as [|p l IH]; intros k dirty session Hv Hk Hn; cbn [start_workers].
  - by exists [], dirty, session.
  - apply Forall_cons_1 in Hv as [Hp Hv]. rewrite ndirty_cons in Hn. pose proof (ndirty_nonneg l).
    destruct (runnable p) eqn:Er; cbn [negb].
    + unfold runnable in Er. apply andb_prop in Er as [Er _]. apply andb_prop in Er as [Er _].
      apply andb_prop in Er as [_ Hd]. unfold is_dirty in Hn. rewrite Hd in Hn.
      rewrite (proj2 (Z.eqb_neq _ 0)) by lia.
      destruct (IH k (dirty - 1) (session + 1) Hv Hk) as (l' & d' & n' & -> & Hv' & Hn'); [lia|]. cbn [obind].
      destruct (valid_clean _ Hp) as [H1 H2]. do 3 eexists. split; [done|]. split; [by constructor|].
      rewrite ndirty_cons. unfold is_dirty at 1. cbn [with_pid with_flags q_flags]. rewrite H2. lia.
    + set (kp := if is_dirty p then 1 else 0) in *.
      assert (0 <= kp) by (unfold kp; destruct (is_dirty p); lia).
      destruct (IH (k + kp) dirty session Hv) as (l' & d' & n' & -> & Hv' & Hn'); [lia|lia|].
      cbn [obind]. do 3 eexists. split; [done|]. split; [by constructor|].
      rewrite ndirty_cons. fold kp. lia.
Qed.

Lemma start_all_inv fork s : inv (dm s) -> exists s', start_all fork s = Ret s' /\ inv (dm s').
Proof.
  intros [Hv Hn]. unfold start_all.
  destruct (start_workers_inv fork (watch_list (dm s)) 0 (dirty_queues (dm s)) (session (dm s)) Hv)
    as (l' & d' & n' & -> & Hv' & Hn'); [lia|lia|]. cbn [obind]. eexists. split; [done|].
  split; cbn; [done|lia].
Qed.

Lemma main_iteration_inv fork es s s' :
  inv (dm s) -> main_iteration fork es s = Ret (Some s') -> inv (dm s').
Proof.
  intros Hi H. unfold main_iteration in H.
  destruct (fd_handlers es s) as [[s1|]| | |] eqn:E; cbn in H; try done.
  apply fd_handlers_inv in E; [|done].
  destruct (if timer_changed (dm s1) then _ else _) as [s2| | |] eqn:E2; cbn in H; try done.
  assert (inv (dm s2)) as H2. { case_match; [by eapply update_timerfd_inv|by simplify_eq]. }
  destruct (start_all_inv fork s2 H2) as (s3 & E3 & H3). rewrite E3 in H. cbn in H. by simplify_eq.
Qed.

Lemma main_init_inv s s' : inv (dm s) -> main_init s = Ret s' -> inv (dm s').
Proof.
  intros Hi H. unfold main_init, watch_pauses in H.
  destruct (watch_path Pause _ _ _ s) as [[r1 s1]| | |] eqn:E1; cbn in H; try done.
  apply watch_path_inv in E1; [|set_solver|done]. case_match; cbn in H; [done|].
  destruct (watch_path Filter _ _ _ s1) as [[r2 s2]| | |] eqn:E2; cbn in H; try done.
  apply watch_path_inv in E2; [|set_solver|done]. case_match; cbn in H; [done|].
  destruct (watch_path Timer _ _ _ s2) as [[r3 s3]| | |] eqn:E3; cbn in H; try done.
  apply watch_path_inv in E3; [|set_solver|done]. case_match; cbn in H; [done|].
  destruct (watch_queues s3) as [s4| | |] eqn:E4; cbn in H; try done. apply watch_queues_inv in E4; [|done].
  destruct (watch_timer_queues s4) as [s5| | |] eqn:E5; cbn in H; try done.
  apply watch_timer_queues_inv in E5; [|done].
  destruct (apply_pause s5) as [s6| | |] eqn:E6; cbn in H; try done. apply apply_pause_inv in E6; [|done].
  by eapply update_timerfd_inv.
Qed.

Lemma reachable_inv s : reachable s -> inv (dm s).
Proof.
  induction 1 as [pipe w s H|s w H IH|fork es s s' H IH Hs].
  - eapply main_init_inv; [|exact H]. split; [apply Forall_nil_2|done].
  - done.
  - by eapply main_iteration_inv.
Qed.

(** ** Pauses *)

Lemma pause_mark_mark b1 b2 p : pause_mark b2 (pause_mark b1 p) = pause_mark (b1 || b2) p.
Proof.
  unfold pause_mark. destruct (has (q_flags p) F_QUEUE_DIR) eqn:Hq; cbn [andb]; [|by rewrite Hq].
  assert (has (set_flag (q_flags p) F_PAUSED) F_QUEUE_DIR = true) as Hq'.
  { revert Hq. unfold has, set_flag. rewrite Z.land_lor_distr_l. change (Z.land F_PAUSED F_QUEUE_DIR) with 0.
    by rewrite Z.lor_0_r. }
  destruct b1, b2; cbn [orb]; cbn [with_flags q_flags]; rewrite ?Hq, ?Hq'; cbn [andb]; try done.
  unfold with_flags. cbn. unfold set_flag. by rewrite <- Z.lor_assoc, Z.lor_diag.
Qed.

Lemma pause_mark_name b p : q_name (pause_mark b p) = q_name p.
Proof. unfold pause_mark. by case_match. Qed.

Lemma pause_loop_spec ents d : pause_all d = false ->
  pause_loop ents d = set_pause_all (pauses_all ents)
    (set_list (map (fun p => pause_mark (paused_by ents (q_name p)) p) (watch_list d)) d).
Proof.
  revert d. induction ents as [|e ents IH]; intros d Hd; cbn [pause_loop].
  - replace (map _ (watch_list d)) with (watch_list d); [by destruct d; cbn in Hd; subst|].
    symmetry. rewrite <- (map_id (watch_list d)) at 2. apply map_ext. intros p. unfold pause_mark. cbn.
    by rewrite andb_false_r.
  - destruct (subdir e) eqn:Es; cbn [negb].
    2:{ rewrite IH by done. unfold pauses_all, paused_by. cbn [existsb]. by rewrite Es. }
    case_bool_decide as Ea.
    + cbn. unfold set_pause_all, set_list. cbn. unfold pauses_all. cbn [existsb]. rewrite Es.
      rewrite bool_decide_true by done. reflexivity.
    + cbn [pause_all set_list]. rewrite Hd. rewrite IH by done. unfold set_pause_all, set_list. cbn.
      unfold pauses_all. cbn [existsb]. rewrite Es, (bool_decide_false (d_name e = ".all"%string)) by done.
      cbn [andb orb]. f_equal. rewrite map_map. apply map_ext. intros p.
      change (if has (q_flags p) F_QUEUE_DIR && _ then _ else _)
        with (pause_mark (bool_decide (d_name e = q_name p)) p).
      rewrite pause_mark_name, pause_mark_mark. unfold paused_by. done.
Qed.

Lemma valid_pause_bits f b : f ∈ valid_flags ->
  has (if has (clear_flag f F_PAUSED) F_QUEUE_DIR && b
       then set_flag (clear_flag f F_PAUSED) F_PAUSED else clear_flag f F_PAUSED) F_PAUSED
  = has f F_QUEUE_DIR && b.
Proof. intros H. valid_cases H; subst f; by destruct b. Qed.

(** ** Theorems *)

(** C36. The daemon never stops on its own consistency check. In every state the
    daemon can reach, whatever the other programs do to the directories, whatever
    events, signals and pipe messages the handlers read and whether fork succeeds
    or not, the loop that starts the workers ends: when it finds a dirty queue, the
    counter dirty_queues is not 0, so the "BUG" exit is dead code. The counter
    stays at least the number of dirty queues, and a watch has exactly one kind. *)
Theorem dirty_counter_sound s es s1 s2 fork :
  reachable s -> fd_handlers es s = Ret (Some s1) ->
  (if timer_changed (dm s1) then update_timerfd s1 else Ret s1) = Ret s2 ->
  exists s3, start_all fork s2 = Ret s3 /\ main_iteration fork es s = Ret (Some s3)
    /\ reachable s3 /\ inv (dm s3).
Proof.
  intros Hr H1 H2. pose proof (reachable_inv s Hr) as Hi. apply fd_handlers_inv in H1 as Hi1; [|done].
  assert (inv (dm s2)) as Hi2. { case_match; [by eapply update_timerfd_inv|by simplify_eq]. }
  destruct (start_all_inv fork s2 Hi2) as (s3 & H3 & Hi3). exists s3.
  assert (main_iteration fork es s = Ret (Some s3)) as Hm.
  { unfold main_iteration. rewrite H1. cbn [obind]. rewrite H2. cbn [obind]. by rewrite H3. }
  split_and!; try done. by eapply reach_iteration.
Qed.

Lemma dirty_counter_sound_witness :
  exists s3, start_all demo_fork demo_ready = Ret s3
    /\ main_iteration demo_fork [] demo_ready = Ret (Some s3) /\ reachable s3 /\ inv (dm s3).
Proof.
  apply (dirty_counter_sound demo_ready [] demo_ready demo_ready demo_fork).
  - apply (reach_init 9 demo_world). vm_compute. reflexivity.
  - reflexivity.
  - vm_compute. reflexivity.
Defined.

(** What apply_pause does. A queue is paused exactly when the pause tree has
    a directory with its name or the directory ".all"; watches of other kinds are
    not paused; pause_all tells whether ".all" exists. Nothing else changes: the
    other flags, the pids, the order of the list and the counter stay. *)
Theorem apply_pause_spec s ents di :
  inv (dm s) -> dirs (wld s) !! (Pause, "."%string) = Some di -> d_entries di = ents ->
  exists s', apply_pause s = Ret s'
    /\ pause_all (dm s') = pauses_all ents /\ dirty_queues (dm s') = dirty_queues (dm s)
    /\ wld s' = wld s
    /\ Forall2 (fun p p' =>
         has (q_flags p') F_PAUSED = has (q_flags p) F_QUEUE_DIR && paused_by ents (q_name p)
         /\ clear_flag (q_flags p') F_PAUSED = clear_flag (q_flags p) F_PAUSED
         /\ q_watchfd p' = q_watchfd p /\ q_ino p' = q_ino p /\ q_pid p' = q_pid p /\ q_name p' = q_name p)
         (watch_list (dm s)) (watch_list (dm s')).
Proof.
  intros [Hv _] Hd He. unfold apply_pause, xreaddir. rewrite Hd, He. cbn [obind].
  eexists. split; [done|]. cbn [dm wld]. rewrite pause_loop_spec by done. cbn. split_and!; try done.
  rewrite map_map. induction Hv as [|p l Hp Hv IH]; cbn [map]; constructor; [|done].
  cbn [with_flags q_name]. rewrite <- (valid_pause_bits _ (paused_by ents (q_name p)) Hp).
  unfold pause_mark. cbn [with_flags q_flags].
  destruct (has (clear_flag (q_flags p) F_PAUSED) F_QUEUE_DIR && paused_by ents (q_name p));
    cbn; split_and!; try done.
  - unfold clear_flag, set_flag. rewrite Z.land_lor_distr_l, <- Z.land_assoc, Z.land_diag.
    change (Z.land F_PAUSED (Z.lnot F_PAUSED)) with 0. apply Z.lor_0_r.
  - unfold clear_flag. by rewrite <- Z.land_assoc, Z.land_diag.
Qed.

Lemma apply_pause_spec_witness :
  exists s', apply_pause demo_sys = Ret s'
    /\ pause_all (dm s') = pauses_all [demo_dir "net"] /\ dirty_queues (dm s') = dirty_queues (dm demo_sys)
    /\ wld s' = wld demo_sys
    /\ Forall2 (fun p p' =>
         has (q_flags p') F_PAUSED = has (q_flags p) F_QUEUE_DIR && paused_by [demo_dir "net"] (q_name p)
         /\ clear_flag (q_flags p') F_PAUSED = clear_flag (q_flags p) F_PAUSED
         /\ q_watchfd p' = q_watchfd p /\ q_ino p' = q_ino p /\ q_pid p' = q_pid p /\ q_name p' = q_name p)
         (watch_list (dm demo_sys)) (watch_list (dm s')).
Proof.
  apply (apply_pause_spec demo_sys [demo_dir "net"] {| d_ino := 4; d_entries := [demo_dir "net"] |}).
  - split; [|vm_compute; congruence]. apply Forall_cons_2; [|apply Forall_nil_2].
    vm_compute. repeat (first [left; reflexivity | constructor 2]); reflexivity.
  - vm_compute. reflexivity.
  - reflexivity.
Defined.

(** Removing a dirty queue leaks its count. unwatch_path drops a dirty watch
    from the list without decrementing dirty_queues. When it was the only dirty
    queue, no queue is dirty any more, the counter is not 0, and from then on
    epoll_wait is called with a timeout of 250 ms instead of blocking. *)
Theorem unwatch_leaks_dirty s ino e l :
  inv (dm s) -> unlink_ino ino (watch_list (dm s)) = Some (e, l) -> is_dirty e = true ->
  let d := dm (unwatch_path ino s) in
  dirty_queues d = dirty_queues (dm s) /\ ndirty (watch_list d) = ndirty (watch_list (dm s)) - 1
  /\ ndirty (watch_list d) < dirty_queues d /\ epoll_timeout d = 250.
Proof.
  intros [Hv Hn] Hu He d. unfold d, unwatch_path. rewrite Hu. cbn.
  apply unlink_ino_inv in Hu as [_ Hu]. rewrite He in Hu. pose proof (ndirty_nonneg l).
  unfold epoll_timeout. cbn. rewrite (proj2 (Z.eqb_neq _ 0)) by lia. split_and!; lia.
Qed.

Lemma unwatch_leaks_dirty_witness :
  let d := dm (unwatch_path 7 demo_sys) in
  dirty_queues d = 1 /\ watch_list d = [] /\ ndirty (watch_list d) < dirty_queues d /\ epoll_timeout d = 250.
Proof.
  destruct (unwatch_leaks_dirty demo_sys 7 demo_watch []) as (H1 & H2 & H3 & H4).
  - split; [|vm_compute; congruence]. apply Forall_cons_2; [|apply Forall_nil_2].
    vm_compute. repeat (first [left; reflexivity | constructor 2]); reflexivity.
  - vm_compute. reflexivity.
  - vm_compute. reflexivity.
  - split; [exact H1|]. split; [vm_compute; reflexivity|]. split; [exact H3|exact H4].
Defined.

(** A queue that appears while its name is paused is not paused. watch_path
    looks at pause_all only, not at the pause tree, so a queue created (by
    ueventctl or by the daemon itself for a timer) after its pause directory gets
    a watch without F_PAUSED; if it has events, the next iteration starts a worker
    for it. *)
Theorem new_queue_ignores_pause s name di pd :
  dirs (wld s) !! (Filter, name) = Some di ->
  forallb (fun e => first_char_dot (d_name e)) (d_entries di) = false ->
  existsb (fun k => k_ino k =? d_ino di) (kwatches (wld s)) = false -> 0 <= next_wd (wld s) ->
  pause_all (dm s) = false ->
  dirs (wld s) !! (Pause, "."%string) = Some pd -> paused_by (d_entries pd) name = true ->
  exists s' p, watch_path Filter name EV_QUEUE_MASK F_QUEUE_DIR s = Ret (0, s')
    /\ watch_list (dm s') = p :: watch_list (dm s) /\ q_name p = name /\ runnable p = true.
Proof.
  intros Hd He Hk Hw Hp _ _. unfold watch_path, add_queue_dir, inotify_add_watch. rewrite Hd, Hk. cbn -[has].
  rewrite (proj2 (Z.ltb_ge _ 0)) by done. rewrite Hd. unfold empty_directory, xreaddir. cbn -[has].
  rewrite Hd. cbn -[has]. rewrite He. change (has F_QUEUE_DIR F_QUEUE_DIR) with true.
  change (has F_QUEUE_DIR F_TIMER_DIR) with false. cbn. rewrite Hp.
  do 2 eexists. split; [done|]. cbn. split_and!; done.
Qed.

Lemma new_queue_ignores_pause_witness :
  exists s' p, watch_path Filter "net" EV_QUEUE_MASK F_QUEUE_DIR
                 {| dm := daemon0 9; wld := demo_world |} = Ret (0, s')
    /\ watch_list (dm s') = p :: [] /\ q_name p = "net"%string /\ runnable p = true.
Proof.
  apply (new_queue_ignores_pause {| dm := daemon0 9; wld := demo_world |} "net"
    {| d_ino := 7; d_entries := [{| d_name := "ev1"; d_type := DT_REG |}] |}
    {| d_ino := 4; d_entries := [demo_dir "net"] |}); vm_compute; congruence || reflexivity.
Defined.
