(* ===== verification/UeventdWorker.v ===== *)
(** The worker of ueventd (queue-processor.c) and the whole system: the daemon,
    its workers, the kernel's queue of inotify events and the pipe.

    A worker runs concurrently with the daemon and with the programs that add
    events, so its body is also given as a sequence of phases; the system is a
    step relation that interleaves them. It has the failures of fork and of the write
    to the pipe, the death of a worker at any point, and the removal of events by
    other programs; two sets of names record the queues these concern. Queues are not
    removed, and the kernel's queue of inotify events does not overflow. *)

From Stdlib Require Import ZArith Ascii String Lia.
From stdpp Require Import base list strings gmap tactics numbers.
From S2P Require Import Prelude Ueventd.

Open Scope Z_scope.
Open Scope cprog_scope.

(** ** queue-processor.c *)

(** The entries move_files takes. *)
Definition movable (e : dirent) : bool :=
  negb (first_char_dot (d_name e)) && bool_decide (d_type e = DT_REG).

Definition move_file (q : string) (e : dirent) (w : world) : out world :=
  if movable e then
    match rename (Filter, q) (d_name e) (Uevent, q) (d_name e) w with
    | None => Die EXIT_FAILURE "rename"
    | Some w => Ret w
    end
  else Ret w.

Fixpoint move_entries (q : string) (ents : list dirent) (w : world) : out world :=
  match ents with
  | [] => Ret w
  | e :: ents => let! w := move_file q e w in move_entries q ents w
  end.

(** The source must exist; the destination is created when it does not. *)
Definition open_dirs (q : string) (w : world) : out (world * list dirent) :=
  match dirs w !! (Filter, q) with
  | None => Die EXIT_FAILURE "open"
  | Some src =>
      let w := match dirs w !! (Uevent, q) with
               | Some _ => w
               | None => wld (mkdir Uevent q {| dm := daemon0 0; wld := w |})
               end in
      match dirs w !! (Uevent, q) with
      | None => Die EXIT_FAILURE "mkdir"
      | Some _ => Ret (w, d_entries src)
      end
  end.

Definition move_files (q : string) (w : world) : out world :=
  let! (w, ents) := open_dirs q w in move_entries q ents w.

(** The handler program replaces the contents of the directory by what it leaves
    there; when fork fails it leaves everything. *)
Definition event_handler (h : list dirent -> list dirent) (q : string) (w : world) : world :=
  match dirs w !! (Uevent, q) with
  | None => w
  | Some d => set_dirs (<[(Uevent, q) := {| d_ino := d_ino d; d_entries := h (d_entries d) |}]> (dirs w)) w
  end.

(** What signal_unhandled_events writes to the pipe: nothing when the write fails. *)
Definition signal_unhandled_events (written : bool) (watchfd : Z) : list Z := if written then [watchfd] else [].

(** The world after the worker, and what it has written to the pipe. *)
Definition process_events (h : list dirent -> list dirent) (written : bool) (q : string) (watchfd : Z) (w : world)
  : out (world * list Z) :=
  let! w := move_files q w in
  let! e := empty_directory (Uevent, q) w in
  if e then Ret (w, []) else
  let w := event_handler h q w in
  let! e := empty_directory (Uevent, q) w in
  Ret (w, if e then [] else signal_unhandled_events written watchfd).

(** ** The phases of a worker *)

Inductive phase :=
  | PStart
  | PMove (todo : list dirent)
  | PHandle
  | PCheck
  | PSignal
  | PExit.

Global Instance dirent_eq_dec : EqDecision dirent.
Proof. solve_decision. Defined.
Global Instance phase_eq_dec : EqDecision phase.
Proof. solve_decision. Defined.

Definition worker_step (h : list dirent -> list dirent) (written : bool) (q : string) (watchfd : Z) (ph : phase)
    (w : world) (pipe : list Z) : out (phase * world * list Z) :=
  match ph with
  | PStart => let! (w, ents) := open_dirs q w in Ret (PMove ents, w, pipe)
  | PMove (e :: todo) => let! w := move_file q e w in Ret (PMove todo, w, pipe)
  | PMove [] =>
      let! e := empty_directory (Uevent, q) w in Ret (if e then PExit else PHandle, w, pipe)
  | PHandle => Ret (PCheck, event_handler h q w, pipe)
  | PCheck =>
      let! e := empty_directory (Uevent, q) w in Ret (if e then PExit else PSignal, w, pipe)
  | PSignal => Ret (PExit, w, pipe ++ signal_unhandled_events written watchfd)
  | PExit => Ret (PExit, w, pipe)
  end.

(** The worker alone, for a number of phases. *)
Fixpoint run_worker (n : nat) (h : list dirent -> list dirent) (written : bool) (q : string) (watchfd : Z) (ph : phase)
    (w : world) (pipe : list Z) : out (phase * world * list Z) :=
  match n with
  | O => Ret (ph, w, pipe)
  | S n => let! (ph, w, pipe) := worker_step h written q watchfd ph w pipe in run_worker n h written q watchfd ph w pipe
  end.

(** ** The system *)

Record proc := { pr_queue : string; pr_wd : Z; pr_phase : phase }.

(** [lost] are the queues whose last worker could not be started, has died, or could
    not tell the daemon that there are events left, and [raced] those from whose
    directory another program has removed an event since their last worker was started.
    No part of the program depends on the two. *)
Record node := {
  nsys : sys;
  npipe : list Z;
  procs : gmap Z proc;
  zombies : list Z;
  lost : gset string;
  raced : gset string;
}.

(** The workers that a call of start_all has started. *)
Fixpoint started (l l' : list watch) (m : gmap Z proc) : gmap Z proc :=
  match l, l' with
  | p :: l, p' :: l' =>
      let m := started l l' m in
      if runnable p && negb (q_pid p' =? 0)
      then <[q_pid p' := {| pr_queue := q_name p; pr_wd := q_watchfd p; pr_phase := PStart |}]> m
      else m
  | _, _ => m
  end.

(** The queues for which it has started a worker, and those for which fork has failed. *)
Fixpoint forked (ok : bool) (l l' : list watch) : gset string :=
  match l, l' with
  | p :: l, p' :: l' =>
      if runnable p && Bool.eqb ok (negb (q_pid p' =? 0)) then {[ q_name p ]} ∪ forked ok l l' else forked ok l l'
  | _, _ => ∅
  end.

Definition update_proc (pid : Z) (p : proc) (ph : phase) (n : node) (w : world) (pipe : list Z) : node :=
  match ph with
  | PExit => {| nsys := {| dm := dm (nsys n); wld := w |}; npipe := pipe;
                procs := delete pid (procs n); zombies := zombies n ++ [pid];
                lost := lost n; raced := raced n |}
  | _ => {| nsys := {| dm := dm (nsys n); wld := w |}; npipe := pipe;
            procs := <[pid := {| pr_queue := pr_queue p; pr_wd := pr_wd p; pr_phase := ph |}]> (procs n);
            zombies := zombies n; lost := lost n; raced := raced n |}
  end.

Definition lose (q : string) (n : node) : node :=
  {| nsys := nsys n; npipe := npipe n; procs := procs n; zombies := zombies n;
     lost := {[ q ]} ∪ lost n; raced := raced n |}.

(** A program renames a new event into a queue. *)
Definition produce (q : string) (di : dirinfo) (f : string) (w : world) : world :=
  notify (d_ino di) IN_MOVED_TO f
    (set_dirs (<[(Filter, q) := add_entry {| d_name := f; d_type := DT_REG |} di]> (dirs w)) w).

(** A directory of the pause tree is created or removed. *)
Definition change_pauses (di : dirinfo) (ents : list dirent) (mask : Z) (nm : string) (w : world) : world :=
  notify (d_ino di) mask nm
    (set_dirs (<[(Pause, "."%string) := {| d_ino := d_ino di; d_entries := ents |}]> (dirs w)) w).

(** A program removes an event. *)
Definition remove_event (pl : place) (q : string) (di : dirinfo) (f : string) (w : world) : world :=
  notify (d_ino di) IN_DELETE f (set_dirs (<[(pl, q) := remove_entry f di]> (dirs w)) w).

Definition set_sys (s : sys) (n : node) : node :=
  {| nsys := s; npipe := npipe n; procs := procs n; zombies := zombies n; lost := lost n; raced := raced n |}.

Definition race (pl : place) (q : string) (n : node) : node :=
  {| nsys := nsys n; npipe := npipe n; procs := procs n; zombies := zombies n; lost := lost n;
     raced := if decide (pl = Filter) then {[ q ]} ∪ raced n else raced n |}.

(** fork fails or gives the session its own process. *)
Definition fork_ok (fork : Z -> Z) (n : node) : Prop :=
  (forall k, session (dm (nsys n)) < k ->
     fork k < 0 \/ 0 < fork k /\ procs n !! fork k = None /\ fork k ∉ zombies n)
  /\ (forall j k, 0 < fork k -> fork j = fork k -> j = k).

Inductive nstep (n : node) : node -> Prop :=
  | N_produce q di f :
      q <> "."%string -> dirs (wld (nsys n)) !! (Filter, q) = Some di ->
      nstep n (set_sys (on_world (produce q di f) (nsys n)) n)
  | N_create_queue q :
      q <> "."%string -> nstep n (set_sys (mkdir Filter q (nsys n)) n)
  | N_pause di ents mask nm :
      dirs (wld (nsys n)) !! (Pause, "."%string) = Some di -> mask = IN_CREATE \/ mask = IN_DELETE ->
      nstep n (set_sys (on_world (change_pauses di ents mask nm) (nsys n)) n)
  | N_remove pl q di f :
      pl <> Pause -> q <> "."%string -> dirs (wld (nsys n)) !! (pl, q) = Some di ->
      nstep n (race pl q (set_sys (on_world (remove_event pl q di f) (nsys n)) n))
  | N_inotify s :
      fd_handler FD_INOTIFY (nsys n) = Ret (0, s) -> nstep n (set_sys s n)
  | N_timer s :
      update_timerfd (nsys n) = Ret s -> nstep n (set_sys s n)
  | N_pipe :
      nstep n {| nsys := process_pipefd_events (npipe n) (nsys n); npipe := [];
                 procs := procs n; zombies := zombies n; lost := lost n; raced := raced n |}
  | N_reap :
      nstep n {| nsys := (process_signal_events (Some (SIGCHLD, zombies n, false)) (nsys n)).2;
                 npipe := npipe n; procs := procs n; zombies := []; lost := lost n; raced := raced n |}
  | N_start fork s :
      fork_ok fork n -> start_all fork (nsys n) = Ret s ->
      nstep n {| nsys := s; npipe := npipe n;
                 procs := started (watch_list (dm (nsys n))) (watch_list (dm s)) (procs n);
                 zombies := zombies n;
                 lost := lost n ∖ forked true (watch_list (dm (nsys n))) (watch_list (dm s))
                         ∪ forked false (watch_list (dm (nsys n))) (watch_list (dm s));
                 raced := raced n ∖ forked true (watch_list (dm (nsys n))) (watch_list (dm s)) |}
  | N_worker h pid p ph w pipe :
      procs n !! pid = Some p ->
      worker_step h true (pr_queue p) (pr_wd p) (pr_phase p) (wld (nsys n)) (npipe n) = Ret (ph, w, pipe) ->
      nstep n (update_proc pid p ph n w pipe)
  | N_write_fails h pid p ph w pipe :
      procs n !! pid = Some p -> pr_phase p = PSignal ->
      worker_step h false (pr_queue p) (pr_wd p) (pr_phase p) (wld (nsys n)) (npipe n) = Ret (ph, w, pipe) ->
      nstep n (lose (pr_queue p) (update_proc pid p ph n w pipe))
  | N_worker_dies pid p :
      procs n !! pid = Some p ->
      nstep n (lose (pr_queue p) (update_proc pid p PExit n (wld (nsys n)) (npipe n))).

(** ** The invariant of the system *)

Definition is_queue (p : watch) : bool := has (q_flags p) F_QUEUE_DIR.

(** What the phase of a worker still has to take from the queue. *)
Definition takes (ph : phase) (e : dirent) : Prop :=
  match ph with PStart => True | PMove todo => e ∈ todo | _ => False end.

Definition names (d : dirinfo) : list string := map d_name (d_entries d).

(** The daemon and the kernel agree on the watches, and the directories are
    sound. *)
Record consistent (s : sys) (pend : list inotify_event) : Prop := {
  co_inv : inv (dm s);
  co_wd : Forall (fun p => q_watchfd p < next_wd (wld s)) (watch_list (dm s));
  co_wd_nodup : NoDup (map q_watchfd (watch_list (dm s)));
  co_next : 0 <= next_wd (wld s);
  co_queue p : p ∈ watch_list (dm s) -> is_queue p = true ->
    q_name p <> "."%string /\ exists di, dirs (wld s) !! (Filter, q_name p) = Some di /\ d_ino di = q_ino p
      /\ {| k_wd := q_watchfd p; k_ino := q_ino p; k_mask := EV_QUEUE_MASK |} ∈ kwatches (wld s);
  co_names i j p p' : watch_list (dm s) !! i = Some p -> watch_list (dm s) !! j = Some p' ->
    is_queue p = true -> is_queue p' = true -> q_name p = q_name p' -> i = j;
  co_uevent : is_Some (dirs (wld s) !! (Uevent, "."%string));
  co_dirs q di : q <> "."%string -> dirs (wld s) !! (Filter, q) = Some di -> NoDup (names di);
  co_events : Forall (fun e => has (ev_mask e) IN_DELETE_SELF = false) pend;
}.

Section Invariant.
Context (Lo Ra : gset string).

(** Every event of a queue that is not lost is accounted for: in a queue, by the mark of the queue, by an
    inotify event, or by a worker that is going to take it; in the directory of
    the handler, by the mark, by a message in the pipe, or by a worker. *)
Record accounted (s : sys) (pend : list inotify_event) (pipe : list Z) (procs : gmap Z proc) : Prop := {
  ac_src p di e : p ∈ watch_list (dm s) -> is_queue p = true -> q_name p ∉ Lo ->
    dirs (wld s) !! (Filter, q_name p) = Some di -> e ∈ d_entries di -> movable e = true ->
    is_dirty p = true \/ (exists ev, ev ∈ pend /\ ev_wd ev = q_watchfd p)
    \/ exists pid ph, procs !! pid = Some {| pr_queue := q_name p; pr_wd := q_watchfd p; pr_phase := ph |}
                      /\ takes ph e;
  ac_dst p di e : p ∈ watch_list (dm s) -> is_queue p = true -> q_name p ∉ Lo ->
    dirs (wld s) !! (Uevent, q_name p) = Some di -> e ∈ d_entries di -> movable e = true ->
    is_dirty p = true \/ q_watchfd p ∈ pipe
    \/ exists pid ph, procs !! pid = Some {| pr_queue := q_name p; pr_wd := q_watchfd p; pr_phase := ph |};
  ac_unwatched q di e : q <> "."%string ->
    (forall p, p ∈ watch_list (dm s) -> is_queue p = true -> q_name p <> q) ->
    dirs (wld s) !! (Uevent, q) = Some di -> e ∈ d_entries di -> movable e = false;
}.

(** A worker belongs to a watch, which remembers its pid until it is reaped, and
    what it is going to take is there unless somebody else removes events. *)
Record workers_ok (s : sys) (procs : gmap Z proc) (zombies : list Z) : Prop := {
  wo_watch pid pr : procs !! pid = Some pr ->
    exists p, p ∈ watch_list (dm s) /\ is_queue p = true /\ q_pid p = pid /\ q_name p = pr_queue pr
              /\ q_watchfd p = pr_wd pr;
  wo_nonzero pid pr : procs !! pid = Some pr -> pid <> 0 /\ pr_phase pr <> PExit;
  wo_todo pid pr todo : procs !! pid = Some pr -> pr_phase pr = PMove todo -> pr_queue pr ∉ Ra ->
    NoDup (map d_name todo) /\ forall e, e ∈ todo -> movable e = true ->
    exists di, dirs (wld s) !! (Filter, pr_queue pr) = Some di /\ d_name e ∈ names di;
  wo_dst pid pr : procs !! pid = Some pr -> pr_phase pr <> PStart ->
    is_Some (dirs (wld s) !! (Uevent, pr_queue pr));
  wo_pid p : p ∈ watch_list (dm s) -> q_pid p <> 0 -> is_Some (procs !! q_pid p) \/ q_pid p ∈ zombies;
  wo_zombies pid : pid ∈ zombies -> procs !! pid = None;
}.

(** ** The world changes

    [sound_change] is what the programs outside do, and what the daemon does when
    it moves a timer: queues may gain entries, each announced to the watch of the
    queue, and the directories of the handlers lose entries or are created empty; a
    queue loses entries only when it is [raced]. *)

Record sound_change (w w' : world) (pend pend' : list inotify_event) : Prop := {
  sc_kwatches : kwatches w' = kwatches w;
  sc_next : next_wd w' = next_wd w;
  sc_pend : forall e, e ∈ pend -> e ∈ pend';
  sc_mask : Forall (fun e => has (ev_mask e) IN_DELETE_SELF = false) pend';
  sc_filter q di : dirs w !! (Filter, q) = Some di ->
    exists di', dirs w' !! (Filter, q) = Some di' /\ d_ino di' = d_ino di
      /\ (q ∉ Ra -> forall x, x ∈ names di -> x ∈ names di')
      /\ (q <> "."%string -> forall e, e ∈ d_entries di' -> e ∈ d_entries di
          \/ forall k, k ∈ kwatches w -> k_ino k = d_ino di -> k_mask k = EV_QUEUE_MASK ->
             exists ev, ev ∈ pend' /\ ev_wd ev = k_wd k);
  sc_nodup q di : q <> "."%string -> dirs w' !! (Filter, q) = Some di -> NoDup (names di);
  sc_uevent q di : q <> "."%string -> dirs w' !! (Uevent, q) = Some di ->
    (exists di0, dirs w !! (Uevent, q) = Some di0 /\ forall e, e ∈ d_entries di -> e ∈ d_entries di0) \/ d_entries di = [];
  sc_uevent_kept q : is_Some (dirs w !! (Uevent, q)) -> is_Some (dirs w' !! (Uevent, q));
  sc_root : is_Some (dirs w' !! (Uevent, "."%string));
}.

Lemma consistent_change s w' pend pend' :
  consistent s pend -> sound_change (wld s) w' pend pend' ->
  consistent {| dm := dm s; wld := w' |} pend'.
Proof.
  intros C S. destruct C. constructor; cbn; rewrite ?(sc_next _ _ _ _ S), ?(sc_kwatches _ _ _ _ S);
    try done.
  - intros p Hp Hq. destruct (co_queue0 p Hp Hq) as (Hn & di & Hd & Hi & Hk). split; [done|].
    destruct (sc_filter _ _ _ _ S _ _ Hd) as (di' & Hd' & Hi' & _). exists di'. by rewrite Hi'.
  - apply (sc_root _ _ _ _ S).
  - apply (sc_nodup _ _ _ _ S).
  - apply (sc_mask _ _ _ _ S).
Qed.

Lemma accounted_change s w' pend pend' pipe procs :
  consistent s pend -> sound_change (wld s) w' pend pend' ->
  accounted s pend pipe procs -> accounted {| dm := dm s; wld := w' |} pend' pipe procs.
Proof.
  intros C S [A1 A2 A3]. constructor; cbn.
  - intros p di' e Hp Hq HL Hd' He Hm. destruct (co_queue _ _ C p Hp Hq) as (Hn & di & Hd & Hi & Hk).
    destruct (sc_filter _ _ _ _ S _ _ Hd) as (di0 & Hd0 & Hi0 & _ & Hnew).
    rewrite Hd' in Hd0. injection Hd0 as <-.
    destruct (Hnew Hn e He) as [Hold|Hev].
    + destruct (A1 p di e Hp Hq HL Hd Hold Hm) as [?|[(ev & Hev & Hw)|?]]; [by left| |by right; right].
      right; left. exists ev. split; [|done]. by apply (sc_pend _ _ _ _ S).
    + right; left. destruct (Hev _ Hk) as (ev & Hev1 & Hev2); [done|done|]. by exists ev.
  - intros p di e Hp Hq HL Hd. destruct (co_queue _ _ C p Hp Hq) as (Hn & _).
    destruct (sc_uevent _ _ _ _ S _ _ Hn Hd) as [(di0 & Hd0 & Hsub)|Hnil]; [intros He; apply (A2 p di0); auto|].
    intros He. rewrite Hnil in He. by apply elem_of_nil in He.
  - intros q di e Hn Hq Hd. destruct (sc_uevent _ _ _ _ S _ _ Hn Hd) as [(di0 & Hd0 & Hsub)|Hnil]; [intros He; apply (A3 q di0); auto|].
    intros He. rewrite Hnil in He. by apply elem_of_nil in He.
Qed.

Lemma workers_change s w' pend pend' procs zombies :
  consistent s pend -> sound_change (wld s) w' pend pend' ->
  workers_ok s procs zombies -> workers_ok {| dm := dm s; wld := w' |} procs zombies.
Proof.
  intros C S W. destruct W. constructor; cbn; try done.
  - intros pid pr todo Hp Ht HR. destruct (wo_todo0 pid pr todo Hp Ht HR) as [Hnd Hall]. split; [done|].
    intros e He Hm. destruct (Hall e He Hm) as (di & Hd & Hn).
    destruct (sc_filter _ _ _ _ S _ _ Hd) as (di' & Hd' & _ & Hn' & _). exists di'. auto.
  - intros pid pr Hp Hph. eapply (sc_uevent_kept _ _ _ _ S), wo_dst0; done.
Qed.

(** ** The daemon's list changes *)

Definition same_watch (p p' : watch) : Prop :=
  q_name p' = q_name p /\ q_watchfd p' = q_watchfd p /\ q_ino p' = q_ino p /\ is_queue p' = is_queue p.

(** The marks only grow, the pids stay. *)
Definition marked_more (p p' : watch) : Prop :=
  same_watch p p' /\ (is_dirty p = true -> is_dirty p' = true) /\ q_pid p' = q_pid p.

Lemma Forall2_elem_r {A B} (P : A -> B -> Prop) l l' y : Forall2 P l l' -> y ∈ l' -> exists x, x ∈ l /\ P x y.
Proof.
  intros HF Hy. apply list_elem_of_lookup in Hy as [i Hi].
  destruct (Forall2_lookup_r _ _ _ _ _ HF Hi) as (x & Hx & HP). exists x. split; [|done].
  by eapply list_elem_of_lookup_2.
Qed.

Lemma Forall2_elem_l {A B} (P : A -> B -> Prop) l l' x : Forall2 P l l' -> x ∈ l -> exists y, y ∈ l' /\ P x y.
Proof.
  intros HF Hx. apply list_elem_of_lookup in Hx as [i Hi].
  destruct (Forall2_lookup_l _ _ _ _ _ HF Hi) as (y & Hy & HP). exists y. split; [|done].
  by eapply list_elem_of_lookup_2.
Qed.

Lemma Forall2_map_eq {A B C} (P : A -> B -> Prop) (f : A -> C) (g : B -> C) l l' :
  Forall2 P l l' -> (forall x y, P x y -> g y = f x) -> map g l' = map f l.
Proof. intros HF Hfg. induction HF as [|x y l l' HP HF IH]; [done|]. cbn. by rewrite IH, (Hfg x y). Qed.

Lemma consistent_list s d' pend :
  consistent s pend -> Forall2 same_watch (watch_list (dm s)) (watch_list d') -> inv d' ->
  consistent {| dm := d'; wld := wld s |} pend.
Proof.
  intros C HF Hi. destruct C. constructor; cbn; try done.
  - rewrite list.Forall_forall. intros p' Hp'. destruct (Forall2_elem_r _ _ _ _ HF Hp') as (p & Hp & Hs).
    destruct Hs as (_ & -> & _). rewrite list.Forall_forall in co_wd0. by apply co_wd0.
  - rewrite (Forall2_map_eq same_watch q_watchfd q_watchfd _ _ HF); [done|]. by intros x y (_ & -> & _).
  - intros p' Hp' Hq. destruct (Forall2_elem_r _ _ _ _ HF Hp') as (p & Hp & H1 & H2 & H3 & H4).
    rewrite H1, H2, H3. apply co_queue0; [done|congruence].
  - intros i j p' q' Hi' Hj' Hq1 Hq2 Hn.
    destruct (Forall2_lookup_r _ _ _ _ _ HF Hi') as (p & Hp & H1 & _ & _ & H4).
    destruct (Forall2_lookup_r _ _ _ _ _ HF Hj') as (q & Hq & K1 & _ & _ & K4).
    eapply co_names0; [exact Hp|exact Hq|congruence..].
Qed.

Lemma accounted_list s d' pend pipe procs :
  accounted s pend pipe procs -> Forall2 marked_more (watch_list (dm s)) (watch_list d') ->
  accounted {| dm := d'; wld := wld s |} pend pipe procs.
Proof.
  intros [A1 A2 A3] HF. constructor; cbn.
  - intros p' di e Hp' Hq HL Hd He Hm. destruct (Forall2_elem_r _ _ _ _ HF Hp') as (p & Hp & (H1 & H2 & H3 & H4) & H5 & _).
    rewrite H1, H2 in *. destruct (A1 p di e Hp) as [?|?]; [congruence|done..|left; auto|by right].
  - intros p' di e Hp' Hq HL Hd He Hm. destruct (Forall2_elem_r _ _ _ _ HF Hp') as (p & Hp & (H1 & H2 & H3 & H4) & H5 & _).
    rewrite H1, H2 in *. destruct (A2 p di e Hp) as [?|?]; [congruence|done..|left; auto|by right].
  - intros q di e Hn Hq. apply A3; [done|]. intros p Hp Hqp.
    destruct (Forall2_elem_l _ _ _ _ HF Hp) as (p' & Hp' & (H1 & _ & _ & H4) & _).
    rewrite <- H1. apply Hq; [done|congruence].
Qed.

Lemma workers_list s d' procs zombies :
  workers_ok s procs zombies -> Forall2 marked_more (watch_list (dm s)) (watch_list d') ->
  workers_ok {| dm := d'; wld := wld s |} procs zombies.
Proof.
  intros W HF. destruct W. constructor; cbn; try done.
  - intros pid pr Hp. destruct (wo_watch0 pid pr Hp) as (p & Hin & Hq & H1 & H2 & H3).
    destruct (Forall2_elem_l _ _ _ _ HF Hin) as (p' & Hp' & (K1 & K2 & K3 & K4) & _ & K5).
    exists p'. split_and!; congruence.
  - intros p' Hp'. destruct (Forall2_elem_r _ _ _ _ HF Hp') as (p & Hin & _ & _ & ->). by apply wo_pid0.
Qed.

(** An event of the list has been handled. *)
Lemma accounted_drop s ev pend pipe procs :
  accounted s (ev :: pend) pipe procs ->
  (forall p, p ∈ watch_list (dm s) -> is_queue p = true -> q_watchfd p = ev_wd ev -> is_dirty p = true) ->
  accounted s pend pipe procs.
Proof.
  intros [A1 A2 A3] Hd. constructor; try done. intros p di e Hp Hq HL Hdi He Hm.
  destruct (A1 p di e Hp Hq HL Hdi He Hm) as [?|[(x & Hx & Hw)|?]]; [by left| |by right; right].
  apply elem_of_cons in Hx as [->|Hx]; [left; by apply Hd|]. right; left. by exists x.
Qed.

Lemma consistent_drop s ev pend : consistent s (ev :: pend) -> consistent s pend.
Proof. intros C. destruct C. constructor; try done. by apply Forall_cons_1 in co_events0 as [_ ?]. Qed.

Lemma same_watch_refl p : same_watch p p.
Proof. done. Qed.
Lemma marked_more_refl p : marked_more p p.
Proof. done. Qed.
Lemma same_of_more l l' : Forall2 marked_more l l' -> Forall2 same_watch l l'.
Proof. intros H. induction H as [|x y l l' [? _] _ IH]; by constructor. Qed.

Lemma more_refl l : Forall2 marked_more l l.
Proof. induction l; by constructor. Qed.

Lemma has_set_other f a b : Z.land a b = 0 -> has (set_flag f a) b = has f b.
Proof. intros H. unfold has, set_flag. by rewrite Z.land_lor_distr_l, H, Z.lor_0_r. Qed.

Lemma has_clear_other f a b : Z.land (Z.lnot a) b = b -> has (clear_flag f a) b = has f b.
Proof. intros H. unfold has, clear_flag. by rewrite <- Z.land_assoc, H. Qed.

Lemma has_set_same f a : Z.land a a <> 0 -> 0 <= a -> has (set_flag f a) a = true.
Proof.
  intros H Ha. unfold has, set_flag. rewrite Z.land_lor_distr_l, Z.land_diag in *.
  apply negb_true_iff, Z.eqb_neq. intros H0. apply Z.lor_eq_0_iff in H0 as [_ ?]. done.
Qed.

Lemma mark_more i d : Forall2 marked_more (watch_list d) (watch_list (mark_queue_dirty i d)).
Proof.
  unfold mark_queue_dirty. destruct (watch_list d !! i) as [p|] eqn:Hi; [|apply more_refl].
  case_match; [|apply more_refl]. cbn. revert i Hi. induction (watch_list d) as [|q l IH]; intros i Hi; [done|].
  destruct i as [|i].
  - injection Hi as ->. change (<[0%nat:=?x]> (p :: l)) with (x :: l).
    constructor; [|apply more_refl]. split; [|split; [|done]].
    + split_and!; try done. unfold is_queue. cbn. by apply has_set_other.
    + intros _. unfold is_dirty. cbn. by apply has_set_same.
  - change (<[S i:=?x]> (q :: l)) with (q :: <[i:=x]> l). constructor; [done|]. by apply IH.
Qed.

Lemma mark_dirty i p d : watch_list d !! i = Some p ->
  exists p', watch_list (mark_queue_dirty i d) !! i = Some p' /\ is_dirty p' = true.
Proof.
  intros Hi. unfold mark_queue_dirty. rewrite Hi. destruct (has (q_flags p) F_DIRTY) eqn:E; cbn [negb].
  - by exists p.
  - cbn. eexists. split; [apply list_lookup_insert_eq; by eapply lookup_lt_Some|].
    unfold is_dirty. cbn. by apply has_set_same.
Qed.

(** The three parts of the invariant together, for handlers in the middle of
    their work: [pend] is what is left of the events being handled. *)
Definition ok (s : sys) (pend : list inotify_event) (pipe : list Z) (ps : gmap Z proc) (zs : list Z) : Prop :=
  consistent s pend /\ accounted s pend pipe ps /\ workers_ok s ps zs.

Lemma ok_list s d' pend pipe ps zs :
  ok s pend pipe ps zs -> Forall2 marked_more (watch_list (dm s)) (watch_list d') -> inv d' ->
  ok {| dm := d'; wld := wld s |} pend pipe ps zs.
Proof.
  intros (C & A & W) HF Hi. split_and!.
  - apply consistent_list; [done|by apply same_of_more|done].
  - by apply accounted_list.
  - by apply workers_list.
Qed.

Lemma ok_change s w' pend pend' pipe ps zs :
  ok s pend pipe ps zs -> sound_change (wld s) w' pend pend' ->
  ok {| dm := dm s; wld := w' |} pend' pipe ps zs.
Proof.
  intros (C & A & W) S. split_and!.
  - by eapply consistent_change.
  - by eapply accounted_change.
  - by eapply workers_change.
Qed.

Lemma nodup_wd s pend i j p p' : consistent s pend ->
  watch_list (dm s) !! i = Some p -> watch_list (dm s) !! j = Some p' -> q_watchfd p = q_watchfd p' -> i = j.
Proof.
  intros C Hi Hj He. eapply NoDup_lookup; [apply (co_wd_nodup _ _ C)| |].
  - rewrite list_lookup_fmap, Hi. done.
  - rewrite list_lookup_fmap, Hj. cbn. by rewrite He.
Qed.

(** Marking the watch that find_watch returns for a descriptor. *)
Lemma ok_mark_wd s f wd pend pipe ps zs :
  ok s pend pipe ps zs -> (forall p, f p = true -> q_watchfd p = wd /\ is_queue p = true) ->
  forall i, find_watch f (watch_list (dm s)) = Some i ->
  let s' := on_daemon (mark_queue_dirty i) s in
  ok s' pend pipe ps zs
  /\ forall p, p ∈ watch_list (dm s') -> q_watchfd p = wd -> is_dirty p = true.
Proof.
  intros Hok Hf i Hi s'. destruct (find_watch_Some _ _ _ Hi) as (p & Hp & Hfp).
  destruct (Hf p Hfp) as [Hwd Hq].
  assert (ok s' pend pipe ps zs) as Hok'.
  { apply ok_list; [done|apply mark_more|]. destruct Hok as (C & _). by eapply mark_queue_dirty_inv; [apply C|..]. }
  split; [done|]. intros p' Hp' Hw. apply list_elem_of_lookup in Hp' as [j Hj].
  destruct (mark_dirty i p (dm s) Hp) as (pi & Hpi & Hd).
  assert (j = i) as ->; [|unfold s' in Hj; cbn in Hj; congruence].
  destruct Hok' as (C' & _). eapply nodup_wd; [exact C'|exact Hj|exact Hpi|].
  destruct (Forall2_lookup_r _ _ _ _ _ (mark_more i (dm s)) Hpi) as (p0 & Hp0 & (_ & E & _) & _).
  rewrite Hp in Hp0. injection Hp0 as <-. congruence.
Qed.

(** ** The handlers *)

Lemma find_watch_None f l p : find_watch f l = None -> p ∈ l -> f p = false.
Proof.
  induction l as [|x l IH]; intros H Hp; [by apply elem_of_nil in Hp|]. cbn in H.
  destruct (f x) eqn:Ef; [done|]. apply elem_of_cons in Hp as [->|Hp]; [done|].
  apply IH; [|done]. by destruct (find_watch f l).
Qed.

Lemma ok_pipe vs : forall s pend pipe ps zs,
  ok s pend (vs ++ pipe) ps zs -> ok (process_pipefd_events vs s) pend pipe ps zs.
Proof.
  induction vs as [|v vs IH]; intros s pend pipe ps zs Hok.
  { destruct s. exact Hok. }
  change (process_pipefd_events (v :: vs) s)
    with (process_pipefd_events vs (on_daemon (process_pipe_value v) s)).
  apply IH. unfold process_pipe_value, on_daemon.
  set (f := fun p => has (q_flags p) F_QUEUE_DIR && (q_watchfd p =? v)).
  assert (forall s', ok s' pend ((v :: vs) ++ pipe) ps zs ->
    (forall p, p ∈ watch_list (dm s') -> is_queue p = true -> q_watchfd p = v -> is_dirty p = true) ->
    ok s' pend (vs ++ pipe) ps zs) as Hdrop.
  { intros s' (C & [A1 A2 A3] & W) Hd. split_and!; [done| |done]. constructor; try done.
    intros p di e Hp Hq HL Hdi He Hm. destruct (A2 p di e Hp Hq HL Hdi He Hm) as [?|[Hw|?]]; [by left| |by right; right].
    cbn in Hw. apply elem_of_cons in Hw as [Hw|Hw]; [left; by apply Hd|by right; left]. }
  destruct (find_watch f (watch_list (dm s))) as [i|] eqn:E.
  - destruct (ok_mark_wd s f v _ _ _ _ Hok) with (i := i) as [Hok' Hd]; [|done|].
    { intros p Hp. unfold f in Hp. apply andb_prop in Hp as [H1 H2]. unbool. done. }
    apply Hdrop; [done|]. intros p Hp _. by apply Hd.
  - destruct s. apply Hdrop; [done|]. intros p Hp Hq Hw. exfalso.
    pose proof (find_watch_None _ _ _ E Hp) as Hn. unfold f in Hn. unfold is_queue in Hq.
    by rewrite Hq, Hw, Z.eqb_refl in Hn.
Qed.

Lemma Forall2_map_r {A B} (P : A -> B -> Prop) (g : A -> B) l : (forall x, x ∈ l -> P x (g x)) -> Forall2 P l (map g l).
Proof.
  induction l as [|x l IH]; intros H; cbn; constructor; [by apply H; left|].
  apply IH. intros y Hy. apply H. by right.
Qed.

Lemma Forall2_compose {A B C} (P : A -> B -> Prop) (Q : B -> C -> Prop) (R : A -> C -> Prop) l1 l2 l3 :
  Forall2 P l1 l2 -> Forall2 Q l2 l3 -> (forall x y z, P x y -> Q y z -> R x z) -> Forall2 R l1 l3.
Proof.
  intros H1 H2 HR. revert l3 H2. induction H1 as [|x y l1 l2 HP _ IH]; intros l3 H2;
    inversion H2; subst; constructor; eauto.
Qed.

Lemma reap_spec pids : forall l,
  Forall2 (fun p p' => same_watch p p' /\ is_dirty p' = is_dirty p
             /\ q_pid p' = (if decide (q_pid p ∈ pids) then 0 else q_pid p)) l
    (foldl (fun l pid => map (fun p => if q_pid p =? pid then with_pid 0 p else p) l) l pids).
Proof.
  induction pids as [|pid pids IH]; intros l; cbn [foldl].
  - induction l; constructor; [|done]. split_and!; done.
  - eapply Forall2_compose; [|apply IH|].
    + apply (Forall2_map_r (fun p p' => same_watch p p' /\ is_dirty p' = is_dirty p
               /\ q_pid p' = (if decide (q_pid p = pid) then 0 else q_pid p))).
      intros p _. case_match eqn:E; unbool; (split; [done|]; split; [done|]); cbn.
      * by rewrite decide_True.
      * by rewrite decide_False.
    + intros x y z ((S1 & S2 & S3 & S4) & D & P) ((T1 & T2 & T3 & T4) & E & Q). split.
      { split_and!; congruence. } split; [congruence|]. rewrite Q, P.
      destruct (decide (q_pid x = pid)) as [->|].
      * repeat case_decide; try done; set_solver.
      * repeat case_decide; try done; set_solver.
Qed.

Lemma ok_reap s pend pipe ps zs :
  ok s pend pipe ps zs -> ok (process_signal_events (Some (SIGCHLD, zs, false)) s).2 pend pipe ps [].
Proof.
  intros (C & [A1 A2 A3] & W). cbn. set (d := dm s).
  pose proof (reap_spec zs (watch_list d)) as HF. set (l' := foldl _ _ _) in *.
  assert (Forall2 same_watch (watch_list d) l') as HS.
  { clear -HF. induction HF as [|x y l k [? _] _ IH]; by constructor. }
  assert (inv (set_list l' d)) as Hi by apply (reap_inv zs d (co_inv _ _ C)).
  split_and!.
  - by apply (consistent_list s).
  - constructor; cbn.
    + intros p' di e Hp' Hq HL Hd He Hm. destruct (Forall2_elem_r _ _ _ _ HF Hp') as (p & Hp & (H1 & H2 & H3 & H4) & H5 & _).
      rewrite H1, H2, H5 in *. apply (A1 p di e Hp); congruence.
    + intros p' di e Hp' Hq HL Hd He Hm. destruct (Forall2_elem_r _ _ _ _ HF Hp') as (p & Hp & (H1 & H2 & H3 & H4) & H5 & _).
      rewrite H1, H2, H5 in *. apply (A2 p di e Hp); congruence.
    + intros q di e Hn Hq. apply A3; [done|]. intros p Hp Hqp.
      destruct (Forall2_elem_l _ _ _ _ HF Hp) as (p' & Hp' & (H1 & _ & _ & H4) & _).
      rewrite <- H1. apply Hq; [done|congruence].
  - destruct W. constructor; cbn; try done.
    + intros pid pr Hp. destruct (wo_watch0 pid pr Hp) as (p & Hin & Hq & H1 & H2 & H3).
      destruct (Forall2_elem_l _ _ _ _ HF Hin) as (p' & Hp' & (K1 & K2 & K3 & K4) & _ & K5).
      exists p'. split_and!; [done|congruence| |congruence|congruence]. rewrite K5, decide_False; [done|].
      intros Hz. rewrite H1 in Hz. apply wo_zombies0 in Hz. congruence.
    + intros p' Hp'. destruct (Forall2_elem_r _ _ _ _ HF Hp') as (p & Hin & _ & _ & ->).
      case_decide as Hz; [done|]. intros Hnz. destruct (wo_pid0 p Hin Hnz) as [?|?]; [by left|done].
    + intros pid Hpid. by apply elem_of_nil in Hpid.
Qed.

Definition watched_world (d : dirinfo) (mask : Z) (w : world) : world :=
  {| dirs := dirs w;
     kwatches := kwatches w ++ [{| k_wd := next_wd w; k_ino := d_ino d; k_mask := mask |}];
     next_wd := next_wd w + 1; next_ino := next_ino w; inq := inq w; now := now w;
     timer_value := timer_value w |}.

(** watch_path either changes nothing or puts a new watch in front. *)
Lemma watch_path_cases dir name mask flags s r s' :
  flags ∈ kinds -> 0 <= next_wd (wld s) -> watch_path dir name mask flags s = Ret (r, s') ->
  s' = s \/ exists di p, dirs (wld s) !! (dir, name) = Some di
    /\ existsb (fun k => k_ino k =? d_ino di) (kwatches (wld s)) = false
    /\ wld s' = watched_world di mask (wld s)
    /\ watch_list (dm s') = p :: watch_list (dm s) /\ q_watchfd p = next_wd (wld s)
    /\ q_ino p = d_ino di /\ q_pid p = 0 /\ q_name p = name /\ is_queue p = has flags F_QUEUE_DIR
    /\ (is_queue p = true -> forallb (fun e => first_char_dot (d_name e)) (d_entries di) = false ->
        is_dirty p = true).
Proof.
  intros Hk Hw H. unfold watch_path, add_queue_dir, inotify_add_watch in H.
  destruct (dirs (wld s) !! (dir, name)) as [di|] eqn:Hd; cbn in H; [|left; by destruct s; simplify_eq].
  destruct (existsb _ _) eqn:Ex; cbn in H; [left; by destruct s; simplify_eq|].
  rewrite (proj2 (Z.ltb_ge _ 0)) in H by done. cbn in H. rewrite Hd in H.
  unfold empty_directory, xreaddir in H. cbn in H. rewrite Hd in H. cbn in H. right.
  assert (forall f (b : bool), is_queue {| q_flags := if b then set_flag f F_PAUSED else f; q_watchfd := next_wd (wld s);
            q_parentfd := 0; q_ino := d_ino di; q_pid := 0; q_name := name |} = has f F_QUEUE_DIR) as Hpq.
  { intros f []; [|done]. unfold is_queue. cbn. by apply has_set_other. }
  assert (has (set_flag flags F_DIRTY) F_QUEUE_DIR = has flags F_QUEUE_DIR) as Hdq by by apply has_set_other.
  destruct (has flags F_QUEUE_DIR) eqn:Hq; [destruct (forallb _ _) eqn:He|]; cbn in H;
    (destruct (has flags F_TIMER_DIR); [destruct (forallb _ (d_entries di)) eqn:He'|]); cbn in H;
    injection H as <- <-; do 2 eexists; (split; [reflexivity|]); (split; [done|]);
    (split; [reflexivity|]); (split; [reflexivity|]); cbn; split_and!; try done;
    unfold is_queue in *; cbn in *; rewrite ?Hpq; try congruence;
    try (intros _ _; unfold is_dirty; cbn;
         match goal with |- context [if ?b then _ else _] => destruct b end;
         rewrite ?(has_set_other _ F_PAUSED F_DIRTY) by done; by apply has_set_same).
Qed.

Lemma existsb_ino_false (l : list kwatch) ino k :
  existsb (fun k => k_ino k =? ino) l = false -> k ∈ l -> k_ino k <> ino.
Proof.
  intros H Hk He. assert (existsb (fun k => k_ino k =? ino) l = true) as Ht; [|congruence].
  apply existsb_exists. exists k. split; [by apply list_elem_of_In|]. by apply Z.eqb_eq.
Qed.

Lemma ok_watch_path dir name mask flags s r s' pend pipe ps zs :
  ok s pend pipe ps zs -> flags ∈ kinds ->
  (flags = F_QUEUE_DIR -> dir = Filter /\ mask = EV_QUEUE_MASK /\ name <> "."%string) ->
  watch_path dir name mask flags s = Ret (r, s') ->
  ok s' pend pipe ps zs /\ dirs (wld s') = dirs (wld s) /\ inq (wld s') = inq (wld s).
Proof.
  intros (C & A & W) Hk Hqf H. pose proof (watch_path_inv _ _ _ _ _ _ _ Hk (co_inv _ _ C) H) as Hinv.
  destruct (watch_path_cases _ _ _ _ _ _ _ Hk (co_next _ _ C) H)
    as [->|(di & p & Hd & Hex & Hw & Hl & P1 & P2 & P3 & P4 & P5 & P6)]; [done|].
  assert (is_queue p = true -> dir = Filter /\ mask = EV_QUEUE_MASK /\ name <> "."%string) as Hqp.
  { intros Hq. apply Hqf. rewrite P5 in Hq. clear -Hk Hq. unfold kinds in Hk.
    repeat (apply elem_of_cons in Hk as [->|Hk]; [done|]). by apply elem_of_nil in Hk. }
  assert (is_queue p = true -> forall p', p' ∈ watch_list (dm s) -> is_queue p' = true -> q_name p' <> name) as Hfresh.
  { intros Hq p' Hp' Hq' Hn. destruct (Hqp Hq) as (-> & -> & _).
    destruct (co_queue _ _ C p' Hp' Hq') as (_ & di' & Hd' & Hi' & Hk'). rewrite Hn in Hd'.
    rewrite Hd in Hd'. injection Hd' as <-. eapply existsb_ino_false; [exact Hex|exact Hk'|]. by cbn. }
  rewrite Hw. split; [|by split]. split_and!.
  - destruct C. constructor; rewrite ?Hl, ?Hw; cbn; try done.
    + constructor; [lia|]. eapply list.Forall_impl; [exact co_wd0|]. cbn. lia.
    + constructor; [|done]. rewrite P1. intros Hin.
      apply list_elem_of_fmap in Hin as (p' & He & Hp'). rewrite list.Forall_forall in co_wd0.
      specialize (co_wd0 _ Hp'). lia.
    + lia.
    + intros x Hx Hq. apply elem_of_cons in Hx as [->|Hx].
      * destruct (Hqp Hq) as (-> & -> & Hn). rewrite P4. split; [done|]. exists di. rewrite P1, P2.
        split_and!; [done|done|]. apply elem_of_app. right. by left.
      * destruct (co_queue0 x Hx Hq) as (Hn & d' & Hd' & Hi' & Hk'). split; [done|]. exists d'.
        split_and!; try done. apply elem_of_app. by left.
    + intros i j x y Hi Hj Hqx Hqy Hn. destruct i as [|i], j as [|j]; [done|..].
      * injection Hi as ->. exfalso. cbn in Hj. apply (Hfresh Hqx y); [by eapply list_elem_of_lookup_2|done|congruence].
      * injection Hj as ->. exfalso. cbn in Hi. apply (Hfresh Hqy x); [by eapply list_elem_of_lookup_2|done|congruence].
      * f_equal. by eapply co_names0.
  - destruct A as [A1 A2 A3]. constructor; rewrite ?Hl, ?Hw; cbn.
    + intros x d' e Hx Hq HL Hd' He Hm. apply elem_of_cons in Hx as [->|Hx]; [|by eapply A1].
      left. destruct (Hqp Hq) as (-> & _). rewrite P4, Hd in Hd'. injection Hd' as <-. apply P6; [done|].
      apply not_true_is_false. rewrite forallb_forall. intros Hall.
      specialize (Hall e (proj1 (list_elem_of_In _ _) He)). unfold movable in Hm. by rewrite Hall in Hm.
    + intros x d' e Hx Hq HL Hd' He Hm. apply elem_of_cons in Hx as [->|Hx]; [|by eapply A2].
      exfalso. destruct (Hqp Hq) as (_ & _ & Hn). rewrite P4 in Hd'.
      rewrite (A3 name d' e) in Hm; try done. by apply Hfresh.
    + intros q d' e Hn Hq. apply A3; [done|]. intros x Hx. apply Hq. by right.
  - destruct W. constructor; rewrite ?Hl, ?Hw; cbn; try done.
    + intros pid pr Hp. destruct (wo_watch0 pid pr Hp) as (x & Hx & Hrest). exists x. split; [by right|done].
    + intros x Hx Hnz. apply elem_of_cons in Hx as [->|Hx]; [done|]. by apply wo_pid0.
Qed.

Lemma subdir_name e : subdir e = true -> d_name e <> "."%string.
Proof.
  unfold subdir, is_dot_dir. intros H Hn. rewrite Hn in H.
  destruct (bool_decide (d_type e = DT_DIR)); cbn in H; done.
Qed.

Lemma ok_watch_subdirs dir mask flags ents : flags ∈ kinds ->
  (flags = F_QUEUE_DIR -> dir = Filter /\ mask = EV_QUEUE_MASK) -> forall s s' pend pipe ps zs,
  ok s pend pipe ps zs -> watch_subdirs dir mask flags ents s = Ret s' ->
  ok s' pend pipe ps zs /\ dirs (wld s') = dirs (wld s) /\ inq (wld s') = inq (wld s).
Proof.
  intros Hk Hq. induction ents as [|e ents IH]; intros s s' pend pipe ps zs Hok H; cbn in H; [by simplify_eq|].
  destruct (subdir e) eqn:Es; cbn in H; [|by apply IH].
  destruct (watch_path _ _ _ _ s) as [[r s1]| | |] eqn:E; cbn in H; try done. case_match; [done|].
  assert (flags = F_QUEUE_DIR -> dir = Filter /\ mask = EV_QUEUE_MASK /\ d_name e <> "."%string) as Hf.
  { intros Hf. destruct (Hq Hf). split_and!; try done. by apply subdir_name. }
  destruct (ok_watch_path _ _ _ _ _ _ _ _ _ _ _ Hok Hk Hf E) as (Hok1 & Hd1 & Hi1).
  destruct (IH _ _ _ _ _ _ Hok1 H) as (Hok2 & Hd2 & Hi2). split_and!; congruence || done.
Qed.

Lemma pause_mark_more b p :
  marked_more p (pause_mark b (with_flags (clear_flag (q_flags p) F_PAUSED) p)).
Proof.
  assert (has (clear_flag (q_flags p) F_PAUSED) F_QUEUE_DIR = has (q_flags p) F_QUEUE_DIR) as H1
    by by apply has_clear_other.
  assert (has (clear_flag (q_flags p) F_PAUSED) F_DIRTY = has (q_flags p) F_DIRTY) as H2
    by by apply has_clear_other.
  unfold pause_mark. cbn. case_match; (split; [split_and!; try done|split; [|done]]);
    unfold is_queue, is_dirty; cbn; rewrite ?has_set_other by done; congruence.
Qed.

Lemma ok_apply_pause s s' pend pipe ps zs : ok s pend pipe ps zs -> apply_pause s = Ret s' ->
  ok s' pend pipe ps zs /\ dirs (wld s') = dirs (wld s) /\ inq (wld s') = inq (wld s).
Proof.
  intros Hok H. assert (inv (dm s')) as Hi by (eapply apply_pause_inv; [apply Hok|exact H]).
  unfold apply_pause in H. destruct (xreaddir _ _) as [ents| | |]; cbn in H; try done.
  rewrite pause_loop_spec in H by done. injection H as <-. split; [|done].
  apply ok_list; [done| |done]. cbn. rewrite map_map. apply Forall2_map_r. intros p _. apply pause_mark_more.
Qed.

(** A change that touches neither directories nor watches. *)
Lemma sound_same s w' pend : consistent s pend ->
  dirs w' = dirs (wld s) -> kwatches w' = kwatches (wld s) -> next_wd w' = next_wd (wld s) ->
  sound_change (wld s) w' pend pend.
Proof.
  intros C Hd Hk Hn. constructor; rewrite ?Hd; try done; try apply C.
  - intros q di Hq. exists di. split_and!; try done. intros _ e He. by left.
  - intros q di _ Hq. left. by exists di.
Qed.

(** The watch an event is for, when it is not a queue. *)
Lemma ok_drop_other s ev pend pipe ps zs :
  ok s (ev :: pend) pipe ps zs ->
  (forall p, p ∈ watch_list (dm s) -> is_queue p = true -> q_watchfd p <> ev_wd ev) ->
  ok s pend pipe ps zs.
Proof.
  intros (C & A & W) Hno. split_and!; [by eapply consistent_drop| |done].
  eapply accounted_drop; [exact A|]. intros p Hp Hq Hw. exfalso. by eapply Hno.
Qed.

Lemma ok_inotify_event ev s s' pend pipe ps zs :
  ok s (ev :: pend) pipe ps zs -> process_inotify_event ev s = Ret s' ->
  ok s' pend pipe ps zs /\ dirs (wld s') = dirs (wld s) /\ inq (wld s') = inq (wld s).
Proof.
  intros Hok H. pose proof (proj1 Hok) as C. unfold process_inotify_event in H.
  destruct (find_watch _ _) as [i|] eqn:Ef.
  2:{ simplify_eq. split; [|done]. eapply ok_drop_other; [exact Hok|]. intros p Hp _ Hw.
      pose proof (find_watch_None _ _ _ Ef Hp) as Hn. cbn in Hn. unbool. done. }
  destruct (find_watch_Some _ _ _ Ef) as (p & Hp & Hw). cbn in Hw. unbool. rewrite Hp in H.
  pose proof (co_events _ _ C) as Hev. apply Forall_cons_1 in Hev as [Hev _]. rewrite Hev in H.
  pose proof (Forall_lookup_1 _ _ _ _ (proj1 (co_inv _ _ C)) Hp) as Hvalid. cbn in Hvalid.
  assert (is_queue p = false -> ok s pend pipe ps zs) as Hother.
  { intros Hnq. eapply ok_drop_other; [exact Hok|]. intros x Hx Hq Hwx.
    apply list_elem_of_lookup in Hx as [j Hj].
    assert (j = i) as -> by (eapply nodup_wd; [exact C|done|done|congruence]). congruence. }
  assert (forall f, has (q_flags p) f = true -> f ∈ [F_ROOT_DIR; F_TIMER_ROOT; F_PAUSE_DIR; F_TIMER_DIR] ->
            is_queue p = false) as Hkind.
  { intros f Hf Hin. unfold is_queue. clear -Hvalid Hf Hin. remember (q_flags p) as fl.
    repeat (apply elem_of_cons in Hin as [->|Hin]; [clear Heqfl; valid_cases Hvalid; subst fl; done|]).
    by apply elem_of_nil in Hin. }
  destruct (has (q_flags p) F_ROOT_DIR) eqn:E1.
  { assert (ok s pend pipe ps zs) as Hok1 by (apply Hother; eapply Hkind; [exact E1|set_solver]).
    case_match; [|by simplify_eq]. unfold watch_queues in H. destruct (xreaddir _ _); cbn in H; try done.
    eapply ok_watch_subdirs; [| |exact Hok1|exact H]; [set_solver|done]. }
  destruct (has (q_flags p) F_TIMER_ROOT) eqn:E2.
  { assert (ok s pend pipe ps zs) as Hok1 by (apply Hother; eapply Hkind; [exact E2|set_solver]).
    assert (forall s1, ok s1 pend pipe ps zs -> ok (on_daemon (set_timer_changed true) s1) pend pipe ps zs) as Ht.
    { intros s1 H1. apply ok_list; [done|apply more_refl|]. apply H1. }
    case_match; cbn in H; [|simplify_eq; split; [by apply Ht|done]].
    destruct (watch_timer_queues s) as [s1| | |] eqn:E; cbn in H; try done. simplify_eq.
    unfold watch_timer_queues in E. destruct (xreaddir _ _); cbn in E; try done.
    eapply ok_watch_subdirs in E as (Ho & Hd & Hi); [|set_solver|done|exact Hok1].
    split; [by apply Ht|done]. }
  destruct (has (q_flags p) F_PAUSE_DIR) eqn:E3.
  { eapply ok_apply_pause; [|exact H]. apply Hother. eapply Hkind; [exact E3|set_solver]. }
  destruct (has (q_flags p) F_TIMER_DIR) eqn:E4.
  { simplify_eq. split; [|done]. apply ok_list; [|apply more_refl|apply C].
    apply Hother. eapply Hkind; [exact E4|set_solver]. }
  simplify_eq. split; [|done].
  assert (is_queue p = true) as Hq by (by apply valid_queue).
  assert (ok (on_daemon (mark_queue_dirty i) s) (ev :: pend) pipe ps zs) as Hok'.
  { apply ok_list; [done|apply mark_more|]. by eapply mark_queue_dirty_inv; [apply C|..]. }
  destruct (mark_dirty i p (dm s) Hp) as (pi & Hpi & Hd).
  destruct Hok' as (C' & A' & W'). split_and!; [by eapply consistent_drop| |done].
  eapply accounted_drop; [exact A'|]. intros x Hx _ Hwx. apply list_elem_of_lookup in Hx as [j Hj].
  destruct (Forall2_lookup_r _ _ _ _ _ (mark_more i (dm s)) Hpi) as (p0 & Hp0 & (_ & E & _) & _).
  assert (j = i) as -> by (eapply nodup_wd; [exact C'|exact Hj|exact Hpi|congruence]).
  cbn in Hj. congruence.
Qed.

Lemma ok_inotify_events evs : forall s s' pipe ps zs,
  ok s (evs ++ inq (wld s)) pipe ps zs -> process_inotify_events evs s = Ret s' ->
  ok s' (inq (wld s')) pipe ps zs /\ inq (wld s') = inq (wld s).
Proof.
  induction evs as [|ev evs IH]; intros s s' pipe ps zs Hok H; cbn in H; [by simplify_eq|].
  destruct (process_inotify_event ev s) as [s1| | |] eqn:E; cbn in H; try done.
  destruct (ok_inotify_event _ _ _ _ _ _ _ Hok E) as (Hok1 & _ & Hi1). rewrite <- Hi1 in Hok1.
  destruct (IH _ _ _ _ _ Hok1 H) as (Hok2 & Hi2). split; [done|congruence].
Qed.

Lemma ok_fd_inotify s s' pipe ps zs :
  ok s (inq (wld s)) pipe ps zs -> fd_handler FD_INOTIFY s = Ret (0, s') -> ok s' (inq (wld s')) pipe ps zs.
Proof.
  intros Hok H. cbn in H. destruct (process_inotify_events _ _) as [s1| | |] eqn:E; cbn in H; try done.
  simplify_eq. eapply ok_inotify_events; [|exact E]. cbn. rewrite app_nil_r.
  eapply (ok_change s); [exact Hok|]. apply sound_same; try done. apply Hok.
Qed.

(** ** Starting workers *)

Section Start.
Context (fork : Z -> Z).

Definition start_rel (lo hi : Z) (p p' : watch) : Prop :=
  (runnable p = false /\ p' = p)
  \/ (runnable p = true /\ exists k, lo < k <= hi
      /\ p' = with_pid (spawn_worker fork k) (with_flags (clear_flag (q_flags p) F_DIRTY) p)).

Lemma start_workers_spec l : forall dirty n l' dirty' n',
  start_workers fork l dirty n = Ret (l', dirty', n') -> n <= n' /\ Forall2 (start_rel n n') l l'.
Proof.
  induction l as [|p l IH]; intros dirty n l' dirty' n' H; cbn in H; [by simplify_eq|].
  destruct (runnable p) eqn:Er; cbn in H.
  - case_match; [done|].
    destruct (start_workers fork l (dirty - 1) (n + 1)) as [[[l1 d1] n1]| | |] eqn:E; cbn in H; try done.
    simplify_eq. destruct (IH _ _ _ _ _ E) as [Hle HF]. split; [lia|]. constructor.
    + right. split; [done|]. exists (n + 1). split; [lia|done].
    + eapply Forall2_impl; [|exact HF]. intros x y [?|(? & k & ? & ?)]; [by left|right].
      split; [done|]. exists k. split; [lia|done].
  - destruct (start_workers fork l dirty n) as [[[l1 d1] n1]| | |] eqn:E; cbn in H; try done.
    simplify_eq. destruct (IH _ _ _ _ _ E) as [Hle HF]. split; [done|]. constructor; [by left|done].
Qed.

Definition new_proc (p : watch) : proc := {| pr_queue := q_name p; pr_wd := q_watchfd p; pr_phase := PStart |}.

Context (m : gmap Z proc) (zs : list Z) (n0 : Z).
Context (Hfork : forall k, n0 < k -> fork k < 0 \/ 0 < fork k /\ m !! fork k = None /\ fork k ∉ zs).
Context (Hinj : forall j k, 0 < fork k -> fork j = fork k -> j = k).

(** The pid of a session, 0 when fork has failed. *)
Lemma spawned_pid k : n0 < k -> spawn_worker fork k <> 0 ->
  spawn_worker fork k = fork k /\ 0 < fork k /\ m !! fork k = None /\ fork k ∉ zs.
Proof using Hfork.
  intros Hk. unfold spawn_worker. destruct (Hfork k Hk) as [H|H]; [by rewrite (proj2 (Z.ltb_lt _ _))|].
  rewrite (proj2 (Z.ltb_ge _ _)) by lia. done.
Qed.

Lemma started_spec l : forall dirty n l' dirty' n', n0 <= n ->
  start_workers fork l dirty n = Ret (l', dirty', n') ->
  (forall pid pr, m !! pid = Some pr -> started l l' m !! pid = Some pr)
  /\ (forall i p p', l !! i = Some p -> l' !! i = Some p' -> runnable p = true -> q_pid p' <> 0 ->
       started l l' m !! q_pid p' = Some (new_proc p))
  /\ (forall pid pr, started l l' m !! pid = Some pr -> m !! pid = Some pr
       \/ exists i p p' k, l !! i = Some p /\ l' !! i = Some p' /\ runnable p = true /\ pid = q_pid p'
          /\ pid = fork k /\ 0 < fork k /\ n < k /\ pr = new_proc p).
Proof using Hfork Hinj.
  induction l as [|p l IH]; intros dirty n l' dirty' n' Hn H; cbn in H.
  { simplify_eq. cbn. split_and!; [done|done|by left]. }
  destruct (runnable p) eqn:Er; cbn in H.
  - case_match; [done|].
    destruct (start_workers fork l (dirty - 1) (n + 1)) as [[[l1 d1] n1]| | |] eqn:E; cbn in H; try done.
    simplify_eq. destruct (IH (dirty - 1) (n + 1) _ _ _ ltac:(lia) E) as (I1 & I2 & I3). cbn [started]. rewrite Er.
    cbn [with_pid q_pid andb]. destruct (Z.eqb_spec (spawn_worker fork (n + 1)) 0) as [Hz|Hz]; cbn [negb].
    { split_and!; [done| |].
      - intros [|i] x x' Hi Hi' Hr Hnz; [|by eapply I2]. injection Hi as <-. injection Hi' as <-. by cbn in Hnz.
      - intros pid pr Hp. destruct (I3 _ _ Hp) as [?|(j & y & y' & k & ?)]; [by left|]. right. exists (S j), y, y', k.
        naive_solver lia. }
    destruct (spawned_pid (n + 1) ltac:(lia) Hz) as (Hs & Hpos & Hnone & _). rewrite Hs. fold (new_proc p). split_and!.
    + intros pid pr Hp. rewrite lookup_insert_ne; [by apply I1|]. intros <-. congruence.
    + intros i x x' Hi Hi' Hr Hnz. destruct i as [|i].
      * injection Hi as <-. injection Hi' as <-. cbn [with_pid q_pid]. rewrite ?Hs. apply lookup_insert_eq.
      * cbn in Hi, Hi'. pose proof (I2 i x x' Hi Hi' Hr Hnz) as Hlk.
        rewrite lookup_insert_ne; [done|]. intros Heq. rewrite <- Heq in Hlk.
        destruct (I3 _ _ Hlk) as [Hm|(j & y & y' & k & _ & _ & _ & _ & Hk & Hkp & Hlt & _)]; [congruence|].
        apply Hinj in Hk; lia.
    + intros pid pr Hp. apply lookup_insert_Some in Hp as [[<- <-]|[Hne Hp]].
      * right. exists O. do 3 eexists. split_and!; [done|done|done|by cbn|done|done|lia|done].
      * destruct (I3 _ _ Hp) as [?|(j & y & y' & k & ?)]; [by left|]. right. exists (S j), y, y', k.
        naive_solver lia.
  - destruct (start_workers fork l dirty n) as [[[l1 d1] n1]| | |] eqn:E; cbn in H; try done.
    simplify_eq. destruct (IH _ _ _ _ _ Hn E) as (I1 & I2 & I3). cbn [started]. rewrite Er. cbn [andb]. split_and!.
    + done.
    + intros i x x' Hi Hi' Hr. destruct i as [|i]; [simplify_eq/=; congruence|]. by eapply I2.
    + intros pid pr Hp. destruct (I3 _ _ Hp) as [?|(j & y & y' & k & ?)]; [by left|]. right.
      exists (S j), y, y', k. done.
Qed.

End Start.

Lemma start_rel_same fork lo hi p p' : start_rel fork lo hi p p' -> same_watch p p'.
Proof.
  intros [[_ ->]|(_ & k & _ & ->)]; [done|]. split_and!; try done. unfold is_queue. cbn.
  by apply has_clear_other.
Qed.

Lemma runnable_pid p : runnable p = true -> q_pid p = 0.
Proof.
  unfold runnable. intros H. apply andb_prop in H as [H _]. apply andb_prop in H as [_ H]. unbool. done.
Qed.

(** ** A worker takes a step *)

(** What one phase does to the world: it only takes entries from its own queue and
    only touches the handler's directory of its own queue. *)
Record worker_change (q : string) (w w' : world) (pend pend' : list inotify_event) : Prop := {
  wc_kwatches : kwatches w' = kwatches w;
  wc_next : next_wd w' = next_wd w;
  wc_pend : forall e, e ∈ pend -> e ∈ pend';
  wc_mask : Forall (fun e => has (ev_mask e) IN_DELETE_SELF = false) pend';
  wc_filter q' di : dirs w !! (Filter, q') = Some di ->
    exists di', dirs w' !! (Filter, q') = Some di' /\ d_ino di' = d_ino di
      /\ (forall e, e ∈ d_entries di' -> e ∈ d_entries di) /\ (q' <> q -> di' = di);
  wc_nodup q' di : q' <> "."%string -> dirs w' !! (Filter, q') = Some di -> NoDup (names di);
  wc_uevent q' : q' <> q -> q' <> "."%string -> dirs w' !! (Uevent, q') = dirs w !! (Uevent, q');
  wc_root : is_Some (dirs w' !! (Uevent, "."%string));
}.

Section WorkerUpdate.
Context (s : sys) (pend pend' : list inotify_event) (pipe pipe' : list Z) (ps : gmap Z proc) (zs : list Z).
Context (pid : Z) (pr : proc) (w' : world) (ph' : phase).

Definition procs_after : gmap Z proc :=
  match ph' with
  | PExit => delete pid ps
  | _ => <[pid := {| pr_queue := pr_queue pr; pr_wd := pr_wd pr; pr_phase := ph' |}]> ps
  end.
Definition zombies_after : list Z := match ph' with PExit => zs ++ [pid] | _ => zs end.

Lemma after_other i : i <> pid -> procs_after !! i = ps !! i.
Proof.
  intros Hne. unfold procs_after. destruct ph';
    rewrite ?lookup_insert_ne, ?lookup_delete_ne by congruence; done.
Qed.

Lemma after_self : ph' <> PExit ->
  procs_after !! pid = Some {| pr_queue := pr_queue pr; pr_wd := pr_wd pr; pr_phase := ph' |}.
Proof. intros Hne. unfold procs_after. destruct ph'; try done; apply lookup_insert_eq. Qed.

Lemma after_exit : ph' = PExit -> procs_after !! pid = None.
Proof. intros Hx. unfold procs_after. rewrite Hx. apply lookup_delete_eq. Qed.

Context (Hok : ok s pend pipe ps zs) (Hpr : ps !! pid = Some pr).
Context (Hw : worker_change (pr_queue pr) (wld s) w' pend pend').
Context (Hpipe : forall v, v ∈ pipe -> v ∈ pipe').
Context (Hsrc : pr_queue pr ∉ Lo -> forall di e, dirs w' !! (Filter, pr_queue pr) = Some di -> e ∈ d_entries di ->
           movable e = true -> takes (pr_phase pr) e -> takes ph' e).
Context (Htodo : pr_queue pr ∉ Ra -> forall todo, ph' = PMove todo -> NoDup (map d_name todo) /\ forall e, e ∈ todo ->
           movable e = true -> exists di, dirs w' !! (Filter, pr_queue pr) = Some di /\ d_name e ∈ names di).
Context (Hdst : ph' <> PStart -> ph' <> PExit -> is_Some (dirs w' !! (Uevent, pr_queue pr))).
Context (Hexit : pr_queue pr ∉ Lo -> ph' = PExit -> pr_wd pr ∈ pipe'
           \/ forall di e, dirs w' !! (Uevent, pr_queue pr) = Some di -> e ∈ d_entries di -> movable e = false).

(** A queue has at most one worker. *)
Lemma one_worker i r : ps !! i = Some r -> pr_queue r = pr_queue pr -> i = pid.
Proof.
  destruct Hok as (C & _ & W). intros Hr Hq.
  destruct (wo_watch _ _ _ W _ _ Hr) as (p1 & Hp1 & Hq1 & Hpid1 & Hn1 & _).
  destruct (wo_watch _ _ _ W _ _ Hpr) as (p2 & Hp2 & Hq2 & Hpid2 & Hn2 & _).
  apply list_elem_of_lookup in Hp1 as [j Hj]. apply list_elem_of_lookup in Hp2 as [k Hk].
  assert (j = k) as -> by (eapply (co_names _ _ C); [exact Hj|exact Hk|done|done|congruence]). congruence.
Qed.

(** The watch of the worker. *)
Lemma worker_watch : exists pw, pw ∈ watch_list (dm s) /\ is_queue pw = true /\ q_pid pw = pid /\ q_name pw = pr_queue pr /\
  q_watchfd pw = pr_wd pr.
Proof.
  destruct Hok as (_ & _ & W). destruct (wo_watch _ _ _ W _ _ Hpr) as (pw & Hpw & Hq & Hpid & Hn & Hwd). by exists pw.
Qed.

Lemma worker_consistent : consistent {| dm := dm s; wld := w' |} pend'.
Proof.
  pose proof Hok as (C & _ & _).
  destruct C. constructor; cbn; rewrite ?(wc_next _ _ _ _ _ Hw), ?(wc_kwatches _ _ _ _ _ Hw); try done.
  + intros p Hp Hq. destruct (co_queue0 p Hp Hq) as (Hn & di & Hd & Hi & Hk). split; [done|].
    destruct (wc_filter _ _ _ _ _ Hw _ _ Hd) as (di' & Hd' & Hi' & _). exists di'. by rewrite Hi'.
  + apply (wc_root _ _ _ _ _ Hw).
  + apply (wc_nodup _ _ _ _ _ Hw).
  + apply (wc_mask _ _ _ _ _ Hw).
Qed.

Lemma worker_accounted : accounted {| dm := dm s; wld := w' |} pend' pipe' procs_after.
Proof.
  pose proof Hok as (C & [A1 A2 A3] & W). destruct worker_watch as (pw & Hpw & Hpwq & Hpwpid & Hpwn & Hpwwd).
  assert (forall p di, p ∈ watch_list (dm s) -> is_queue p = true ->
            dirs w' !! (Filter, q_name p) = Some di ->
            exists di0, dirs (wld s) !! (Filter, q_name p) = Some di0 /\ d_ino di = d_ino di0
              /\ (forall e, e ∈ d_entries di -> e ∈ d_entries di0)) as Hflt.
  { intros p di Hp Hq Hd. destruct (co_queue _ _ C p Hp Hq) as (_ & di0 & Hd0 & _).
    destruct (wc_filter _ _ _ _ _ Hw _ _ Hd0) as (di' & Hd' & Hi & He & _). exists di0.
    rewrite Hd in Hd'. by injection Hd' as <-. }
  constructor; cbn.
  + intros p di e Hp Hq HL Hd He Hm. destruct (Hflt p di Hp Hq Hd) as (di0 & Hd0 & _ & Hsub).
    destruct (A1 p di0 e Hp Hq HL Hd0 (Hsub e He) Hm) as [?|[(ev & Hev & Hwd)|(i & ph & Hi & Ht)]]; [by left|..].
    * right; left. exists ev. split; [by apply (wc_pend _ _ _ _ _ Hw)|done].
    * right; right. destruct (decide (i = pid)) as [->|Hne].
      -- rewrite Hpr in Hi. injection Hi as Hi.
         assert (takes ph' e) as Ht'.
         { apply (Hsrc ltac:(by rewrite Hi) di); try done; rewrite Hi; done. }
         exists pid, ph'. split; [|done]. rewrite after_self; [by rewrite Hi|].
         intros Hx. by rewrite Hx in Ht'.
      -- exists i, ph. by rewrite after_other.
  + intros p di e Hp Hq HL Hd He Hm. destruct (co_queue _ _ C p Hp Hq) as (Hn & _).
    destruct (decide (q_name p = pr_queue pr)) as [Heq|Hne].
    * assert (p = pw) as ->.
      { apply list_elem_of_lookup in Hp as [j Hj]. apply list_elem_of_lookup in Hpw as [k Hk].
        assert (j = k) as -> by (eapply (co_names _ _ C); [exact Hj|exact Hk|done|done|congruence]). congruence. }
      destruct (decide (ph' = PExit)) as [Hx|Hx].
      -- destruct (Hexit ltac:(by rewrite <- Heq) Hx) as [Hin|Hnone]; [right; left; by rewrite Hpwwd|].
         rewrite Heq in Hd. rewrite (Hnone di e Hd He) in Hm. done.
      -- right; right. exists pid, ph'. rewrite after_self by done. by rewrite Hpwn, Hpwwd.
    * rewrite (wc_uevent _ _ _ _ _ Hw) in Hd by done.
      destruct (A2 p di e Hp Hq HL Hd He Hm) as [?|[?|(i & ph & Hi)]]; [by left|right; left; by apply Hpipe|].
      right; right. exists i, ph. rewrite after_other; [done|]. intros ->. rewrite Hpr in Hi.
      injection Hi as Hi. apply Hne. by rewrite Hi.
  + intros q di e Hn Hq Hd. assert (q <> pr_queue pr) as Hne by (rewrite <- Hpwn; intros ->; by apply (Hq pw)).
    rewrite (wc_uevent _ _ _ _ _ Hw) in Hd by done. by eapply A3.
Qed.

Lemma worker_workers : workers_ok {| dm := dm s; wld := w' |} procs_after zombies_after.
Proof.
  pose proof one_worker as Hone. pose proof Hok as (C & _ & W). destruct worker_watch as (pw & Hpw & Hpwq & Hpwpid & Hpwn & Hpwwd).
  destruct W. constructor; cbn.
  + intros i r Hr. destruct (decide (i = pid)) as [->|Hne]; [|rewrite after_other in Hr by done; by apply wo_watch0].
    exists pw. destruct (decide (ph' = PExit)) as [Hx|Hx]; [by rewrite after_exit in Hr|].
    rewrite after_self in Hr by done. injection Hr as <-. done.
  + intros i r Hr. destruct (decide (i = pid)) as [->|Hne]; [|rewrite after_other in Hr by done; by eapply wo_nonzero0].
    destruct (decide (ph' = PExit)) as [Hx|Hx]; [by rewrite after_exit in Hr|].
    rewrite after_self in Hr by done. injection Hr as <-. split; [by eapply wo_nonzero0|done].
  + intros i r todo Hr Ht HR. destruct (decide (i = pid)) as [->|Hne].
    * destruct (decide (ph' = PExit)) as [Hx|Hx]; [by rewrite after_exit in Hr|].
      rewrite after_self in Hr by done. injection Hr as <-. by apply Htodo.
    * rewrite after_other in Hr by done. destruct (wo_todo0 i r todo Hr Ht HR) as [Hnd Hall]. split; [done|].
      intros e He Hm. destruct (Hall e He Hm) as (di & Hd & Hnm).
      destruct (wc_filter _ _ _ _ _ Hw _ _ Hd) as (di' & Hd' & _ & _ & Hsame). exists di'. split; [done|].
      rewrite Hsame; [done|]. intros Heq. by apply Hne, (Hone i r).
  + intros i r Hr Hph. destruct (decide (i = pid)) as [->|Hne].
    * destruct (decide (ph' = PExit)) as [Hx|Hx]; [by rewrite after_exit in Hr|].
      rewrite after_self in Hr by done. injection Hr as <-. by apply Hdst.
    * rewrite after_other in Hr by done. destruct (wo_watch0 i r Hr) as (p & Hp & Hq & _ & Hn & _).
      destruct (co_queue _ _ C p Hp Hq) as (Hnd & _). rewrite Hn in Hnd.
      rewrite (wc_uevent _ _ _ _ _ Hw); [by eapply wo_dst0|intros Heq; by apply Hne, (Hone i r)|done].
  + intros p Hp Hnz. destruct (wo_pid0 p Hp Hnz) as [[r Hr]|Hz].
    * destruct (decide (q_pid p = pid)) as [Heq|Hne]; [|left; exists r; by rewrite after_other].
      rewrite Heq. destruct (decide (ph' = PExit)) as [Hx|Hx].
      -- right. unfold zombies_after. rewrite Hx. apply elem_of_app. right. by left.
      -- left. rewrite after_self by done. by eexists.
    * right. unfold zombies_after. destruct ph'; try done. apply elem_of_app. by left.
  + intros i Hz. destruct (decide (ph' = PExit)) as [Hx|Hx].
    * unfold zombies_after in Hz. rewrite Hx in Hz. apply elem_of_app in Hz as [Hz|Hz].
      -- destruct (decide (i = pid)) as [->|Hne]; [by apply after_exit|]. rewrite after_other by done. by apply wo_zombies0.
      -- apply list_elem_of_singleton in Hz as ->. by apply after_exit.
    * assert (i ∈ zs) as Hz' by (unfold zombies_after in Hz; by destruct ph').
      rewrite after_other; [by apply wo_zombies0|]. intros ->. rewrite wo_zombies0 in Hpr by done. done.
Qed.

Lemma ok_worker : ok {| dm := dm s; wld := w' |} pend' pipe' procs_after zombies_after.
Proof. split_and!; [apply worker_consistent|apply worker_accounted|apply worker_workers]. Qed.

End WorkerUpdate.

(** ** Directories *)

Lemma elem_remove_entry e nm d : e ∈ d_entries (remove_entry nm d) <-> e ∈ d_entries d /\ d_name e <> nm.
Proof.
  unfold remove_entry. cbn. rewrite !list_elem_of_In, filter_In. rewrite negb_true_iff, bool_decide_eq_false. done.
Qed.

Lemma nodup_remove_entry nm d : NoDup (names d) -> NoDup (names (remove_entry nm d)).
Proof.
  unfold names, remove_entry. cbn. induction (d_entries d) as [|e l IH]; intros H; cbn in *; [done|].
  apply list.NoDup_cons in H as [H1 H2]. case_match; cbn; [|by apply IH]. apply list.NoDup_cons. split; [|by apply IH].
  intros Hin. apply H1. apply list_elem_of_fmap in Hin as (x & Hx & Hin). apply list_elem_of_fmap.
  exists x. split; [done|]. apply list_elem_of_In in Hin. apply filter_In in Hin as [Hin _].
  by apply list_elem_of_In.
Qed.

Lemma elem_names e d : e ∈ d_entries d -> d_name e ∈ names d.
Proof. intros H. apply list_elem_of_fmap. by exists e. Qed.

Lemma names_elem n d : n ∈ names d -> exists e, e ∈ d_entries d /\ d_name e = n.
Proof. intros H. apply list_elem_of_fmap in H as (e & -> & He). by exists e. Qed.

Lemma names_remove_entry x nm d : x ∈ names d -> x <> nm -> x ∈ names (remove_entry nm d).
Proof.
  intros Hx Hne. apply names_elem in Hx as (e & He & <-). apply elem_names, elem_remove_entry. done.
Qed.

Lemma find_entry nm d : nm ∈ names d ->
  exists e, List.find (fun e => bool_decide (d_name e = nm)) (d_entries d) = Some e.
Proof.
  intros H. apply names_elem in H as (x & Hx & Hn).
  destruct (List.find _ _) as [e|] eqn:E; [by eexists|]. exfalso.
  pose proof (find_none _ _ E x (proj1 (list_elem_of_In _ _) Hx)) as Hf. cbn in Hf.
  apply bool_decide_eq_false in Hf. done.
Qed.

Lemma elem_add_entry x e d : x ∈ d_entries (add_entry e d) -> x = e \/ x ∈ d_entries d.
Proof.
  unfold add_entry. cbn. rewrite elem_of_app, list_elem_of_singleton. intros [H|H]; [right|by left].
  change (x ∈ d_entries (remove_entry (d_name e) d)) in H. by apply elem_remove_entry in H as [? _].
Qed.

Lemma names_add_entry x e d : x ∈ names d -> x ∈ names (add_entry e d).
Proof.
  intros H. destruct (decide (x = d_name e)) as [->|Hne].
  - apply elem_names. unfold add_entry. cbn. apply elem_of_app. right. by left.
  - apply (names_remove_entry _ (d_name e)) in H; [|done]. unfold names, add_entry in *. cbn in *.
    rewrite map_app. apply elem_of_app. by left.
Qed.

Lemma nodup_add_entry e d : NoDup (names d) -> NoDup (names (add_entry e d)).
Proof.
  intros H. unfold names, add_entry. cbn. rewrite map_app. apply list.NoDup_app. split_and!.
  - by apply (nodup_remove_entry (d_name e)) in H.
  - cbn. intros x Hx Hin. apply list_elem_of_singleton in Hin as ->.
    apply list_elem_of_fmap in Hx as (y & Hy & Hin).
    change (y ∈ d_entries (remove_entry (d_name e) d)) in Hin. apply elem_remove_entry in Hin as [_ Hne]. congruence.
  - cbn. apply list.NoDup_singleton.
Qed.

(** ** Events *)

Lemma notify_dirs ino mask nm w : dirs (notify ino mask nm w) = dirs w.
Proof. done. Qed.

Lemma notify_pend ino mask nm w e : e ∈ inq w -> e ∈ inq (notify ino mask nm w).
Proof. intros H. cbn. apply elem_of_app. by left. Qed.

Lemma notify_mask ino mask nm w :
  has mask IN_DELETE_SELF = false -> Forall (fun e => has (ev_mask e) IN_DELETE_SELF = false) (inq w) ->
  Forall (fun e => has (ev_mask e) IN_DELETE_SELF = false) (inq (notify ino mask nm w)).
Proof.
  intros Hm HF. cbn. apply Forall_app. split; [done|]. apply list.Forall_forall. intros e He.
  apply list_elem_of_fmap in He as (k & -> & _). done.
Qed.

Lemma notify_watch ino mask nm w k : k ∈ kwatches w -> k_ino k = ino -> has (k_mask k) mask = true ->
  exists ev, ev ∈ inq (notify ino mask nm w) /\ ev_wd ev = k_wd k.
Proof.
  intros Hk Hi Hm. exists {| ev_wd := k_wd k; ev_mask := mask; ev_name := nm |}. split; [|done].
  cbn. apply elem_of_app. right. apply list_elem_of_fmap. exists k. split; [done|].
  apply list_elem_of_In, filter_In. split; [by apply list_elem_of_In|]. by rewrite Hi, Z.eqb_refl, Hm.
Qed.

(** ** The phases *)

Lemma wc_same s q pend : consistent s pend -> worker_change q (wld s) (wld s) pend pend.
Proof.
  intros C. constructor; try done; try apply C. intros q' di Hd. exists di. done.
Qed.

Lemma wc_mkdir s q root : consistent s (inq (wld s)) -> q <> "."%string ->
  dirs (wld s) !! (Uevent, q) = None -> dirs (wld s) !! (Uevent, "."%string) = Some root ->
  let w' := wld (mkdir Uevent q {| dm := daemon0 0; wld := wld s |}) in
  worker_change q (wld s) w' (inq (wld s)) (inq w') /\ is_Some (dirs w' !! (Uevent, q)).
Proof.
  intros C Hn Hq Hr w'. unfold w', mkdir. cbn [wld dm]. rewrite Hq, Hr. cbn [wld]. split.
  - constructor; try done.
    + intros e He. by apply notify_pend.
    + apply notify_mask; [done|apply C].
    + intros q' di Hd. exists di. rewrite notify_dirs. cbn [dirs].
      rewrite !lookup_insert_ne by congruence. done.
    + intros q' di. rewrite notify_dirs. cbn [dirs]. rewrite !lookup_insert_ne by congruence. apply C.
    + intros q' Hne Hnd. rewrite notify_dirs. cbn [dirs]. rewrite !lookup_insert_ne by congruence. done.
    + rewrite notify_dirs. cbn [dirs]. rewrite lookup_insert_eq. by eexists.
  - rewrite notify_dirs. cbn [dirs]. rewrite lookup_insert_ne by congruence. rewrite lookup_insert_eq. by eexists.
Qed.

Lemma wc_rename s q nm a b : consistent s (inq (wld s)) -> q <> "."%string ->
  dirs (wld s) !! (Filter, q) = Some a -> dirs (wld s) !! (Uevent, q) = Some b -> nm ∈ names a ->
  exists w', rename (Filter, q) nm (Uevent, q) nm (wld s) = Some w'
    /\ worker_change q (wld s) w' (inq (wld s)) (inq w')
    /\ dirs w' !! (Filter, q) = Some (remove_entry nm a) /\ is_Some (dirs w' !! (Uevent, q)).
Proof.
  intros C Hn Ha Hb Hnm. unfold rename. rewrite Ha, Hb. destruct (find_entry nm a Hnm) as [e ->].
  eexists. split; [done|]. rewrite notify_dirs. unfold set_dirs. cbn [dirs].
  rewrite lookup_insert_ne by congruence. rewrite !lookup_insert_eq. split; [|split; [done|by eexists]].
  constructor; try done.
  - intros ev Hev. by apply notify_pend.
  - apply notify_mask; [done|apply C].
  - intros q' di Hd. rewrite notify_dirs. cbn [dirs]. rewrite lookup_insert_ne by congruence.
    destruct (decide (q' = q)) as [->|Hne].
    + rewrite lookup_insert_eq. rewrite Ha in Hd. injection Hd as <-. eexists. split; [done|]. split; [done|].
      split; [|done]. intros x Hx. by apply elem_remove_entry in Hx as [? _].
    + rewrite lookup_insert_ne by congruence. by exists di.
  - intros q' di. rewrite notify_dirs. cbn [dirs]. rewrite lookup_insert_ne by congruence.
    destruct (decide (q' = q)) as [->|Hne].
    + rewrite lookup_insert_eq. intros _ H. injection H as <-. apply nodup_remove_entry. by apply (co_dirs _ _ C q a).
    + rewrite lookup_insert_ne by congruence. apply C.
  - intros q' Hne Hnd. rewrite notify_dirs. cbn [dirs]. rewrite !lookup_insert_ne by congruence. done.
  - rewrite notify_dirs. cbn [dirs]. rewrite !lookup_insert_ne by congruence. apply C.
Qed.

Lemma wc_handler s h q : consistent s (inq (wld s)) -> q <> "."%string ->
  is_Some (dirs (wld s) !! (Uevent, q)) ->
  worker_change q (wld s) (event_handler h q (wld s)) (inq (wld s)) (inq (event_handler h q (wld s)))
  /\ is_Some (dirs (event_handler h q (wld s)) !! (Uevent, q)).
Proof.
  intros C Hn [d Hd]. unfold event_handler. rewrite Hd. unfold set_dirs. cbn [dirs inq]. split.
  - constructor; try done; cbn [dirs].
    + apply C.
    + intros q' di Hf. exists di. rewrite lookup_insert_ne by congruence. done.
    + intros q' di. rewrite lookup_insert_ne by congruence. apply C.
    + intros q' Hne _. by rewrite lookup_insert_ne by congruence.
    + rewrite lookup_insert_ne by congruence. apply C.
  - cbn [dirs]. rewrite lookup_insert_eq. by eexists.
Qed.

Lemma empty_no_movable p w b di e : empty_directory p w = Ret b -> b = true ->
  dirs w !! p = Some di -> e ∈ d_entries di -> movable e = false.
Proof.
  unfold empty_directory, xreaddir. intros H Hb Hd He. rewrite Hd in H. cbn in H. injection H as H.
  rewrite <- H in Hb. rewrite forallb_forall in Hb. unfold movable.
  by rewrite (Hb e (proj1 (list_elem_of_In _ _) He)).
Qed.

Lemma empty_directory_some p w : is_Some (dirs w !! p) -> exists b, empty_directory p w = Ret b.
Proof. intros [d Hd]. unfold empty_directory, xreaddir. rewrite Hd. by eexists. Qed.

(** *** A step of a worker

    A worker takes its next step and the step keeps everything accounted for, or an
    event that it was going to take has been removed. *)

Lemma find_no_entry nm d : nm ∉ names d -> List.find (fun e => bool_decide (d_name e = nm)) (d_entries d) = None.
Proof.
  intros H. destruct (List.find _ _) as [e|] eqn:E; [|done]. apply find_some in E as [He Hn]. apply bool_decide_eq_true in Hn.
  destruct H. rewrite <- Hn. apply elem_names. by apply list_elem_of_In.
Qed.

Section WorkerStep.
Context (h : list dirent -> list dirent) (s : sys) (pipe : list Z) (ps : gmap Z proc) (zs : list Z) (pid : Z) (pr : proc).
Context (Hok : ok s (inq (wld s)) pipe ps zs) (Hpr : ps !! pid = Some pr).

Definition steps_on : Prop :=
  match worker_step h true (pr_queue pr) (pr_wd pr) (pr_phase pr) (wld s) pipe with
  | Ret (ph, w, pipe') => ok {| dm := dm s; wld := w |} (inq w) pipe' (procs_after ps pid pr ph) (zombies_after zs pid ph)
  | Die _ _ => pr_queue pr ∈ Ra
  | _ => False
  end.

Lemma queue_dir : pr_queue pr <> "."%string /\ exists src, dirs (wld s) !! (Filter, pr_queue pr) = Some src.
Proof.
  pose proof Hok as (C & A & W). destruct (wo_watch _ _ _ W _ _ Hpr) as (pw & Hpw & Hpwq & _ & Hpwn & _).
  destruct (co_queue _ _ C pw Hpw Hpwq) as (Hndot & src & Hsrc & _). rewrite Hpwn in Hndot, Hsrc. eauto.
Qed.

Lemma step_start : pr_phase pr = PStart -> steps_on.
Proof.
  intros Hph. unfold steps_on. rewrite Hph. cbn [worker_step].
  pose proof Hok as (C & A & W). destruct queue_dir as (Hndot & src & Hsrc).
  pose proof (wo_dst _ _ _ W _ _ Hpr) as Hdst. rewrite Hph in Hdst.
  unfold open_dirs. rewrite Hsrc. destruct (dirs (wld s) !! (Uevent, pr_queue pr)) as [dst|] eqn:Hd.
  + rewrite Hd. cbn [obind].
    eapply (ok_worker s (inq (wld s))); try done; [by apply wc_same|..].
    * intros _ di e Hdi He Hm Ht. rewrite Hsrc in Hdi. by injection Hdi as <-.
    * intros _ todo Heq. injection Heq as <-. split; [by apply (co_dirs _ _ C (pr_queue pr) src)|].
      intros e He _. exists src. split; [done|]. by apply elem_names.
  + destruct (co_uevent _ _ C) as [root Hr].
    destruct (wc_mkdir s (pr_queue pr) root C Hndot Hd Hr) as [Hwc Hs].
    set (w1 := wld (mkdir _ _ _)) in *. destruct Hs as [x Hx]. rewrite Hx. cbn [obind].
    assert (dirs w1 !! (Filter, pr_queue pr) = Some src) as Hsame.
    { unfold w1, mkdir. cbn [wld dm]. rewrite Hd, Hr. cbn [wld]. rewrite notify_dirs. cbn [dirs].
      by rewrite !lookup_insert_ne by congruence. }
    eapply (ok_worker s (inq (wld s))); try done.
    * intros _ di e Hdi He Hm Ht. rewrite Hsame in Hdi. by injection Hdi as <-.
    * intros _ todo Heq. injection Heq as <-. split; [by apply (co_dirs _ _ C (pr_queue pr) src)|].
      intros e He _. exists src. split; [done|]. by apply elem_names.
Qed.

(** The two phases that look whether the directory is empty. *)
Lemma step_check todo : pr_phase pr = todo -> todo = PMove [] \/ todo = PCheck -> steps_on.
Proof.
  intros Hph Ht0. unfold steps_on. rewrite Hph.
  pose proof Hok as (C & A & W). destruct queue_dir as (Hndot & src & Hsrc).
  pose proof (wo_dst _ _ _ W _ _ Hpr) as Hdst. rewrite Hph in Hdst.
  destruct (empty_directory_some (Uevent, pr_queue pr) (wld s)) as [b Hb]; [apply Hdst; destruct Ht0; congruence|].
  destruct Ht0 as [-> | ->]; cbn [worker_step]; rewrite Hb; cbn [obind];
    (eapply (ok_worker s (inq (wld s))); try done; [by apply wc_same|..|intros _ _; apply Hdst; congruence|]).
  all: try (by destruct b).
  all: try (destruct b; [|done]; intros _ _; right; intros di e Hdi He; by eapply empty_no_movable).
  all: intros _ di e Hdi He Hm Ht; rewrite Hph in Ht; cbn in Ht; try done; by apply elem_of_nil in Ht.
Qed.

Lemma step_move e todo : pr_phase pr = PMove (e :: todo) -> steps_on.
Proof.
  intros Hph. unfold steps_on. rewrite Hph. cbn [worker_step].
  pose proof Hok as (C & A & W). destruct queue_dir as (Hndot & src & Hsrc).
  pose proof (wo_dst _ _ _ W _ _ Hpr) as Hdst. rewrite Hph in Hdst. destruct Hdst as [dst Hd]; [done|].
  pose proof (wo_todo _ _ _ W _ _ _ Hpr Hph) as Htodo.
  unfold move_file. destruct (movable e) eqn:Hm; [destruct (decide (d_name e ∈ names src)) as [Hin|Hin]|].
  + destruct (wc_rename s (pr_queue pr) (d_name e) src dst C Hndot Hsrc Hd Hin) as (w' & Hw & Hwc & Hs' & Hd').
    rewrite Hw. cbn [obind]. eapply (ok_worker s (inq (wld s))); try done.
    * intros _ di x Hdi Hx Hmx Ht. rewrite Hs' in Hdi. injection Hdi as <-. apply elem_remove_entry in Hx as [_ Hne].
      rewrite Hph in Ht. cbn in Ht. apply elem_of_cons in Ht as [->|Ht]; done.
    * intros HR t Heq. injection Heq as <-. destruct (Htodo HR) as [Hnd Hall]. cbn in Hnd. apply list.NoDup_cons in Hnd as [Hnin Hnd].
      split; [done|]. intros x Hx Hmx.
      destruct (Hall x) as (di & Hdi & Hinx); [by right|done|]. rewrite Hsrc in Hdi. injection Hdi as <-.
      eexists. split; [done|]. apply names_remove_entry; [done|]. intros Heq. apply Hnin. rewrite <- Heq.
      apply list_elem_of_fmap. by exists x.
  + unfold rename. rewrite Hsrc, Hd, find_no_entry by done. cbn [obind]. apply dec_stable. intros HR.
    destruct (Htodo HR) as [_ Hall]. destruct (Hall e) as (di & Hdi & Hx); [by left|done|]. rewrite Hsrc in Hdi. by injection Hdi as <-.
  + cbn [obind]. eapply (ok_worker s (inq (wld s))); try done; [by apply wc_same|..].
    * intros _ di x Hdi Hx Hmx Ht. rewrite Hph in Ht. cbn in Ht. apply elem_of_cons in Ht as [->|Ht]; [congruence|done].
    * intros HR t Heq. injection Heq as <-. destruct (Htodo HR) as [Hnd Hall]. cbn in Hnd. apply list.NoDup_cons in Hnd as [_ Hnd].
      split; [done|]. intros x Hx. apply Hall. by right.
Qed.

Lemma step_handle : pr_phase pr = PHandle -> steps_on.
Proof.
  intros Hph. unfold steps_on. rewrite Hph. cbn [worker_step].
  pose proof Hok as (C & A & W). destruct queue_dir as (Hndot & src & Hsrc).
  pose proof (wo_dst _ _ _ W _ _ Hpr) as Hdst. rewrite Hph in Hdst.
  destruct (wc_handler s h (pr_queue pr) C Hndot) as [Hwc Hd]; [by apply Hdst|].
  eapply (ok_worker s (inq (wld s))); try done. intros _ di e _ _ _ Ht. by rewrite Hph in Ht.
Qed.

Lemma step_signal : pr_phase pr = PSignal -> steps_on.
Proof.
  intros Hph. unfold steps_on. rewrite Hph. cbn [worker_step].
  pose proof Hok as (C & A & W). pose proof (wo_dst _ _ _ W _ _ Hpr) as Hdst. rewrite Hph in Hdst.
  eapply (ok_worker s (inq (wld s))); try done; [by apply wc_same|..].
  + intros v Hv. apply elem_of_app. by left.
  + intros _ di e Hdi He Hm Ht. by rewrite Hph in Ht.
  + intros _ _. left. apply elem_of_app. right. by left.
Qed.

Lemma ok_worker_step : steps_on.
Proof.
  pose proof Hok as (_ & _ & W). destruct (wo_nonzero _ _ _ W _ _ Hpr) as [_ Hnx].
  destruct (pr_phase pr) as [|[|e todo]| | | |] eqn:Hph;
    [by apply step_start|apply (step_check _ Hph); by left|by eapply step_move|by apply step_handle|apply (step_check _ Hph); by right|
     by apply step_signal|done].
Qed.

(** The end of a worker whose queue is lost with it. *)
Lemma ok_worker_lost : pr_queue pr ∈ Lo -> ok s (inq (wld s)) pipe (procs_after ps pid pr PExit) (zombies_after zs pid PExit).
Proof.
  intros HL. pose proof Hok as (C & A & W). destruct s as [d w]. eapply (ok_worker {| dm := d; wld := w |} (inq w)); try done. by apply wc_same.
Qed.
End WorkerStep.

(** ** The programs outside *)

Lemma sc_produce s q di f : consistent s (inq (wld s)) -> q <> "."%string ->
  dirs (wld s) !! (Filter, q) = Some di ->
  sound_change (wld s) (produce q di f (wld s)) (inq (wld s)) (inq (produce q di f (wld s))).
Proof.
  intros C Hn Hd. unfold produce. constructor; try done; rewrite ?notify_dirs; unfold set_dirs; cbn [dirs].
  - intros e He. by apply notify_pend.
  - apply notify_mask; [done|apply C].
  - intros q' di' Hd'. destruct (decide (q' = q)) as [->|Hne].
    + rewrite Hd in Hd'. injection Hd' as <-. eexists. rewrite lookup_insert_eq. split_and!; [done|done|..].
      * intros _ x. apply names_add_entry.
      * intros _ e He. right. intros k Hk Hi Hm. apply notify_watch; [done|done|by rewrite Hm].
    + exists di'. rewrite lookup_insert_ne by congruence. split_and!; auto.
  - intros q' di' Hn'. destruct (decide (q' = q)) as [->|Hne].
    + rewrite lookup_insert_eq. intros H. injection H as <-. by apply nodup_add_entry, (co_dirs _ _ C q).
    + rewrite lookup_insert_ne by congruence. by apply C.
  - intros q' di' _. rewrite lookup_insert_ne by congruence. intros ?. left. by exists di'.
  - intros q'. by rewrite lookup_insert_ne by congruence.
  - rewrite lookup_insert_ne by congruence. apply C.
Qed.

Lemma sc_mkdir s q : consistent s (inq (wld s)) -> q <> "."%string ->
  sound_change (wld s) (wld (mkdir Filter q s)) (inq (wld s)) (inq (wld (mkdir Filter q s)))
  /\ dm (mkdir Filter q s) = dm s.
Proof.
  intros C Hn. unfold mkdir. destruct (dirs (wld s) !! (Filter, q)) as [x|] eqn:Hq;
    [split; [by apply sound_same|done]|].
  destruct (dirs (wld s) !! (Filter, "."%string)) as [root|] eqn:Hr; [|split; [by apply sound_same|done]].
  split; [|done]. cbn [wld]. constructor; try done; rewrite ?notify_dirs; cbn [dirs].
  - intros e He. by apply notify_pend.
  - apply notify_mask; [done|apply C].
  - intros q' di Hd. destruct (decide (q' = "."%string)) as [->|Hne].
    + rewrite Hr in Hd. injection Hd as <-. eexists. rewrite lookup_insert_eq. split_and!; [done|done| |done].
      intros _ y Hy. unfold names. cbn. rewrite map_app. apply elem_of_app. by left.
    + exists di. rewrite !lookup_insert_ne by congruence. split_and!; auto.
  - intros q' di Hn'. rewrite lookup_insert_ne by congruence. destruct (decide (q' = q)) as [->|Hne].
    + rewrite lookup_insert_eq. intros H. injection H as <-. apply base.NoDup_nil_2.
    + rewrite lookup_insert_ne by congruence. by apply C.
  - intros q' di _. rewrite !lookup_insert_ne by congruence. intros ?. left. by exists di.
  - intros q'. by rewrite !lookup_insert_ne by congruence.
  - rewrite !lookup_insert_ne by congruence. apply C.
Qed.

Lemma sc_pauses s di ents mask nm : consistent s (inq (wld s)) ->
  mask = IN_CREATE \/ mask = IN_DELETE ->
  sound_change (wld s) (change_pauses di ents mask nm (wld s)) (inq (wld s))
    (inq (change_pauses di ents mask nm (wld s))).
Proof.
  intros C Hm. unfold change_pauses. constructor; try done; rewrite ?notify_dirs; unfold set_dirs; cbn [dirs].
  - intros e He. by apply notify_pend.
  - apply notify_mask; [by destruct Hm as [-> | ->]|apply C].
  - intros q di' Hd. exists di'. rewrite lookup_insert_ne by congruence. split_and!; auto.
  - intros q di' Hn. rewrite lookup_insert_ne by congruence. by apply C.
  - intros q di' _. rewrite lookup_insert_ne by congruence. intros ?. left. by exists di'.
  - intros q. by rewrite lookup_insert_ne by congruence.
  - rewrite lookup_insert_ne by congruence. apply C.
Qed.

Lemma sc_remove s pl q di f : consistent s (inq (wld s)) -> pl <> Pause -> q <> "."%string -> (pl = Filter -> q ∈ Ra) ->
  dirs (wld s) !! (pl, q) = Some di ->
  sound_change (wld s) (remove_event pl q di f (wld s)) (inq (wld s)) (inq (remove_event pl q di f (wld s))).
Proof.
  intros C Hpl Hn HR Hd. unfold remove_event.
  assert (Hl : forall x, (exists di0, dirs (wld s) !! x = Some di0 /\ x <> (pl, q) /\ <[(pl, q) := remove_entry f di]> (dirs (wld s)) !! x = Some di0) \/
    (x = (pl, q) /\ <[(pl, q) := remove_entry f di]> (dirs (wld s)) !! x = Some (remove_entry f di)) \/
    (dirs (wld s) !! x = None /\ <[(pl, q) := remove_entry f di]> (dirs (wld s)) !! x = None)).
  { intros x. destruct (decide (x = (pl, q))) as [->|Hx]; [right; left; by rewrite lookup_insert_eq|].
    rewrite lookup_insert_ne by done. destruct (dirs (wld s) !! x) as [d0|]; [left; by exists d0|by right; right]. }
  constructor; try done; rewrite ?notify_dirs; unfold set_dirs; cbn [dirs].
  - intros e He. by apply notify_pend.
  - apply notify_mask; [done|apply C].
  - intros q' di' Hd'. destruct (Hl (Filter, q')) as [(d0 & H1 & _ & H2)|[[[= <- <-] H2]|[H1 _]]]; [|rewrite Hd in Hd'; injection Hd' as <-|congruence].
    + exists d0. rewrite H2, Hd' in *. injection H1 as <-. split_and!; auto.
    + eexists. split; [exact H2|]. split_and!; [done|intros []; by apply HR|]. intros _ e [He _]%elem_remove_entry. by left.
  - intros q' di' Hn' Hd'. destruct (Hl (Filter, q')) as [(d0 & H1 & _ & H2)|[[[= <- <-] H2]|[_ H2]]]; rewrite H2 in Hd'; [..|done]; injection Hd' as <-;
      [by apply (co_dirs _ _ C q')|by apply nodup_remove_entry, (co_dirs _ _ C q')].
  - intros q' di' Hn' Hd'. left. destruct (Hl (Uevent, q')) as [(d0 & H1 & _ & H2)|[[[= <- <-] H2]|[_ H2]]]; rewrite H2 in Hd'; [..|done]; injection Hd' as <-;
      [by exists d0|]. exists di. split; [done|]. intros e [He _]%elem_remove_entry. done.
  - intros q' [di' Hd']. destruct (Hl (Uevent, q')) as [(d0 & _ & _ & ->)|[[_ ->]|[H1 _]]]; [by eexists..|congruence].
  - rewrite lookup_insert_ne by congruence. apply C.
Qed.

(** ** Timers *)

Lemma mkdir_eta q s : consistent s (inq (wld s)) -> q <> "."%string ->
  mkdir Filter q s = {| dm := dm s; wld := wld (mkdir Filter q s) |}.
Proof.
  intros C Hn. destruct (sc_mkdir s q C Hn) as [_ Hd]. rewrite <- Hd. by destruct (mkdir Filter q s).
Qed.

Lemma ok_mkdir s q pipe ps zs : ok s (inq (wld s)) pipe ps zs -> q <> "."%string ->
  ok (mkdir Filter q s) (inq (wld (mkdir Filter q s))) pipe ps zs.
Proof.
  intros Hok Hn. pose proof Hok as (C & _). rewrite (mkdir_eta q s C Hn) at 1.
  apply (ok_change s _ (inq (wld s))); [done|]. by apply sc_mkdir.
Qed.

Lemma ok_ensure_queue_dir s q s' pipe ps zs : ok s (inq (wld s)) pipe ps zs -> q <> "."%string ->
  ensure_queue_dir q s = Ret s' -> ok s' (inq (wld s')) pipe ps zs.
Proof.
  intros Hok Hn H. unfold ensure_queue_dir in H. apply (ok_mkdir s q) in Hok; [|done].
  case_match; [by simplify_eq|].
  destruct (watch_path _ _ _ _ _) as [[r s1]| | |] eqn:E; cbn in H; try done. case_match; [done|].
  simplify_eq. eapply ok_watch_path in E as (Hok' & _ & Hi); [|exact Hok|set_solver|done]. by rewrite Hi.
Qed.

Lemma sc_timer_rename s q nm nm' w' : consistent s (inq (wld s)) -> q <> "."%string ->
  rename (Timer, q) nm (Filter, q) nm' (wld s) = Some w' -> sound_change (wld s) w' (inq (wld s)) (inq w').
Proof.
  intros C Hn H. unfold rename in H.
  destruct (dirs (wld s) !! (Timer, q)) as [a|] eqn:Ha; [|done].
  destruct (dirs (wld s) !! (Filter, q)) as [b|] eqn:Hb; [|done].
  destruct (List.find _ _) as [x|]; [|done]. injection H as <-.
  constructor; try done; rewrite ?notify_dirs; unfold set_dirs; cbn [dirs].
  - intros e He. by apply notify_pend.
  - apply notify_mask; [done|apply C].
  - intros q' di Hd. destruct (decide (q' = q)) as [->|Hne].
    + rewrite Hb in Hd. injection Hd as <-. eexists. rewrite lookup_insert_eq. split_and!; [done|done|..].
      * intros _ y. apply names_add_entry.
      * intros _ e He. right. intros k Hk Hi Hm. apply notify_watch; [done|done|by rewrite Hm].
    + exists di. rewrite !lookup_insert_ne by congruence. split_and!; auto.
  - intros q' di Hn'. destruct (decide (q' = q)) as [->|Hne].
    + rewrite lookup_insert_eq. intros H. injection H as <-. by apply nodup_add_entry, (co_dirs _ _ C q).
    + rewrite !lookup_insert_ne by congruence. by apply C.
  - intros q' di _. rewrite !lookup_insert_ne by congruence. intros ?. left. by exists di.
  - intros q'. by rewrite !lookup_insert_ne by congruence.
  - rewrite !lookup_insert_ne by congruence. apply C.
Qed.

Lemma ok_find_mark f s pend pipe ps zs :
  ok s pend pipe ps zs -> (forall p, f p = true -> is_queue p = true) ->
  ok {| dm := match find_watch f (watch_list (dm s)) with Some i => mark_queue_dirty i (dm s) | None => dm s end;
        wld := wld s |} pend pipe ps zs.
Proof.
  intros Hok Hf. apply ok_list; [done| |].
  - destruct (find_watch _ _); [apply mark_more|apply more_refl].
  - by apply find_mark_inv; [apply Hok|].
Qed.

Lemma ok_move_timer_event q t s s' pipe ps zs : ok s (inq (wld s)) pipe ps zs -> q <> "."%string ->
  move_timer_event q t s = Ret s' -> ok s' (inq (wld s')) pipe ps zs.
Proof.
  intros Hok Hn H. unfold move_timer_event in H. case_match; [|by simplify_eq]. case_match; [by simplify_eq|].
  destruct (ensure_queue_dir q s) as [sq| | |] eqn:E; cbn in H; try done.
  eapply ok_ensure_queue_dir in E; [|done|done]. case_match eqn:Er; [|by simplify_eq]. simplify_eq. cbn.
  pose proof E as (C & _). apply sc_timer_rename in Er; [|done|done]. eapply ok_change in E; [|exact Er].
  eapply (ok_find_mark _ {| dm := dm sq; wld := w |}) in E; [exact E|].
  intros p Hp. by apply andb_prop in Hp as [? _].
Qed.

Lemma ok_timer_entries q ents : q <> "."%string -> forall next s next' s' pipe ps zs,
  ok s (inq (wld s)) pipe ps zs -> timer_entries q ents next s = Ret (next', s') ->
  ok s' (inq (wld s')) pipe ps zs.
Proof.
  intros Hn. induction ents as [|e ents IH]; intros next s next' s' pipe ps zs Hi H; cbn in H; [by simplify_eq|].
  repeat case_match; try (by eapply IH).
  all: destruct (move_timer_event _ _ s) as [s1| | |] eqn:E; cbn in H; try done;
    eapply IH; [|exact H]; by eapply ok_move_timer_event.
Qed.

Lemma ok_timer_queues ents : forall next s next' s' pipe ps zs,
  ok s (inq (wld s)) pipe ps zs -> timer_queues ents next s = Ret (next', s') ->
  ok s' (inq (wld s')) pipe ps zs.
Proof.
  induction ents as [|e ents IH]; intros next s next' s' pipe ps zs Hi H; cbn in H; [by simplify_eq|].
  destruct (subdir e) eqn:Es; cbn in H; [|by eapply IH]. destruct (xreaddir _ _); cbn in H; try done.
  destruct (timer_entries _ _ _ s) as [[n1 s1]| | |] eqn:E; cbn in H; try done.
  eapply IH; [|exact H]. eapply ok_timer_entries; [by apply subdir_name|exact Hi|exact E].
Qed.

Lemma ok_update_timerfd s s' pipe ps zs : ok s (inq (wld s)) pipe ps zs -> update_timerfd s = Ret s' ->
  ok s' (inq (wld s')) pipe ps zs.
Proof.
  intros Hok H. unfold update_timerfd in H. destruct (xreaddir _ _); cbn in H; try done.
  destruct (timer_queues _ _ s) as [[n1 s1]| | |] eqn:E; cbn in H; try done.
  eapply ok_timer_queues in E; [|done]. simplify_eq. cbn. pose proof E as (C & _).
  eapply (ok_change s1 (set_timer _ (wld s1))) in E; [|by apply sound_same].
  apply (ok_list _ (set_timer_changed false (dm s1))) in E; [exact E|apply more_refl|apply C].
Qed.

End Invariant.

(** ** Every step keeps the invariant *)

Record node_inv (n : node) : Prop := {
  ni_consistent : consistent (nsys n) (inq (wld (nsys n)));
  ni_accounted : accounted (lost n) (nsys n) (inq (wld (nsys n))) (npipe n) (procs n);
  ni_workers : workers_ok (raced n) (nsys n) (procs n) (zombies n);
}.

Lemma ok_more Lo Ra Lo' Ra' s pend pipe ps zs : Lo ⊆ Lo' -> Ra ⊆ Ra' -> ok Lo Ra s pend pipe ps zs -> ok Lo' Ra' s pend pipe ps zs.
Proof.
  intros HL HR (C & [A1 A2 A3] & W). split_and!; [done| |].
  - constructor; [|  |done]; intros p di e Hp Hq Hn; [apply A1|apply A2]; auto.
  - destruct W. constructor; try done. intros pid pr todo H1 H2 Hn. apply (wo_todo0 pid pr todo); auto.
Qed.

Lemma elem_of_forked b q l l' : length l' = length l ->
  q ∈ forked b l l' <-> exists i p p', l !! i = Some p /\ l' !! i = Some p' /\ runnable p = true /\ b = negb (q_pid p' =? 0) /\ q_name p = q.
Proof.
  revert l'. induction l as [|p l IH]; intros [|p' l'] Hl; try done.
  { cbn. split; [set_solver|]. by intros (i & p & p' & H & _). }
  cbn in Hl. specialize (IH l' ltac:(lia)). cbn [forked].
  assert (Hiff : (exists i x x', (p :: l) !! i = Some x /\ (p' :: l') !! i = Some x' /\ runnable x = true /\ b = negb (q_pid x' =? 0) /\ q_name x = q) <->
    (runnable p = true /\ b = negb (q_pid p' =? 0) /\ q_name p = q) \/ q ∈ forked b l l').
  { rewrite IH. split.
    - intros ([|i] & x & x' & H1 & H2 & H3); [left; by simplify_eq/=|right; by exists i, x, x'].
    - intros [H|(i & x & x' & H)]; [by exists O, p, p'|by exists (S i), x, x']. }
  rewrite Hiff. clear Hiff IH Hl. destruct (runnable p); cbn [andb]; [|naive_solver].
  destruct (Bool.eqb b (negb (q_pid p' =? 0))) eqn:Eb; [apply Bool.eqb_prop in Eb|apply Bool.eqb_false_iff in Eb]; [|naive_solver].
  rewrite elem_of_union, elem_of_singleton. naive_solver.
Qed.

Lemma ok_start fork Lo Ra s s' pend pipe ps zs :
  ok Lo Ra s pend pipe ps zs ->
  (forall k, session (dm s) < k -> fork k < 0 \/ 0 < fork k /\ ps !! fork k = None /\ fork k ∉ zs) ->
  (forall j k, 0 < fork k -> fork j = fork k -> j = k) ->
  start_all fork s = Ret s' ->
  let l := watch_list (dm s) in
  let l' := watch_list (dm s') in
  ok (Lo ∖ forked true l l' ∪ forked false l l') (Ra ∖ forked true l l') s' pend pipe (started l l' ps) zs /\ wld s' = wld s.
Proof.
  intros (C & [A1 A2 A3] & W) Hf Hinj H.
  destruct (start_all_inv fork s (co_inv _ _ C)) as (s1 & H1 & Hinv). rewrite H in H1. injection H1 as <-.
  unfold start_all in H.
  destruct (start_workers fork _ _ _) as [[[l' d'] n']| | |] eqn:E; cbn in H; try done.
  injection H as <-. cbn in *. set (l := watch_list (dm s)) in *. split; [|done].
  destruct (start_workers_spec _ _ _ _ _ _ _ E) as [Hle HF].
  destruct (started_spec fork ps zs _ Hf Hinj _ _ _ _ _ _ (Z.le_refl _) E) as (I1 & I2 & I3).
  assert (forall p', p' ∈ l' -> exists p i, l !! i = Some p /\ l' !! i = Some p' /\ p ∈ l /\ same_watch p p'
            /\ ((runnable p = false /\ p' = p) \/ runnable p = true)) as Hback.
  { intros p' Hp'. apply list_elem_of_lookup in Hp' as [i Hi].
    destruct (Forall2_lookup_r _ _ _ _ _ HF Hi) as (p & Hp & HR). exists p, i. split_and!; try done.
    - by eapply list_elem_of_lookup_2.
    - by eapply start_rel_same.
    - destruct HR as [?|[? _]]; [by left|by right]. }
  assert (Hlen : length l' = length l) by (symmetry; by eapply Forall2_length).
  assert (Hfk : forall b q, q ∈ forked b l l' <-> _) by (intros b q; apply (elem_of_forked b q l l' Hlen)).
  assert (Hrq : forall p, runnable p = true -> is_queue p = true).
  { intros p Hr. unfold is_queue. unfold runnable in Hr.
    by apply andb_prop in Hr as [Hr _]; apply andb_prop in Hr as [Hr _]; apply andb_prop in Hr as [Hr _]. }
  (* a queue that gets no worker is not in the set of those that do *)
  assert (Hnot : forall i p b, l !! i = Some p -> is_queue p = true -> runnable p = false -> q_name p ∉ forked b l l').
  { intros i p b Hi Hq Hr (j & x & x' & Hj & _ & Hrx & _ & Hn)%Hfk. assert (j = i) as -> by (eapply (co_names _ _ C); eauto). congruence. }
  assert (Hpid : forall i p p', l !! i = Some p -> l' !! i = Some p' -> runnable p = true ->
            q_name p ∉ Lo ∖ forked true l l' ∪ forked false l l' -> q_pid p' <> 0).
  { intros i p p' Hi Hi' Hr Hn Hz. apply Hn, elem_of_union. right. apply Hfk. exists i, p, p'. by rewrite Hz. }
  split_and!.
  - apply (consistent_list s); [done| |exact Hinv].
    eapply Forall2_impl; [|exact HF]. intros x y. apply start_rel_same.
  - constructor; cbn.
    + intros p' di e Hp' Hq HL Hd He Hm. destruct (Hback p' Hp') as (p & i & Hi & Hi' & Hp & (S1 & S2 & S3 & S4) & [[Hr ->]|Hr]).
      * destruct (A1 p di e Hp Hq) as [?|[?|(pid & ph & Hpid' & Ht)]]; [|done..|by left|by right; left|].
        { pose proof (Hnot i p true Hi Hq Hr). set_solver. }
        right; right. exists pid, ph. split; [by apply I1|done].
      * right; right. exists (q_pid p'), PStart. rewrite S1, S2 in *. split; [|done]. eapply I2; eauto.
    + intros p' di e Hp' Hq HL Hd He Hm. destruct (Hback p' Hp') as (p & i & Hi & Hi' & Hp & (S1 & S2 & S3 & S4) & [[Hr ->]|Hr]).
      * destruct (A2 p di e Hp Hq) as [?|[?|(pid & ph & Hpid')]]; [|done..|by left|by right; left|].
        { pose proof (Hnot i p true Hi Hq Hr). set_solver. }
        right; right. exists pid, ph. by apply I1.
      * right; right. exists (q_pid p'), PStart. rewrite S1, S2 in *. eapply I2; eauto.
    + intros q di e Hn Hq. apply A3; [done|]. intros p Hp Hqp.
      destruct (Forall2_elem_l _ _ _ _ HF Hp) as (p' & Hp' & HR). apply start_rel_same in HR as (S1 & _ & _ & S4).
      rewrite <- S1. apply Hq; [done|congruence].
  - destruct W. constructor; cbn.
    + intros pid pr Hpr. destruct (I3 _ _ Hpr) as [Hold|(i & p & p' & k & Hi & Hi' & Hr & -> & _ & _ & _ & ->)].
      * destruct (wo_watch0 pid pr Hold) as (p & Hp & Hq & Hpid' & Hrest). exists p. split; [|done].
        destruct (Forall2_elem_l _ _ _ _ HF Hp) as (p' & Hp' & [[_ ->]|[Hr _]]); [done|].
        apply runnable_pid in Hr. destruct (wo_nonzero0 _ _ Hold) as [? _]. congruence.
      * exists p'. destruct (Forall2_lookup_lr _ _ _ _ _ _ HF Hi Hi') as [[Hnr _]|HR]; [congruence|].
        destruct (start_rel_same _ _ _ _ _ (or_intror HR)) as (S1 & S2 & _ & S4).
        split_and!; [by eapply list_elem_of_lookup_2| |done|by cbn|by cbn]. rewrite S4. by apply Hrq.
    + intros pid pr Hpr. destruct (I3 _ _ Hpr) as [Hold|(i & p & p' & k & _ & _ & _ & _ & -> & Hpos & Hk & ->)]; [by eapply wo_nonzero0|].
      split; [lia|done].
    + intros pid pr todo Hpr Ht HR. destruct (I3 _ _ Hpr) as [Hold|(i & p & p' & k & _ & _ & _ & _ & _ & _ & _ & ->)]; [|done].
      apply (wo_todo0 pid pr todo Hold Ht). destruct (wo_watch0 pid pr Hold) as (p & Hp & Hq & Hpid' & Hn & _).
      apply list_elem_of_lookup in Hp as [i Hi]. assert (Hr : runnable p = false).
      { apply not_true_is_false. intros Hr%runnable_pid. destruct (wo_nonzero0 _ _ Hold). congruence. }
      pose proof (Hnot i p true Hi Hq Hr). rewrite <- Hn in *. set_solver.
    + intros pid pr Hpr Ht. destruct (I3 _ _ Hpr) as [Hold|(i & p & p' & k & _ & _ & _ & _ & _ & _ & _ & ->)]; [by eapply wo_dst0|done].
    + intros p' Hp' Hnz. destruct (Hback p' Hp') as (p & i & Hi & Hi' & Hp & _ & [[Hr ->]|Hr]).
      * destruct (wo_pid0 p Hp Hnz) as [[pr Hpr]|?]; [left; exists pr; by apply I1|by right].
      * left. eexists. by eapply I2.
    + intros pid Hz. destruct (started l l' ps !! pid) as [pr|] eqn:El; [|done]. exfalso.
      destruct (I3 _ _ El) as [Hold|(i & p & p' & k & _ & _ & _ & _ & -> & Hpos & Hk & _)].
      * rewrite wo_zombies0 in Hold by done. done.
      * destruct (Hf k Hk) as [?|(_ & _ & ?)]; [lia|done].
Qed.

Lemma node_inv_ok n : node_inv n <-> ok (lost n) (raced n) (nsys n) (inq (wld (nsys n))) (npipe n) (procs n) (zombies n).
Proof. split; [intros []|intros (? & ? & ?)]; by constructor. Qed.

Lemma pipefd_wld vs s : wld (process_pipefd_events vs s) = wld s.
Proof. done. Qed.

Lemma signal_wld info s : wld (process_signal_events info s).2 = wld s.
Proof. unfold process_signal_events. by destruct info as [[[? ?] ?]|]; repeat case_match. Qed.

Lemma ok_lose n pid p : node_inv n -> procs n !! pid = Some p ->
  node_inv (lose (pr_queue p) (update_proc pid p PExit n (wld (nsys n)) (npipe n))).
Proof.
  rewrite !node_inv_ok. intros Hok Hp. destruct n as [[d w] pi ps zs lo ra].
  cbn [nsys wld dm npipe procs zombies lost raced lose update_proc] in *.
  apply (ok_worker_lost _ _ {| dm := d; wld := w |} pi ps zs pid p); [|done|set_solver]. eapply ok_more; [|done|exact Hok]. set_solver.
Qed.

Lemma nstep_inv n n' : node_inv n -> nstep n n' -> node_inv n'.
Proof.
  rewrite !node_inv_ok. intros Hok Hs. pose proof Hok as (C & _ & _).
  destruct Hs as [q di f Hn Hd|q Hn|di ents mask nm Hd Hm|pl q di f Hpl Hn Hd|s Hs|s Hs| | |fork s [Hf Hi] Hs|h pid p ph w pipe Hp Hw
                 |h pid p ph w pipe Hp Hph Hw|pid p Hp]; cbn [nsys npipe procs zombies lost raced set_sys race].
  - apply (ok_change _ _ (nsys n) _ (inq (wld (nsys n)))); [done|]. by apply sc_produce.
  - by apply ok_mkdir.
  - apply (ok_change _ _ (nsys n) _ (inq (wld (nsys n)))); [done|]. by apply sc_pauses.
  - apply (ok_change _ _ (nsys n) _ (inq (wld (nsys n)))); [eapply ok_more; [done| |exact Hok]; case_decide; set_solver|].
    apply sc_remove; try done. intros ->. rewrite decide_True by done. set_solver.
  - by eapply ok_fd_inotify.
  - by eapply ok_update_timerfd.
  - rewrite pipefd_wld. apply ok_pipe. by rewrite app_nil_r.
  - rewrite signal_wld. by apply ok_reap.
  - destruct (ok_start fork _ _ (nsys n) s _ _ _ _ Hok Hf Hi Hs) as [Hok' ->]. exact Hok'.
  - pose proof (ok_worker_step _ _ h _ _ _ _ _ _ Hok Hp) as Hst. unfold steps_on in Hst. rewrite Hw in Hst. by destruct ph.
  - rewrite Hph in Hw. cbn in Hw. injection Hw as <- <- <-. rewrite app_nil_r. by apply node_inv_ok, ok_lose; [apply node_inv_ok|].
  - by apply node_inv_ok, ok_lose; [apply node_inv_ok|].
Qed.

(** ** The system from the start *)

(** The directories as they are when the daemon starts: nothing is watched, no
    handler has events left from before. *)
Record boot_world (w : world) : Prop := {
  bw_kwatches : kwatches w = [];
  bw_next : 0 <= next_wd w;
  bw_inq : inq w = [];
  bw_root : is_Some (dirs w !! (Uevent, "."%string));
  bw_dirs q di : q <> "."%string -> dirs w !! (Filter, q) = Some di -> NoDup (names di);
  bw_uevent q di e : q <> "."%string -> dirs w !! (Uevent, q) = Some di -> e ∈ d_entries di -> movable e = false;
}.

Inductive nreach : node -> Prop :=
  | nr_boot pipe w s :
      boot_world w -> main_init {| dm := daemon0 pipe; wld := w |} = Ret s ->
      nreach {| nsys := s; npipe := []; procs := ∅; zombies := []; lost := ∅; raced := ∅ |}
  | nr_step n n' : nreach n -> nstep n n' -> nreach n'.

(** No event, message, worker or child is pending and no worker can be started. *)
Definition quiet (n : node) : Prop :=
  inq (wld (nsys n)) = [] /\ npipe n = [] /\ procs n = ∅ /\ zombies n = []
  /\ forallb (fun p => negb (runnable p)) (watch_list (dm (nsys n))) = true.

Definition is_paused (p : watch) : bool := has (q_flags p) F_PAUSED.

Lemma ok_boot pipe w : boot_world w -> ok ∅ ∅ {| dm := daemon0 pipe; wld := w |} (inq w) [] ∅ [].
Proof.
  intros []. split_and!.
  - constructor; cbn; try done; try by (intros p Hp; apply elem_of_nil in Hp).
    + apply base.NoDup_nil_2.
    + rewrite bw_inq0. by apply Forall_nil_2.
  - constructor; cbn; try by (intros p di e Hp; apply elem_of_nil in Hp). intros q di e Hn _. by apply bw_uevent0.
  - constructor; cbn; try done; intros *; rewrite ?lookup_empty; try done; by intros ?%elem_of_nil.
Qed.

Lemma ok_main_init Lo Ra s s' pipe ps zs : ok Lo Ra s (inq (wld s)) pipe ps zs -> main_init s = Ret s' ->
  ok Lo Ra s' (inq (wld s')) pipe ps zs.
Proof.
  intros Hok H. unfold main_init, watch_pauses in H.
  destruct (watch_path Pause _ _ _ s) as [[r1 s1]| | |] eqn:E1; cbn in H; try done.
  eapply ok_watch_path in E1 as (O1 & _ & I1); [|exact Hok|set_solver|done]. case_match; cbn in H; [done|].
  destruct (watch_path Filter _ _ _ s1) as [[r2 s2]| | |] eqn:E2; cbn in H; try done.
  eapply ok_watch_path in E2 as (O2 & _ & I2); [|exact O1|set_solver|done]. case_match; cbn in H; [done|].
  destruct (watch_path Timer _ _ _ s2) as [[r3 s3]| | |] eqn:E3; cbn in H; try done.
  eapply ok_watch_path in E3 as (O3 & _ & I3); [|exact O2|set_solver|done]. case_match; cbn in H; [done|].
  destruct (watch_queues s3) as [s4| | |] eqn:E4; cbn in H; try done. unfold watch_queues in E4.
  destruct (xreaddir _ _); cbn in E4; try done.
  eapply ok_watch_subdirs in E4 as (O4 & _ & I4); [|set_solver|done|exact O3].
  destruct (watch_timer_queues s4) as [s5| | |] eqn:E5; cbn in H; try done. unfold watch_timer_queues in E5.
  destruct (xreaddir _ _); cbn in E5; try done.
  eapply ok_watch_subdirs in E5 as (O5 & _ & I5); [|set_solver|done|exact O4].
  destruct (apply_pause s5) as [s6| | |] eqn:E6; cbn in H; try done.
  eapply ok_apply_pause in E6 as (O6 & _ & I6); [|exact O5].
  eapply ok_update_timerfd; [|exact H]. by rewrite I6, I5, I4, I3, I2, I1.
Qed.

Lemma nreach_inv n : nreach n -> node_inv n.
Proof.
  induction 1 as [pipe w s Hb Hi|n n' Hr IH Hs]; [|by eapply nstep_inv].
  apply node_inv_ok. cbn. eapply ok_main_init; [|exact Hi]. by apply ok_boot.
Qed.

(** ** A worker that is not interrupted *)

Lemma run_worker_exit n h b q wd w pipe : run_worker n h b q wd PExit w pipe = Ret (PExit, w, pipe).
Proof. induction n as [|n IH]; [done|]. cbn. apply IH. Qed.

Lemma run_worker_move todo : forall h b q wd w w' pipe n,
  move_entries q todo w = Ret w' ->
  run_worker (length todo + n) h b q wd (PMove todo) w pipe = run_worker n h b q wd (PMove []) w' pipe.
Proof.
  induction todo as [|e todo IH]; intros h b q wd w w' pipe n H; cbn in H; [by simplify_eq|].
  destruct (move_file q e w) as [w1| | |] eqn:E; cbn in H; try done.
  cbn. rewrite E. cbn. by apply IH.
Qed.

(** ** When fork fails *)

Lemma start_workers_failed fork l : (forall k, fork k < 0) -> forall dirty n l' dirty' n',
  start_workers fork l dirty n = Ret (l', dirty', n') ->
  Forall (fun p => runnable p = false) l' /\ dirty' = dirty - lenZ (List.filter runnable l).
Proof.
  intros Hf. induction l as [|p l IH]; intros dirty n l' dirty' n' H; cbn in H.
  { simplify_eq. split; [apply Forall_nil_2|]. cbn. change (lenZ []) with 0. lia. }
  cbn [List.filter]. destruct (runnable p) eqn:Er; cbn in H.
  - case_match; [done|].
    destruct (start_workers fork l (dirty - 1) (n + 1)) as [[[l1 d1] n1]| | |] eqn:E; cbn in H; try done.
    destruct (IH _ _ _ _ _ E) as [HF Hd]. simplify_eq. rewrite lenZ_cons. split; [|lia].
    constructor; [|done]. unfold runnable. cbn.
    assert (forall f, has (clear_flag f F_DIRTY) F_DIRTY = false) as Hcl.
    { intros f. unfold has, clear_flag. rewrite <- Z.land_assoc. change (Z.land (Z.lnot F_DIRTY) F_DIRTY) with 0.
      by rewrite Z.land_0_r. }
    rewrite Hcl. by destruct (has _ _).
  - destruct (start_workers fork l dirty n) as [[[l1 d1] n1]| | |] eqn:E; cbn in H; try done.
    destruct (IH _ _ _ _ _ E) as [HF Hd]. simplify_eq. split; [by constructor|done].
Qed.

(** An example: the worker of the queue "net" with one event, and a handler that
    handles all of them, or none. *)
Definition demo_event : dirent := {| d_name := "ev1"; d_type := DT_REG |}.
Definition demo_boot : world :=
  {| dirs := <[(Filter, "."%string) := {| d_ino := 2; d_entries := [demo_dir "."; demo_dir "net"] |}]>
             (<[(Filter, "net"%string) := {| d_ino := 7; d_entries := [demo_event] |}]>
             (<[(Timer, "."%string) := {| d_ino := 3; d_entries := [] |}]>
             (<[(Pause, "."%string) := {| d_ino := 4; d_entries := [] |}]>
             (<[(Uevent, "."%string) := {| d_ino := 5; d_entries := [] |}]> ∅))));
     kwatches := []; next_wd := 1; next_ino := 100; inq := []; now := 5; timer_value := 0 |}.
Definition demo_start : sys :=
  match main_init {| dm := daemon0 9; wld := demo_boot |} with Ret s => s | _ => demo_sys end.
Definition handle_all (ents : list dirent) : list dirent := [].
Definition handle_none (ents : list dirent) : list dirent := ents.

Lemma demo_boot_ok : boot_world demo_boot.
Proof.
  constructor; try done.
  - intros q di Hq. unfold demo_boot. cbn [dirs].
    rewrite !lookup_insert_Some, lookup_empty. intros [[Ha <-]|(_ & [[Ha <-]|(_ & Hd)])].
    + congruence.
    + apply list.NoDup_singleton.
    + naive_solver.
  - intros q di e Hq. unfold demo_boot. cbn [dirs].
    rewrite !lookup_insert_Some, lookup_empty. intros Hd. naive_solver.
Qed.

(** One step of the worker with pid 1001. *)
Definition demo_step (h : list dirent -> list dirent) (n : node) : node :=
  match procs n !! 1001 with
  | None => n
  | Some p =>
      match worker_step h true (pr_queue p) (pr_wd p) (pr_phase p) (wld (nsys n)) (npipe n) with
      | Ret (ph, w, pipe) => update_proc 1001 p ph n w pipe
      | _ => n
      end
  end.
Definition demo_node0 : node := {| nsys := demo_start; npipe := []; procs := ∅; zombies := []; lost := ∅; raced := ∅ |}.
Definition demo_node1 : node :=
  match start_all demo_fork demo_start with
  | Ret s => {| nsys := s; npipe := [];
                procs := started (watch_list (dm demo_start)) (watch_list (dm s)) ∅; zombies := []; lost := ∅; raced := ∅ |}
  | _ => demo_node0
  end.
Definition demo_node2 (h : list dirent -> list dirent) : node :=
  demo_step h (demo_step h (demo_step h (demo_step h (demo_step h demo_node1)))).
Definition demo_node3 : node :=
  {| nsys := (process_signal_events (Some (SIGCHLD, zombies (demo_node2 handle_all), false)) (nsys (demo_node2 handle_all))).2;
     npipe := npipe (demo_node2 handle_all); procs := procs (demo_node2 handle_all); zombies := []; lost := ∅; raced := ∅ |}.

Lemma demo_step_reach h n : nreach n -> nreach (demo_step h n).
Proof.
  intros Hr. unfold demo_step. destruct (procs n !! 1001) as [p|] eqn:Hp; [|done].
  destruct (worker_step _ _ _ _ _ _) as [[[ph w] pipe]| | |] eqn:E; try done.
  eapply nr_step; [done|]. by eapply N_worker.
Qed.

Lemma demo_node0_reach : nreach demo_node0.
Proof.
  apply (nr_boot 9 demo_boot); [apply demo_boot_ok|]. vm_compute. reflexivity.
Qed.

Lemma demo_node1_reach : nreach demo_node1.
Proof.
  apply (nr_step demo_node0); [apply demo_node0_reach|].
  replace demo_node1 with {| nsys := nsys demo_node1; npipe := npipe demo_node0;
     procs := started (watch_list (dm (nsys demo_node0))) (watch_list (dm (nsys demo_node1))) (procs demo_node0);
     zombies := zombies demo_node0;
     lost := lost demo_node0 ∖ forked true (watch_list (dm (nsys demo_node0))) (watch_list (dm (nsys demo_node1)))
             ∪ forked false (watch_list (dm (nsys demo_node0))) (watch_list (dm (nsys demo_node1)));
     raced := raced demo_node0 ∖ forked true (watch_list (dm (nsys demo_node0))) (watch_list (dm (nsys demo_node1))) |} by (vm_compute; reflexivity).
  apply (N_start _ demo_fork); [|vm_compute; reflexivity]. split.
  - intros k Hk. change (session (dm (nsys demo_node0))) with 0 in Hk. unfold demo_fork. right. split_and!; [lia|done|].
    apply not_elem_of_nil.
  - intros j k. unfold demo_fork. lia.
Qed.

Lemma demo_node3_reach : nreach demo_node3.
Proof.
  eapply nr_step; [|apply N_reap]. unfold demo_node2. do 5 apply demo_step_reach. apply demo_node1_reach.
Qed.

(** ** Theorems *)


(** Paused at the start, the queue keeps its event and its mark. *)
Definition demo_paused : world := set_dirs (<[(Uevent, "."%string) := {| d_ino := 5; d_entries := [] |}]> (dirs demo_world)) demo_world.
Definition demo_paused_node : node :=
  {| nsys := match main_init {| dm := daemon0 9; wld := demo_paused |} with Ret s => s | _ => demo_sys end;
     npipe := []; procs := ∅; zombies := []; lost := ∅; raced := ∅ |}.
Definition demo_net : watch :=
  {| q_flags := 26; q_watchfd := 4; q_parentfd := 9; q_ino := 7; q_pid := 0; q_name := "net" |}.

Lemma demo_paused_ok : boot_world demo_paused.
Proof.
  constructor; try done.
  - intros q di Hq. unfold demo_paused, demo_world, set_dirs. cbn [dirs].
    rewrite !lookup_insert_Some, lookup_empty. intros [[Ha <-]|(_ & [[Ha <-]|(_ & [[Ha <-]|(_ & Hd)])])].
    + congruence.
    + congruence.
    + apply list.NoDup_singleton.
    + naive_solver.
  - intros q di e Hq. unfold demo_paused, demo_world, set_dirs. cbn [dirs].
    rewrite !lookup_insert_Some, lookup_empty. intros Hd. naive_solver.
Qed.




(** A worker that nothing interrupts does what process_events says: the
    phases end, with the world that process_events computes and with the same
    message in the pipe, which is there exactly when the handler has left an
    event and the write succeeds. *)
Theorem worker_refines_process_events h b q wd w pipe w' msgs :
  process_events h b q wd w = Ret (w', msgs) ->
  exists n, run_worker n h b q wd PStart w pipe = Ret (PExit, w', pipe ++ msgs).
Proof.
  intros H. unfold process_events, move_files in H.
  destruct (open_dirs q w) as [[w1 ents]| | |] eqn:E1; cbn in H; try done.
  destruct (move_entries q ents w1) as [w2| | |] eqn:E2; cbn in H; try done.
  destruct (empty_directory (Uevent, q) w2) as [b1| | |] eqn:E3; cbn in H; try done.
  exists (S (length ents + 4)). cbn. rewrite E1. cbn. rewrite (run_worker_move _ _ _ _ _ _ w2) by done.
  cbn. rewrite E3. cbn. destruct b1.
  - simplify_eq. rewrite app_nil_r. cbn. done.
  - cbn. destruct (empty_directory (Uevent, q) (event_handler h q w2)) as [b2| | |] eqn:E4; cbn in H; try done.
    cbn. destruct b2; simplify_eq; cbn; [by rewrite app_nil_r|done].
Qed.

Definition demo_done : world :=
  match process_events handle_none true "net" 4 demo_boot with Ret (w, _) => w | _ => demo_boot end.

Lemma worker_refines_process_events_witness :
  exists n w', run_worker n handle_none true "net" 4 PStart demo_boot [] = Ret (PExit, w', [4])
    /\ dirs w' !! (Filter, "net"%string) = Some {| d_ino := 7; d_entries := [] |}
    /\ dirs w' !! (Uevent, "net"%string) = Some {| d_ino := 100; d_entries := [demo_event] |}.
Proof.
  destruct (worker_refines_process_events handle_none true "net" 4 demo_boot [] demo_done [4]) as [n Hn];
    [vm_compute; reflexivity|].
  exists n, demo_done. split; [exact Hn|]. split; vm_compute; reflexivity.
Defined.

(** A failed fork forgets the events. When fork fails the loop that starts the
    workers has already cleared F_DIRTY and counted the queue down, and nothing
    marks it again: afterwards no worker can be started, although the directories
    are as before. The events wait for the next one in the same queue. *)
Theorem failed_fork_forgets fork s s' :
  (forall k, fork k < 0) -> start_all fork s = Ret s' ->
  wld s' = wld s /\ (forall p, p ∈ watch_list (dm s') -> runnable p = false)
  /\ dirty_queues (dm s') = dirty_queues (dm s) - lenZ (List.filter runnable (watch_list (dm s)))
  /\ forall fork', exists s'', start_all fork' s' = Ret s'' /\ watch_list (dm s'') = watch_list (dm s').
Proof.
  intros Hf H. unfold start_all in H.
  destruct (start_workers fork _ _ _) as [[[l d] n]| | |] eqn:E; cbn in H; try done. simplify_eq. cbn.
  destruct (start_workers_failed fork _ Hf _ _ _ _ _ E) as [HF Hd]. rewrite list.Forall_forall in HF.
  split_and!; try done. intros fork'. unfold start_all. cbn.
  assert (start_workers fork' l d n = Ret (l, d, n)) as ->; [|by eexists].
  clear -HF. induction l as [|p l IH]; [done|]. cbn. rewrite HF by left. cbn.
  rewrite IH; [done|]. intros x Hx. apply HF. by right.
Qed.

Definition no_fork (session : Z) : Z := -1.

(** The queue "net" has an event, its worker cannot be started, and epoll_wait is
    then called without a timeout. *)
Lemma failed_fork_forgets_witness :
  exists s', start_all no_fork demo_start = Ret s' /\ wld s' = wld demo_start
    /\ epoll_timeout (dm demo_start) = 250 /\ epoll_timeout (dm s') = -1
    /\ dirs (wld s') !! (Filter, "net"%string) = Some {| d_ino := 7; d_entries := [demo_event] |}.
Proof.
  destruct (start_all no_fork demo_start) as [s'| | |] eqn:E; [|vm_compute in E; discriminate E..].
  destruct (failed_fork_forgets no_fork demo_start s') as (H1 & _ & H2 & _); [done|done|].
  exists s'. rewrite H1. unfold epoll_timeout. rewrite H2. split_and!; try done; vm_compute; reflexivity.
Defined.
