(* ===== verification/ListHead.v ===== *)
(** The circular doubly linked lists of list.h, on a heap of nodes.

    src/utils/udev-rules/list.h and src/features/runtime/src/libinitramfs/rd/list.h
    are the same file. A node is an address; the structures that embed it are not
    part of the heap. *)

From Stdlib Require Import ZArith Lia.
From stdpp Require Import base list gmap tactics numbers.
From S2P Require Import Prelude.

Open Scope Z_scope.
Open Scope cprog_scope.

(** [None] is NULL. *)
Record list_head := { next : option Z; prev : option Z }.
Abbreviation heap := (gmap Z list_head).

Definition deref (p : option Z) : out Z := match p with Some x => Ret x | None => Undef end.
Definition load (p : Z) (h : heap) : out list_head := match h !! p with Some n => Ret n | None => Undef end.
Definition get_next (p : Z) (h : heap) : out (option Z) := let! n := load p h in Ret (next n).
Definition get_prev (p : Z) (h : heap) : out (option Z) := let! n := load p h in Ret (prev n).

Definition upd_next (p : Z) (v : option Z) (h : heap) : heap :=
  alter (fun n => {| next := v; prev := prev n |}) p h.
Definition upd_prev (p : Z) (v : option Z) (h : heap) : heap :=
  alter (fun n => {| next := next n; prev := v |}) p h.
Definition set_next (p : Z) (v : option Z) (h : heap) : out heap :=
  let! _ := load p h in Ret (upd_next p v h).
Definition set_prev (p : Z) (v : option Z) (h : heap) : out heap :=
  let! _ := load p h in Ret (upd_prev p v h).

(** ** The operations *)

Definition INIT_LIST_HEAD (l : Z) (h : heap) : out heap :=
  let! h := set_prev l (Some l) h in set_next l (Some l) h.

Definition list_empty (head : Z) (h : heap) : out bool :=
  let! n := get_next head h in Ret (bool_decide (n = Some head)).

Definition list_is_first (l head : Z) (h : heap) : out bool :=
  let! p := get_prev l h in Ret (bool_decide (p = Some head)).

Definition list_is_last (l head : Z) (h : heap) : out bool :=
  let! n := get_next l h in Ret (bool_decide (n = Some head)).

Definition _list_del (entry : Z) (h : heap) : out heap :=
  let! n := get_next entry h in
  let! p := get_prev entry h in
  let! n' := deref n in
  let! h := set_prev n' p h in
  let! n := get_next entry h in
  let! p := get_prev entry h in
  let! p' := deref p in
  set_next p' n h.

Definition list_del (entry : Z) (h : heap) : out heap :=
  let! h := _list_del entry h in
  let! h := set_prev entry None h in
  set_next entry None h.

Definition list_del_init (entry : Z) (h : heap) : out heap :=
  let! h := _list_del entry h in INIT_LIST_HEAD entry h.

Definition _list_add (new prev next : Z) (h : heap) : out heap :=
  let! h := set_prev next (Some new) h in
  let! h := set_next new (Some next) h in
  let! h := set_prev new (Some prev) h in
  set_next prev (Some new) h.

Definition list_add (new head : Z) (h : heap) : out heap :=
  let! n := get_next head h in
  let! n := deref n in
  _list_add new head n h.

Definition list_add_tail (new head : Z) (h : heap) : out heap :=
  let! p := get_prev head h in
  let! p := deref p in
  _list_add new p head h.

Definition list_move (l head : Z) (h : heap) : out heap :=
  let! h := _list_del l h in list_add l head h.

Definition list_move_tail (l head : Z) (h : heap) : out heap :=
  let! h := _list_del l h in list_add_tail l head h.

Definition _list_splice (l prev next : Z) (h : heap) : out heap :=
  let! e := list_empty l h in
  if e then Ret h else
  let! first := get_next l h in
  let! last := get_prev l h in
  let! f := deref first in
  let! h := set_prev f (Some prev) h in
  let! h := set_next prev first h in
  let! e := deref last in
  let! h := set_next e (Some next) h in
  set_prev next last h.

Definition list_splice (l head : Z) (h : heap) : out heap :=
  let! n := get_next head h in
  let! n := deref n in
  _list_splice l head n h.

Definition list_splice_tail (l head : Z) (h : heap) : out heap :=
  let! p := get_prev head h in
  let! p := deref p in
  _list_splice l p head h.

Definition list_splice_init (l head : Z) (h : heap) : out heap :=
  let! h := list_splice l head h in INIT_LIST_HEAD l h.

Definition list_splice_tail_init (l head : Z) (h : heap) : out heap :=
  let! h := list_splice_tail l head h in INIT_LIST_HEAD l h.

(** The nodes [list_for_each] visits from [p]; [fuel] bounds their number. *)
Fixpoint list_for_each (fuel : nat) (p : option Z) (head : Z) (h : heap) : out (list Z) :=
  match fuel with
  | O => NoFuel
  | S fuel =>
      if bool_decide (p = Some head) then Ret [] else
      let! x := deref p in
      let! n := get_next x h in
      let! l := list_for_each fuel n head h in
      Ret (x :: l)
  end.

(** ** What a heap represents *)

Definition nx (h : heap) (x : Z) : option (option Z) := next <$> h !! x.
Definition pv (h : heap) (x : Z) : option (option Z) := prev <$> h !! x.

(** Consecutive nodes point to each other. *)
Fixpoint linked (h : heap) (l : list Z) : Prop :=
  match l with
  | x :: (y :: _) as r => nx h x = Some (Some y) /\ pv h y = Some (Some x) /\ linked h r
  | _ => True
  end.

(** [head] is the head of the circular list of the nodes [l]. *)
Definition cyc (h : heap) (head : Z) (l : list Z) : Prop :=
  linked h (head :: l ++ [head]) /\ NoDup (head :: l).

(** Nodes outside [l] are untouched. *)
Definition frame (h h' : heap) (l : list Z) : Prop := forall x, x ∉ l -> h' !! x = h !! x.

(** ** Reading and writing *)

Lemma load_ok p h n : h !! p = Some n -> load p h = Ret n.
Proof. unfold load. by intros ->. Qed.

Lemma get_next_ok p h v : nx h p = Some v -> get_next p h = Ret v.
Proof. unfold nx, get_next, load. destruct (h !! p); cbn; intros; by simplify_eq. Qed.

Lemma get_prev_ok p h v : pv h p = Some v -> get_prev p h = Ret v.
Proof. unfold pv, get_prev, load. destruct (h !! p); cbn; intros; by simplify_eq. Qed.

Lemma set_next_ok p v h : is_Some (h !! p) -> set_next p v h = Ret (upd_next p v h).
Proof. intros [n Hn]. unfold set_next. by rewrite (load_ok _ _ _ Hn). Qed.

Lemma set_prev_ok p v h : is_Some (h !! p) -> set_prev p v h = Ret (upd_prev p v h).
Proof. intros [n Hn]. unfold set_prev. by rewrite (load_ok _ _ _ Hn). Qed.

Lemma upd_next_dom p v h x : is_Some (upd_next p v h !! x) <-> is_Some (h !! x).
Proof.
  unfold upd_next. destruct (decide (p = x)) as [->|Hne]; [|by rewrite lookup_alter_ne].
  rewrite lookup_alter_eq, fmap_is_Some. done.
Qed.

Lemma upd_prev_dom p v h x : is_Some (upd_prev p v h !! x) <-> is_Some (h !! x).
Proof.
  unfold upd_prev. destruct (decide (p = x)) as [->|Hne]; [|by rewrite lookup_alter_ne].
  rewrite lookup_alter_eq, fmap_is_Some. done.
Qed.

Lemma nx_upd_next_eq p v h : is_Some (h !! p) -> nx (upd_next p v h) p = Some v.
Proof. intros [n Hn]. unfold nx, upd_next. by rewrite lookup_alter_eq, Hn. Qed.

Lemma nx_upd_next_ne p v h x : x <> p -> nx (upd_next p v h) x = nx h x.
Proof. intros. unfold nx, upd_next. by rewrite lookup_alter_ne. Qed.

Lemma pv_upd_next p v h x : pv (upd_next p v h) x = pv h x.
Proof.
  unfold pv, upd_next. destruct (decide (p = x)) as [->|Hne]; [|by rewrite lookup_alter_ne].
  rewrite lookup_alter_eq. by destruct (h !! x).
Qed.

Lemma pv_upd_prev_eq p v h : is_Some (h !! p) -> pv (upd_prev p v h) p = Some v.
Proof. intros [n Hn]. unfold pv, upd_prev. by rewrite lookup_alter_eq, Hn. Qed.

Lemma pv_upd_prev_ne p v h x : x <> p -> pv (upd_prev p v h) x = pv h x.
Proof. intros. unfold pv, upd_prev. by rewrite lookup_alter_ne. Qed.

Lemma nx_upd_prev p v h x : nx (upd_prev p v h) x = nx h x.
Proof.
  unfold nx, upd_prev. destruct (decide (p = x)) as [->|Hne]; [|by rewrite lookup_alter_ne].
  rewrite lookup_alter_eq. by destruct (h !! x).
Qed.

Lemma upd_next_other p v h x : x <> p -> upd_next p v h !! x = h !! x.
Proof. intros. unfold upd_next. by rewrite lookup_alter_ne. Qed.

Lemma upd_prev_other p v h x : x <> p -> upd_prev p v h !! x = h !! x.
Proof. intros. unfold upd_prev. by rewrite lookup_alter_ne. Qed.

Lemma nx_dom h x v : nx h x = Some v -> is_Some (h !! x).
Proof. unfold nx. destruct (h !! x); [by eexists|done]. Qed.

Lemma pv_dom h x v : pv h x = Some v -> is_Some (h !! x).
Proof. unfold pv. destruct (h !! x); [by eexists|done]. Qed.

Lemma nx_frame h h' x : h' !! x = h !! x -> nx h' x = nx h x.
Proof. unfold nx. by intros ->. Qed.

Lemma pv_frame h h' x : h' !! x = h !! x -> pv h' x = pv h x.
Proof. unfold pv. by intros ->. Qed.

Create HintDb heap.
#[export] Hint Resolve nx_dom pv_dom : heap.

(** Evaluate reads and writes of nodes whose links are known. *)
Ltac heap_dom :=
  repeat first [rewrite upd_next_dom | rewrite upd_prev_dom]; eauto with heap.
Ltac heap_step :=
  first [ rewrite set_next_ok by heap_dom | rewrite set_prev_ok by heap_dom ]; cbn [obind].
Ltac heap_simpl :=
  repeat first
    [ rewrite pv_upd_next | rewrite nx_upd_prev
    | rewrite nx_upd_next_eq by heap_dom | rewrite pv_upd_prev_eq by heap_dom
    | rewrite nx_upd_next_ne by congruence | rewrite pv_upd_prev_ne by congruence ].

(** ** Links *)

Lemma linked_app h l1 x l2 : linked h (l1 ++ x :: l2) <-> linked h (l1 ++ [x]) /\ linked h (x :: l2).
Proof.
  induction l1 as [|a l1 IH]; [cbn; naive_solver|]. destruct l1 as [|b l1].
  - cbn. destruct l2; naive_solver.
  - change ((a :: b :: l1) ++ x :: l2) with (a :: (b :: l1) ++ x :: l2).
    change ((a :: b :: l1) ++ [x]) with (a :: (b :: l1) ++ [x]).
    cbn [linked app] in *. rewrite IH. cbn. naive_solver.
Qed.

(** Only the next pointers of all nodes but the last and the prev pointers of all
    but the first matter. *)
Lemma linked_frame h h' l : linked h l ->
  (forall x, x ∈ removelast l -> nx h' x = nx h x) -> (forall y, y ∈ tail l -> pv h' y = pv h y) ->
  linked h' l.
Proof.
  induction l as [|x l IH]; [done|]. destruct l as [|y l]; [done|]. intros (Hn & Hp & Hl) Hx Hy.
  cbn [linked]. split_and!.
  - rewrite Hx; [done|]. cbn. by left.
  - rewrite Hy; [done|]. cbn. by left.
  - apply IH; [done|..].
    + intros z Hz. apply Hx. cbn in *. by right.
    + intros z Hz. apply Hy. cbn. by right.
Qed.

Lemma removelast_snoc {A} (l : list A) x : removelast (l ++ [x]) = l.
Proof. rewrite removelast_app by done. cbn. apply app_nil_r. Qed.

Lemma cyc_split h head la lb :
  cyc h head (la ++ lb) ->
  exists l1 p n l2, head :: la = l1 ++ [p] /\ lb ++ [head] = n :: l2
    /\ linked h (l1 ++ [p]) /\ linked h (n :: l2) /\ nx h p = Some (Some n) /\ pv h n = Some (Some p).
Proof.
  intros [Hl _]. destruct (exists_last (l := head :: la)) as (l1 & p & E); [done|].
  destruct (lb ++ [head]) as [|n l2] eqn:E2; [by destruct lb|].
  exists l1, p, n, l2. split_and!; try done;
    replace (head :: (la ++ lb) ++ [head]) with (l1 ++ p :: n :: l2) in Hl
      by (rewrite <- E2; change (head :: (la ++ lb) ++ [head]) with ((head :: la ++ lb) ++ [head]);
          rewrite (app_comm_cons la lb head), E, <- !app_assoc; done);
    apply linked_app in Hl as [H1 H2]; try done; cbn in H2; by destruct H2 as (? & ? & ?).
Qed.

Lemma cyc_join h head la lb l1 p m n l2 :
  head :: la = l1 ++ [p] -> lb ++ [head] = n :: l2 -> NoDup (head :: la ++ m ++ lb) ->
  linked h (l1 ++ p :: m ++ n :: l2) -> cyc h head (la ++ m ++ lb).
Proof.
  intros E1 E2 Hnd Hl. split; [|done].
  replace (head :: (la ++ m ++ lb) ++ [head]) with (l1 ++ p :: m ++ n :: l2); [done|].
  transitivity ((head :: la) ++ m ++ (lb ++ [head])); [|cbn; by rewrite <- !app_assoc].
  by rewrite E1, E2, <- app_assoc.
Qed.

Lemma cyc_next h head l : cyc h head l -> exists n l2, l ++ [head] = n :: l2 /\ nx h head = Some (Some n).
Proof.
  intros H. destruct (cyc_split h head [] l H) as (l1 & p & n & l2 & E1 & E2 & _ & _ & Hn & _).
  exists n, l2. split; [done|]. destruct l1 as [|? [|]]; try done. by injection E1 as <-.
Qed.

Lemma cyc_prev h head l : cyc h head l -> exists l1 p, head :: l = l1 ++ [p] /\ pv h head = Some (Some p).
Proof.
  intros H. rewrite <- (app_nil_r l) in H.
  destruct (cyc_split h head l [] H) as (l1 & p & n & l2 & E1 & E2 & _ & _ & _ & Hp).
  exists l1, p. split; [done|]. by injection E2 as <- <-.
Qed.

(** A new node between two neighbours. *)
Lemma list_add_between h head la lb x l1 p n l2 :
  cyc h head (la ++ lb) -> head :: la = l1 ++ [p] -> lb ++ [head] = n :: l2 ->
  x ∉ head :: la ++ lb -> is_Some (h !! x) ->
  exists h', _list_add x p n h = Ret h' /\ cyc h' head (la ++ [x] ++ lb)
    /\ frame h h' (x :: head :: la ++ lb).
Proof.
  intros Hc E1 E2 Hx Hd. destruct (cyc_split _ _ _ _ Hc) as (l1' & p' & n' & l2' & E1' & E2' & H1 & H2 & Hn & Hp).
  rewrite E1 in E1'. apply app_inj_2 in E1' as [<- E]; [|done]. injection E as <-.
  rewrite E2 in E2'. injection E2' as <- <-.
  pose proof (proj2 Hc) as Hnd. change (head :: la ++ lb) with ((head :: la) ++ lb) in Hnd, Hx. rewrite E1 in Hnd, Hx.
  assert (NoDup (la ++ n :: l2)) as Hnd2.
  { rewrite <- E2, app_assoc, <- (Permutation_cons_append (la ++ lb) head). apply (proj2 Hc). }
  assert (x ∉ lb ++ [head]) as Hx2.
  { rewrite elem_of_app, list_elem_of_singleton. intros [?|He]; apply Hx; rewrite <- E1; [set_solver|]. rewrite He. set_solver. }
  rewrite E2 in Hx2. assert (x <> p) by set_solver. assert (x <> n) by set_solver.
  unfold _list_add. do 4 heap_step. eexists. split; [done|]. split.
  - eapply cyc_join; [exact E1|exact E2| |].
    + cbn. change (head :: la ++ x :: lb) with ((head :: la) ++ x :: lb). rewrite E1.
      rewrite <- (Permutation_middle (l1 ++ [p]) lb x). by apply list.NoDup_cons.
    + apply linked_app. split; [|cbn [app]; change (p :: x :: n :: l2) with ([p] ++ x :: n :: l2); apply linked_app; split].
      * eapply linked_frame; [exact H1|..].
        -- intros y Hy. rewrite removelast_snoc in Hy. heap_simpl.
           assert (y <> p /\ y <> x) as [? ?].
           { split; intros ->; [|apply Hx; set_solver]. apply list.NoDup_app in Hnd as (Hnd & _).
             apply list.NoDup_app in Hnd as (_ & Hnd & _). apply (Hnd p); set_solver. }
           by heap_simpl.
        -- intros y Hy. heap_simpl.
           assert (y <> n /\ y <> x) as [? ?].
           { assert (y ∈ la) as Hyla. { destruct l1 as [|b l1]; injection E1 as <- E1; cbn in Hy; [by apply elem_of_nil in Hy|by rewrite E1]. }
             split; intros ->; [|apply Hx; rewrite <- E1; set_solver].
             apply list.NoDup_app in Hnd2 as (_ & Hnd2 & _). apply (Hnd2 n); set_solver. }
           by heap_simpl.
      * cbn. heap_simpl. done.
      * change (x :: n :: l2) with ([x] ++ n :: l2). apply linked_app. split; [cbn; by heap_simpl|].
        eapply linked_frame; [exact H2|..].
        -- intros y Hy. rewrite <- E2, removelast_snoc in Hy. heap_simpl.
           assert (y <> p /\ y <> x) as [? ?].
           { split; intros ->; [|apply Hx; set_solver]. apply list.NoDup_app in Hnd as (_ & Hnd & _).
             apply (Hnd p); set_solver. }
           by heap_simpl.
        -- intros y Hy. cbn in Hy. heap_simpl.
           assert (y <> n /\ y <> x) as [? ?].
           { split; intros ->; [|set_solver]. apply list.NoDup_app in Hnd2 as (_ & _ & Hnd2).
             apply list.NoDup_cons in Hnd2 as [? _]. set_solver. }
           by heap_simpl.
  - intros y Hy.
    assert (p ∈ head :: la) as Hpin by (rewrite E1; set_solver).
    assert (n ∈ lb ++ [head]) as Hnin by (rewrite E2; set_solver).
    assert (y <> x /\ y <> p /\ y <> n) as (? & ? & ?).
    { split_and!; intros ->; apply Hy; set_solver. }
    rewrite !upd_next_other, !upd_prev_other, ?upd_next_other by done. by rewrite upd_prev_other by done.
Qed.

Lemma linked_upd_next h l p v : linked h l -> p ∉ removelast l -> linked (upd_next p v h) l.
Proof.
  intros H Hp. eapply linked_frame; [exact H|..]; intros y Hy; by heap_simpl.
Qed.

Lemma linked_upd_prev h l p v : linked h l -> p ∉ tail l -> linked (upd_prev p v h) l.
Proof.
  intros H Hp. eapply linked_frame; [exact H|..]; intros y Hy; by heap_simpl.
Qed.

(** The neighbours of a gap occur only there. *)
Lemma gap_sides (head : Z) la m lb l1 p n l2 : NoDup (head :: la ++ m ++ lb) ->
  head :: la = l1 ++ [p] -> lb ++ [head] = n :: l2 ->
  p ∉ l1 /\ p ∉ removelast (n :: l2) /\ n ∉ tail (l1 ++ [p]) /\ n ∉ l2 /\ p ∉ m /\ n ∉ m.
Proof.
  intros Hnd E1 E2. pose proof Hnd as Hnd0.
  change (head :: la ++ m ++ lb) with ((head :: la) ++ m ++ lb) in Hnd. rewrite E1 in Hnd.
  apply list.NoDup_app in Hnd as (Ha & Hb & _). apply list.NoDup_app in Ha as (_ & Hc & _).
  rewrite (Permutation_cons_append (la ++ m ++ lb) head), <- !app_assoc, E2 in Hnd0.
  apply list.NoDup_app in Hnd0 as (_ & Hd & He). apply list.NoDup_app in He as (_ & He & Hf).
  apply list.NoDup_cons in Hf as [Hf _].
  rewrite <- E2, removelast_snoc. split_and!.
  - intros Hin. apply (Hc p); set_solver.
  - intros Hin. apply (Hb p); set_solver.
  - intros Hin. assert (n ∈ la) as Hla.
    { destruct l1 as [|b l1]; injection E1 as <- E1; cbn in Hin; [by apply elem_of_nil in Hin|by rewrite E1]. }
    apply (Hd n); set_solver.
  - done.
  - intros Hin. apply (Hb p); set_solver.
  - intros Hin. apply (He n); set_solver.
Qed.

Lemma gap_in (head : Z) la lb l1 p n l2 : head :: la = l1 ++ [p] -> lb ++ [head] = n :: l2 ->
  p ∈ head :: la ++ lb /\ n ∈ head :: la ++ lb.
Proof.
  intros E1 E2. assert (p ∈ head :: la) by (rewrite E1; set_solver).
  assert (n ∈ lb ++ [head]) by (rewrite E2; set_solver). split; set_solver.
Qed.

Lemma gap_sub (head : Z) la lb l1 p n l2 : head :: la = l1 ++ [p] -> lb ++ [head] = n :: l2 ->
  forall z, z ∈ l1 \/ z ∈ tail (l1 ++ [p]) \/ z ∈ l2 \/ z ∈ removelast (n :: l2) -> z ∈ head :: la ++ lb.
Proof.
  intros E1 E2 z. rewrite <- E1, <- E2, removelast_snoc. cbn.
  assert (z ∈ l1 -> z ∈ head :: la) by (rewrite E1; set_solver).
  assert (z ∈ l2 -> z ∈ lb ++ [head]) by (rewrite E2; set_solver). set_solver.
Qed.

Lemma list_del_between h head la lb x : cyc h head (la ++ [x] ++ lb) ->
  exists h', _list_del x h = Ret h' /\ cyc h' head (la ++ lb) /\ frame h h' (head :: la ++ lb)
    /\ is_Some (h' !! x).
Proof.
  intros Hc. destruct (cyc_split _ _ _ _ Hc) as (l1 & p & x' & l2 & E1 & E2 & H1 & H2 & Hn & Hp).
  injection E2 as <- E2. destruct l2 as [|n l2]; [by destruct lb|].
  destruct H2 as (Hn2 & Hp2 & H2). symmetry in E2.
  pose proof (proj2 Hc) as Hnd. destruct (gap_sides _ _ _ _ _ _ _ _ Hnd E1 (eq_sym E2)) as (S1 & S2 & S3 & S4 & S5 & S6).
  symmetry in E2. assert (x <> p) by set_solver. assert (x <> n) by set_solver.
  unfold _list_del. rewrite (get_next_ok _ _ _ Hn2), (get_prev_ok _ _ _ Hp). cbn [obind deref].
  heap_step. rewrite (get_next_ok _ _ (Some n)), (get_prev_ok _ _ (Some p)) by by heap_simpl.
  cbn [obind deref]. heap_step. eexists. split; [done|]. split; [|split].
  - change (la ++ lb) with (la ++ [] ++ lb). eapply cyc_join; [exact E1|exact E2| |].
    + cbn. apply list.NoDup_cons in Hnd as [Ha Hb]. apply list.NoDup_cons. split; [set_solver|].
      rewrite <- (Permutation_middle la lb x) in Hb. by apply list.NoDup_cons in Hb as [_ ?].
    + cbn [app]. apply linked_app. split.
      * apply linked_upd_next; [by apply linked_upd_prev|by rewrite removelast_snoc].
      * change (p :: n :: l2) with ([p] ++ n :: l2). apply linked_app. split; [cbn; by heap_simpl|].
        apply linked_upd_next; [by apply linked_upd_prev|done].
  - intros y Hy. destruct (gap_in _ _ _ _ _ _ _ E1 E2) as [Hpi Hni].
    rewrite upd_next_other, upd_prev_other; [done|..]; intros ->; done.
  - heap_dom.
Qed.

(** A whole list between two neighbours. *)
Lemma list_splice_between h head la lb l1 p n l2 hd l :
  cyc h head (la ++ lb) -> head :: la = l1 ++ [p] -> lb ++ [head] = n :: l2 ->
  cyc h hd l -> hd ∉ head :: la ++ lb -> (forall x, x ∈ l -> x ∉ head :: la ++ lb) ->
  exists h', _list_splice hd p n h = Ret h' /\ cyc h' head (la ++ l ++ lb)
    /\ frame h h' (l ++ head :: la ++ lb).
Proof.
  intros Hc E1 E2 Hcl Hhd Hdis.
  destruct (cyc_split _ _ _ _ Hc) as (l1' & p' & n' & l2' & E1' & E2' & H1 & H2 & Hn & Hp).
  rewrite E1 in E1'. apply app_inj_2 in E1' as [<- E]; [|done]. injection E as <-.
  rewrite E2 in E2'. injection E2' as <- <-.
  destruct (cyc_next _ _ _ Hcl) as (f & r & Ef & Hf). destruct (cyc_prev _ _ _ Hcl) as (r' & e & Ee & He).
  destruct (gap_in _ _ _ _ _ _ _ E1 E2) as [Hpi Hni].
  unfold _list_splice, list_empty. rewrite (get_next_ok _ _ _ Hf). cbn [obind].
  destruct l as [|x l].
  { injection Ef as <- <-. rewrite bool_decide_eq_true_2 by done. exists h. split; [done|]. split; [|by intros].
    by cbn. }
  injection Ef as <- Ef. destruct r' as [|y r']; [done|]. injection Ee as <- Ee.
  pose proof (proj2 Hcl) as Hndl. apply list.NoDup_cons in Hndl as [Hhl Hndl].
  rewrite bool_decide_eq_false_2 by set_solver.
  rewrite (get_prev_ok _ _ _ He). cbn [obind deref].
  destruct Hcl as [Hlink _]. rewrite app_comm_cons in Hlink. cbn [app] in Hlink.
  change (hd :: x :: l ++ [hd]) with ([hd] ++ x :: l ++ [hd]) in Hlink.
  apply linked_app in Hlink as [Hhx Hlink]. rewrite app_comm_cons in Hlink.
  assert (linked h (x :: l)) as Hxl.
  { rewrite Ee in Hlink |- *. rewrite <- app_assoc in Hlink. cbn in Hlink. by apply linked_app in Hlink as [? _]. }
  assert (is_Some (h !! x)) as Hdx by (cbn in Hhx; destruct Hhx as (_ & Hhx & _); eauto with heap).
  assert (is_Some (h !! e)) as Hde.
  { rewrite Ee, <- app_assoc in Hlink. apply linked_app in Hlink as [_ (Hlink & _)]. eauto with heap. }
  assert (e ∈ x :: l) as Hei by (rewrite Ee; set_solver).
  assert (x <> n /\ x <> p /\ e <> n /\ e <> p) as (? & ? & ? & ?).
  { split_and!; intros ->; [apply (Hdis n)|apply (Hdis p)|apply (Hdis n)|apply (Hdis p)]; (done || left). }
  assert (NoDup (head :: la ++ (x :: l) ++ lb)) as Hnd.
  { rewrite (Permutation_app_comm (x :: l) lb), app_assoc.
    change (head :: (la ++ lb) ++ x :: l) with ((head :: la ++ lb) ++ x :: l). apply list.NoDup_app.
    split_and!; [apply (proj2 Hc)| |done]. intros z Hz Hz'. by apply (Hdis z). }
  destruct (gap_sides _ _ _ _ _ _ _ _ Hnd E1 E2) as (S1 & S2 & S3 & S4 & S5 & S6).
  assert (x ∉ tail (l1 ++ [p]) /\ x ∉ l2 /\ e ∉ l1 /\ e ∉ removelast (n :: l2)) as (T1 & T2 & T3 & T4).
  { pose proof (gap_sub _ _ _ _ _ _ _ E1 E2) as Hsub.
    split_and!; intros Hin; [apply (Hdis x)|apply (Hdis x)|apply (Hdis e)|apply (Hdis e)]; try done;
      try left; apply Hsub; tauto. }
  assert (e ∉ removelast (x :: l) /\ p ∉ removelast (x :: l) /\ n ∉ l /\ x ∉ l) as (U1 & U2 & U3 & U4).
  { apply list.NoDup_cons in Hndl as Hx. split_and!; [..|by destruct Hx].
    - rewrite Ee, removelast_snoc. rewrite Ee in Hndl. apply list.NoDup_app in Hndl as (_ & Hd & _).
      intros Hin. apply (Hd e Hin). by left.
    - intros Hin. apply S5. rewrite Ee, removelast_snoc in Hin. rewrite Ee. apply elem_of_app. by left.
    - intros Hin. apply S6. by right. }
  do 4 heap_step. eexists. split; [done|]. split.
  - eapply cyc_join; [exact E1|exact E2|done|]. cbn [app]. apply linked_app. split.
    + apply linked_upd_prev; [|done]. apply linked_upd_next; [|by rewrite removelast_snoc].
      apply linked_upd_next; [|by rewrite removelast_snoc]. by apply linked_upd_prev.
    + change (p :: x :: l ++ n :: l2) with ([p] ++ x :: l ++ n :: l2). apply linked_app.
      split; [cbn; by heap_simpl|].
      change (x :: l ++ n :: l2) with ((x :: l) ++ n :: l2). rewrite Ee. rewrite <- app_assoc. cbn [app].
      apply linked_app. rewrite <- Ee. split.
      * apply linked_upd_prev; [|done]. apply linked_upd_next; [|done]. apply linked_upd_next; [|done].
        by apply linked_upd_prev.
      * change (e :: n :: l2) with ([e] ++ n :: l2). apply linked_app. split; [cbn; by heap_simpl|].
        apply linked_upd_prev; [|done]. apply linked_upd_next; [|done]. apply linked_upd_next; [|done].
        by apply linked_upd_prev.
  - intros z Hz. assert (z <> x /\ z <> e /\ z <> p /\ z <> n) as (? & ? & ? & ?).
    { clear -Hz Hei Hpi Hni. set_solver. }
    by rewrite upd_prev_other, !upd_next_other, upd_prev_other by done.
Qed.

Lemma cyc_frame h h' head l d : cyc h head l -> frame h h' d -> (forall x, x ∈ head :: l -> x ∉ d) -> cyc h' head l.
Proof.
  intros [Hl Hnd] Hf Hd. split; [|done]. eapply linked_frame; [exact Hl|..].
  - intros x Hx. apply nx_frame, Hf, Hd. rewrite app_comm_cons, removelast_snoc in Hx. done.
  - intros x Hx. apply pv_frame, Hf, Hd. cbn in Hx. set_solver.
Qed.

Lemma cyc_alloc h head l x : cyc h head l -> x ∈ head :: l -> is_Some (h !! x).
Proof.
  intros Hc Hx. apply elem_of_cons in Hx as [->|Hx].
  - destruct (cyc_next _ _ _ Hc) as (n & l2 & _ & Hn). eauto with heap.
  - apply list_elem_of_split in Hx as (la & lb & ->).
    destruct (cyc_split h head la (x :: lb) Hc) as (l1 & p & n & l2 & _ & E2 & _ & _ & _ & Hp).
    injection E2 as <- _. eauto with heap.
Qed.

Lemma list_for_each_loop h head l : forall p fuel, (length l < fuel)%nat -> head ∉ l ->
  linked h (p :: l ++ [head]) -> list_for_each fuel (hd_error (l ++ [head])) head h = Ret l.
Proof.
  induction l as [|x l IH]; intros p fuel Hf Hh Hl; (destruct fuel as [|fuel]; [cbn in Hf; lia|]); cbn.
  { by rewrite bool_decide_eq_true_2. }
  rewrite bool_decide_eq_false_2 by set_solver. cbn.
  change (p :: (x :: l) ++ [head]) with ([p] ++ x :: l ++ [head]) in Hl. apply linked_app in Hl as [_ Hl].
  assert (nx h x = Some (hd_error (l ++ [head]))) as Hn. { destruct l; cbn in *; by destruct Hl. }
  rewrite (get_next_ok _ _ _ Hn). cbn. rewrite (IH x); [done|cbn in Hf; lia|set_solver|done].
Qed.

Lemma list_for_each_ok h head l fuel : cyc h head l -> (length l < fuel)%nat ->
  exists n, get_next head h = Ret n /\ list_for_each fuel n head h = Ret l.
Proof.
  intros Hc Hf. destruct (cyc_next _ _ _ Hc) as (n & l2 & E & Hn). exists (Some n).
  split; [by apply get_next_ok|]. destruct Hc as [Hl Hnd]. apply list.NoDup_cons in Hnd as [Hh _].
  rewrite <- (list_for_each_loop h head l head fuel Hf Hh Hl). by rewrite E.
Qed.

Lemma list_add_ok h head l x : cyc h head l -> x ∉ head :: l -> is_Some (h !! x) ->
  exists h', list_add x head h = Ret h' /\ cyc h' head (x :: l) /\ frame h h' (x :: head :: l).
Proof.
  intros Hc Hx Hd. destruct (cyc_next _ _ _ Hc) as (n & l2 & E & Hn).
  unfold list_add. rewrite (get_next_ok _ _ _ Hn). cbn [obind deref].
  by apply (list_add_between h head [] l x [] head n l2).
Qed.

Lemma list_add_tail_ok h head l x : cyc h head l -> x ∉ head :: l -> is_Some (h !! x) ->
  exists h', list_add_tail x head h = Ret h' /\ cyc h' head (l ++ [x]) /\ frame h h' (x :: head :: l).
Proof.
  intros Hc Hx Hd. destruct (cyc_prev _ _ _ Hc) as (l1 & p & E & Hp).
  unfold list_add_tail. rewrite (get_prev_ok _ _ _ Hp). cbn [obind deref].
  destruct (list_add_between h head l [] x l1 p head []) as (h' & H1 & H2 & H3);
    rewrite ?app_nil_r in *; try done. by exists h'.
Qed.

Lemma list_del_ok h head la lb x : cyc h head (la ++ [x] ++ lb) ->
  exists h', list_del x h = Ret h' /\ cyc h' head (la ++ lb) /\ frame h h' (x :: head :: la ++ lb)
    /\ h' !! x = Some {| next := None; prev := None |}.
Proof.
  intros Hc. destruct (list_del_between _ _ _ _ _ Hc) as (h1 & H1 & H2 & H3 & Hd).
  unfold list_del. rewrite H1. cbn [obind]. do 2 heap_step. eexists. split; [done|].
  assert (x ∉ head :: la ++ lb) as Hx.
  { destruct Hc as [_ Hnd]. rewrite (Permutation_app_swap_app la [x] lb) in Hnd.
    apply list.NoDup_cons in Hnd as [Ha Hb]. cbn in Hb. apply list.NoDup_cons in Hb as [Hb _]. set_solver. }
  split_and!.
  - apply (cyc_frame h1 _ _ _ [x]); [done| |set_solver]. intros y Hy.
    rewrite upd_next_other, upd_prev_other; [done|set_solver..].
  - intros y Hy. rewrite upd_next_other, upd_prev_other; [apply H3|..]; set_solver.
  - unfold upd_next, upd_prev. rewrite !lookup_alter_eq. by destruct Hd as [v ->].
Qed.

Lemma list_splice_ok h head l hd l' : cyc h head l -> cyc h hd l' ->
  (forall x, x ∈ hd :: l' -> x ∉ head :: l) ->
  exists h', list_splice hd head h = Ret h' /\ cyc h' head (l' ++ l) /\ frame h h' (l' ++ head :: l).
Proof.
  intros Hc Hc' Hd. destruct (cyc_next _ _ _ Hc) as (n & l2 & E & Hn).
  unfold list_splice. rewrite (get_next_ok _ _ _ Hn). cbn [obind deref].
  apply (list_splice_between h head [] l [] head n l2 hd l'); try done; intros; apply Hd; set_solver.
Qed.

Lemma list_splice_tail_ok h head l hd l' : cyc h head l -> cyc h hd l' ->
  (forall x, x ∈ hd :: l' -> x ∉ head :: l) ->
  exists h', list_splice_tail hd head h = Ret h' /\ cyc h' head (l ++ l') /\ frame h h' (l' ++ head :: l).
Proof.
  intros Hc Hc' Hd. destruct (cyc_prev _ _ _ Hc) as (l1 & p & E & Hp).
  unfold list_splice_tail. rewrite (get_prev_ok _ _ _ Hp). cbn [obind deref].
  destruct (list_splice_between h head l [] l1 p head [] hd l') as (h' & H1 & H2 & H3);
    rewrite ?app_nil_r in *; try done; [apply Hd; set_solver|intros; apply Hd; set_solver|]. by exists h'.
Qed.

Lemma INIT_LIST_HEAD_ok h x : is_Some (h !! x) ->
  exists h', INIT_LIST_HEAD x h = Ret h' /\ cyc h' x [] /\ frame h h' [x].
Proof.
  intros Hd. unfold INIT_LIST_HEAD. do 2 heap_step. eexists. split; [done|]. split.
  - split; [|apply list.NoDup_singleton]. cbn. by heap_simpl.
  - intros y Hy. rewrite upd_next_other, upd_prev_other; [done|set_solver..].
Qed.

(** ** Theorems *)

(** C22. The operations of list.h are the operations on lists. On a heap in which
    [head] is a circular list of the nodes [l], with every next and prev pointer in
    place: the loop visits [l]; a new node goes to the front or to the end; an
    entry is taken out, and its pointers are NULL afterwards; the nodes of another
    list go to the front or to the end, and that list is empty afterwards. No
    operation dereferences a bad pointer, and none touches a node outside the
    lists. *)
Theorem list_operations h head l : cyc h head l ->
  (exists n, get_next head h = Ret n /\ list_for_each (S (length l)) n head h = Ret l)
  /\ list_empty head h = Ret (bool_decide (l = []))
  /\ (forall x, x ∉ head :: l -> is_Some (h !! x) ->
       (exists h', list_add x head h = Ret h' /\ cyc h' head (x :: l) /\ frame h h' (x :: head :: l))
       /\ exists h', list_add_tail x head h = Ret h' /\ cyc h' head (l ++ [x]) /\ frame h h' (x :: head :: l))
  /\ (forall la x lb, l = la ++ [x] ++ lb ->
       (exists h', list_del x h = Ret h' /\ cyc h' head (la ++ lb) /\ frame h h' (x :: head :: la ++ lb)
          /\ h' !! x = Some {| next := None; prev := None |})
       /\ (exists h', list_move x head h = Ret h' /\ cyc h' head (x :: la ++ lb))
       /\ exists h', list_move_tail x head h = Ret h' /\ cyc h' head ((la ++ lb) ++ [x]))
  /\ (forall hd l', cyc h hd l' -> (forall x, x ∈ hd :: l' -> x ∉ head :: l) ->
       (exists h', list_splice_init hd head h = Ret h' /\ cyc h' head (l' ++ l) /\ cyc h' hd [])
       /\ exists h', list_splice_tail_init hd head h = Ret h' /\ cyc h' head (l ++ l') /\ cyc h' hd []).
Proof.
  intros Hc. split_and!.
  - apply list_for_each_ok; [done|lia].
  - destruct (cyc_next _ _ _ Hc) as (n & l2 & E & Hn). unfold list_empty. rewrite (get_next_ok _ _ _ Hn). cbn.
    f_equal. apply bool_decide_ext. destruct l as [|x l]; injection E as <- <-; [done|]. split; [|done].
    intros [= ->]. destruct Hc as [_ Hnd]. apply list.NoDup_cons in Hnd as [Hnd _]. set_solver.
  - intros x Hx Hd. split; [by apply list_add_ok|by apply list_add_tail_ok].
  - intros la x lb ->. split; [by apply list_del_ok|].
    destruct (list_del_between _ _ _ _ _ Hc) as (h1 & H1 & H2 & H3 & Hd).
    assert (x ∉ head :: la ++ lb) as Hx.
    { destruct Hc as [_ Hnd]. rewrite (Permutation_app_swap_app la [x] lb) in Hnd.
      apply list.NoDup_cons in Hnd as [Ha Hb]. cbn in Hb. apply list.NoDup_cons in Hb as [Hb _]. set_solver. }
    unfold list_move, list_move_tail. rewrite H1. cbn [obind].
    destruct (list_add_ok _ _ _ _ H2 Hx Hd) as (h2 & ? & ? & _).
    destruct (list_add_tail_ok _ _ _ _ H2 Hx Hd) as (h3 & ? & ? & _).
    split; [by exists h2|by exists h3].
  - intros hd l' Hc' Hd. unfold list_splice_init, list_splice_tail_init.
    destruct (list_splice_ok _ _ _ _ _ Hc Hc' Hd) as (h1 & -> & C1 & F1).
    destruct (list_splice_tail_ok _ _ _ _ _ Hc Hc' Hd) as (h2 & -> & C2 & F2). cbn [obind].
    assert (hd ∉ l' ++ head :: l) as Hhd.
    { pose proof (Hd hd ltac:(left)). destruct Hc' as [_ Hnd]. apply list.NoDup_cons in Hnd as [Hnd _]. set_solver. }
    assert (is_Some (h !! hd)) as Hal by (eapply cyc_alloc; [exact Hc'|left]).
    split.
    + destruct (INIT_LIST_HEAD_ok h1 hd) as (h3 & -> & C3 & F3); [by rewrite F1|].
      exists h3. split_and!; try done. apply (cyc_frame h1 _ _ _ [hd]); [done|done|set_solver].
    + destruct (INIT_LIST_HEAD_ok h2 hd) as (h3 & -> & C3 & F3); [by rewrite F2|].
      exists h3. split_and!; try done. apply (cyc_frame h2 _ _ _ [hd]); [done|done|set_solver].
Qed.

(** The heap of a list with two nodes, and one spare node. *)
Definition demo_heap : heap :=
  <[1 := {| next := Some 2; prev := Some 3 |}]>
  (<[2 := {| next := Some 3; prev := Some 1 |}]>
  (<[3 := {| next := Some 1; prev := Some 2 |}]>
  (<[4 := {| next := None; prev := None |}]> ∅))).

Lemma list_operations_witness :
  exists h', list_add_tail 4 1 demo_heap = Ret h' /\ cyc h' 1 [2; 3; 4].
Proof.
  destruct (list_operations demo_heap 1 [2; 3]) as (_ & _ & H & _).
  - split; [by vm_compute|]. apply (bool_decide_unpack _). vm_compute. exact I.
  - destruct (H 4) as (_ & h' & H1 & H2 & _); [set_solver|vm_compute; by eexists|]. by exists h'.
Defined.
