(* ===== verification/ListSort.v ===== *)
(** The merge sort of list_sort.c, on the heap of ListHead and as a function on
    lists.

    The program sorts the nodes of a circular list in place: it cuts the list open,
    chains sorted sublists by their next pointers, keeps the sublists that wait for
    a merge in a list of lists that runs through the prev pointers of their first
    nodes, and restores the circular list in the last merge. *)

From Stdlib Require Import ZArith Lia.
From stdpp Require Import base list gmap tactics numbers sorting.
From S2P Require Import Prelude ListHead.

Open Scope Z_scope.
Open Scope cprog_scope.

(** Membership in lists built by cons and app. *)
Ltac elems := repeat first [rewrite elem_of_cons | rewrite elem_of_app | rewrite elem_of_nil]; tauto.

Section Pure.
Context {A : Type} (cmp : A -> A -> Z).

(** ** On lists *)

Fixpoint mergel (la : list A) : list A -> list A :=
  fix go lb :=
    match la, lb with
    | [], _ => lb
    | _, [] => la
    | a :: la', b :: lb' => if cmp a b <=? 0 then a :: mergel la' lb else b :: go lb'
    end.

(** One merge among the waiting sublists, newest first. *)
Fixpoint settle (n : nat) (bits : Z) (ls : list (list A)) : list (list A) :=
  match n with
  | O => ls
  | S n =>
      if Z.testbit bits 0 then
        match ls with [] => [] | l :: ls => l :: settle n (Z.shiftr bits 1) ls end
      else if negb (bits =? 0) then
        match ls with a :: b :: ls => mergel b a :: ls | _ => ls end
      else ls
  end.

Fixpoint roundsl (l : list A) (count : Z) (ls : list (list A)) : list (list A) :=
  match l with
  | [] => ls
  | x :: l => roundsl l (u64 (count + 1)) ([x] :: settle 65 count ls)
  end.

Definition sortl (l : list A) : list A :=
  match roundsl l 0 [] with
  | [] => []
  | l :: ls => foldl (fun acc p => mergel p acc) l ls
  end.

(** The number of binary digits. *)
Definition bitlen (b : Z) : Z := if b =? 0 then 0 else Z.log2 b + 1.

(** ** Lemmas on the pure sort *)

Lemma mergel_cons a la b lb :
  mergel (a :: la) (b :: lb)
  = if cmp a b <=? 0 then a :: mergel la (b :: lb) else b :: mergel (a :: la) lb.
Proof. done. Qed.

Lemma mergel_nil_r la : mergel la [] = la.
Proof. by destruct la. Qed.

Lemma mergel_nil_l lb : mergel [] lb = lb.
Proof. by destruct lb. Qed.

Lemma mergel_perm la : forall lb, mergel la lb ≡ₚ la ++ lb.
Proof.
  induction la as [|a la IHa]; intros lb; [by rewrite mergel_nil_l|].
  induction lb as [|b lb IHb]; [by rewrite mergel_nil_r, app_nil_r|].
  rewrite mergel_cons. case_match.
  - cbn. by rewrite IHa.
  - rewrite IHb. apply Permutation_middle.
Qed.

Lemma bitlen_nonneg b : 0 <= bitlen b.
Proof. unfold bitlen. pose proof (Z.log2_nonneg b). case_match; lia. Qed.

Lemma bitlen_odd k : 0 <= k -> bitlen (2 * k + 1) = 1 + bitlen k.
Proof.
  intros Hk. unfold bitlen. rewrite (proj2 (Z.eqb_neq (2 * k + 1) 0)) by lia.
  destruct (Z.eqb_spec k 0) as [->|Hne]; [done|]. rewrite Z.log2_succ_double by lia. lia.
Qed.

Lemma bitlen_even k : 0 < k -> bitlen (2 * k) = 1 + bitlen k.
Proof.
  intros Hk. unfold bitlen. rewrite (proj2 (Z.eqb_neq (2 * k) 0)), (proj2 (Z.eqb_neq k 0)) by lia.
  rewrite Z.log2_double by lia. lia.
Qed.

Lemma bits_cases b : 0 <= b ->
  (exists k, 0 <= k /\ b = 2 * k + 1 /\ Z.testbit b 0 = true /\ Z.shiftr b 1 = k)
  \/ (b = 0 /\ Z.testbit b 0 = false) \/ (exists k, 0 < k /\ b = 2 * k /\ Z.testbit b 0 = false).
Proof.
  intros Hb. pose proof (Z.div_mod b 2 ltac:(lia)) as Hdm. pose proof (Z.mod_pos_bound b 2 ltac:(lia)) as Hr.
  assert (0 <= b / 2) by (apply Z.div_pos; lia).
  rewrite Z.shiftr_div_pow2 by lia. change (2 ^ 1) with 2.
  destruct (decide (b mod 2 = 1)) as [E|E].
  - left. exists (b / 2). split_and!; [done|lia| |done]. rewrite Z.bit0_odd, Zodd_mod, E. done.
  - right. assert (Z.testbit b 0 = false) as Ht by (rewrite Z.bit0_odd, Zodd_mod; replace (b mod 2) with 0 by lia; done).
    destruct (decide (b = 0)); [by left|]. right. exists (b / 2). split_and!; [lia|lia|done].
Qed.

(** The number of waiting sublists is the number of digits of count. *)
Lemma settle_length n : forall b ls, 0 <= b < 2 ^ Z.of_nat n -> lenZ ls = bitlen b ->
  lenZ (settle n b ls) + 1 = bitlen (b + 1).
Proof.
  induction n as [|n IH]; intros b ls Hb Hl.
  { cbn in Hb. assert (b = 0) as -> by lia. cbn [settle]. rewrite Hl. done. }
  cbn [settle]. rewrite Nat2Z.inj_succ, Z.pow_succ_r in Hb by lia.
  destruct (bits_cases b) as [(k & Hk & -> & -> & ->)|[[-> ->]|(k & Hk & -> & ->)]]; [lia|..].
  - rewrite bitlen_odd in Hl by done. destruct ls as [|l ls].
    { pose proof (bitlen_nonneg k). change (lenZ []) with 0 in Hl. lia. }
    rewrite lenZ_cons in Hl |- *. rewrite <- Z.add_assoc, IH by lia.
    replace (2 * k + 1 + 1) with (2 * (k + 1)) by lia. rewrite bitlen_even by lia. done.
  - cbn. rewrite Hl. done.
  - rewrite (proj2 (Z.eqb_neq (2 * k) 0)) by lia. cbn [negb]. rewrite bitlen_odd by lia. rewrite bitlen_even in Hl by lia.
    assert (1 <= bitlen k). { unfold bitlen. rewrite (proj2 (Z.eqb_neq k 0)) by lia. pose proof (Z.log2_nonneg k). lia. }
    destruct ls as [|a [|b ls]]; [change (lenZ []) with 0 in Hl; lia|rewrite lenZ_cons in Hl; change (lenZ []) with 0 in Hl; lia|].
    rewrite !lenZ_cons in *. lia.
Qed.

Lemma settle_perm n : forall b ls, concat (settle n b ls) ≡ₚ concat ls.
Proof.
  induction n as [|n IH]; intros b ls; [done|]. cbn. case_match.
  - destruct ls as [|l ls]; [done|]. cbn. by rewrite IH.
  - case_match; [|done]. destruct ls as [|x [|y ls]]; [done|done|]. cbn. rewrite mergel_perm, <- app_assoc.
    apply Permutation_app_swap_app.
Qed.

Lemma roundsl_perm l : forall c ls, concat (roundsl l c ls) ≡ₚ l ++ concat ls.
Proof.
  induction l as [|x l IH]; intros c ls; [done|]. cbn [roundsl]. rewrite IH.
  change (concat ([x] :: settle 65 c ls)) with (x :: concat (settle 65 c ls)). rewrite settle_perm.
  cbn. by rewrite <- Permutation_middle.
Qed.

Lemma roundsl_length l : forall c ls, 0 <= c -> c + lenZ l < 2 ^ 64 -> lenZ ls = bitlen c ->
  lenZ (roundsl l c ls) = bitlen (c + lenZ l).
Proof.
  induction l as [|x l IH]; intros c ls H0 Hc Hl; [by rewrite lenZ_nil, Z.add_0_r|].
  rewrite lenZ_cons in *. pose proof (lenZ_nonneg l). cbn [roundsl]. rewrite u64_small by lia. rewrite IH; [f_equal; lia|lia|lia|].
  rewrite lenZ_cons, Z.add_comm. apply settle_length; [|done]. change (Z.of_nat 65) with 65. lia.
Qed.

(** *** What holds for one node and is kept by a merge holds for the sort *)

Section Sublists.
Context (P : list A -> list A -> Prop).
Context (Pone : forall x, P [x] [x]).
Context (Pmerge : forall s1 s2 l1 l2, P s1 l1 -> P s2 l2 -> P (s1 ++ s2) (mergel l1 l2)).

(** The waiting sublists are the input so far, the newest part in front. *)
Fixpoint parts (s : list A) (ls : list (list A)) : Prop :=
  match ls with
  | [] => s = []
  | l :: ls => exists s1 s2, s = s1 ++ s2 /\ P s2 l /\ parts s1 ls
  end.

Lemma settle_parts n : forall b s ls, parts s ls -> parts s (settle n b ls).
Proof.
  induction n as [|n IH]; intros b s ls H; [done|]. cbn. case_match.
  - destruct ls as [|l ls]; [done|]. destruct H as (s1 & s2 & -> & H1 & H2). exists s1, s2. auto.
  - case_match; [|done]. destruct ls as [|x [|y ls]]; [done|done|].
    destruct H as (s1 & s2 & -> & Hx & s3 & s4 & -> & Hy & Hls).
    exists s3, (s4 ++ s2). rewrite app_assoc. auto.
Qed.

Lemma roundsl_parts l : forall c s ls, parts s ls -> parts (s ++ l) (roundsl l c ls).
Proof.
  induction l as [|x l IH]; intros c s ls H; [by rewrite app_nil_r|].
  change (s ++ x :: l) with (s ++ [x] ++ l). rewrite app_assoc. cbn [roundsl]. apply IH.
  exists s, [x]. split_and!; [done|done|]. by apply settle_parts.
Qed.

Lemma finish_parts ls : forall s1 s2 l, P s2 l -> parts s1 ls ->
  P (s1 ++ s2) (foldl (fun acc p => mergel p acc) l ls).
Proof.
  induction ls as [|p ls IH]; intros s1 s2 l H1 H2; cbn.
  - cbn in H2. by subst s1.
  - destruct H2 as (s3 & s4 & -> & H3 & H4). rewrite <- app_assoc. apply IH; auto.
Qed.

Lemma sortl_P l : l <> [] -> P l (sortl l).
Proof.
  intros Hl. assert (parts l (roundsl l 0 [])) as Hp by by apply (roundsl_parts l 0 [] []).
  unfold sortl. destruct (roundsl l 0 []) as [|l' ls]; [by cbn in Hp|].
  destruct Hp as (s1 & s2 & -> & H1 & H2). by apply finish_parts.
Qed.

End Sublists.

Lemma sortl_perm l : sortl l ≡ₚ l.
Proof.
  destruct (decide (l = [])) as [->|Hne]; [done|]. apply (sortl_P (fun s l => l ≡ₚ s)); [done| |done].
  intros s1 s2 l1 l2 H1 H2. by rewrite mergel_perm, H1, H2.
Qed.

(** *** A comparison that is a total preorder *)

Section Stable.
Context (Htot : forall a b, cmp a b <= 0 \/ cmp b a <= 0).
Context (Htrans : forall a b c, cmp a b <= 0 -> cmp b c <= 0 -> cmp a c <= 0).

Definition cmp_le (a b : A) : Prop := cmp a b <= 0.
Definition cmp_eqv (x y : A) : bool := (cmp x y <=? 0) && (cmp y x <=? 0).

Lemma mergel_sorted l1 : forall l2, StronglySorted cmp_le l1 -> StronglySorted cmp_le l2 ->
  StronglySorted cmp_le (mergel l1 l2).
Proof.
  induction l1 as [|a l1 IH1]; intros l2 H1 H2; [by rewrite mergel_nil_l|].
  induction l2 as [|b l2 IH2]; [by rewrite mergel_nil_r|].
  rewrite mergel_cons. apply StronglySorted_inv in H1 as [H1 F1]. pose proof H2 as H2'.
  apply StronglySorted_inv in H2 as [H2 F2]. destruct (Z.leb_spec (cmp a b) 0) as [Hc|Hc].
  - constructor; [by apply IH1|]. rewrite mergel_perm. apply Forall_app. split; [done|].
    constructor; [done|]. eapply list.Forall_impl; [exact F2|]. intros x Hx. by eapply Htrans.
  - assert (cmp_le b a) as Hba by (destruct (Htot a b); unfold cmp_le; [lia|done]).
    constructor; [apply IH2; done|]. rewrite mergel_perm. apply Forall_app. split; [|done].
    constructor; [done|]. eapply list.Forall_impl; [exact F1|]. intros x Hx. by eapply Htrans.
Qed.

Lemma mergel_stable x l1 : forall l2, StronglySorted cmp_le l1 ->
  List.filter (cmp_eqv x) (mergel l1 l2) = List.filter (cmp_eqv x) l1 ++ List.filter (cmp_eqv x) l2.
Proof.
  induction l1 as [|a l1 IH1]; intros l2 H1; [by rewrite mergel_nil_l|].
  induction l2 as [|b l2 IH2]; [by rewrite mergel_nil_r, app_nil_r|].
  rewrite mergel_cons. pose proof H1 as H1'. apply StronglySorted_inv in H1 as [H1 F1].
  destruct (Z.leb_spec (cmp a b) 0) as [Hc|Hc].
  - cbn [List.filter]. rewrite (IH1 (b :: l2) H1). cbn [List.filter]. by destruct (cmp_eqv x a).
  - change (List.filter (cmp_eqv x) (b :: mergel (a :: l1) l2))
      with (if cmp_eqv x b then b :: List.filter (cmp_eqv x) (mergel (a :: l1) l2) else List.filter (cmp_eqv x) (mergel (a :: l1) l2)).
    rewrite IH2. change (List.filter (cmp_eqv x) (b :: l2))
      with (if cmp_eqv x b then b :: List.filter (cmp_eqv x) l2 else List.filter (cmp_eqv x) l2).
    destruct (cmp_eqv x b) eqn:Eb; [|done].
    assert (List.filter (cmp_eqv x) (a :: l1) = []) as ->; [|done].
    assert (forall y, y ∈ a :: l1 -> cmp_eqv x y = false) as Hno.
    { intros y Hy. destruct (cmp_eqv x y) eqn:Ey; [|done]. unfold cmp_eqv in *. exfalso.
      assert (cmp y b <= 0) as Hyb by (apply (Htrans _ x); zlia).
      apply elem_of_cons in Hy as [->|Hy]; [lia|]. rewrite list.Forall_forall in F1.
      specialize (F1 y Hy). unfold cmp_le in F1. pose proof (Htrans _ _ _ F1 Hyb). lia. }
    clear -Hno. induction (a :: l1) as [|y l IH]; [done|]. cbn. rewrite Hno by left. apply IH. intros z Hz. apply Hno. by right.
Qed.

Lemma sortl_stable l : StronglySorted cmp_le (sortl l)
  /\ forall x, List.filter (cmp_eqv x) (sortl l) = List.filter (cmp_eqv x) l.
Proof.
  destruct (decide (l = [])) as [->|Hne]; [split; [constructor|done]|].
  apply (sortl_P (fun s l => StronglySorted cmp_le l /\ forall x, List.filter (cmp_eqv x) l = List.filter (cmp_eqv x) s)); [..|done].
  - intros x. split; [repeat constructor|done].
  - intros s1 s2 l1 l2 [S1 F1] [S2 F2]. split; [by apply mergel_sorted|]. intros x.
    by rewrite mergel_stable, F1, F2, List.filter_app.
Qed.

End Stable.

End Pure.

Section ListSort.
(** The comparison; the program passes it a pointer that it does not look at. *)
Context (cmp : Z -> Z -> Z).
Local Notation mergel := (mergel cmp).
Local Notation settle := (settle cmp).
Local Notation roundsl := (roundsl cmp).
Local Notation sortl := (sortl cmp).
Local Notation mergel_cons := (mergel_cons cmp).
Local Notation mergel_perm := (mergel_perm cmp).
Local Notation settle_perm := (settle_perm cmp).
Local Notation settle_length := (settle_length cmp).
Local Notation roundsl_perm := (roundsl_perm cmp).
Local Notation roundsl_length := (roundsl_length cmp).

(** ** On the heap *)

(** [*tail = v], where [tail] points to a local variable ([None]) or to the next
    field of a node. *)
Definition store_tail (tail : option Z) (v : option Z) (head : option Z) (h : heap) : out (option Z * heap) :=
  match tail with
  | None => Ret (v, h)
  | Some t => let! h := set_next t v h in Ret (head, h)
  end.

Fixpoint merge_loop (fuel : nat) (a b : Z) (tail head : option Z) (h : heap) : out (option Z * heap) :=
  match fuel with
  | O => NoFuel
  | S fuel =>
      if cmp a b <=? 0 then
        let! (head, h) := store_tail tail (Some a) head h in
        let! n := get_next a h in
        match n with
        | None => store_tail (Some a) (Some b) head h
        | Some a' => merge_loop fuel a' b (Some a) head h
        end
      else
        let! (head, h) := store_tail tail (Some b) head h in
        let! n := get_next b h in
        match n with
        | None => store_tail (Some b) (Some a) head h
        | Some b' => merge_loop fuel a b' (Some b) head h
        end
  end.

Definition merge (fuel : nat) (a b : Z) (h : heap) : out (option Z * heap) := merge_loop fuel a b None None h.

(** The loop that links the rest of [b] behind [tail]. *)
Fixpoint final_rest (fuel : nat) (tail b : Z) (h : heap) : out (Z * heap) :=
  match fuel with
  | O => NoFuel
  | S fuel =>
      let! h := set_prev b (Some tail) h in
      let! n := get_next b h in
      match n with
      | None => Ret (b, h)
      | Some b' => final_rest fuel b b' h
      end
  end.

Fixpoint final_loop (fuel : nat) (tail a b : Z) (h : heap) : out (Z * Z * heap) :=
  match fuel with
  | O => NoFuel
  | S fuel =>
      if cmp a b <=? 0 then
        let! h := set_next tail (Some a) h in
        let! h := set_prev a (Some tail) h in
        let! n := get_next a h in
        match n with
        | None => Ret (a, b, h)
        | Some a' => final_loop fuel a a' b h
        end
      else
        let! h := set_next tail (Some b) h in
        let! h := set_prev b (Some tail) h in
        let! n := get_next b h in
        match n with
        | None => Ret (b, a, h)
        | Some b' => final_loop fuel b a b' h
        end
  end.

Definition merge_final (fuel : nat) (head a b : Z) (h : heap) : out heap :=
  let! (tail, b, h) := final_loop fuel head a b h in
  let! h := set_next tail (Some b) h in
  let! (tail, h) := final_rest fuel tail b h in
  let! h := set_next tail (Some head) h in
  set_prev head (Some tail) h.

(** [tail] points to the variable [pending] ([None]) or to the prev field of a
    node. *)
Definition load_pending (tail pending : option Z) (h : heap) : out (option Z) :=
  match tail with None => Ret pending | Some t => get_prev t h end.
Definition store_pending (tail v pending : option Z) (h : heap) : out (option Z * heap) :=
  match tail with
  | None => Ret (v, h)
  | Some t => let! h := set_prev t v h in Ret (pending, h)
  end.

(** The loop over the bits of count; it ends after at most 64 rounds. *)
Fixpoint find_tail (n : nat) (bits : Z) (tail pending : option Z) (h : heap) : out (option Z * Z) :=
  match n with
  | O => NoFuel
  | S n =>
      if Z.testbit bits 0 then
        let! t := load_pending tail pending h in
        let! t := deref t in
        find_tail n (Z.shiftr bits 1) (Some t) pending h
      else Ret (tail, bits)
  end.

(** The merge of the two sublists behind [tail]. *)
Definition sort_merge (fuel : nat) (tail : option Z) (bits : Z) (pending : option Z) (h : heap)
  : out (option Z * heap) :=
  if negb (bits =? 0) then
    let! a := load_pending tail pending h in
    let! a := deref a in
    let! b := get_prev a h in
    let! b := deref b in
    let! (a, h) := merge fuel b a h in
    let! a := deref a in
    let! p := get_prev b h in
    let! h := set_prev a p h in
    store_pending tail (Some a) pending h
  else Ret (pending, h).

Definition sort_round (fuel : nat) (x : Z) (count : Z) (pending : option Z) (h : heap) : out (option Z * heap) :=
  let! (tail, bits) := find_tail 65 count None pending h in
  let! (pending, h) := sort_merge fuel tail bits pending h in
  let! h := set_prev x pending h in
  Ret (Some x, h).

Fixpoint sort_rounds (mf fuel : nat) (list : Z) (count : Z) (pending : option Z) (h : heap)
  : out (option Z * heap) :=
  match fuel with
  | O => NoFuel
  | S fuel =>
      let! (pending, h) := sort_round mf list count pending h in
      let! n := get_next list h in
      let! h := set_next list None h in
      match n with
      | None => Ret (pending, h)
      | Some list' => sort_rounds mf fuel list' (u64 (count + 1)) pending h
      end
  end.

(** The merges at the end of the input. *)
Fixpoint sort_finish (mf fuel : nat) (head list : Z) (pending : option Z) (h : heap) : out heap :=
  match fuel with
  | O => NoFuel
  | S fuel =>
      let! p := deref pending in
      let! next := get_prev p h in
      match next with
      | None => merge_final mf head p list h
      | Some _ =>
          let! (l, h) := merge mf p list h in
          let! l := deref l in
          sort_finish mf fuel head l next h
      end
  end.

Definition list_sort (fuel : nat) (head : Z) (h : heap) : out heap :=
  let! list := get_next head h in
  let! last := get_prev head h in
  if bool_decide (list = last) then Ret h else
  let! last := deref last in
  let! h := set_next last None h in
  let! list := deref list in
  let! (pending, h) := sort_rounds fuel fuel list 0 None h in
  let! list := deref pending in
  let! pending := get_prev list h in
  sort_finish fuel fuel head list pending h.

(** ** What a heap represents *)

(** A list that ends with NULL, through the next pointers. *)
Fixpoint chain (h : heap) (l : list Z) : Prop :=
  match l with
  | [] => True
  | x :: r => nx h x = Some (head r) /\ chain h r
  end.

(** The list of sublists, through the prev pointers of the first nodes. *)
Fixpoint pend (h : heap) (p : option Z) (ls : list (list Z)) : Prop :=
  match ls with
  | [] => p = None
  | [] :: _ => False
  | (x :: r) :: ls => p = Some x /\ chain h (x :: r) /\ exists q, pv h x = Some q /\ pend h q ls
  end.

(** ** Merging *)

Lemma chain_frame h h' l : chain h l -> (forall x, x ∈ l -> nx h' x = nx h x) -> chain h' l.
Proof.
  induction l as [|x l IH]; [done|]. intros [H1 H2] Hf. split.
  - rewrite Hf; [done|left].
  - apply IH; [done|]. intros y Hy. apply Hf. by right.
Qed.

(** What a merge leaves alone: all prev pointers, and the next pointers of the
    nodes outside. *)
Definition next_frame (h h' : heap) (l : list Z) : Prop :=
  (forall x, pv h' x = pv h x) /\ forall x, x ∉ l -> nx h' x = nx h x.

Definition tail_in (tail : option Z) (l : list Z) : list Z := match tail with Some t => t :: l | None => l end.

Lemma store_tail_ok tail v hd h (l : list Z) :
  (forall t, tail = Some t -> is_Some (h !! t) /\ t ∉ l) ->
  exists hd' h', store_tail tail v hd h = Ret (hd', h')
    /\ (match tail with None => hd' = v | Some t => hd' = hd /\ nx h' t = Some v end)
    /\ next_frame h h' (tail_in tail []) /\ forall x, x ∈ l -> nx h' x = nx h x.
Proof.
  intros Ht. destruct tail as [t|]; cbn.
  - destruct (Ht t eq_refl) as [Hd Hl]. heap_step. do 2 eexists. split; [done|]. split_and!.
    + done.
    + by heap_simpl.
    + split; intros x; [by heap_simpl|]. intros Hx. apply nx_upd_next_ne. set_solver.
    + intros x Hx. apply nx_upd_next_ne. set_solver.
  - do 2 eexists. split; [done|]. split_and!; done.
Qed.

Lemma pv_same_dom h h' x : pv h' x = pv h x -> is_Some (h !! x) -> is_Some (h' !! x).
Proof. intros H [v Hv]. apply (pv_dom h' x (prev v)). rewrite H. unfold pv. by rewrite Hv. Qed.

Lemma next_frame_trans h h1 h2 l l' : next_frame h h1 l -> next_frame h1 h2 l' ->
  (forall x, x ∈ l -> x ∈ l') -> next_frame h h2 l'.
Proof.
  intros [P1 N1] [P2 N2] Hs. split.
  - intros x. by rewrite P2, P1.
  - intros x Hx. rewrite N2, N1; [done| |done]. intros Hin. by apply Hx, Hs.
Qed.

(** The two branches of the loop. *)
Lemma merge_loop_ok fuel : forall la lb a b tail hd h,
  (length la + length lb < fuel)%nat -> chain h (a :: la) -> chain h (b :: lb) ->
  NoDup ((a :: la) ++ b :: lb) ->
  (forall t, tail = Some t -> is_Some (h !! t) /\ t ∉ (a :: la) ++ b :: lb) ->
  exists hd' h', merge_loop fuel a b tail hd h = Ret (hd', h')
    /\ chain h' (mergel (a :: la) (b :: lb))
    /\ (match tail with
        | None => hd' = head (mergel (a :: la) (b :: lb))
        | Some t => hd' = hd /\ nx h' t = Some (head (mergel (a :: la) (b :: lb)))
        end)
    /\ next_frame h h' (tail_in tail ((a :: la) ++ b :: lb)).
Proof.
  induction fuel as [|fuel IH]; intros la lb a b tail hd h Hf Ha Hb Hnd Ht; [lia|].
  cbn [merge_loop]. rewrite mergel_cons. destruct (cmp a b <=? 0).
  - destruct (store_tail_ok tail (Some a) hd h _ Ht) as (hd1 & h1 & -> & H1 & F1 & K1). cbn [obind].
    pose proof Ha as [Hna Hca]. rewrite (get_next_ok a h1 (head la)) by (rewrite K1; [done|set_solver]).
    cbn [obind]. destruct la as [|a' la]; cbn [head].
    + rewrite mergel_nil_l. cbn [store_tail]. rewrite set_next_ok
        by (eapply nx_dom; rewrite K1; [exact Hna|left]). cbn [obind].
      assert (a ∉ b :: lb) as Hab by (cbn in Hnd; apply list.NoDup_cons in Hnd as [? _]; done).
      assert (is_Some (h1 !! a)) as Hda by (eapply nx_dom; rewrite K1; [exact Hna|left]).
      do 2 eexists. split; [done|]. split_and!.
      * split; [by heap_simpl|]. eapply chain_frame; [exact Hb|]. intros x Hx.
        rewrite nx_upd_next_ne by (by intros ->). apply K1. by right.
      * destruct tail as [t|]; [|done]. destruct H1 as [-> H1]. split; [done|].
        rewrite nx_upd_next_ne; [done|]. intros ->. destruct (Ht a eq_refl) as [_ Hin]. apply Hin. left.
      * eapply next_frame_trans; [exact F1| |].
        -- split; intros x; [by heap_simpl|]. intros Hx. apply nx_upd_next_ne. intros ->. apply Hx.
           destruct tail; cbn; set_solver.
        -- intros x Hx. destruct tail; cbn in *; set_solver.
    + destruct (IH la lb a' b (Some a) hd1 h1) as (hd2 & h2 & -> & C2 & H2 & F2).
      * cbn in Hf. lia.
      * eapply chain_frame; [exact Hca|]. intros x Hx. apply K1. set_solver.
      * eapply chain_frame; [exact Hb|]. intros x Hx. apply K1. set_solver.
      * by apply list.NoDup_cons in Hnd as [_ ?].
      * intros t [= <-]. split; [eapply nx_dom; rewrite K1; [exact Hna|left]|].
        by apply list.NoDup_cons in Hnd as [? _].
      * destruct H2 as [-> H2]. do 2 eexists. split; [done|]. split_and!.
        -- split; done.
        -- destruct tail as [t|]; [|done]. destruct H1 as [-> H1]. split; [done|].
           rewrite (proj2 F2); [done|]. destruct (Ht t eq_refl) as [_ Hin]. cbn. set_solver.
        -- eapply next_frame_trans; [exact F1| |].
           ++ split; [apply F2|]. intros x Hx. apply F2. destruct tail; cbn in *; set_solver.
           ++ intros x Hx. destruct tail; cbn in *; set_solver.
  - destruct (store_tail_ok tail (Some b) hd h _ Ht) as (hd1 & h1 & -> & H1 & F1 & K1). cbn [obind].
    pose proof Hb as [Hnb Hcb]. rewrite (get_next_ok b h1 (head lb)) by (rewrite K1; [done|set_solver]).
    cbn [obind]. destruct lb as [|b' lb]; cbn [head].
    + rewrite mergel_nil_r. cbn [store_tail]. rewrite set_next_ok
        by (eapply nx_dom; rewrite K1; [exact Hnb|set_solver]). cbn [obind].
      assert (b ∉ a :: la) as Hab.
      { apply list.NoDup_app in Hnd as (_ & Hnd & _). intros Hin. apply (Hnd b Hin). left. }
      assert (is_Some (h1 !! b)) as Hdb by (eapply nx_dom; rewrite K1; [exact Hnb|set_solver]).
      do 2 eexists. split; [done|]. split_and!.
      * split; [by heap_simpl|]. eapply chain_frame; [exact Ha|]. intros x Hx.
        rewrite nx_upd_next_ne by (by intros ->). apply K1. set_solver.
      * destruct tail as [t|]; [|done]. destruct H1 as [-> H1]. split; [done|].
        rewrite nx_upd_next_ne; [done|]. intros ->. destruct (Ht b eq_refl) as [_ Hin]. apply Hin. set_solver.
      * eapply next_frame_trans; [exact F1| |].
        -- split; intros x; [by heap_simpl|]. intros Hx. apply nx_upd_next_ne. intros ->. apply Hx.
           destruct tail; cbn; set_solver.
        -- intros x Hx. destruct tail; cbn in *; set_solver.
    + assert (NoDup ((a :: la) ++ b' :: lb) /\ b ∉ (a :: la) ++ b' :: lb) as [Hnd' Hbn].
      { rewrite <- (Permutation_middle (a :: la) (b' :: lb) b) in Hnd.
        by apply list.NoDup_cons in Hnd as [? ?]. }
      destruct (IH la lb a b' (Some b) hd1 h1) as (hd2 & h2 & -> & C2 & H2 & F2); [cbn in Hf; lia| | |done| |].
      * eapply chain_frame; [exact Ha|]. intros x Hx. apply K1. set_solver.
      * eapply chain_frame; [exact Hcb|]. intros x Hx. apply K1. set_solver.
      * intros t [= <-]. split; [eapply nx_dom; rewrite K1; [exact Hnb|set_solver]|done].
      * destruct H2 as [-> H2]. do 2 eexists. split; [done|]. split_and!.
        -- split; done.
        -- destruct tail as [t|]; [|done]. destruct H1 as [-> H1]. split; [done|].
           rewrite (proj2 F2); [done|]. destruct (Ht t eq_refl) as [_ Hin]. cbn. set_solver.
        -- eapply next_frame_trans; [exact F1| |].
           ++ split; [apply F2|]. intros x Hx. apply F2. destruct tail; cbn in *; set_solver.
           ++ intros x Hx. destruct tail; cbn in *; set_solver.
Qed.

Lemma merge_ok fuel la lb a b h :
  (length la + length lb < fuel)%nat -> chain h (a :: la) -> chain h (b :: lb) ->
  NoDup ((a :: la) ++ b :: lb) ->
  exists h', merge fuel a b h = Ret (head (mergel (a :: la) (b :: lb)), h')
    /\ chain h' (mergel (a :: la) (b :: lb)) /\ next_frame h h' ((a :: la) ++ b :: lb).
Proof.
  intros Hf Ha Hb Hnd. destruct (merge_loop_ok fuel la lb a b None None h) as (hd' & h' & H1 & H2 & -> & H3); try done.
  by exists h'.
Qed.

(** ** The waiting sublists *)

Lemma get_prev_inv p h v : get_prev p h = Ret v -> pv h p = Some v.
Proof. unfold get_prev, load, pv. destruct (h !! p); cbn; [|done]. by intros [= ->]. Qed.

Lemma load_pending_tail tail pending h p : load_pending tail pending h = Ret p ->
  match tail with None => pending = p | Some t => pending = pending /\ pv h t = Some p end.
Proof. destruct tail; cbn; [|by intros [= ->]]. intros H. split; [done|by apply get_prev_inv]. Qed.

Lemma pend_frame h h' ls : forall p, pend h p ls ->
  (forall x, x ∈ concat ls -> nx h' x = nx h x /\ pv h' x = pv h x) -> pend h' p ls.
Proof.
  induction ls as [|[|x r] ls IH]; intros p H Hf; [done|done|]. destruct H as (-> & Hc & q & Hq & Hp).
  split; [done|]. split.
  - eapply chain_frame; [exact Hc|]. intros y Hy. apply Hf. cbn. change (x :: r ++ concat ls) with ((x :: r) ++ concat ls). set_solver.
  - exists q. split; [rewrite <- Hq; apply Hf; left|]. apply IH; [done|]. intros y Hy. apply Hf. cbn. set_solver.
Qed.

Lemma pend_head h p ls : pend h p ls -> ls <> [] -> exists x, p = Some x /\ x ∈ concat ls /\ is_Some (h !! x).
Proof.
  destruct ls as [|[|x r] ls]; intros H Hne; [done|done|]. destruct H as (-> & _ & q & Hq & _).
  exists x. split_and!; [done|left|eauto with heap].
Qed.

(** The merge at the head of the waiting sublists, which the variable or the node
    [tail] points to. *)
Lemma sort_merge_ok fuel tail pending h p b la lb ls :
  load_pending tail pending h = Ret p -> pend h p (la :: lb :: ls) -> b <> 0 ->
  NoDup (la ++ lb ++ concat ls) -> (length la + length lb <= fuel)%nat ->
  (forall t, tail = Some t -> is_Some (h !! t) /\ t ∉ la ++ lb ++ concat ls) ->
  exists pending' p' h', sort_merge fuel tail b pending h = Ret (pending', h')
    /\ pend h' p' (mergel lb la :: ls)
    /\ (match tail with None => pending' = p' | Some t => pending' = pending /\ pv h' t = Some p' end)
    /\ (forall x, x ∉ la ++ lb ++ concat ls -> nx h' x = nx h x)
    /\ (forall x, x ∉ tail_in tail (la ++ lb ++ concat ls) -> pv h' x = pv h x).
Proof.
  intros Hld Hp Hb Hnd Hf Ht. destruct la as [|a la]; [done|]. destruct Hp as (-> & Ha & q & Hq & Hp).
  destruct lb as [|b' lb]; [done|]. destruct Hp as (-> & Hcb & q' & Hq' & Hp).
  unfold sort_merge. rewrite (proj2 (Z.eqb_neq b 0)) by done. cbn [negb]. rewrite Hld. cbn [obind deref].
  rewrite (get_prev_ok _ _ _ Hq). cbn [obind deref].
  assert (NoDup ((b' :: lb) ++ a :: la)) as Hnd1.
  { rewrite Permutation_app_comm. rewrite app_assoc in Hnd. by apply list.NoDup_app in Hnd as (? & _). }
  destruct (merge_ok fuel lb la b' a h) as (h1 & -> & C1 & P1 & N1); [cbn in Hf; lia|done|done|done|].
  cbn [obind]. pose proof (mergel_perm (b' :: lb) (a :: la)) as Hperm.
  destruct (mergel (b' :: lb) (a :: la)) as [|m ms] eqn:Em.
  { by apply Permutation_nil in Hperm. }
  cbn [head deref obind].
  assert (m ∈ (a :: la) ++ b' :: lb) as Hm. { rewrite Permutation_app_comm, <- Hperm. left. }
  assert (m ∈ (a :: la) ++ (b' :: lb) ++ concat ls) as Hm' by (rewrite app_assoc; apply elem_of_app; by left).
  assert (is_Some (h1 !! m)) as Hdm by (destruct C1 as [C1 _]; eauto with heap).
  rewrite (get_prev_ok b' h1 q') by (by rewrite P1). cbn [obind]. heap_step.
  assert (forall x, x ∈ concat ls -> x ∉ (b' :: lb) ++ a :: la) as Hls.
  { intros x Hx. rewrite app_assoc in Hnd. apply list.NoDup_app in Hnd as (_ & Hnd & _).
    intros Hin. apply (Hnd x); [|done]. by rewrite Permutation_app_comm. }
  assert (chain (upd_prev m q' h1) (m :: ms)) as C2.
  { eapply chain_frame; [exact C1|]. intros x _. by heap_simpl. }
  assert (forall h2, (forall x, x ∈ (b' :: lb) ++ (a :: la) ++ concat ls -> nx h2 x = nx (upd_prev m q' h1) x /\ pv h2 x = pv (upd_prev m q' h1) x) ->
            pend h2 (Some m) ((m :: ms) :: ls)) as Hpend.
  { intros h2 H2. assert (forall x, x ∈ m :: ms -> x ∈ (b' :: lb) ++ (a :: la) ++ concat ls) as Hmm.
    { intros x Hx. rewrite Hperm in Hx. rewrite app_assoc. apply elem_of_app. by left. }
    split; [done|]. split.
    - eapply chain_frame; [exact C2|]. intros x Hx. by apply H2, Hmm.
    - exists q'. split; [rewrite (proj2 (H2 m (Hmm m ltac:(left)))); by heap_simpl|].
      eapply pend_frame; [exact Hp|]. intros x Hx. destruct (H2 x) as [-> ->]; [rewrite !elem_of_app; tauto|].
      assert (x <> m) by (intros ->; apply (Hls m Hx); rewrite <- Hperm; left).
      heap_simpl. rewrite P1. split; [|done]. apply N1. by apply Hls. }
  destruct tail as [t|]; cbn [store_pending].
  - destruct (Ht t eq_refl) as [Hdt Htn]. assert (t <> m) by (intros ->; by apply Htn).
    assert (is_Some (h1 !! t)) as Hdt1 by (eapply pv_same_dom; [apply P1|done]).
    heap_step. do 3 eexists. split; [done|]. split_and!.
    + apply Hpend. intros x Hx. assert (x <> t) by (intros ->; apply Htn; revert Hx; rewrite !elem_of_app; tauto). by heap_simpl.
    + done.
    + by heap_simpl.
    + intros x Hx. heap_simpl. apply N1. revert Hx. rewrite !elem_of_app. tauto.
    + intros x Hx. unfold tail_in in Hx. apply not_elem_of_cons in Hx as [Hxt Hx].
      assert (x <> m) by (intros ->; by apply Hx). heap_simpl. apply P1.
  - do 3 eexists. split; [done|]. split_and!.
    + by apply Hpend.
    + done.
    + intros x Hx. heap_simpl. apply N1. revert Hx. rewrite !elem_of_app. tauto.
    + intros x Hx. unfold tail_in in Hx. assert (x <> m) by (intros ->; by apply Hx). heap_simpl. apply P1.
Qed.

Lemma find_tail_S n bits tail pending h : find_tail (S n) bits tail pending h =
  if Z.testbit bits 0 then
    let! t := load_pending tail pending h in
    let! t := deref t in
    find_tail n (Z.shiftr bits 1) (Some t) pending h
  else Ret (tail, bits).
Proof. done. Qed.

Lemma settle_S n bits ls : settle (S n) bits ls =
  if Z.testbit bits 0 then match ls with [] => [] | l :: ls => l :: settle n (Z.shiftr bits 1) ls end
  else if negb (bits =? 0) then match ls with a :: b :: ls => mergel b a :: ls | _ => ls end
  else ls.
Proof. done. Qed.

Lemma settle_ok fuel n : forall b tail pending h p ls,
  load_pending tail pending h = Ret p -> pend h p ls -> 0 <= b < 2 ^ Z.of_nat n -> lenZ ls = bitlen b ->
  NoDup (concat ls) -> (length (concat ls) <= fuel)%nat ->
  (forall t, tail = Some t -> is_Some (h !! t) /\ t ∉ concat ls) ->
  exists tail' b' pending' p' h', find_tail (S n) b tail pending h = Ret (tail', b')
    /\ sort_merge fuel tail' b' pending h = Ret (pending', h')
    /\ pend h' p' (settle (S n) b ls)
    /\ (match tail with None => pending' = p' | Some t => pending' = pending /\ pv h' t = Some p' end)
    /\ (forall x, x ∉ concat ls -> nx h' x = nx h x)
    /\ (forall x, x ∉ tail_in tail (concat ls) -> pv h' x = pv h x).
Proof.
  induction n as [|n IH]; intros b tail pending h p ls Hld Hp Hb Hl Hnd Hf Ht.
  { cbn in Hb. assert (b = 0) as -> by lia. change (bitlen 0) with 0 in Hl.
    destruct ls; [|rewrite lenZ_cons in Hl; pose proof (lenZ_nonneg ls); lia].
    do 5 eexists. do 2 (split; [done|]). cbn in Hp |- *. subst p. split; [done|]. split; [|done].
    by apply load_pending_tail. }
  rewrite find_tail_S, settle_S. rewrite Nat2Z.inj_succ, Z.pow_succ_r in Hb by lia.
  destruct (bits_cases b) as [(k & Hk & -> & -> & ->)|[[-> ->]|(k & Hk & -> & ->)]]; [lia|..].
  - rewrite bitlen_odd in Hl by done. destruct ls as [|[|x l] ls]; [|done|].
    { pose proof (bitlen_nonneg k). change (lenZ []) with 0 in Hl. lia. }
    rewrite lenZ_cons in Hl. destruct Hp as (-> & Hc & q & Hq & Hp). rewrite Hld. cbn [obind deref].
    cbn [concat] in Hnd. apply list.NoDup_app in Hnd as (Hnd1 & Hdis & Hnd2).
    destruct (IH k (Some x) pending h q ls) as (tail' & b' & pending' & p' & h' & -> & Hm & Hp' & [-> Hx'] & N & P); try done.
    + cbn. by apply get_prev_ok.
    + lia.
    + lia.
    + cbn [concat] in Hf. rewrite length_app in Hf. lia.
    + intros t [= <-]. split; [eauto with heap|]. intros Hin. apply (Hdis x); [left|done].
    + do 5 eexists. split; [done|]. split; [exact Hm|]. split_and!.
      * split; [done|]. split; [|by exists p']. eapply chain_frame; [exact Hc|]. intros y Hy. apply N.
        intros Hin. by apply (Hdis y).
      * destruct tail as [t|]; [|by injection Hld]. split; [done|]. cbn in Hld. rewrite P.
        -- by apply get_prev_inv.
        -- destruct (Ht t eq_refl) as [_ Hin]. cbn in Hin |- *. intros Hx. apply Hin.
           apply elem_of_cons in Hx as [->|Hx]; [left|right]. apply elem_of_app. by right.
      * intros y Hy. apply N. intros Hin. apply Hy. cbn [concat]. apply elem_of_app. by right.
      * intros y Hy. apply P. cbn. intros Hin. apply Hy.
        assert (y ∈ concat ((x :: l) :: ls)) by (apply elem_of_cons in Hin as [->|Hin]; [left|cbn [concat]; apply elem_of_app; by right]).
        destruct tail; cbn [tail_in]; [by right|done].
  - cbn [negb Z.eqb]. do 5 eexists. split; [done|]. split; [done|]. split_and!; try done.
    by apply load_pending_tail.
  - rewrite (proj2 (Z.eqb_neq (2 * k) 0)) by lia. cbn [negb]. rewrite bitlen_even in Hl by lia.
    assert (1 <= bitlen k). { unfold bitlen. rewrite (proj2 (Z.eqb_neq k 0)) by lia. pose proof (Z.log2_nonneg k). lia. }
    destruct ls as [|la [|lb ls]]; [change (lenZ []) with 0 in Hl; lia|rewrite lenZ_cons in Hl; change (lenZ []) with 0 in Hl; lia|].
    cbn [concat] in *.
    destruct (sort_merge_ok fuel tail pending h p (2 * k) la lb ls) as (pending' & p' & h' & H1 & H2 & H3 & H4 & H5); try done.
    + lia.
    + rewrite !length_app in Hf. lia.
    + do 5 eexists. split; [done|]. split; [exact H1|]. split_and!; try done.
Qed.

Lemma sort_round_ok fuel x v count pending h ls :
  pend h pending ls -> 0 <= count < 2 ^ 64 -> lenZ ls = bitlen count ->
  NoDup (x :: concat ls) -> (length (concat ls) <= fuel)%nat -> nx h x = Some v ->
  exists p' h', sort_round fuel x count pending h = Ret (Some x, h')
    /\ pend h' p' (settle 65 count ls) /\ pv h' x = Some p' /\ nx h' x = Some v
    /\ forall y, y ∉ x :: concat ls -> nx h' y = nx h y /\ pv h' y = pv h y.
Proof.
  intros Hp Hc Hl Hnd Hf Hx. apply list.NoDup_cons in Hnd as [Hxn Hnd].
  destruct (settle_ok fuel 64 count None pending h pending ls) as (tail' & b' & pending' & p' & h1 & H1 & H2 & H3 & -> & N & P); try done.
  unfold sort_round. rewrite H1. cbn [obind]. rewrite H2. cbn [obind].
  assert (nx h1 x = Some v) as Hx1 by (by rewrite N).
  heap_step. exists p'. eexists. split; [done|]. split_and!.
  - eapply pend_frame; [exact H3|]. intros y Hy. assert (y <> x) by (intros ->; rewrite settle_perm in Hy; done). by heap_simpl.
  - by heap_simpl.
  - by heap_simpl.
  - intros y Hy. apply not_elem_of_cons in Hy as [Hyx Hy]. heap_simpl. split; [by apply N|by apply P].
Qed.

Lemma sort_rounds_ok mf l : forall x fuel count pending h ls,
  pend h pending ls -> chain h (x :: l) -> NoDup (x :: l ++ concat ls) ->
  0 <= count -> count + lenZ (x :: l) < 2 ^ 64 -> lenZ ls = bitlen count ->
  (length l < fuel)%nat -> (length (x :: l ++ concat ls) <= mf)%nat ->
  exists p h', sort_rounds mf fuel x count pending h = Ret (p, h') /\ pend h' p (roundsl (x :: l) count ls)
    /\ forall y, y ∉ x :: l ++ concat ls -> nx h' y = nx h y /\ pv h' y = pv h y.
Proof.
  induction l as [|x' l IH]; intros x fuel count pending h ls Hp Hc Hnd H0 Hcnt Hl Hfu Hmf;
    (destruct fuel as [|fuel]; [cbn in Hfu; lia|]); destruct Hc as [Hx Hc]; cbn [sort_rounds];
    rewrite !lenZ_cons in Hcnt; pose proof (lenZ_nonneg l) as Hll || idtac.
  - change (lenZ []) with 0 in Hcnt.
    destruct (sort_round_ok mf x None count pending h ls) as (p' & h1 & -> & P1 & X1 & X2 & F1); try done; try lia.
    { cbn in Hmf. lia. }
    cbn [obind]. rewrite (get_next_ok _ _ _ X2). cbn [obind]. heap_step. do 2 eexists. split; [done|]. split.
    + cbn [roundsl]. split; [done|]. split; [split; [by heap_simpl|done]|]. exists p'. split; [by heap_simpl|].
      eapply pend_frame; [exact P1|]. intros y Hy. heap_simpl. split; [|done]. apply nx_upd_next_ne.
      intros ->. rewrite settle_perm in Hy. apply list.NoDup_cons in Hnd as [Hnd _]. done.
    + intros y Hy. cbn in Hy. heap_simpl. rewrite nx_upd_next_ne by (intros ->; apply Hy; left). by apply F1.
  - assert (NoDup (x :: concat ls)) as Hnd1.
    { apply list.NoDup_cons in Hnd as [Ha Hb]. apply list.NoDup_app in Hb as (_ & _ & Hb). apply list.NoDup_cons.
      split; [|done]. intros Hin. apply Ha. apply elem_of_app. by right. }
    destruct (sort_round_ok mf x (Some x') count pending h ls) as (p' & h1 & -> & P1 & X1 & X2 & F1); try done; try lia.
    { cbn in Hmf. rewrite length_app in Hmf. lia. }
    cbn [obind]. rewrite (get_next_ok _ _ _ X2). cbn [obind]. heap_step.
    rewrite u64_small by lia.
    assert (x ∉ x' :: l ++ concat ls) as Hxn by (by apply list.NoDup_cons in Hnd as [? _]).
    assert (concat ([x] :: settle 65 count ls) ≡ₚ x :: concat ls) as Hperm
      by (change (x :: concat (settle 65 count ls) ≡ₚ x :: concat ls); by rewrite settle_perm).
    assert (forall y, y ∈ x' :: l -> y ∉ x :: concat ls) as Hout.
    { intros y Hy Hin. apply elem_of_cons in Hin as [->|Hin]; [apply Hxn; change (x' :: l ++ concat ls) with ((x' :: l) ++ concat ls); apply elem_of_app; by left|].
      apply list.NoDup_cons in Hnd as [_ Hnd]. change ((x' :: l) ++ concat ls) with ((x' :: l) ++ concat ls) in Hnd.
      apply list.NoDup_app in Hnd as (_ & Hnd & _). by apply (Hnd y). }
    destruct (IH x' fuel (count + 1) (Some x) (upd_next x None h1) ([x] :: settle 65 count ls)) as (p & h' & -> & P2 & F2).
    + split; [done|]. split; [split; [by heap_simpl|done]|]. exists p'. split; [by heap_simpl|].
      eapply pend_frame; [exact P1|]. intros y Hy. heap_simpl. split; [|done]. apply nx_upd_next_ne.
      intros ->. rewrite settle_perm in Hy. by apply list.NoDup_cons in Hnd1 as [Hnd1 _].
    + eapply chain_frame; [exact Hc|]. intros y Hy. assert (y <> x) by (intros ->; apply (Hout x Hy); left).
      heap_simpl. by apply F1, Hout.
    + rewrite Hperm, app_comm_cons, <- (Permutation_middle (x' :: l) (concat ls) x). exact Hnd.
    + lia.
    + rewrite lenZ_cons. lia.
    + rewrite lenZ_cons, Z.add_comm. apply settle_length; [split; [done|]|done]. change (Z.of_nat 65) with 65. lia.
    + cbn in Hfu. lia.
    + etransitivity; [|exact Hmf]. apply Nat.eq_le_incl. rewrite Hperm, app_comm_cons, <- (Permutation_middle (x' :: l) (concat ls) x). done.
    + do 2 eexists. split; [done|]. split; [change (pend h' p (roundsl (x' :: l) (u64 (count + 1)) ([x] :: settle 65 count ls))); by rewrite u64_small by lia|].
      intros y Hy. destruct (F2 y) as [-> ->].
      { rewrite Hperm. intros Hin. apply Hy. revert Hin. elems. }
      assert (y <> x) by (intros ->; apply Hy; left). heap_simpl. apply F1. intros Hin. apply Hy. revert Hin. elems.
Qed.

(** ** The last merge *)

Lemma final_rest_ok l : forall b tail fuel h, chain h (b :: l) -> NoDup (b :: l) ->
  nx h tail = Some (Some b) -> (length l < fuel)%nat ->
  exists r t h', final_rest fuel tail b h = Ret (t, h') /\ b :: l = r ++ [t] /\ linked h' (tail :: b :: l)
    /\ (forall x, nx h' x = nx h x) /\ (forall x, x ∉ b :: l -> pv h' x = pv h x).
Proof.
  induction l as [|c l IH]; intros b tail fuel h Hc Hnd Ht Hf; (destruct fuel as [|fuel]; [cbn in Hf; lia|]);
    destruct Hc as [Hb Hc]; cbn [final_rest]; heap_step.
  - rewrite (get_next_ok _ _ None) by (by heap_simpl). cbn [obind]. exists [], b. eexists.
    split; [done|]. split; [done|]. split_and!.
    + cbn. by heap_simpl.
    + intros x. by heap_simpl.
    + intros x Hx. assert (x <> b) by set_solver. by heap_simpl.
  - rewrite (get_next_ok _ _ (Some c)) by (by heap_simpl). cbn [obind].
    apply list.NoDup_cons in Hnd as [Hbn Hnd].
    destruct (IH c b fuel (upd_prev b (Some tail) h)) as (r & t & h' & -> & E & L & N & P); try done.
    { eapply chain_frame; [exact Hc|]. intros x Hx. by heap_simpl. }
    { by heap_simpl. }
    { cbn in Hf. lia. }
    exists (b :: r), t, h'. split; [done|]. split; [by rewrite E|]. split_and!; try done.
    + split_and!; [rewrite N; by heap_simpl|rewrite P by done; by heap_simpl|done].
    + intros x. rewrite N. by heap_simpl.
    + intros x Hx. rewrite P by set_solver. assert (x <> b) by set_solver. by heap_simpl.
Qed.

(** Taking one node: what is known before the next round. *)
Lemma final_take tail x h l : is_Some (h !! tail) -> nx h x = Some (head l) -> tail <> x ->
  let h1 := upd_prev x (Some tail) (upd_next tail (Some x) h) in
  nx h1 x = Some (head l) /\ nx h1 tail = Some (Some x) /\ pv h1 x = Some (Some tail)
  /\ pv h1 tail = pv h tail /\ forall y, y <> tail -> y <> x -> nx h1 y = nx h y /\ pv h1 y = pv h y.
Proof.
  intros Hd Hx Hne h1. unfold h1. assert (is_Some (h !! x)) by eauto with heap.
  split_and!; try (by heap_simpl). intros y Hy1 Hy2. by heap_simpl.
Qed.

Lemma final_loop_ok fuel : forall la lb a b tail h,
  (length la + length lb < fuel)%nat -> chain h (a :: la) -> chain h (b :: lb) ->
  NoDup (tail :: (a :: la) ++ b :: lb) -> is_Some (h !! tail) ->
  exists m1 t' b' m2 h', final_loop fuel tail a b h = Ret (t', b', h')
    /\ mergel (a :: la) (b :: lb) = m1 ++ t' :: b' :: m2
    /\ linked h' (tail :: m1 ++ [t']) /\ chain h' (b' :: m2)
    /\ (forall x, x ∉ tail :: m1 ++ [t'] -> nx h' x = nx h x /\ pv h' x = pv h x) /\ pv h' tail = pv h tail.
Proof.
  induction fuel as [|fuel IH]; intros la lb a b tail h Hf Ha Hb Hnd Hd; [lia|].
  cbn [final_loop]. rewrite mergel_cons. apply list.NoDup_cons in Hnd as [Htn Hnd].
  assert (tail <> a /\ tail <> b) as [Hta Htb] by (split; intros ->; apply Htn; set_solver).
  destruct (cmp a b <=? 0).
  - destruct Ha as [Hna Hca]. destruct (final_take tail a h la Hd Hna Hta) as (X1 & X2 & X3 & X4 & X5).
    do 2 heap_step. rewrite (get_next_ok _ _ _ X1). cbn [obind].
    set (h1 := upd_prev a (Some tail) (upd_next tail (Some a) h)) in *.
    assert (forall y, y ∈ la ++ b :: lb -> nx h1 y = nx h y) as K1.
    { intros y Hy. apply X5; intros ->; [apply Htn|]; [by right|]. by apply list.NoDup_cons in Hnd as [? _]. }
    destruct la as [|a' la]; cbn [head].
    + exists [], a, b, lb, h1. rewrite mergel_nil_l. split_and!; try done.
      * eapply chain_frame; [exact Hb|]. intros y Hy. by apply K1.
      * intros x Hx. apply X5; set_solver.
    + apply list.NoDup_cons in Hnd as [Han Hnd].
      destruct (IH la lb a' b a h1) as (m1 & t' & b' & m2 & h' & -> & E & L & C & F & P).
      * cbn in Hf. lia.
      * eapply chain_frame; [exact Hca|]. intros y Hy. apply K1. apply elem_of_app. by left.
      * eapply chain_frame; [exact Hb|]. intros y Hy. apply K1. apply elem_of_app. by right.
      * by apply list.NoDup_cons.
      * eauto with heap.
      * assert (tail ∉ a :: m1 ++ [t']) as Htm.
        { intros Hin. apply elem_of_cons in Hin as [->|Hin]; [done|]. apply Htn. right.
          change (tail ∈ (a' :: la) ++ b :: lb). rewrite <- mergel_perm, E. apply elem_of_app in Hin as [Hin|Hin]; apply elem_of_app; [by left|right].
          apply list_elem_of_singleton in Hin as ->. left. }
        exists (a :: m1), t', b', m2, h'. rewrite E. split_and!; try done.
        -- split_and!; [by rewrite (proj1 (F _ Htm))|by rewrite P|done].
        -- intros x Hx. destruct (F x) as [-> ->]; [set_solver|]. apply X5; set_solver.
        -- rewrite (proj2 (F _ Htm)). done.
  - destruct Hb as [Hnb Hcb]. destruct (final_take tail b h lb Hd Hnb Htb) as (X1 & X2 & X3 & X4 & X5).
    do 2 heap_step. rewrite (get_next_ok _ _ _ X1). cbn [obind].
    set (h1 := upd_prev b (Some tail) (upd_next tail (Some b) h)) in *.
    rewrite <- (Permutation_middle (a :: la) lb b) in Hnd. apply list.NoDup_cons in Hnd as [Hbn Hnd].
    assert (forall y, y ∈ (a :: la) ++ lb -> nx h1 y = nx h y) as K1.
    { intros y Hy. apply X5; intros ->; [apply Htn|done]. revert Hy. elems. }
    destruct lb as [|b' lb]; cbn [head].
    + exists [], b, a, la, h1. rewrite mergel_nil_r. split_and!; try done.
      * eapply chain_frame; [exact Ha|]. intros y Hy. apply K1. by rewrite app_nil_r.
      * intros x Hx. apply X5; set_solver.
    + destruct (IH la lb a b' b h1) as (m1 & t' & c & m2 & h' & -> & E & L & C & F & P).
      * cbn in Hf. lia.
      * eapply chain_frame; [exact Ha|]. intros y Hy. apply K1. apply elem_of_app. by left.
      * eapply chain_frame; [exact Hcb|]. intros y Hy. apply K1. apply elem_of_app. by right.
      * by apply list.NoDup_cons.
      * eauto with heap.
      * assert (tail ∉ b :: m1 ++ [t']) as Htm.
        { intros Hin. apply elem_of_cons in Hin as [->|Hin]; [done|]. apply Htn.
          assert (tail ∈ (a :: la) ++ b' :: lb) as Hin'.
          { rewrite <- mergel_perm, E. apply elem_of_app in Hin as [Hin|Hin]; apply elem_of_app; [by left|right].
            apply list_elem_of_singleton in Hin as ->. left. }
          revert Hin'. elems. }
        exists (b :: m1), t', c, m2, h'. rewrite E. split_and!; try done.
        -- split_and!; [by rewrite (proj1 (F _ Htm))|by rewrite P|done].
        -- intros x Hx. destruct (F x) as [-> ->]; [set_solver|]. apply X5; set_solver.
        -- rewrite (proj2 (F _ Htm)). done.
Qed.

Lemma linked_alloc h l : forall x y, linked h (x :: l) -> y ∈ l -> is_Some (h !! y).
Proof.
  induction l as [|z l IH]; intros x y Hl Hy; [by apply elem_of_nil in Hy|].
  destruct Hl as (_ & Hz & Hl). apply elem_of_cons in Hy as [->|Hy]; [eauto with heap|]. by eapply IH.
Qed.

(** The links of a whole list from the links of its two parts. *)
Lemma linked_snoc h l x : forall r t, l = r ++ [t] -> linked h l ->
  nx h t = Some (Some x) -> pv h x = Some (Some t) -> linked h (l ++ [x]).
Proof.
  intros r t -> Hl Hn Hp. rewrite <- app_assoc. cbn. apply linked_app. split; [done|]. done.
Qed.

Lemma merge_final_ok fuel hd a la b lb h :
  (length la + length lb + 1 < fuel)%nat -> chain h (a :: la) -> chain h (b :: lb) ->
  NoDup (hd :: (a :: la) ++ b :: lb) -> is_Some (h !! hd) ->
  exists h', merge_final fuel hd a b h = Ret h' /\ cyc h' hd (mergel (a :: la) (b :: lb))
    /\ forall x, x ∉ hd :: (a :: la) ++ b :: lb -> nx h' x = nx h x /\ pv h' x = pv h x.
Proof.
  intros Hf Ha Hb Hnd Hd.
  destruct (final_loop_ok fuel la lb a b hd h) as (m1 & t & c & m2 & h1 & E1 & E & L & C & F & P); [lia|done..|].
  pose proof (mergel_perm (a :: la) (b :: lb)) as Hperm. rewrite E in Hperm. rewrite <- Hperm in Hnd.
  pose proof Hnd as Hnd0. apply list.NoDup_cons in Hnd as [Hhn Hnd].
  apply list.NoDup_app in Hnd as (Hn1 & Hn2 & Hn3). apply list.NoDup_cons in Hn3 as [Ht Hn3].
  unfold merge_final. rewrite E1. cbn [obind].
  assert (is_Some (h1 !! t)) as Hdt by (eapply linked_alloc; [exact L|]; elems).
  heap_step.
  destruct (final_rest_ok m2 c t fuel (upd_next t (Some c) h1)) as (r & e & h2 & -> & Er & L2 & N2 & P2).
  { eapply chain_frame; [exact C|]. intros x Hx. apply nx_upd_next_ne. by intros ->. }
  { done. }
  { by heap_simpl. }
  { apply Permutation_length in Hperm. cbn in Hperm. rewrite !length_app in Hperm. cbn in Hperm. lia. }
  cbn [obind].
  assert (e ∈ c :: m2) as He by (rewrite Er; elems).
  assert (is_Some (h2 !! e)) as Hde by (eapply linked_alloc; [exact L2|done]).
  assert (is_Some (h2 !! hd)) as Hdh.
  { apply (pv_same_dom h); [|done]. rewrite P2; [heap_simpl; exact P|]. intros Hin. apply Hhn. revert Hin. elems. }
  assert (hd <> e) by (intros ->; apply Hhn; revert He; elems).
  do 2 heap_step. eexists. split; [done|]. split.
  - rewrite E. split; [|done].
    assert (linked h2 (hd :: m1 ++ [t])) as L1.
    { eapply linked_frame; [exact L|..].
      - intros x Hx. rewrite app_comm_cons, removelast_snoc in Hx. rewrite N2. apply nx_upd_next_ne. intros ->.
        apply elem_of_cons in Hx as [->|Hx]; [apply Hhn; elems|]. apply (Hn2 t Hx). left.
      - intros x Hx. cbn in Hx. rewrite P2; [by heap_simpl|]. intros Hin. apply elem_of_app in Hx as [Hx|Hx].
        + apply (Hn2 x Hx). by right.
        + apply list_elem_of_singleton in Hx as ->. done. }
    assert (linked h2 (hd :: m1 ++ t :: c :: m2)) as Lall.
    { change (hd :: m1 ++ t :: c :: m2) with ((hd :: m1) ++ t :: c :: m2). apply linked_app. split; done. }
    replace (hd :: (m1 ++ t :: c :: m2) ++ [hd]) with ((hd :: m1 ++ t :: c :: m2) ++ [hd]) by done.
    apply (linked_snoc _ _ _ (hd :: m1 ++ t :: r) e).
    + rewrite Er. cbn. by rewrite <- app_assoc.
    + apply linked_upd_prev; [apply linked_upd_next|]; [done| |done].
      replace (hd :: m1 ++ t :: c :: m2) with ((hd :: m1 ++ t :: r) ++ [e]) by (rewrite Er; cbn; by rewrite <- app_assoc).
      rewrite removelast_snoc. intros Hin.
      rewrite Er in Hnd0, Hn3. assert (e ∈ hd :: m1 ++ [t] \/ e ∈ r) as [Hin'|Hin'].
      { revert Hin. clear. elems. }
      * apply list.NoDup_cons in Hnd0 as [_ Hnd0]. apply elem_of_cons in Hin' as [->|Hin']; [done|].
        replace (m1 ++ t :: r ++ [e]) with ((m1 ++ [t]) ++ (r ++ [e])) in Hnd0 by (by rewrite <- app_assoc).
        apply list.NoDup_app in Hnd0 as (_ & Hnd0 & _). apply (Hnd0 e Hin'). elems.
      * apply list.NoDup_app in Hn3 as (_ & Hn3 & _). apply (Hn3 e Hin'). left.
    + by heap_simpl.
    + by heap_simpl.
  - intros x Hx. rewrite <- Hperm in Hx.
    assert (x <> hd /\ x <> e /\ x <> t) as (? & ? & ?).
    { split_and!; intros ->; apply Hx; [elems|revert He; elems|elems]. }
    heap_simpl. rewrite N2, P2 by (intros Hin; apply Hx; revert Hin; elems). heap_simpl.
    apply F. intros Hin. apply Hx. revert Hin. elems.
Qed.

(** ** The whole sort *)

Lemma sort_finish_ok mf ls : forall fuel hd x r pending h,
  ls <> [] -> chain h (x :: r) -> pend h pending ls -> NoDup (hd :: (x :: r) ++ concat ls) ->
  is_Some (h !! hd) -> (length ((x :: r) ++ concat ls) < mf)%nat -> (length ls <= fuel)%nat ->
  exists h', sort_finish mf fuel hd x pending h = Ret h'
    /\ cyc h' hd (foldl (fun acc p => mergel p acc) (x :: r) ls)
    /\ forall y, y ∉ hd :: (x :: r) ++ concat ls -> nx h' y = nx h y /\ pv h' y = pv h y.
Proof.
  induction ls as [|[|p pr] ls IH]; intros fuel hd x r pending h Hne Hc Hp Hnd Hd Hmf Hfu; [done|done|].
  destruct fuel as [|fuel]; [cbn in Hfu; lia|]. destruct Hp as (-> & Hcp & q & Hq & Hp).
  cbn [sort_finish]. cbn [obind deref]. rewrite (get_prev_ok _ _ _ Hq). cbn [obind].
  cbn [concat] in Hnd, Hmf |- *. rewrite !length_app in Hmf.
  destruct ls as [|l2 ls].
  - cbn in Hp. subst q. cbn [concat] in *. rewrite app_nil_r in Hnd |- *. cbn [foldl].
    rewrite (Permutation_app_comm (x :: r) (p :: pr)) in Hnd.
    destruct (merge_final_ok mf hd p pr x r h) as (h' & H1 & H2 & H3); try done.
    { cbn in Hmf. lia. }
    exists h'. split_and!; try done. intros y Hy. apply H3. by rewrite (Permutation_app_comm (p :: pr) (x :: r)).
  - destruct (pend_head _ _ _ Hp) as (z & -> & _ & _); [done|].
    apply list.NoDup_cons in Hnd as [Hhn Hnd].
    assert (NoDup ((p :: pr) ++ x :: r)) as Hnd1.
    { rewrite app_assoc in Hnd. apply list.NoDup_app in Hnd as (Hnd & _). by rewrite Permutation_app_comm. }
    destruct (merge_ok mf pr r p x h) as (h1 & -> & C1 & P1 & N1); [cbn in Hmf; lia|done..|].
    cbn [obind]. pose proof (mergel_perm (p :: pr) (x :: r)) as Hperm. cbn [foldl].
    destruct (mergel (p :: pr) (x :: r)) as [|m ms] eqn:Em; [by apply Permutation_nil in Hperm|].
    cbn [head deref obind].
    assert ((x :: r) ++ (p :: pr) ++ concat (l2 :: ls) ≡ₚ (m :: ms) ++ concat (l2 :: ls)) as Hpp.
    { rewrite Hperm, app_assoc. by rewrite (Permutation_app_comm (x :: r) (p :: pr)). }
    assert (forall y, y ∈ concat (l2 :: ls) -> y ∉ (p :: pr) ++ x :: r) as Hout.
    { intros y Hy Hin. rewrite Hpp in Hnd. apply list.NoDup_app in Hnd as (_ & Hnd & _). apply (Hnd y); [by rewrite Hperm|done]. }
    destruct (IH fuel hd m ms (Some z) h1) as (h' & H1 & H2 & H3); try done.
    + eapply pend_frame; [exact Hp|]. intros y Hy. split; [by apply N1, Hout|apply P1].
    + apply list.NoDup_cons. rewrite <- Hpp. split; [|done]. exact Hhn.
    + eapply pv_same_dom; [apply P1|done].
    + rewrite <- Hpp. rewrite !length_app. lia.
    + cbn in *. lia.
    + exists h'. split_and!; try done. intros y Hy. rewrite Hpp in Hy. destruct (H3 y Hy) as [-> ->].
      split; [|apply P1]. apply N1. intros Hin. apply Hy. right. apply elem_of_app. left. by rewrite Hperm.
Qed.

Lemma linked_chain h l : forall x r t, linked h (x :: l) -> x :: l = r ++ [t] -> NoDup (x :: l) ->
  is_Some (h !! t) -> chain (upd_next t None h) (x :: l).
Proof.
  induction l as [|y l IH]; intros x r t Hl E Hnd Hd.
  - destruct r as [|? [|]]; try done. injection E as ->. split; [|done]. by heap_simpl.
  - destruct r as [|x' r]; [done|]. injection E as <- E. destruct Hl as (Hn & _ & Hl).
    apply list.NoDup_cons in Hnd as [Hxn Hnd]. split; [|by eapply IH].
    rewrite nx_upd_next_ne; [done|]. intros ->. apply Hxn. rewrite E. elems.
Qed.

Lemma list_sort_ok fuel hd l h : cyc h hd l -> lenZ l < 2 ^ 64 -> (length l < fuel)%nat ->
  exists h', list_sort fuel hd h = Ret h' /\ cyc h' hd (sortl l)
    /\ forall y, y ∉ hd :: l -> nx h' y = nx h y /\ pv h' y = pv h y.
Proof.
  intros Hc Hlen Hf. destruct (cyc_next _ _ _ Hc) as (n & l2 & E2 & Hn). destruct (cyc_prev _ _ _ Hc) as (l1 & p & E1 & Hp).
  unfold list_sort. rewrite (get_next_ok _ _ _ Hn), (get_prev_ok _ _ _ Hp). cbn [obind].
  destruct l as [|x [|y l]].
  { injection E2 as <- <-. destruct l1 as [|? [|]]; try done. injection E1 as <-. rewrite bool_decide_eq_true_2 by done. by exists h. }
  { injection E2 as <- <-. destruct l1 as [|? [|? [|]]]; try done. injection E1 as <- <-. rewrite bool_decide_eq_true_2 by done. by exists h. }
  injection E2 as <- E2. destruct l1 as [|hd' l1]; [done|]. injection E1 as <- E1.
  pose proof (proj2 Hc) as Hnd. apply list.NoDup_cons in Hnd as [Hhn Hnd].
  assert (p ∈ y :: l) as Hpy.
  { destruct l1 as [|x' l1]; [done|]. injection E1 as <- E1. rewrite E1. elems. }
  rewrite bool_decide_eq_false_2 by (intros [= ->]; by apply list.NoDup_cons in Hnd as [? _]). cbn [obind deref].
  assert (p ∈ x :: y :: l) as Hpl by by right.
  assert (is_Some (h !! p)) as Hdp by (eapply cyc_alloc; [exact Hc|by right]).
  heap_step. assert (p <> hd) by (by intros ->).
  assert (linked h (x :: y :: l)) as Hl.
  { assert (linked h ((x :: y :: l) ++ [hd])) as Hl by (destruct Hc as [(_ & _ & Hl) _]; exact Hl).
    rewrite E1, <- app_assoc in Hl. rewrite E1. by apply linked_app in Hl as [? _]. }
  destruct (sort_rounds_ok fuel (y :: l) x fuel 0 None (upd_next p None h) []) as (pp & h1 & -> & P1 & F1); try done.
  { by apply (linked_chain h (y :: l) x l1 p). }
  { cbn [concat]. by rewrite app_nil_r. }
  { cbn in Hf. cbn. lia. }
  { cbn [concat]. rewrite app_nil_r. cbn in *. lia. }
  cbn [obind concat] in *. rewrite app_nil_r in F1. unfold sortl.
  pose proof (roundsl_length (x :: y :: l) 0 [] ltac:(lia) Hlen eq_refl) as Hrl.
  pose proof (roundsl_perm (x :: y :: l) 0 []) as Hrp. cbn [concat] in Hrp. rewrite app_nil_r in Hrp.
  rewrite !lenZ_cons in Hrl. pose proof (lenZ_nonneg l).
  assert (2 <= bitlen (0 + (1 + (1 + lenZ l)))) as Hbl.
  { unfold bitlen. rewrite (proj2 (Z.eqb_neq _ 0)) by lia. assert (1 <= Z.log2 (0 + (1 + (1 + lenZ l)))); [|lia].
    change 1 with (Z.log2 2) at 1. apply Z.log2_le_mono. lia. }
  destruct (roundsl (x :: y :: l) 0 []) as [|[|z r] ls] eqn:Er; [change (lenZ []) with 0 in Hrl; lia|done|].
  destruct P1 as (-> & Cz & q & Hq & Pq). cbn [obind deref]. rewrite (get_prev_ok _ _ _ Hq). cbn [obind].
  destruct (F1 hd Hhn) as [Fh1 Fh2].
  destruct (sort_finish_ok fuel ls fuel hd z r q h1) as (h' & H1 & H2 & H3); try done.
  - intros ->. rewrite lenZ_cons in Hrl. change (lenZ []) with 0 in Hrl. lia.
  - apply list.NoDup_cons. cbn [concat] in Hrp. rewrite Hrp. done.
  - apply (pv_same_dom h); [rewrite Fh2; by heap_simpl|]. eauto with heap.
  - cbn [concat] in Hrp. rewrite Hrp. done.
  - assert (length ls <= length (x :: y :: l))%nat; [|lia].
    assert (lenZ ls <= lenZ (x :: y :: l)); [|unfold lenZ in *; lia]. rewrite !lenZ_cons in *.
    assert (bitlen (0 + (1 + (1 + lenZ l))) <= 2 + lenZ l); [|lia]. unfold bitlen. case_match; [lia|].
    pose proof (Z.log2_lt_lin (0 + (1 + (1 + lenZ l))) ltac:(lia)). lia.
  - exists h'. split_and!; [done|done|]. intros w Hw. cbn [concat] in Hrp.
    destruct (H3 w) as [-> ->]; [by rewrite Hrp|]. apply not_elem_of_cons in Hw as [Hwh Hw]. destruct (F1 w Hw) as [-> ->].
    assert (w <> p) by (by intros ->). by heap_simpl.
Qed.

End ListSort.

(** ** Theorems *)

(** C8. list_sort sorts. For every comparison that is a total preorder and every
    circular list of fewer than 2^64 nodes, the sort ends, dereferences no bad
    pointer, changes no node outside the list and leaves a circular list with all
    its next and prev pointers in place; its nodes are the ones of the input, in
    ascending order, and nodes that compare equal are in the order of the input. *)
Theorem list_sort_sorts cmp hd l h :
  (forall a b, cmp a b <= 0 \/ cmp b a <= 0) ->
  (forall a b c, cmp a b <= 0 -> cmp b c <= 0 -> cmp a c <= 0) ->
  cyc h hd l -> lenZ l < 2 ^ 64 ->
  exists h' l', list_sort cmp (S (length l)) hd h = Ret h' /\ cyc h' hd l' /\ l' ≡ₚ l
    /\ StronglySorted (fun a b => cmp a b <= 0) l'
    /\ (forall x, List.filter (cmp_eqv cmp x) l' = List.filter (cmp_eqv cmp x) l)
    /\ forall y, y ∉ hd :: l -> nx h' y = nx h y /\ pv h' y = pv h y.
Proof.
  intros Htot Htrans Hc Hlen. destruct (list_sort_ok cmp (S (length l)) hd l h Hc Hlen) as (h' & H1 & H2 & H3); [lia|].
  destruct (sortl_stable cmp Htot Htrans l) as [Hs Hst].
  exists h', (sortl cmp l). split_and!; try done. apply sortl_perm.
Qed.

(** Three nodes sorted in descending order of their addresses. *)
Definition demo_ring : heap :=
  <[1 := {| next := Some 2; prev := Some 4 |}]>
  (<[2 := {| next := Some 3; prev := Some 1 |}]>
  (<[3 := {| next := Some 4; prev := Some 2 |}]>
  (<[4 := {| next := Some 1; prev := Some 3 |}]> ∅))).

Lemma list_sort_sorts_witness :
  exists h' l', list_sort (fun a b => b - a) 4 1 demo_ring = Ret h' /\ cyc h' 1 l' /\ l' ≡ₚ [2; 3; 4]
    /\ StronglySorted (fun a b => b - a <= 0) l'.
Proof.
  destruct (list_sort_sorts (fun a b => b - a) 1 [2; 3; 4] demo_ring) as (h' & l' & H1 & H2 & H3 & H4 & _).
  - intros a b. lia.
  - intros a b c. lia.
  - split; [by vm_compute|]. apply (bool_decide_unpack _). vm_compute. exact I.
  - reflexivity.
  - exists h', l'. done.
Defined.
