(* ===== verification/UdevString.v ===== *)
(** The growing strings of udev-string.c, with their buffers. *)

From Stdlib Require Import ZArith Ascii String Lia.
From stdpp Require Import base list tactics numbers.
From S2P Require Import Prelude.

Open Scope Z_scope.
Open Scope cprog_scope.

Definition STRING_ALLOC_SIZE : Z := 16.

(** The bytes of the buffer; [None] is a byte that was never written. The size of
    the buffer is also kept in [bufsz], as in the program. *)
Record ustring := { buf : list (option ascii); length_ : Z; bufsz : Z }.

Definition fresh (n : Z) : list (option ascii) := replicate (Z.to_nat n) None.

Definition new_string : ustring :=
  {| buf := Some NUL :: fresh (STRING_ALLOC_SIZE - 1); length_ := 0; bufsz := STRING_ALLOC_SIZE |}.

(** [realloc] keeps the bytes that fit. *)
Definition resize_string (s : ustring) (size : Z) : ustring :=
  if size >? bufsz s then
    let n := u64 (u64 (u64 (size / STRING_ALLOC_SIZE + 1) * STRING_ALLOC_SIZE) * 2) in
    {| buf := takeZ n (buf s) ++ fresh (n - lenZ (buf s)); length_ := length_ s; bufsz := n |}
  else s.

(** A write of one byte; outside the buffer it is undefined. *)
Definition store (i : Z) (c : ascii) (b : list (option ascii)) : out (list (option ascii)) :=
  if (0 <=? i) && (i <? lenZ b) then Ret (<[Z.to_nat i := Some c]> b) else Undef.

(** [strncpy] of [n] bytes to position [i]: once the NUL of [str] is reached it
    writes NULs. *)
Fixpoint strncpy (n : nat) (i : Z) (str : bytes) (b : list (option ascii)) : out (list (option ascii)) :=
  match n with
  | O => Ret b
  | S n =>
      match str with
      | [] => let! b := store i NUL b in strncpy n (i + 1) [] b
      | c :: str =>
          let! b := store i c b in
          strncpy n (i + 1) (if decide (c = NUL) then [] else str) b
      end
  end.

Definition string_append_str (s : ustring) (str : bytes) (n : Z) : out ustring :=
  let len := u64 (length_ s + n) in
  let s := resize_string s (u64 (len + 1)) in
  let! b := strncpy (Z.to_nat n) (length_ s) str (buf s) in
  let! b := store len NUL b in
  Ret {| buf := b; length_ := len; bufsz := bufsz s |}.

Definition string_append_chr (s : ustring) (c : ascii) : out ustring :=
  let s := resize_string s (u64 (length_ s + 2)) in
  let! b := store (length_ s) c (buf s) in
  let len := u64 (length_ s + 1) in
  let! b := store len NUL b in
  Ret {| buf := b; length_ := len; bufsz := bufsz s |}.

(** ** What a buffer holds *)

(** The text and its NUL at the beginning of the buffer. *)
Definition holds (s : ustring) (t : bytes) : Prop :=
  length_ s = lenZ t /\ lenZ (buf s) = bufsz s
  /\ exists rest, buf s = map Some (t ++ [NUL]) ++ rest.

Lemma lenZ_map {A B} (f : A -> B) l : lenZ (map f l) = lenZ l.
Proof. unfold lenZ. by rewrite length_map. Qed.

Lemma lenZ_fresh n : 0 <= n -> lenZ (fresh n) = n.
Proof. intros. unfold fresh. rewrite lenZ_replicate. lia. Qed.

Lemma new_string_holds : holds new_string [].
Proof. split_and!; [done|done|]. by eexists. Qed.

Lemma resize_holds s t size : holds s t -> 0 <= size < 2 ^ 62 ->
  holds (resize_string s size) t /\ size <= bufsz (resize_string s size).
Proof.
  intros (Hl & Hb & rest & Hr) Hs. unfold resize_string.
  destruct (size >? bufsz s) eqn:E; [|split; [by repeat (split; eauto)|zlia]].
  assert (0 <= size / 16 < 2 ^ 58) as Hd by (split; [apply Z.div_pos; lia|apply Z.div_lt_upper_bound; lia]).
  assert (size < (size / 16 + 1) * 16) as Hm.
  { pose proof (Z.div_mod size 16 ltac:(lia)). pose proof (Z.mod_pos_bound size 16 ltac:(lia)). lia. }
  unfold STRING_ALLOC_SIZE. rewrite (u64_small (size / 16 + 1)) by lia.
  rewrite (u64_small ((size / 16 + 1) * 16)) by lia. rewrite (u64_small ((size / 16 + 1) * 16 * 2)) by lia.
  set (n := (size / 16 + 1) * 16 * 2). assert (size < n) by lia. cbn [bufsz buf length_]. split; [|lia].
  pose proof (lenZ_nonneg (buf s)). assert (lenZ (buf s) <= n) by zlia.
  assert (takeZ n (buf s) = buf s) as ->.
  { unfold takeZ. case_match; [|done]. apply take_ge. unfold lenZ in *. lia. }
  split_and!; [done|cbn; autorewrite with lenz; rewrite lenZ_fresh by lia; lia|].
  cbn. rewrite Hr, <- app_assoc. by eexists.
Qed.

Lemma store_ok i c a x b : i = lenZ a -> store i c (a ++ x :: b) = Ret (a ++ Some c :: b).
Proof.
  intros ->. unfold store. pose proof (lenZ_nonneg a). pose proof (lenZ_nonneg b).
  rewrite lenZ_app, lenZ_cons. rewrite (proj2 (Z.leb_le _ _)), (proj2 (Z.ltb_lt _ _)) by lia. cbn [andb].
  unfold lenZ. rewrite Nat2Z.id. f_equal. rewrite insert_app_r_alt by lia. by rewrite Nat.sub_diag.
Qed.

Lemma strncpy_ok t : forall i a b str, i = lenZ a -> Forall (fun c => c <> NUL) t -> (length t <= length b)%nat ->
  strncpy (length t) i (t ++ str) (a ++ b) = Ret (a ++ map Some t ++ drop (length t) b).
Proof.
  induction t as [|c t IH]; intros i a b str Hi Hn Hb; [done|].
  destruct b as [|x b]; [cbn in Hb; lia|]. inversion Hn as [|? ? Hc Ht]; subst.
  cbn [length strncpy app]. rewrite store_ok by done. cbn [obind]. rewrite decide_False by done.
  change (a ++ Some c :: b) with (a ++ [Some c] ++ b). rewrite app_assoc.
  rewrite IH; [by rewrite <- app_assoc|by rewrite lenZ_app|done|cbn in Hb; lia].
Qed.

(** The space behind the text. *)
Lemma holds_space s t n : holds s t -> lenZ t + n < bufsz s -> 0 <= n ->
  exists b x rest, buf s = map Some t ++ b ++ x :: rest /\ lenZ b = n.
Proof.
  intros (Hl & Hb & rest & Hr) Hs Hn. rewrite map_app, <- app_assoc in Hr. cbn in Hr.
  set (tl := Some NUL :: rest) in *.
  assert (lenZ tl = bufsz s - lenZ t) as Htl.
  { rewrite <- Hb, Hr, lenZ_app, lenZ_map. lia. }
  destruct (drop (Z.to_nat n) tl) as [|x r] eqn:E.
  - apply (f_equal length) in E. rewrite length_drop in E. unfold lenZ in *. cbn [length] in E. lia.
  - exists (take (Z.to_nat n) tl), x, r. rewrite <- E, take_drop. split; [done|].
    unfold lenZ in *. rewrite length_take. lia.
Qed.

(** ** Theorems *)

(** Appending never writes outside the buffer. A string that holds a text
    holds, after n bytes of another one are appended, the text followed by these
    bytes, and after a character the text followed by the character, in both cases
    with the NUL behind it; the buffer is grown first where it is too small. This
    needs the length to stay below 2^61 and the appended bytes to be no NULs. *)
Theorem string_append s t str u :
  holds s t -> lenZ t + lenZ u < 2 ^ 61 -> Forall (fun c => c <> NUL) u ->
  (exists s', string_append_str s (u ++ str) (lenZ u) = Ret s' /\ holds s' (t ++ u))
  /\ forall c, exists s', string_append_chr s c = Ret s' /\ holds s' (t ++ [c]).
Proof.
  intros Hh Hlen Hu. pose proof (lenZ_nonneg t). pose proof (lenZ_nonneg u). pose proof (proj1 Hh) as Hl. split.
  - unfold string_append_str. rewrite Hl, (u64_small (lenZ t + lenZ u)), (u64_small (lenZ t + lenZ u + 1)) by lia.
    destruct (resize_holds s t (lenZ t + lenZ u + 1) Hh) as [Hh1 Hb1]; [lia|].
    set (s1 := resize_string _ _) in *. rewrite (proj1 Hh1).
    destruct (holds_space s1 t (lenZ u) Hh1) as (b & x & rest & Hbuf & Hlb); [lia|lia|].
    replace (Z.to_nat (lenZ u)) with (length u) by (unfold lenZ; lia).
    rewrite Hbuf, strncpy_ok; [|by rewrite lenZ_map|done|rewrite length_app; unfold lenZ in *; lia].
    cbn [obind]. rewrite drop_app_le, drop_ge by (unfold lenZ in *; lia). cbn [app].
    rewrite app_assoc, store_ok by (rewrite lenZ_app, !lenZ_map; lia). cbn [obind]. eexists. split; [done|].
    split_and!; cbn.
    + by rewrite lenZ_app.
    + destruct Hh1 as (_ & Hbz & _). rewrite <- Hbz, Hbuf. rewrite !lenZ_app, !lenZ_cons, !lenZ_map. lia.
    + exists rest. rewrite !map_app, <- !app_assoc. done.
  - intros c. unfold string_append_chr. rewrite Hl, u64_small by lia.
    destruct (resize_holds s t (lenZ t + 2) Hh) as [Hh1 Hb1]; [lia|].
    set (s1 := resize_string _ _) in *. rewrite (proj1 Hh1), u64_small by lia.
    destruct (holds_space s1 t 1 Hh1) as (b & x & rest & Hbuf & Hlb); [lia|lia|].
    destruct b as [|y [|z b]]; [done| |rewrite !lenZ_cons in Hlb; pose proof (lenZ_nonneg b); lia].
    rewrite Hbuf. cbn [app]. rewrite store_ok by (by rewrite lenZ_map). cbn [obind].
    change (map Some t ++ Some c :: x :: rest) with (map Some t ++ [Some c] ++ x :: rest).
    rewrite app_assoc, store_ok by (by rewrite lenZ_app, lenZ_map). cbn [obind]. eexists. split; [done|].
    split_and!; cbn.
    + by rewrite lenZ_app.
    + destruct Hh1 as (_ & Hbz & _). rewrite <- Hbz, Hbuf. rewrite !lenZ_app, !lenZ_cons. lia.
    + exists rest. rewrite !map_app, <- !app_assoc. done.
Qed.

Lemma string_append_witness :
  exists s', string_append_str new_string #"a value longer than the buffer" 30 = Ret s'
    /\ holds s' #"a value longer than the buffer".
Proof.
  destruct (string_append new_string [] [] #"a value longer than the buffer") as [H _].
  - exact new_string_holds.
  - vm_compute. reflexivity.
  - apply (bool_decide_unpack _). vm_compute. exact I.
  - rewrite app_nil_r in H. exact H.
Defined.
