(* ===== verification/UdevRules.v ===== *)
(** udev-rules: the checker of udev rule files.

    The input here is the sequence of pairs of each rule line, with their positions;
    UdevScanner and UdevParser get them from the text of the files. This file has what
    the actions of the grammar do with them: the checks of every pair, the checks of a
    rule, the sort of its pairs, the labels and the exit status. *)

From Stdlib Require Import ZArith Ascii String Lia.
From stdpp Require Import base list strings tactics numbers sorting.
From S2P Require Import Prelude ListSort.

Open Scope Z_scope.
Open Scope cprog_scope.

(** ** udev-rules.h *)

Inductive rule_op_t := OP_MATCH | OP_NOMATCH | OP_ADD | OP_REMOVE | OP_ASSIGN | OP_ASSIGN_FINAL.

Inductive rule_key_t :=
  | KEY_ACTION | KEY_ATTR | KEY_ATTRS | KEY_CONST | KEY_DEVPATH | KEY_DRIVER | KEY_DRIVERS | KEY_ENV
  | KEY_GOTO | KEY_GROUP | KEY_IMPORT | KEY_KERNEL | KEY_KERNELS | KEY_LABEL | KEY_MODE | KEY_NAME
  | KEY_OPTIONS | KEY_OWNER | KEY_PROGRAM | KEY_RESULT | KEY_RUN | KEY_SECLABEL | KEY_SUBSYSTEM
  | KEY_SUBSYSTEMS | KEY_SYMLINK | KEY_SYSCTL | KEY_TAG | KEY_TAGS | KEY_TEST.

Global Instance rule_op_eq_dec : EqDecision rule_op_t.
Proof. solve_decision. Defined.
Global Instance rule_key_eq_dec : EqDecision rule_key_t.
Proof. solve_decision. Defined.

Definition all_keys : list rule_key_t :=
  [KEY_ACTION; KEY_ATTR; KEY_ATTRS; KEY_CONST; KEY_DEVPATH; KEY_DRIVER; KEY_DRIVERS; KEY_ENV;
   KEY_GOTO; KEY_GROUP; KEY_IMPORT; KEY_KERNEL; KEY_KERNELS; KEY_LABEL; KEY_MODE; KEY_NAME;
   KEY_OPTIONS; KEY_OWNER; KEY_PROGRAM; KEY_RESULT; KEY_RUN; KEY_SECLABEL; KEY_SUBSYSTEM;
   KEY_SUBSYSTEMS; KEY_SYMLINK; KEY_SYSCTL; KEY_TAG; KEY_TAGS; KEY_TEST].
Definition _KEY_TYPE_MAX : Z := lenZ all_keys.

Fixpoint position (k : rule_key_t) (l : list rule_key_t) : Z :=
  match l with [] => 0 | x :: l => if decide (k = x) then 0 else 1 + position k l end.

(** The value of the enumeration constant. *)
Definition key_num (k : rule_key_t) : Z := position k all_keys.

Definition PAIR_OP_MATCH : Z := 0.
Definition PAIR_OP_ACTION : Z := _KEY_TYPE_MAX.

Definition rule_pair_prio : list Z :=
  [ key_num KEY_LABEL + PAIR_OP_ACTION;
    key_num KEY_ACTION + PAIR_OP_MATCH; key_num KEY_DEVPATH + PAIR_OP_MATCH;
    key_num KEY_KERNEL + PAIR_OP_MATCH; key_num KEY_SYMLINK + PAIR_OP_MATCH;
    key_num KEY_NAME + PAIR_OP_MATCH; key_num KEY_ENV + PAIR_OP_MATCH;
    key_num KEY_CONST + PAIR_OP_MATCH; key_num KEY_TAG + PAIR_OP_MATCH;
    key_num KEY_SUBSYSTEM + PAIR_OP_MATCH; key_num KEY_DRIVER + PAIR_OP_MATCH;
    key_num KEY_ATTR + PAIR_OP_MATCH; key_num KEY_SYSCTL + PAIR_OP_MATCH;
    key_num KEY_KERNELS + PAIR_OP_MATCH; key_num KEY_SUBSYSTEMS + PAIR_OP_MATCH;
    key_num KEY_DRIVERS + PAIR_OP_MATCH; key_num KEY_ATTRS + PAIR_OP_MATCH;
    key_num KEY_TAGS + PAIR_OP_MATCH;
    key_num KEY_TEST + PAIR_OP_MATCH; key_num KEY_PROGRAM + PAIR_OP_MATCH;
    key_num KEY_IMPORT + PAIR_OP_MATCH; key_num KEY_RESULT + PAIR_OP_MATCH;
    key_num KEY_OPTIONS + PAIR_OP_ACTION; key_num KEY_OWNER + PAIR_OP_ACTION;
    key_num KEY_GROUP + PAIR_OP_ACTION; key_num KEY_MODE + PAIR_OP_ACTION;
    key_num KEY_TAG + PAIR_OP_ACTION; key_num KEY_SECLABEL + PAIR_OP_ACTION;
    key_num KEY_ENV + PAIR_OP_ACTION; key_num KEY_NAME + PAIR_OP_ACTION;
    key_num KEY_SYMLINK + PAIR_OP_ACTION; key_num KEY_ATTR + PAIR_OP_ACTION;
    key_num KEY_SYSCTL + PAIR_OP_ACTION; key_num KEY_RUN + PAIR_OP_ACTION;
    key_num KEY_GOTO + PAIR_OP_ACTION ].

Record pos := { line : Z; column : Z }.

(** A file is the number of its position in the list of files; two files with the
    same name are two files. *)
Record rule_pair := {
  pos_key : pos;
  pos_op : pos;
  pos_value : pos;
  key : rule_key_t;
  op : rule_op_t;
  attr : option string;
  value : string;
  rule_line : Z;
  rule_file : Z;
}.

Inductive warn :=
  | W_ERROR | W_MISSING_LABEL | W_UNUSED_LABELS | W_DUP_MATCH | W_CONFLICT_MATCH | W_INCOMPLETE_RULES
  | W_MULTI_LABEL | W_MULTI_GOTO.
Global Instance warn_eq_dec : EqDecision warn.
Proof. solve_decision. Defined.

Definition warning_str (w : warn) : string :=
  match w with
  | W_ERROR => "error"
  | W_MISSING_LABEL => "missing-label"
  | W_UNUSED_LABELS => "unsed-labels"
  | W_DUP_MATCH => "dup-match"
  | W_CONFLICT_MATCH => "conflict-match"
  | W_INCOMPLETE_RULES => "incomplete-rule"
  | W_MULTI_LABEL => "multi-label"
  | W_MULTI_GOTO => "multi-goto"
  end.
Definition all_warns : list warn :=
  [W_ERROR; W_MISSING_LABEL; W_UNUSED_LABELS; W_DUP_MATCH; W_CONFLICT_MATCH; W_INCOMPLETE_RULES;
   W_MULTI_LABEL; W_MULTI_GOTO].

(** The messages: which pair they are about, and what they say. *)
Inductive msg :=
  | M_invalid_attr (p : rule_pair)
  | M_invalid_op (p : rule_pair)
  | M_dup (p : rule_pair) (n : Z)
  | M_conflict (p : rule_pair)
  | M_contradict (p q : rule_pair)
  | M_multi_label (p : rule_pair)
  | M_multi_goto (p : rule_pair)
  | M_match_only (line : Z)
  | M_interleaved (line : Z)
  | M_missing_label (p : rule_pair)
  | M_unused_label (p : rule_pair)
  | M_remark (p : rule_pair) (what : string)
  | M_external (p : rule_pair) (what : string)
  | M_syntax (at_ : pos)
  | M_note (what : string).

(** The counters [warning] and [warning_summary] as functions of the warning. *)
Record rules_state := {
  gotos : list rule_pair;
  labels : list rule_pair;
  warning : warn -> Z;
  warning_summary : warn -> Z;
  show_external : bool;
  retcode : Z;
  log : list msg;
}.

Definition set_retcode (r : Z) (s : rules_state) : rules_state :=
  {| gotos := gotos s; labels := labels s; warning := warning s; warning_summary := warning_summary s;
     show_external := show_external s; retcode := r; log := log s |}.
Definition print (m : msg) (s : rules_state) : rules_state :=
  {| gotos := gotos s; labels := labels s; warning := warning s; warning_summary := warning_summary s;
     show_external := show_external s; retcode := retcode s; log := log s ++ [m] |}.
Definition add_goto (p : rule_pair) (s : rules_state) : rules_state :=
  {| gotos := gotos s ++ [p]; labels := labels s; warning := warning s; warning_summary := warning_summary s;
     show_external := show_external s; retcode := retcode s; log := log s |}.
Definition add_label (p : rule_pair) (s : rules_state) : rules_state :=
  {| gotos := gotos s; labels := labels s ++ [p]; warning := warning s; warning_summary := warning_summary s;
     show_external := show_external s; retcode := retcode s; log := log s |}.
Definition count_warning (w : warn) (s : rules_state) : rules_state :=
  {| gotos := gotos s; labels := labels s; warning := warning s;
     warning_summary := (fun x => if decide (x = w) then i32 (warning_summary s x + 1) else warning_summary s x);
     show_external := show_external s; retcode := retcode s; log := log s |}.

(** [None] is a warning without an option; W_ERROR itself has no counter. *)
Definition warning_update_retcode (w : option warn) (s : rules_state) : rules_state :=
  let s := if retcode s =? 0 then set_retcode (warning s W_ERROR) s else s in
  match w with
  | None | Some W_ERROR => s
  | Some w => count_warning w s
  end.

Definition set_op (o : rule_op_t) (p : rule_pair) : rule_pair :=
  {| pos_key := pos_key p; pos_op := pos_op p; pos_value := pos_value p; key := key p; op := o;
     attr := attr p; value := value p; rule_line := rule_line p; rule_file := rule_file p |}.
Definition set_attr (a : option string) (p : rule_pair) : rule_pair :=
  {| pos_key := pos_key p; pos_op := pos_op p; pos_value := pos_value p; key := key p; op := op p;
     attr := a; value := value p; rule_line := rule_line p; rule_file := rule_file p |}.

Definition op_num (o : rule_op_t) : Z :=
  match o with
  | OP_MATCH => 0 | OP_NOMATCH => 1 | OP_ADD => 2 | OP_REMOVE => 3 | OP_ASSIGN => 4 | OP_ASSIGN_FINAL => 5
  end.
Definition is_op_match (p : rule_pair) : bool := op_num (op p) <? op_num OP_ADD.

Definition isempty (s : string) : bool := bool_decide (s = ""%string).

(** ** udev-rules-parser.y *)

Definition in_list (k : string) (l : list string) : bool :=
  existsb (fun s => negb (isempty s) && bool_decide (k = s)) l.

Fixpoint find_prio (type : Z) (l : list Z) (i : Z) : Z :=
  match l with [] => 0 | x :: l => if x =? type then i else find_prio type l (i + 1) end.

Definition rule_pair_priority (p : rule_pair) : Z :=
  find_prio (key_num (key p) + (if is_op_match p then PAIR_OP_MATCH else PAIR_OP_ACTION)) rule_pair_prio 0.

Definition rule_pair_cmp (a b : rule_pair) : Z :=
  if rule_pair_priority a >=? rule_pair_priority b then 1 else 0.

Definition rule_log_dup_entry (p : rule_pair) (dups : Z) (s : rules_state) : rules_state :=
  warning_update_retcode (Some W_DUP_MATCH) (print (M_dup p dups) s).
Definition rule_log_conflict_match (p : rule_pair) (s : rules_state) : rules_state :=
  warning_update_retcode (Some W_CONFLICT_MATCH) (print (M_conflict p) s).
Definition rule_log_invalid_attr (p : rule_pair) (s : rules_state) : rules_state :=
  set_retcode 1 (print (M_invalid_attr p) s).
Definition rule_log_invalid_op (p : rule_pair) (s : rules_state) : rules_state :=
  set_retcode 1 (print (M_invalid_op p) s).
Definition remark (p : rule_pair) (what : string) (s : rules_state) : rules_state :=
  warning_update_retcode None (print (M_remark p what) s).

Definition same_attr (a b : rule_pair) : bool := bool_decide (attr a = attr b).

(** The keys on the allowlist of check_match_conditions. *)
Definition conflict_key (k : rule_key_t) : bool :=
  match k with
  | KEY_ACTION | KEY_ATTR | KEY_ATTRS | KEY_CONST | KEY_DEVPATH | KEY_DRIVER | KEY_DRIVERS | KEY_ENV
  | KEY_KERNEL | KEY_KERNELS | KEY_NAME | KEY_RESULT | KEY_SUBSYSTEM | KEY_SUBSYSTEMS | KEY_SYMLINK
  | KEY_SYSCTL | KEY_TAG | KEY_TAGS => true
  | _ => false
  end.

(** strpbrk(s, "*?[|") finds something. *)
Definition has_glob (s : string) : bool :=
  existsb (fun c => bool_decide (c ∈ #"*?[|")) #s.

(** The loop over the pairs in front of [p], with the two counters. *)
Fixpoint match_loop (p : rule_pair) (prev : list rule_pair) (dups conflicts : Z) (s : rules_state)
  : rules_state * Z * Z :=
  match prev with
  | [] => (s, dups, conflicts)
  | q :: prev =>
      if negb (bool_decide (key p = key q)) then match_loop p prev dups conflicts s
      else if negb (bool_decide (value p = value q)) then
        if (warning s W_CONFLICT_MATCH =? 0) || negb (bool_decide (op p = OP_MATCH)) || negb (conflict_key (key p))
        then match_loop p prev dups conflicts s
        else if negb (has_glob (value q)) && negb (has_glob (value p))
                && bool_decide (op p = op q) && same_attr p q
        then match_loop p prev dups conflicts
               (warning_update_retcode (Some W_CONFLICT_MATCH) (print (M_contradict p q) s))
        else match_loop p prev dups conflicts s
      else if negb (same_attr p q) then match_loop p prev dups conflicts s
      else if negb (bool_decide (op p = op q)) then
        match_loop p prev dups (if warning s W_CONFLICT_MATCH =? 0 then conflicts else conflicts + 1) s
      else
        match_loop p prev (if warning s W_DUP_MATCH =? 0 then dups else dups + 1) conflicts s
  end.

Definition check_match_conditions (p : rule_pair) (prev : list rule_pair) (s : rules_state) : rules_state :=
  if negb (is_op_match p) then s else
  let '(s, dups, conflicts) := match_loop p prev 0 0 s in
  let s := if dups =? 0 then s else rule_log_dup_entry p (dups + 1) s in
  if conflicts =? 0 then s else rule_log_conflict_match p s.

Fixpoint multi_loop (p : rule_pair) (prev : list rule_pair) (s : rules_state) : rules_state :=
  match prev with
  | [] => s
  | q :: prev =>
      if negb (warning s W_MULTI_LABEL =? 0) && bool_decide (key q = KEY_LABEL)
      then warning_update_retcode (Some W_MULTI_LABEL) (print (M_multi_label p) s)
      else if negb (warning s W_MULTI_GOTO =? 0) && bool_decide (key q = KEY_GOTO)
      then warning_update_retcode (Some W_MULTI_GOTO) (print (M_multi_goto p) s)
      else multi_loop p prev s
  end.

Definition check_multi_goto_label (p : rule_pair) (prev : list rule_pair) (s : rules_state) : rules_state :=
  if ((warning s W_MULTI_LABEL =? 0) && (warning s W_MULTI_GOTO =? 0))
     || (negb (bool_decide (key p = KEY_LABEL)) && negb (bool_decide (key p = KEY_GOTO)))
     || is_op_match p
  then s else multi_loop p prev s.

Definition check_match_only_conditions (pairs : list rule_pair) (line : Z) (s : rules_state) : rules_state :=
  if warning s W_INCOMPLETE_RULES =? 0 then s else
  if existsb (fun p => negb (is_op_match p) || bool_decide (key p = KEY_PROGRAM)
                       || bool_decide (key p = KEY_IMPORT)) pairs
  then s
  else warning_update_retcode (Some W_INCOMPLETE_RULES) (print (M_match_only line) s).

(** The number of PROGRAMs that are followed by a RESULT before the next one. *)
Fixpoint program_result (pairs : list rule_pair) (program : bool) (n : Z) : Z :=
  match pairs with
  | [] => n
  | p :: pairs =>
      if bool_decide (key p = KEY_PROGRAM) then program_result pairs true n
      else if program && bool_decide (key p = KEY_RESULT) then program_result pairs false (n + 1)
      else program_result pairs program n
  end.

Definition check_program_result (pairs : list rule_pair) (line : Z) (s : rules_state) : rules_state :=
  if program_result pairs false 0 >? 1
  then warning_update_retcode None (print (M_interleaved line) s) else s.

(** [pair->attr->string]. *)
Definition attr_string (p : rule_pair) : out string := match attr p with Some a => Ret a | None => Undef end.
Definition no_attr (p : rule_pair) : bool := match attr p with Some a => isempty a | None => true end.
Definition when {A} (b : bool) (f : A -> A) (a : A) : A := if b then f a else a.

Definition invalid_attr_if (b : bool) (p : rule_pair) : rules_state -> rules_state :=
  when b (rule_log_invalid_attr p).
Definition invalid_op_if (b : bool) (p : rule_pair) : rules_state -> rules_state :=
  when b (rule_log_invalid_op p).
Definition has_attr (p : rule_pair) : bool := match attr p with Some _ => true | None => false end.
Definition op_is (o : rule_op_t) (p : rule_pair) : bool := bool_decide (op p = o).

(** A key that takes no attribute and only matches. *)
Definition token_match_only (p : rule_pair) (s : rules_state) : rules_state :=
  invalid_op_if (negb (is_op_match p)) p (invalid_attr_if (has_attr p) p s).

Definition ENV_READONLY : list string :=
  ["ACTION"; "DEVLINKS"; "DEVNAME"; "DEVPATH"; "DEVTYPE"; "DRIVER";
   "IFINDEX"; "MAJOR"; "MINOR"; "SEQNUM"; "SUBSYSTEM"; "TAGS"]%string.

(** The switch of process_token: the state and the pair after it. [is_match] is
    computed before the operator is changed. Its second half comes first; the keys of
    the first half do not get there. *)
Definition token_switch_more (p : rule_pair) (s : rules_state) : out (rules_state * rule_pair) :=
  let is_match := is_op_match p in
  match key p with
  | KEY_OWNER | KEY_GROUP | KEY_MODE | KEY_OPTIONS =>
      let s := invalid_attr_if (has_attr p) p s in
      let s := invalid_op_if (is_match || op_is OP_REMOVE p) p s in
      Ret (s, when (op_is OP_ADD p) (set_op OP_ASSIGN) p)
  | KEY_IMPORT =>
      let s := invalid_attr_if (no_attr p) p s in
      let s := invalid_op_if (op_is OP_REMOVE p) p s in
      let p := when (negb is_match) (set_op OP_MATCH) p in
      let! a := attr_string p in
      let s := when (negb (in_list a ["file"; "program"; "builtin"; "db"; "cmdline"; "parent"]%string))
                 (remark p "unknown attribute") s in
      let s := when (show_external s && in_list a ["file"; "program"; "builtin"]%string)
                 (print (M_external p "import")) s in
      Ret (s, p)
  | KEY_NAME =>
      let s := invalid_attr_if (has_attr p) p s in
      let s := invalid_op_if (op_is OP_REMOVE p) p s in
      let '(s, p) := if op_is OP_ADD p
                     then (remark p "takes '==', '!=', '=', or ':='" s, set_op OP_ASSIGN p) else (s, p) in
      if negb is_match then
        let s := when (bool_decide (value p = "%k"%string)) (remark p "ignoring NAME=%k") s in
        Ret (when (isempty (value p)) (remark p "ignoring empty NAME") s, p)
      else Ret (s, p)
  | KEY_PROGRAM =>
      let s := invalid_attr_if (has_attr p) p s in
      let s := invalid_op_if (op_is OP_REMOVE p) p s in
      let p := when (negb is_match) (set_op OP_MATCH) p in
      Ret (when (show_external s) (print (M_external p "program")) s, p)
  | KEY_RESULT | KEY_SYMLINK | KEY_TAGS => Ret (invalid_attr_if (has_attr p) p s, p)
  | KEY_RUN =>
      let p := when (negb (has_attr p)) (set_attr (Some "program"%string)) p in
      let s := invalid_op_if (is_match || op_is OP_REMOVE p) p s in
      let! a := attr_string p in
      let s := when (negb (in_list a ["builtin"; "program"]%string)) (remark p "unknown attribute") s in
      Ret (when (show_external s) (print (M_external p "run")) s, p)
  | KEY_SECLABEL =>
      let s := invalid_attr_if (no_attr p) p s in
      let s := invalid_op_if (is_match || op_is OP_REMOVE p) p s in
      if op_is OP_ASSIGN_FINAL p then Ret (remark p "takes '=' or '+='" s, set_op OP_ASSIGN p) else Ret (s, p)
  | KEY_TAG =>
      let s := invalid_attr_if (has_attr p) p s in
      if op_is OP_ASSIGN_FINAL p
      then Ret (remark p "takes '==', '!=', '=', or '+='" s, set_op OP_ASSIGN p) else Ret (s, p)
  | KEY_TEST => Ret (invalid_op_if (negb is_match) p s, p)
  | _ => Ret (s, p)
  end.

Definition token_switch (p : rule_pair) (s : rules_state) : out (rules_state * rule_pair) :=
  let is_match := is_op_match p in
  match key p with
  | KEY_ACTION | KEY_DEVPATH | KEY_DRIVER | KEY_DRIVERS | KEY_KERNEL | KEY_KERNELS | KEY_SUBSYSTEMS =>
      Ret (token_match_only p s, p)
  | KEY_ATTR | KEY_SYSCTL =>
      let s := invalid_attr_if (no_attr p) p s in
      let s := invalid_op_if (op_is OP_REMOVE p) p s in
      if op_is OP_ADD p || op_is OP_ASSIGN_FINAL p
      then Ret (remark p "takes '==', '!=', or '='" s, set_op OP_ASSIGN p)
      else Ret (s, p)
  | KEY_ATTRS =>
      Ret (invalid_op_if (negb is_match) p (invalid_attr_if (no_attr p) p s), p)
  | KEY_CONST =>
      let s := invalid_attr_if (no_attr p) p s in
      let! a := attr_string p in
      let s := when (negb (in_list a ["arch"; "virt"]%string)) (remark p "unknown attribute") s in
      Ret (invalid_op_if (negb is_match) p s, p)
  | KEY_SUBSYSTEM =>
      let s := token_match_only p s in
      Ret (when (in_list (value p) ["bus"; "class"]%string) (remark p "must be specified as subsystem") s, p)
  | KEY_ENV =>
      let s := invalid_attr_if (no_attr p) p s in
      let s := invalid_op_if (op_is OP_REMOVE p) p s in
      let '(s, p) := if op_is OP_ASSIGN_FINAL p
                     then (remark p "takes '==', '!=', '=', or '+='" s, set_op OP_ASSIGN p) else (s, p) in
      if negb is_match then
        let! a := attr_string p in
        Ret (when (in_list a ENV_READONLY) (remark p "cannot be set") s, p)
      else Ret (s, p)
  | KEY_GOTO =>
      let s := invalid_attr_if (has_attr p) p s in
      let s := invalid_op_if (negb (op_is OP_ASSIGN p)) p s in
      Ret (add_goto p s, p)
  | KEY_LABEL =>
      let s := invalid_attr_if (has_attr p) p s in
      let s := invalid_op_if (negb (op_is OP_ASSIGN p)) p s in
      Ret (add_label p s, p)
  | _ => token_switch_more p s
  end.

(** [prev] are the pairs of the rule in front of [p]. *)
Definition process_token (p : rule_pair) (prev : list rule_pair) (s : rules_state)
  : out (rules_state * rule_pair) :=
  let! (s, p) := token_switch p s in
  Ret (check_multi_goto_label p prev (check_match_conditions p prev s), p).

(** The actions of the grammar for one rule line: every pair, then the rule. The
    result has the pairs in the order of the sort. *)
Fixpoint process_pairs (ps prev : list rule_pair) (s : rules_state) : out (rules_state * list rule_pair) :=
  match ps with
  | [] => Ret (s, prev)
  | p :: ps => let! (s, p) := process_token p prev s in process_pairs ps (prev ++ [p]) s
  end.

Definition ruleline (ps : list rule_pair) (line : Z) (s : rules_state) : out (rules_state * list rule_pair) :=
  let! (s, pairs) := process_pairs ps [] s in
  let s := check_match_only_conditions pairs line s in
  let s := check_program_result pairs line s in
  Ret (s, sortl rule_pair_cmp pairs).

(** ** udev-goto-label.c *)

Definition rec_str (p : rule_pair) : string := value p.
Definition rec_order (p : rule_pair) : Z := rule_line p.

(** A label behind the goto, in the same file. *)
Definition goto_target (g l : rule_pair) : bool :=
  bool_decide (rec_str g = rec_str l) && (rule_file g =? rule_file l) && (rec_order l >? rec_order g).

Fixpoint check_gotos (gs : list rule_pair) (s : rules_state) : rules_state :=
  match gs with
  | [] => s
  | g :: gs =>
      let found := existsb (goto_target g) (labels s) in
      check_gotos gs
        (if negb (warning s W_MISSING_LABEL =? 0) && negb found
         then warning_update_retcode (Some W_MISSING_LABEL) (print (M_missing_label g) s) else s)
  end.

(** The inner loop of the second half: it stops at the first goto of the same file
    with the name of the label. *)
Fixpoint label_used (l : rule_pair) (gs : list rule_pair) : bool :=
  match gs with
  | [] => false
  | g :: gs =>
      if negb (rule_file g =? rule_file l) then label_used l gs
      else if negb (bool_decide (rec_str g = rec_str l)) then label_used l gs
      else negb (rec_order g >=? rec_order l)
  end.

Fixpoint check_labels (ls : list rule_pair) (s : rules_state) : rules_state :=
  match ls with
  | [] => s
  | l :: ls =>
      check_labels ls
        (if negb (label_used l (gotos s))
         then warning_update_retcode (Some W_UNUSED_LABELS) (print (M_unused_label l) s) else s)
  end.

Definition check_goto_label (s : rules_state) : rules_state :=
  let s := check_gotos (gotos s) s in
  if warning s W_UNUSED_LABELS =? 0 then s else check_labels (labels s) s.

(** ** udev-rules.c *)

Definition set_warning (f : warn -> Z) (s : rules_state) : rules_state :=
  {| gotos := gotos s; labels := labels s; warning := f; warning_summary := warning_summary s;
     show_external := show_external s; retcode := retcode s; log := log s |}.

(** The argument of an option -W: with [no-] in front it is switched off. *)
Definition strip_no (arg : string) : bool * string :=
  match arg with
  | String "n" (String "o" (String "-" rest)) => (false, rest)
  | _ => (true, arg)
  end.

(** memset fills the bytes of the ints with 1. *)
Definition ALL_ON : Z := 16843009.

Definition option_W (arg : string) (s : rules_state) : out rules_state :=
  let '(set, name) := strip_no arg in
  if bool_decide (name = "all"%string) then
    Ret (set_warning (fun w => if decide (w = W_ERROR) then 0 else if set then ALL_ON else 0) s)
  else
    match List.find (fun w => bool_decide (name = warning_str w)) all_warns with
    | None => Die EXIT_FAILURE "unknown option"
    | Some w => Ret (set_warning (fun x => if decide (x = w) then (if set then 1 else 0) else warning s x) s)
    end.

Inductive rules_opt := OptW (arg : string) | OptX | OptH | OptOther.

Fixpoint rules_options (opts : list rules_opt) (s : rules_state) : out rules_state :=
  match opts with
  | [] => Ret s
  | OptW arg :: opts => let! s := option_W arg s in rules_options opts s
  | OptX :: opts =>
      rules_options opts
        {| gotos := gotos s; labels := labels s; warning := warning s; warning_summary := warning_summary s;
           show_external := true; retcode := retcode s; log := log s |}
  | OptH :: _ => Die EXIT_SUCCESS "help"
  | OptOther :: _ => Die EXIT_FAILURE "help"
  end.

Definition rules_state0 : rules_state :=
  {| gotos := []; labels := []; warning := fun _ => 0; warning_summary := fun _ => 0; show_external := false;
     retcode := 0; log := [] |}.

(** An argument: the rule lines of its files in the order in which they are read,
    and whether rules_readfile or rules_readdir succeeds at the end. *)
Definition rules_arg : Type := list (list rule_pair * Z) * bool.

Fixpoint read_lines (ls : list (list rule_pair * Z)) (s : rules_state) : out rules_state :=
  match ls with
  | [] => Ret s
  | (ps, line) :: ls => let! (s, _) := ruleline ps line s in read_lines ls s
  end.

Fixpoint read_args (args : list rules_arg) (s : rules_state) : out (rules_state * bool) :=
  match args with
  | [] => Ret (s, true)
  | (ls, ok) :: args =>
      let! s := read_lines ls s in
      if negb ok then Ret (set_retcode 1 s, false) else read_args args s
  end.

(** The final state; main returns its retcode. *)
Definition rules_main (opts : list rules_opt) (args : list rules_arg) : out rules_state :=
  let! s := rules_options opts rules_state0 in
  match args with
  | [] => Die EXIT_FAILURE "missing directory name"
  | _ =>
      let! (s, ok) := read_args args s in
      Ret (if ok : bool then check_goto_label s else s)
  end.

(** ** What the messages mean *)

Definition is_error (m : msg) : bool :=
  match m with M_invalid_attr _ | M_invalid_op _ | M_syntax _ => true | _ => false end.
Definition is_warning (m : msg) : bool :=
  match m with M_invalid_attr _ | M_invalid_op _ | M_external _ _ | M_syntax _ | M_note _ => false | _ => true end.

(** The status the messages call for. *)
Definition status (s : rules_state) : Z :=
  if existsb is_error (log s) || (negb (warning s W_ERROR =? 0) && existsb is_warning (log s)) then 1 else 0.

(** The state keeps the options, and the exit status is the one of the messages. *)
Record same_options (s s' : rules_state) : Prop := {
  so_warning : warning s' = warning s;
  so_external : show_external s' = show_external s;
}.

Definition checked (s : rules_state) : Prop :=
  (warning s W_ERROR = 0 \/ warning s W_ERROR = 1) /\ retcode s = status s.

(** A step of the checker that only reports: it keeps the options, the gotos and
    the labels, and the exit status agrees with the messages. *)
Definition reports (f : rules_state -> rules_state) : Prop :=
  forall s, same_options s (f s) /\ gotos (f s) = gotos s /\ labels (f s) = labels s
    /\ (checked s -> checked (f s)).

Lemma reports_id : reports (fun s => s).
Proof. intros s. split_and!; done. Qed.

Lemma reports_comp f g : reports f -> reports g -> reports (fun s => g (f s)).
Proof.
  intros Hf Hg s. destruct (Hf s) as ([F1 F2] & F3 & F4 & F5), (Hg (f s)) as ([G1 G2] & G3 & G4 & G5).
  split_and!; [constructor|..]; [congruence..|]. auto.
Qed.

Lemma reports_when b f : reports f -> reports (when b f).
Proof. intros Hf. destruct b; [exact Hf|apply reports_id]. Qed.

Lemma reports_warning w m : is_warning m = true ->
  reports (fun s => warning_update_retcode w (print m s)).
Proof.
  intros Hm s. assert (is_error m = false) as He by (by destruct m).
  set (s1 := if retcode s =? 0 then set_retcode (warning s W_ERROR) (print m s) else print m s).
  assert (same_options s s1 /\ gotos s1 = gotos s /\ labels s1 = labels s /\ (checked s -> checked s1)) as H.
  { unfold s1. case_match; (split_and!; [done..|]); intros [Hw Hr]; (split; [exact Hw|]); unfold status in *; cbn;
      rewrite !existsb_app; cbn; rewrite Hm, He;
      destruct (existsb is_error (log s)), (existsb is_warning (log s)), Hw as [Hw|Hw]; rewrite ?Hw in *; cbn in *;
      try done; rewrite ?Hr in *; done. }
  unfold warning_update_retcode. cbn [retcode print]. fold s1.
  destruct w as [[]|]; try exact H; destruct H as ([H1 H2] & H3 & H4 & H5);
    (split_and!; [constructor; done|done|done|exact H5]).
Qed.

Lemma reports_error m : is_error m = true -> reports (fun s => set_retcode 1 (print m s)).
Proof.
  intros Hm s. split_and!; [constructor; done|done|done|]. intros [Hw Hr]. split; [exact Hw|].
  unfold status. cbn. rewrite existsb_app. cbn. by rewrite Hm, orb_true_r.
Qed.

Lemma reports_print m : is_error m = false -> is_warning m = false -> reports (print m).
Proof.
  intros He Hw s. split_and!; [constructor; done|done|done|]. intros [Hr Hs]. split; [exact Hr|].
  unfold status in *. cbn. rewrite !existsb_app. cbn. by rewrite He, Hw, !orb_false_r.
Qed.

(** The same as a relation between two states, which chains. *)
Definition rep (s s' : rules_state) : Prop :=
  same_options s s' /\ gotos s' = gotos s /\ labels s' = labels s /\ (checked s -> checked s').

Lemma rep_refl s : rep s s.
Proof. apply (reports_id s). Qed.

Lemma rep_step f s0 s : reports f -> rep s0 s -> rep s0 (f s).
Proof.
  intros Hf ([F1 F2] & F3 & F4 & F5). destruct (Hf s) as ([G1 G2] & G3 & G4 & G5).
  split_and!; [constructor|..]; [congruence..|]. auto.
Qed.

Lemma rep_trans s0 s1 s2 : rep s0 s1 -> rep s1 s2 -> rep s0 s2.
Proof.
  intros ([F1 F2] & F3 & F4 & F5) ([G1 G2] & G3 & G4 & G5).
  split_and!; [constructor|..]; [congruence..|]. auto.
Qed.

Lemma rep_invalid_attr_if b p s0 s : rep s0 s -> rep s0 (invalid_attr_if b p s).
Proof. apply rep_step, reports_when. by apply reports_error. Qed.
Lemma rep_invalid_op_if b p s0 s : rep s0 s -> rep s0 (invalid_op_if b p s).
Proof. apply rep_step, reports_when. by apply reports_error. Qed.
Lemma rep_remark p w s0 s : rep s0 s -> rep s0 (remark p w s).
Proof. apply rep_step. by apply (reports_warning None). Qed.
Lemma rep_when_remark b p w s0 s : rep s0 s -> rep s0 (when b (remark p w) s).
Proof. apply rep_step, reports_when. by apply (reports_warning None). Qed.
Lemma rep_when_external b p w s0 s : rep s0 s -> rep s0 (when b (print (M_external p w)) s).
Proof. apply rep_step, reports_when. by apply reports_print. Qed.
Lemma rep_warning w m s0 s : is_warning m = true -> rep s0 s -> rep s0 (warning_update_retcode w (print m s)).
Proof. intros Hm. apply (rep_step (fun s => warning_update_retcode w (print m s))). by apply reports_warning. Qed.
Lemma rep_token_match_only p s0 s : rep s0 s -> rep s0 (token_match_only p s).
Proof. intros H. by apply rep_invalid_op_if, rep_invalid_attr_if. Qed.

Create HintDb reports.
#[export] Hint Resolve rep_refl rep_invalid_attr_if rep_invalid_op_if rep_remark rep_when_remark
  rep_when_external rep_token_match_only : reports.

(** What the switch leaves of a pair. *)
Definition same_pair (p p' : rule_pair) : Prop :=
  key p' = key p /\ value p' = value p /\ rule_line p' = rule_line p /\ rule_file p' = rule_file p.

Definition of_key (k : rule_key_t) (p : rule_pair) : list rule_pair := if decide (key p = k) then [p] else [].

Lemma rep_gotos s0 s p : rep s0 s -> same_options s0 (add_goto p s) /\ gotos (add_goto p s) = gotos s0 ++ [p]
  /\ labels (add_goto p s) = labels s0 ++ [] /\ (checked s0 -> checked (add_goto p s)).
Proof. intros ([F1 F2] & F3 & F4 & F5). rewrite app_nil_r. cbn. rewrite F3, F4. split_and!; try done. Qed.

Lemma rep_labels s0 s p : rep s0 s -> same_options s0 (add_label p s) /\ gotos (add_label p s) = gotos s0 ++ []
  /\ labels (add_label p s) = labels s0 ++ [p] /\ (checked s0 -> checked (add_label p s)).
Proof. intros ([F1 F2] & F3 & F4 & F5). rewrite app_nil_r. cbn. rewrite F3, F4. split_and!; try done. Qed.

Lemma rep_others s0 s : rep s0 s -> same_options s0 s /\ gotos s = gotos s0 ++ []
  /\ labels s = labels s0 ++ [] /\ (checked s0 -> checked s).
Proof. intros ([F1 F2] & F3 & F4 & F5). rewrite !app_nil_r. done. Qed.

Lemma token_switch_ok p s s' p' : token_switch p s = Ret (s', p') ->
  (same_options s s' /\ gotos s' = gotos s ++ of_key KEY_GOTO p /\ labels s' = labels s ++ of_key KEY_LABEL p
   /\ (checked s -> checked s')) /\ same_pair p p'.
Proof.
  intros H. unfold token_switch, token_switch_more, of_key in *. destruct (key p) eqn:Hk;
    repeat case_decide; try congruence; cbn zeta in H;
    repeat first [ match type of H with context [attr_string ?q] => destruct (attr_string q) eqn:? end; cbn [obind] in H; try done
                 | match type of H with context [if ?b then _ else _] => destruct b eqn:? end; cbn [obind] in H ];
    simplify_eq.
  all: split; [|unfold when; repeat case_match; by split_and!].
  all: try by (apply rep_others; eauto 12 with reports).
  all: try by (apply rep_gotos; eauto 12 with reports).
  all: try by (apply rep_labels; eauto 12 with reports).
Qed.

Lemma match_loop_rep p prev : forall dups conflicts s s0, rep s0 s ->
  rep s0 (match_loop p prev dups conflicts s).1.1.
Proof.
  induction prev as [|q prev IH]; intros dups conflicts s s0 H; [done|]. cbn [match_loop].
  repeat case_match; apply IH; try done. by apply rep_warning.
Qed.

Lemma check_match_conditions_rep p prev s0 s : rep s0 s -> rep s0 (check_match_conditions p prev s).
Proof.
  intros H. unfold check_match_conditions. case_match; [done|].
  pose proof (match_loop_rep p prev 0 0 s s0 H) as Hm. destruct (match_loop _ _ _ _ _) as [[s1 d] c]. cbn in Hm.
  unfold rule_log_dup_entry, rule_log_conflict_match.
  repeat case_match; repeat first [done | apply rep_warning].
Qed.

Lemma check_multi_goto_label_rep p prev s0 s : rep s0 s -> rep s0 (check_multi_goto_label p prev s).
Proof.
  intros H. unfold check_multi_goto_label. case_match; [done|].
  induction prev as [|q prev IH]; [done|]. cbn [multi_loop]. repeat case_match; first [done | by apply rep_warning].
Qed.

Lemma process_token_ok p prev s s' p' : process_token p prev s = Ret (s', p') ->
  (same_options s s' /\ gotos s' = gotos s ++ of_key KEY_GOTO p /\ labels s' = labels s ++ of_key KEY_LABEL p
   /\ (checked s -> checked s')) /\ same_pair p p'.
Proof.
  intros H. unfold process_token in H. destruct (token_switch p s) as [[s1 p1]| | |] eqn:E; cbn in H; try done.
  simplify_eq. destruct (token_switch_ok _ _ _ _ E) as (([O1 O2] & G & L & C) & Hp). split; [|done].
  destruct (check_multi_goto_label_rep p' prev s1 _ (check_match_conditions_rep p' prev s1 _ (rep_refl s1)))
    as ([F1 F2] & F3 & F4 & F5).
  split_and!; [constructor; congruence|congruence|congruence|auto].
Qed.

Definition keyed (k : rule_key_t) (ps : list rule_pair) : list rule_pair := List.filter (fun p => bool_decide (key p = k)) ps.

Lemma keyed_cons k p ps : keyed k (p :: ps) = of_key k p ++ keyed k ps.
Proof. unfold keyed, of_key. cbn. repeat case_match; (by apply bool_decide_eq_true in H) || (by apply bool_decide_eq_false in H) || done. Qed.

Lemma keyed_app k ps qs : keyed k (ps ++ qs) = keyed k ps ++ keyed k qs.
Proof. apply List.filter_app. Qed.

(** What reading pairs does to the state. *)
Definition reads (s : rules_state) (ps : list rule_pair) (s' : rules_state) : Prop :=
  same_options s s' /\ gotos s' = gotos s ++ keyed KEY_GOTO ps /\ labels s' = labels s ++ keyed KEY_LABEL ps
  /\ (checked s -> checked s').

Lemma reads_nil s s' : rep s s' -> reads s [] s'.
Proof. apply rep_others. Qed.

Lemma reads_app s ps s1 qs s2 : reads s ps s1 -> reads s1 qs s2 -> reads s (ps ++ qs) s2.
Proof.
  intros ([A1 A2] & A3 & A4 & A5) ([B1 B2] & B3 & B4 & B5).
  split_and!; [constructor; congruence| | |auto]; rewrite keyed_app, app_assoc; congruence.
Qed.

Lemma process_pairs_ok ps : forall prev s s' pairs, process_pairs ps prev s = Ret (s', pairs) ->
  reads s ps s' /\ exists ps', pairs = prev ++ ps' /\ Forall2 same_pair ps ps'.
Proof.
  induction ps as [|p ps IH]; intros prev s s' pairs H; cbn in H.
  { simplify_eq. split; [apply reads_nil, rep_refl|]. exists []. split; [by rewrite app_nil_r|constructor]. }
  destruct (process_token p prev s) as [[s1 p1]| | |] eqn:E; cbn in H; try done.
  destruct (process_token_ok _ _ _ _ _ E) as [([O1 O2] & G & L & C) Hp].
  destruct (IH _ _ _ _ H) as [([F1 F2] & F3 & F4 & F5) (ps' & -> & HF)]. split.
  - split_and!; [constructor; congruence| | |auto]; rewrite keyed_cons, app_assoc; congruence.
  - exists (p1 :: ps'). split; [by rewrite <- app_assoc|by constructor].
Qed.

Lemma ruleline_ok ps line s s' pairs : ruleline ps line s = Ret (s', pairs) -> reads s ps s'.
Proof.
  intros H. unfold ruleline in H. destruct (process_pairs ps [] s) as [[s1 p1]| | |] eqn:E; cbn in H; try done.
  apply process_pairs_ok in E as [E _]. simplify_eq. rewrite <- (app_nil_r ps).
  eapply reads_app; [exact E|]. apply reads_nil. unfold check_program_result, check_match_only_conditions.
  repeat case_match; repeat first [apply rep_refl | apply rep_warning; [done|]].
Qed.

Definition all_pairs (ls : list (list rule_pair * Z)) : list rule_pair := concat (map fst ls).

Lemma read_lines_ok ls : forall s s', read_lines ls s = Ret s' -> reads s (all_pairs ls) s'.
Proof.
  induction ls as [|[ps line] ls IH]; intros s s' H; cbn in H; [simplify_eq; apply reads_nil, rep_refl|].
  destruct (ruleline ps line s) as [[s1 p1]| | |] eqn:E; cbn in H; try done.
  eapply reads_app; [by eapply ruleline_ok|by apply IH].
Qed.

Lemma read_args_ok args : forall s s', read_args args s = Ret (s', true) ->
  reads s (concat (map (fun a => all_pairs a.1) args)) s'.
Proof.
  induction args as [|[ls ok] args IH]; intros s s' H; cbn in H; [simplify_eq; apply reads_nil, rep_refl|].
  destruct (read_lines ls s) as [s1| | |] eqn:E; cbn in H; try done. case_match; [done|].
  cbn [map concat]. eapply reads_app; [by apply read_lines_ok|by apply IH].
Qed.

(** ** Labels *)

(** Within a file the pairs come in the order of the rules. *)
Definition in_order (p q : rule_pair) : Prop := rule_file p = rule_file q -> rule_line p <= rule_line q.

Lemma keyed_ordered k ps : StronglySorted in_order ps -> StronglySorted in_order (keyed k ps).
Proof.
  induction 1 as [|p ps Hs IH HF]; [constructor|]. unfold keyed in *. cbn. case_match; [|done].
  constructor; [done|]. apply list.Forall_forall. intros q Hq. apply list_elem_of_In, filter_In in Hq as [Hq _].
  rewrite list.Forall_forall in HF. by apply HF, list_elem_of_In.
Qed.

Lemma label_used_spec l gs : StronglySorted in_order gs ->
  label_used l gs = existsb (fun g => goto_target g l) gs.
Proof.
  induction 1 as [|g gs Hs IH HF]; [done|]. cbn [label_used existsb]. rewrite IH.
  assert (goto_target g l = bool_decide (rec_str g = rec_str l) && (rule_file g =? rule_file l)
            && (rec_order l >? rec_order g)) as -> by done.
  destruct (Z.eqb_spec (rule_file g) (rule_file l)) as [Hf|Hf]; cbn [negb]; [|by rewrite andb_false_r].
  destruct (bool_decide_reflect (rec_str g = rec_str l)) as [Hr|Hr]; cbn [negb]; [|done].
  cbn [andb]. destruct (rec_order g >=? rec_order l) eqn:Ho; cbn [negb].
  - assert ((rec_order l >? rec_order g) = false) as -> by zlia. cbn. symmetry.
    apply not_true_is_false. intros Hex. apply existsb_exists in Hex as (g' & Hg' & Ht).
    rewrite list.Forall_forall in HF. unfold goto_target in Ht. apply andb_prop in Ht as [Ht1 Ht2].
    apply andb_prop in Ht1 as [_ Ht1]. specialize (HF g' (proj2 (list_elem_of_In _ _) Hg')). unfold in_order, rec_order in *.
    assert (rule_line g <= rule_line g') by (apply HF; zlia). zlia.
  - assert ((rec_order l >? rec_order g) = true) as -> by zlia. done.
Qed.

Lemma update_log w s : log (warning_update_retcode w s) = log s.
Proof. unfold warning_update_retcode. destruct w as [[]|]; case_match; done. Qed.

Lemma check_gotos_log gs : forall s, rep s (check_gotos gs s) /\ log (check_gotos gs s) = log s ++
  (if warning s W_MISSING_LABEL =? 0 then []
   else map M_missing_label (List.filter (fun g => negb (existsb (goto_target g) (labels s))) gs)).
Proof.
  induction gs as [|g gs IH]; intros s; cbn [check_gotos].
  { split; [apply rep_refl|]. case_match; by rewrite app_nil_r. }
  match goal with |- context [check_gotos gs ?x] => set (s1 := x) end.
  assert (rep s s1) as R by (unfold s1; case_match; [apply rep_warning; [done|]|]; apply rep_refl).
  destruct (IH s1) as [R1 L1]. split; [by eapply rep_trans|]. rewrite L1. destruct R as ([W _] & _ & L & _). rewrite W, L.
  unfold s1. cbn [List.filter]. destruct (warning s W_MISSING_LABEL =? 0); cbn [negb andb]; [done|].
  destruct (existsb _ _); cbn [negb]; [done|]. rewrite update_log. cbn [log print]. by rewrite <- app_assoc.
Qed.

Lemma check_labels_log ls : forall s, rep s (check_labels ls s) /\ log (check_labels ls s) = log s ++
  map M_unused_label (List.filter (fun l => negb (label_used l (gotos s))) ls).
Proof.
  induction ls as [|l ls IH]; intros s; cbn [check_labels].
  { split; [apply rep_refl|]. by rewrite app_nil_r. }
  match goal with |- context [check_labels ls ?x] => set (s1 := x) end.
  assert (rep s s1) as R by (unfold s1; case_match; [apply rep_warning; [done|]|]; apply rep_refl).
  destruct (IH s1) as [R1 L1]. split; [by eapply rep_trans|]. rewrite L1. destruct R as (_ & G & _ & _). rewrite G.
  unfold s1. cbn [List.filter]. destruct (label_used _ _); cbn [negb]; [done|]. rewrite update_log. cbn [log print]. by rewrite <- app_assoc.
Qed.

Lemma check_goto_label_rep s : rep s (check_goto_label s).
Proof.
  unfold check_goto_label. pose proof (check_gotos_log (gotos s) s) as [R _]. case_match; [done|].
  eapply rep_trans; [exact R|]. apply check_labels_log.
Qed.

(** The state after the options. *)
Lemma rules_options_ok opts : forall s s', rules_options opts s = Ret s' ->
  checked s -> log s = [] -> gotos s = [] -> labels s = [] ->
  checked s' /\ log s' = [] /\ gotos s' = [] /\ labels s' = [].
Proof.
  induction opts as [|o opts IH]; intros s s' H C L G Lb; cbn in H; [by simplify_eq|].
  destruct o as [arg| | |]; cbn in H; try done.
  - unfold option_W in H. destruct (strip_no arg) as [set name].
    assert (retcode s = 0) as Hr by (destruct C as [_ C]; unfold status in C; rewrite L in C; cbn in C; by rewrite andb_false_r in C).
    case_match; cbn in H.
    + eapply IH in H; try done. split; [by left|]. unfold status. cbn. rewrite L. cbn. done.
    + case_match; cbn in H; [|done]. eapply IH in H; try done. split.
      * cbn [warning set_warning]. destruct (decide (W_ERROR = w)); [destruct set; auto|apply C].
      * unfold status. cbn. rewrite L. cbn. by rewrite andb_false_r.
  - eapply IH in H; done.
Qed.

Lemma rules_state0_checked : checked rules_state0.
Proof. split; [by left|done]. Qed.

(** ** The order of the pairs *)

Definition prio_le (a b : rule_pair) : Prop := rule_pair_priority a <= rule_pair_priority b.
Definition of_prio (k : Z) (ps : list rule_pair) : list rule_pair := List.filter (fun p => rule_pair_priority p =? k) ps.

Lemma pair_merge_sorted l1 : forall l2, StronglySorted prio_le l1 -> StronglySorted prio_le l2 ->
  StronglySorted prio_le (mergel rule_pair_cmp l1 l2).
Proof.
  induction l1 as [|a l1 IH1]; intros l2 H1 H2; [by rewrite mergel_nil_l|].
  induction l2 as [|b l2 IH2]; [by rewrite mergel_nil_r|].
  rewrite mergel_cons. apply StronglySorted_inv in H1 as [H1 F1]. pose proof H2 as H2'.
  apply StronglySorted_inv in H2 as [H2 F2]. unfold rule_pair_cmp at 1.
  destruct (rule_pair_priority a >=? rule_pair_priority b) eqn:E; cbn [Z.leb Z.compare].
  - constructor; [by apply IH2|]. rewrite mergel_perm. apply Forall_app. split; [|done].
    constructor; [unfold prio_le; zlia|]. eapply list.Forall_impl; [exact F1|]. unfold prio_le. intros x Hx. zlia.
  - constructor; [by apply IH1|]. rewrite mergel_perm. apply Forall_app. split; [done|].
    constructor; [unfold prio_le; zlia|]. eapply list.Forall_impl; [exact F2|]. unfold prio_le. intros x Hx. zlia.
Qed.

Lemma pair_merge_reverses k l1 : forall l2, StronglySorted prio_le l1 -> StronglySorted prio_le l2 ->
  of_prio k (mergel rule_pair_cmp l1 l2) = of_prio k l2 ++ of_prio k l1.
Proof.
  induction l1 as [|a l1 IH1]; intros l2 H1 H2; [by rewrite mergel_nil_l, app_nil_r|].
  induction l2 as [|b l2 IH2]; [by rewrite mergel_nil_r|].
  rewrite mergel_cons. apply StronglySorted_inv in H1 as [H1 F1]. pose proof H2 as H2'.
  apply StronglySorted_inv in H2 as [H2 F2]. unfold rule_pair_cmp at 1.
  destruct (rule_pair_priority a >=? rule_pair_priority b) eqn:E; cbn [Z.leb Z.compare].
  - change (of_prio k (b :: ?l)) with (if rule_pair_priority b =? k then b :: of_prio k l else of_prio k l).
    rewrite IH2 by done. unfold of_prio. cbn [List.filter]. by destruct (rule_pair_priority b =? k).
  - change (of_prio k (a :: mergel rule_pair_cmp l1 (b :: l2)))
      with (if rule_pair_priority a =? k then a :: of_prio k (mergel rule_pair_cmp l1 (b :: l2))
            else of_prio k (mergel rule_pair_cmp l1 (b :: l2))).
    rewrite IH1 by done. change (of_prio k (a :: l1)) with (if rule_pair_priority a =? k then a :: of_prio k l1 else of_prio k l1).
    destruct (Z.eqb_spec (rule_pair_priority a) k) as [Ha|Ha]; [|done].
    assert (of_prio k (b :: l2) = []) as ->; [|done].
    assert (forall y, y ∈ b :: l2 -> (rule_pair_priority y =? k) = false) as Hno.
    { intros y Hy. apply elem_of_cons in Hy as [->|Hy]; [zlia|]. rewrite list.Forall_forall in F2.
      specialize (F2 y Hy). unfold prio_le in F2. zlia. }
    clear -Hno. unfold of_prio. induction (b :: l2) as [|y l IH]; [done|]. cbn [List.filter]. rewrite Hno by left. apply IH.
    intros z Hz. apply Hno. by right.
Qed.

(** ** Theorems *)

(** An example: a rule file with a goto over a label, a label in front of its goto
    and a second label. *)
Definition demo_pair (k : rule_key_t) (o : rule_op_t) (a : option string) (v : string) (line : Z) : rule_pair :=
  let at_ c := {| UdevRules.line := line; column := c |} in
  {| pos_key := at_ 1; pos_op := at_ 5; pos_value := at_ 6; key := k; op := o; attr := a; value := v;
     rule_line := line; rule_file := 0 |}.
Definition demo_goto : rule_pair := demo_pair KEY_GOTO OP_ASSIGN None "end" 2.
Definition demo_early : rule_pair := demo_pair KEY_LABEL OP_ASSIGN None "end" 1.
Definition demo_late : rule_pair := demo_pair KEY_LABEL OP_ASSIGN None "end" 3.
Definition demo_lines : list (list rule_pair * Z) := [([demo_early], 1); ([demo_goto], 2); ([demo_late], 3)].

(** C20. The warnings about labels. When all files are read, and the pairs of a
    file come in the order of their lines, the last messages are: every GOTO that
    has no LABEL of the same name further down in its file, if that warning is on,
    and every LABEL that has no GOTO of the same name further up in its file, if
    that one is on, each in the order of the files; so the loop over the gotos that
    stops at the first one of that name does not miss one. *)
Theorem label_warnings opts args s0 s1 :
  rules_options opts rules_state0 = Ret s0 -> args <> [] -> read_args args s0 = Ret (s1, true) ->
  let pairs := concat (map (fun a => all_pairs a.1) args) in
  StronglySorted in_order pairs ->
  exists s2, rules_main opts args = Ret s2 /\ log s2 = log s1
    ++ (if warning s0 W_MISSING_LABEL =? 0 then []
        else map M_missing_label (List.filter
               (fun g => negb (existsb (fun l => goto_target g l) (keyed KEY_LABEL pairs))) (keyed KEY_GOTO pairs)))
    ++ (if warning s0 W_UNUSED_LABELS =? 0 then []
        else map M_unused_label (List.filter
               (fun l => negb (existsb (fun g => goto_target g l) (keyed KEY_GOTO pairs))) (keyed KEY_LABEL pairs))).
Proof.
  intros Ho Ha Hr pairs Hs.
  destruct (rules_options_ok _ _ _ Ho rules_state0_checked eq_refl eq_refl eq_refl) as (_ & _ & G0 & L0).
  destruct (read_args_ok _ _ _ Hr) as ([W _] & G & L & _). rewrite G0 in G. rewrite L0 in L. cbn in G, L.
  exists (check_goto_label s1). split.
  { unfold rules_main. rewrite Ho. cbn [obind]. destruct args; [done|]. by rewrite Hr. }
  unfold check_goto_label. destruct (check_gotos_log (gotos s1) s1) as [([W1 _] & G1 & L1 & _) Lg].
  cbn zeta. rewrite W1, W. destruct (warning s0 W_UNUSED_LABELS =? 0).
  - by rewrite Lg, W, L, G, app_nil_r.
  - destruct (check_labels_log (labels (check_gotos (gotos s1) s1)) (check_gotos (gotos s1) s1)) as [_ ->].
    rewrite Lg, W, G1, L1, L, G, <- app_assoc. do 3 f_equal. apply List.filter_ext. intros l.
    rewrite label_used_spec; [done|]. by apply keyed_ordered.
Qed.

Lemma label_warnings_witness :
  exists s2, rules_main [OptW "all"] [(demo_lines, true)] = Ret s2 /\ log s2 = [M_unused_label demo_early].
Proof.
  destruct (rules_options [OptW "all"] rules_state0) as [s0| | |] eqn:E0; try discriminate E0.
  destruct (read_args [(demo_lines, true)] s0) as [[s1 [|]]| | |] eqn:E1;
    injection E0 as <-; try discriminate E1.
  destruct (label_warnings [OptW "all"] [(demo_lines, true)] _ s1 eq_refl ltac:(done) E1) as (s2 & H1 & H2).
  - cbn. repeat constructor; vm_compute; discriminate.
  - exists s2. split; [exact H1|]. rewrite H2. injection E1 as <-. vm_compute. reflexivity.
Defined.

(** The exit status. When all files are read, udev-rules returns 1 exactly
    when an error was reported or when a warning was reported and -Werror is on,
    and 0 otherwise: whatever the order of the messages, no later message takes the
    status back. *)
Theorem exit_status opts args s0 s :
  rules_options opts rules_state0 = Ret s0 -> rules_main opts args = Ret s ->
  Forall (fun a => a.2 = true) args ->
  retcode s = 1 /\ (existsb is_error (log s) = true
                   \/ warning s0 W_ERROR <> 0 /\ existsb is_warning (log s) = true)
  \/ retcode s = 0 /\ existsb is_error (log s) = false
     /\ (warning s0 W_ERROR = 0 \/ existsb is_warning (log s) = false).
Proof.
  intros Ho Hm Hall.
  destruct (rules_options_ok _ _ _ Ho rules_state0_checked eq_refl eq_refl eq_refl) as (C & _).
  unfold rules_main in Hm. rewrite Ho in Hm. cbn [obind] in Hm. destruct args as [|a args]; [done|].
  destruct (read_args (a :: args) s0) as [[s1 ok]| | |] eqn:Hr; cbn [obind] in Hm; try done.
  assert (ok = true) as ->.
  { clear -Hr Hall. revert s0 Hr. induction (a :: args) as [|[ls o] l IH]; intros s0 Hr; cbn in Hr; [by simplify_eq|].
    destruct (read_lines ls s0); cbn in Hr; try done. inversion Hall as [|? ? Ho Hl]; subst. cbn in Ho. subst o. cbn in Hr. by eapply IH. }
  simplify_eq. destruct (read_args_ok _ _ _ Hr) as ([W _] & _ & _ & C1).
  destruct (check_goto_label_rep s1) as ([W2 _] & _ & _ & C2).
  destruct (C2 (C1 C)) as [_ Hs]. rewrite Hs. unfold status. rewrite W2, W.
  destruct (existsb is_error _), (Z.eqb_spec (warning s0 W_ERROR) 0), (existsb is_warning _); cbn; tauto.
Qed.

Lemma exit_status_witness :
  exists s, rules_main [OptW "all"; OptW "error"] [(demo_lines, true)] = Ret s /\ retcode s = 1.
Proof.
  destruct (rules_main [OptW "all"; OptW "error"] [(demo_lines, true)]) as [s| | |] eqn:E; try discriminate E.
  exists s. split; [reflexivity|].
  destruct (exit_status [OptW "all"; OptW "error"] [(demo_lines, true)] _ s eq_refl E) as [[H _]|(_ & _ & H)].
  - repeat constructor.
  - exact H.
  - exfalso. injection E as <-. vm_compute in H. by destruct H.
Defined.

(** When process_token crashes. It dereferences a null pointer exactly for a
    CONST or an IMPORT without an attribute and for an ENV without an attribute
    that is assigned to, after having reported the missing attribute; for every
    other pair it returns. *)
Theorem process_token_crash p prev s :
  (attr p = None /\ (key p = KEY_CONST \/ key p = KEY_IMPORT \/ key p = KEY_ENV /\ is_op_match p = false)
   /\ process_token p prev s = Undef)
  \/ (~ (attr p = None /\ (key p = KEY_CONST \/ key p = KEY_IMPORT \/ key p = KEY_ENV /\ is_op_match p = false))
      /\ exists s' p', process_token p prev s = Ret (s', p')).
Proof.
  unfold process_token.
  assert (forall r : rules_state * rule_pair, exists s' p', (let! (s, p) := Ret r in
            Ret (check_multi_goto_label p prev (check_match_conditions p prev s), p)) = Ret (s', p')) as Hret
    by (intros [s1 p1]; by do 2 eexists).
  unfold token_switch, token_switch_more. destruct (key p) eqn:Hk; cbn zeta;
    try (right; split; [naive_solver|];
         repeat match goal with |- context [if ?b then _ else _] => destruct b end; apply Hret).
  - unfold attr_string. destruct (attr p) eqn:Ha; [right|left; naive_solver]. split; [naive_solver|]. apply Hret.
  - destruct (is_op_match p) eqn:Hm; cbn [negb].
    + right. split; [naive_solver|]. destruct (op_is OP_ASSIGN_FINAL p); apply Hret.
    + unfold attr_string. destruct (attr p) eqn:Ha.
      * right. split; [naive_solver|]. destruct (op_is OP_ASSIGN_FINAL p); cbn; rewrite Ha; apply Hret.
      * left. split; [done|]. split; [naive_solver|]. destruct (op_is OP_ASSIGN_FINAL p); cbn; by rewrite Ha.
  - unfold attr_string. assert (attr (when (negb (is_op_match p)) (set_op OP_MATCH) p) = attr p) as ->
      by (by destruct (is_op_match p)).
    destruct (attr p) eqn:Ha; [right|left; naive_solver]. split; [naive_solver|]. apply Hret.
  - right. split; [naive_solver|]. unfold attr_string, has_attr.
    destruct (attr p) eqn:Ha; cbn [negb when]; rewrite ?Ha; apply Hret.
Qed.

(** The sort of the pairs of a rule. They end up in ascending order of their
    priority, and pairs of the same priority in the reverse of their order in the
    rule: rule_pair_cmp returns 1 for equal pairs, although list_sort asks for a
    value that is not positive when the order is to be kept. *)
Theorem rule_pairs_sorted ps :
  sortl rule_pair_cmp ps ≡ₚ ps /\ StronglySorted prio_le (sortl rule_pair_cmp ps)
  /\ forall k, of_prio k (sortl rule_pair_cmp ps) = rev (of_prio k ps).
Proof.
  split; [apply sortl_perm|]. destruct (decide (ps = [])) as [->|Hne]; [split; [constructor|done]|].
  apply (sortl_P _ (fun s l => StronglySorted prio_le l /\ forall k, of_prio k l = rev (of_prio k s))); [..|done].
  - intros p. split; [repeat constructor|]. intros k. unfold of_prio. cbn. by case_match.
  - intros s1 s2 l1 l2 [S1 F1] [S2 F2]. split; [by apply pair_merge_sorted|]. intros k.
    rewrite pair_merge_reverses, F1, F2 by done. unfold of_prio. by rewrite List.filter_app, rev_app_distr.
Qed.
