(* ===== verification/CString.v ===== *)
(** The functions of the C library on strings that several programs use: strchr,
    strrchr, strstr, strtok_r, strncmp with a prefix, getline, fnmatch. Strings here
    are their bytes without the NUL. *)

From Stdlib Require Import ZArith Ascii String Lia.
From stdpp Require Import base list strings sets tactics numbers.
From S2P Require Import Prelude.

Open Scope Z_scope.
Open Scope cprog_scope.

Definition str (b : bytes) : string := String.string_of_list_ascii b.

(** [strchr]: the bytes in front of the first [c] and those behind it. *)
Fixpoint strchr (c : ascii) (s : bytes) : option (bytes * bytes) :=
  match s with
  | [] => None
  | x :: s =>
      if decide (x = c) then Some ([], s)
      else match strchr c s with Some (a, b) => Some (x :: a, b) | None => None end
  end.

(** [strrchr]: the same for the last [c]. *)
Definition strrchr (c : ascii) (s : bytes) : option (bytes * bytes) :=
  match strchr c (rev s) with Some (a, b) => Some (rev b, rev a) | None => None end.

(** [!strncmp(s, p, strlen(p))]: what follows the prefix. *)
Fixpoint strip_prefix (p s : bytes) : option bytes :=
  match p, s with
  | [], _ => Some s
  | a :: p, b :: s => if decide (a = b) then strip_prefix p s else None
  | _, [] => None
  end.

(** The tokens that [strtok_r] returns one after the other. *)
Fixpoint strtok_go (delim : bytes) (cur : bytes) (s : bytes) : list bytes :=
  match s with
  | [] => if decide (cur = []) then [] else [cur]
  | c :: s =>
      if bool_decide (c ∈ delim)
      then (if decide (cur = []) then [] else [cur]) ++ strtok_go delim [] s
      else strtok_go delim (cur ++ [c]) s
  end.
Definition strtok (delim : bytes) (s : bytes) : list bytes := strtok_go delim [] s.

(** The pieces between single separators, empty ones included. *)
Fixpoint split_on (c : ascii) (s : bytes) : list bytes :=
  match s with
  | [] => [[]]
  | x :: s =>
      if decide (x = c) then [] :: split_on c s
      else match split_on c s with [] => [[x]] | t :: ts => (x :: t) :: ts end
  end.

(** The lines that getline returns, with their newline. *)
Fixpoint getlines (cur s : bytes) : list bytes :=
  match s with
  | [] => if decide (cur = []) then [] else [cur]
  | ch :: s => if decide (ch = "010"%char) then (cur ++ [ch]) :: getlines [] s else getlines (cur ++ [ch]) s
  end.

(** [strstr]: what is in front of the first occurrence and what is behind it. *)
Fixpoint strstr (s needle : bytes) : option (bytes * bytes) :=
  match strip_prefix needle s with
  | Some r => Some ([], r)
  | None =>
      match s with
      | [] => None
      | c :: s => match strstr s needle with Some (a, b) => Some (c :: a, b) | None => None end
      end
  end.

(** ** fnmatch

    With no other flag than FNM_NOESCAPE, in the C locale: [*], [?] and bracket
    expressions with ranges and a leading [!] or [^], and with [esc] a backslash that
    takes the next character for itself. The classes [[:alpha:]] and the like are not
    modelled. *)

(** A member of a bracket expression without its backslash. *)
Definition unescape (esc : bool) (x : ascii) (p : bytes) : option (ascii * bytes) :=
  if esc && bool_decide (x = "\"%char) then match p with y :: p' => Some (y, p') | [] => None end else Some (x, p).

(** The members of a bracket expression up to its closing bracket: whether [c] is
    among them, and the pattern behind it. The first member may be a bracket. *)
Fixpoint bracket (esc : bool) (fuel : nat) (first : bool) (p : bytes) (c : ascii) (found : bool) : option (bool * bytes) :=
  match fuel with
  | O => None
  | S fuel =>
      match p with
      | [] => None
      | "]"%char :: p' => if first then bracket_member esc fuel "]"%char p' c found else Some (found, p')
      | x :: p' =>
          match unescape esc x p' with
          | Some (x, p') => bracket_member esc fuel x p' c found
          | None => None
          end
      end
  end
with bracket_member (esc : bool) (fuel : nat) (x : ascii) (p : bytes) (c : ascii) (found : bool) : option (bool * bytes) :=
  match fuel with
  | O => None
  | S fuel =>
      match p with
      | "-"%char :: y :: p' =>
          if decide (y = "]"%char) then bracket esc fuel false p c (found || bool_decide (x = c))
          else match unescape esc y p' with
               | Some (y, p') => bracket esc fuel false p' c (found || ((ord x <=? ord c) && (ord c <=? ord y)))
               | None => None
               end
      | _ => bracket esc fuel false p c (found || bool_decide (x = c))
      end
  end.

(** [None] from the bracket is an unclosed one: the [[] stands for itself. *)
Fixpoint fnmatch_go (esc : bool) (fuel : nat) (p s : bytes) : bool :=
  match fuel with
  | O => false
  | S fuel =>
      match p with
      | [] => bool_decide (s = [])
      | "*"%char :: p' =>
          fnmatch_go esc fuel p' s || match s with [] => false | _ :: s' => fnmatch_go esc fuel p s' end
      | "?"%char :: p' => match s with [] => false | _ :: s' => fnmatch_go esc fuel p' s' end
      | "["%char :: p' =>
          match s with
          | [] => false
          | c :: s' =>
              let '(neg, p1) := match p' with
                                | "!"%char :: q | "^"%char :: q => (true, q)
                                | _ => (false, p')
                                end in
              match bracket esc (2 * length p1 + 2) true p1 c false with
              | Some (found, p2) => xorb neg found && fnmatch_go esc fuel p2 s'
              | None => bool_decide (c = "["%char) && fnmatch_go esc fuel p' s'
              end
          end
      | x :: p' =>
          match unescape esc x p', s with
          | Some (x, p'), c :: s' => bool_decide (x = c) && fnmatch_go esc fuel p' s'
          | _, _ => false
          end
      end
  end.

(** [fnmatch(p, s, FNM_NOESCAPE)] and [fnmatch(p, s, 0)]. *)
Definition fnmatch (p s : bytes) : bool := fnmatch_go false (length p + length s + 1) p s.
Definition fnmatch_escape (p s : bytes) : bool := fnmatch_go true (length p + length s + 1) p s.

(** [strtol(s, &end, b)]: the value, whether it overflowed, and what [end] points to. *)
Definition strtol (b : Z) (s : bytes) : Z * bool * bytes :=
  let '(neg, s1) := strto_sign (skip_while isspace s) in
  let '(b', s2) := strto_base b s1 in
  match s2 with
  | c :: _ =>
      if is_digit_of b' c then
        let '(v, rest) := scan_digits b' 0 s2 in
        if neg then (if 2 ^ 63 <? v then (- 2 ^ 63, true, rest) else (- v, false, rest))
        else if 2 ^ 63 - 1 <? v then (2 ^ 63 - 1, true, rest) else (v, false, rest)
      else (0, false, s)
  | [] => (0, false, s)
  end.

Definition atoi (s : bytes) : Z := i32 (fst (fst (strtol 10 s))).

Definition isalnum (c : ascii) : bool :=
  isdigit c || ((65 <=? ord c) && (ord c <=? 90)) || ((97 <=? ord c) && (ord c <=? 122)).

(** The longest prefix of characters that satisfy [f], and the rest. *)
Fixpoint span (f : ascii -> bool) (s : bytes) : bytes * bytes :=
  match s with
  | c :: s' => if f c then (c :: fst (span f s'), snd (span f s')) else ([], s)
  | [] => ([], [])
  end.

(** ** Lemmas *)

Lemma strchr_app c a b : c ∉ a -> strchr c (a ++ c :: b) = Some (a, b).
Proof.
  induction a as [|x a IH]; intros H; cbn.
  - by rewrite decide_True.
  - rewrite decide_False by set_solver. rewrite IH by set_solver. done.
Qed.

Lemma strchr_none c s : c ∉ s -> strchr c s = None.
Proof.
  induction s as [|x s IH]; intros H; [done|]. cbn. rewrite decide_False by set_solver. by rewrite IH by set_solver.
Qed.

Lemma strip_prefix_Some p s t : strip_prefix p s = Some t <-> s = p ++ t.
Proof.
  revert s. induction p as [|a p IH]; intros [|b s]; cbn; try naive_solver.
  case_decide as E; [rewrite IH|]; naive_solver.
Qed.

Lemma strrchr_app c a b : c ∉ b -> strrchr c (a ++ c :: b) = Some (a, b).
Proof.
  intros H. unfold strrchr. rewrite rev_app_distr. cbn. rewrite <- app_assoc. cbn.
  rewrite strchr_app; [by rewrite !rev_involutive|].
  intros Hin. apply H. apply list_elem_of_In. rewrite (in_rev b). by apply list_elem_of_In.
Qed.

Lemma str_list s : str #s = s.
Proof. apply String.string_of_list_ascii_of_string. Qed.

Lemma list_str b : #(str b) = b.
Proof. apply String.list_ascii_of_string_of_list_ascii. Qed.
