(* ===== verification/UdevScanner.v ===== *)
(** The scanner of udev rules (utils/udev-rules/udev-rules-scanner.l).

    The patterns of the two start conditions are matchers that give the length of the
    longest match at the beginning of the text. As flex documents it, the longest match
    wins, the earlier pattern in a tie, and a character that no pattern matches is copied
    to the output ([R_echo]). [yylex] has the actions, with the strings of UdevString. *)

From Stdlib Require Import ZArith Ascii String Lia.
From stdpp Require Import base list strings tactics numbers.
From S2P Require Import Prelude CString UdevString UdevRules.

Open Scope Z_scope.
Open Scope cprog_scope.

Definition NL : ascii := "010"%char.
Definition QUOTE : ascii := "034"%char.
Definition BSLASH : ascii := "\"%char.

(** ** Names of udev-rules.h *)

Definition rule_key_names (k : rule_key_t) : bytes :=
  match k with
  | KEY_ACTION => #"ACTION" | KEY_ATTR => #"ATTR" | KEY_ATTRS => #"ATTRS" | KEY_CONST => #"CONST"
  | KEY_DEVPATH => #"DEVPATH" | KEY_DRIVER => #"DRIVER" | KEY_DRIVERS => #"DRIVERS" | KEY_ENV => #"ENV"
  | KEY_GOTO => #"GOTO" | KEY_GROUP => #"GROUP" | KEY_IMPORT => #"IMPORT" | KEY_KERNEL => #"KERNEL"
  | KEY_KERNELS => #"KERNELS" | KEY_LABEL => #"LABEL" | KEY_MODE => #"MODE" | KEY_NAME => #"NAME"
  | KEY_OPTIONS => #"OPTIONS" | KEY_OWNER => #"OWNER" | KEY_PROGRAM => #"PROGRAM" | KEY_RESULT => #"RESULT"
  | KEY_RUN => #"RUN" | KEY_SECLABEL => #"SECLABEL" | KEY_SUBSYSTEM => #"SUBSYSTEM" | KEY_SUBSYSTEMS => #"SUBSYSTEMS"
  | KEY_SYMLINK => #"SYMLINK" | KEY_SYSCTL => #"SYSCTL" | KEY_TAG => #"TAG" | KEY_TAGS => #"TAGS" | KEY_TEST => #"TEST"
  end.

Definition rule_op_names (o : rule_op_t) : bytes :=
  match o with
  | OP_MATCH => #"==" | OP_NOMATCH => #"!=" | OP_ADD => #"+=" | OP_REMOVE => #"-=" | OP_ASSIGN => #"=" | OP_ASSIGN_FINAL => #":="
  end.
Definition all_ops : list rule_op_t := [OP_MATCH; OP_NOMATCH; OP_ADD; OP_REMOVE; OP_ASSIGN; OP_ASSIGN_FINAL].

(** ** Patterns *)

Definition some_pos (n : nat) : option nat := match n with O => None | _ => Some n end.

(** [ \t]+ and ,+ *)
Fixpoint run (f : ascii -> bool) (s : bytes) : nat := match s with c :: s => if f c then S (run f s) else O | [] => O end.
Definition m_blank (s : bytes) : option nat := some_pos (run (fun c => bool_decide (c = " "%char \/ c = "009"%char)) s).
Definition m_comma (s : bytes) : option nat := some_pos (run (fun c => bool_decide (c = ","%char)) s).

(** #.*\n *)
Definition m_comment (s : bytes) : option nat :=
  match s with
  | "#"%char :: s => match strchr NL s with Some (a, _) => Some (length a + 2)%nat | None => None end
  | _ => None
  end.

(** A fixed string. *)
Definition m_lit (p s : bytes) : option nat := match strip_prefix p s with Some _ => Some (length p) | None => None end.

(** The longest name of a list. *)
Fixpoint m_names (l : list bytes) (s : bytes) : option nat :=
  match l with
  | [] => None
  | p :: l => match m_lit p s, m_names l s with
              | Some n, Some m => Some (Nat.max n m)
              | Some n, None => Some n
              | None, r => r
              end
  end.
Definition m_key (s : bytes) : option nat := m_names (map rule_key_names all_keys) s.

(** [{][^}]+[}] *)
Definition m_attr (s : bytes) : option nat :=
  match s with
  | "{"%char :: s => match strchr "}"%char s with Some ((_ :: _) as a, _) => Some (length a + 2)%nat | _ => None end
  | _ => None
  end.

(** [:!=+-]=|= *)
Definition m_op (s : bytes) : option nat :=
  match s with
  | c :: d :: _ => if bool_decide (c ∈ #":!=+-" /\ d = "="%char) then Some 2%nat else if bool_decide (c = "="%char) then Some 1%nat else None
  | [c] => if bool_decide (c = "="%char) then Some 1%nat else None
  | [] => None
  end.

(** . and the character of the default rule *)
Definition m_any (s : bytes) : option nat := match s with c :: _ => if bool_decide (c = NL) then None else Some 1%nat | [] => None end.
Definition m_char (s : bytes) : option nat := match s with _ :: _ => Some 1%nat | [] => None end.

(** \\. *)
Definition m_esc (s : bytes) : option nat :=
  match s with c :: d :: _ => if bool_decide (c = BSLASH /\ d <> NL) then Some 2%nat else None | _ => None end.

Inductive start := INITIAL | STRING.

Inductive lex_rule :=
  | R_blank | R_comment | R_continue | R_eol | R_comma | R_key | R_attr | R_quote | R_op | R_any
  | S_quote | S_esc_quote | S_esc_bslash | S_esc | S_any
  | R_echo.

Definition patterns (st : start) : list (lex_rule * (bytes -> option nat)) :=
  match st with
  | INITIAL => [(R_blank, m_blank); (R_comment, m_comment); (R_continue, m_lit [BSLASH; NL]); (R_eol, m_lit [NL]); (R_comma, m_comma);
                (R_key, m_key); (R_attr, m_attr); (R_quote, m_lit [QUOTE]); (R_op, m_op); (R_any, m_any); (R_echo, m_char)]
  | STRING => [(S_quote, m_lit [QUOTE]); (S_esc_quote, m_lit [BSLASH; QUOTE]); (S_esc_bslash, m_lit [BSLASH; BSLASH]); (S_esc, m_esc);
               (S_any, m_any); (R_echo, m_char)]
  end.

(** The longest match, the first one in a tie. *)
Fixpoint longest (l : list (lex_rule * (bytes -> option nat))) (s : bytes) (best : option (lex_rule * nat)) : option (lex_rule * nat) :=
  match l with
  | [] => best
  | (r, m) :: l =>
      longest l s (match m s, best with
                   | Some n, Some (_, k) => if (k <? n)%nat then Some (r, n) else best
                   | Some n, None => Some (r, n)
                   | None, _ => best
                   end)
  end.
Definition yy_match (st : start) (s : bytes) : option (lex_rule * nat) := longest (patterns st) s None.

(** ** Locations *)

Record loc := { first_line : Z; first_column : Z; last_line : Z; last_column : Z }.

(** Where yyparse starts. *)
Definition loc0 : loc := {| first_line := 1; first_column := 1; last_line := 1; last_column := 1 |}.

(** The loop over the bytes of the text. *)
Fixpoint advance (p : pos) (s : bytes) : pos :=
  match s with
  | [] => p
  | c :: s => advance (if decide (c = NL) then {| line := line p + 1; column := 1 |} else {| line := line p; column := column p + 1 |}) s
  end.

(** What a pointer to the text reads as a string. *)
Fixpoint to_nul (s : bytes) : bytes := match s with c :: s => if decide (c = NUL) then [] else c :: to_nul s | [] => [] end.

Definition update_loc (text : bytes) (l : loc) : loc :=
  let p := advance {| line := last_line l; column := last_column l |} (to_nul text) in
  {| first_line := last_line l; first_column := last_column l; last_line := line p; last_column := column p |}.

(** ** Actions *)

Inductive token := T_EOF | T_KEY (k : rule_key_t) | T_ATTR (a : ustring) | T_OPERATION (o : rule_op_t) | T_VALUE (v : ustring) | T_COMMA | T_EOL | T_ERROR.

(** The rest of the file, the start condition, the location and what went to the output. *)
Record scanner := { text : bytes; state : start; lloc : loc; echoed : bytes }.

Definition scanner0 (file : bytes) : scanner := {| text := file; state := INITIAL; lloc := loc0; echoed := [] |}.

(** The text behind a match, with YY_USER_ACTION. *)
Definition matched (n : nat) (sc : scanner) : scanner :=
  {| text := drop n (text sc); state := state sc; lloc := update_loc (take n (text sc)) (lloc sc); echoed := echoed sc |}.
Definition BEGIN (st : start) (sc : scanner) : scanner := {| text := text sc; state := st; lloc := lloc sc; echoed := echoed sc |}.
Definition ECHO (t : bytes) (sc : scanner) : scanner := {| text := text sc; state := state sc; lloc := lloc sc; echoed := echoed sc ++ t |}.

Definition append (lval : option ustring) (c : ascii) : out (option ustring) :=
  match lval with Some s => let! s := string_append_chr s c in Ret (Some s) | None => Undef end.

Definition key_token (t : bytes) : token :=
  match List.find (fun k => bool_decide (t = rule_key_names k)) all_keys with Some k => T_KEY k | None => T_ERROR end.
Definition op_token (t : bytes) : token :=
  match List.find (fun o => bool_decide (t = rule_op_names o)) all_ops with Some o => T_OPERATION o | None => T_ERROR end.

Definition attr_token (t : bytes) : out token :=
  let n := lenZ (to_nul (drop 1 t)) in
  let! s := string_append_str new_string (to_nul (drop 1 t)) (u64 (n - 1)) in
  Ret (T_ATTR s).

(** [lval] is yylval->string, [None] before it is set. *)
Fixpoint yylex (fuel : nat) (lval : option ustring) (sc : scanner) : out (token * scanner) :=
  match fuel with
  | O => NoFuel
  | S fuel =>
      match yy_match (state sc) (text sc) with
      | None => Ret (T_EOF, sc)
      | Some (r, n) =>
          let yytext := take n (text sc) in
          let sc := matched n sc in
          match r with
          | R_blank | R_comment | R_continue => yylex fuel lval sc
          | R_eol => Ret (T_EOL, sc)
          | R_comma => Ret (T_COMMA, sc)
          | R_key => Ret (key_token yytext, sc)
          | R_attr => let! t := attr_token yytext in Ret (t, sc)
          | R_quote => yylex fuel (Some new_string) (BEGIN STRING sc)
          | R_op => Ret (op_token yytext, sc)
          | R_any => Ret (T_ERROR, sc)
          | S_quote => match lval with Some s => Ret (T_VALUE s, BEGIN INITIAL sc) | None => Undef end
          | S_esc_quote => let! l := append lval QUOTE in yylex fuel l sc
          | S_esc_bslash => let! l := append lval BSLASH in yylex fuel l sc
          | S_esc => let! l := append lval (default NUL (yytext !! 1%nat)) in yylex fuel l sc
          | S_any => let! l := append lval (default NUL (yytext !! 0%nat)) in yylex fuel l sc
          | R_echo => yylex fuel lval (ECHO yytext sc)
          end
      end
  end.

(** One more than the bytes that are left is enough. *)
Definition next_token (sc : scanner) : out (token * scanner) := yylex (S (length (text sc))) None sc.

(** ** Every match consumes something *)

Lemma strchr_Some c s a b : strchr c s = Some (a, b) -> s = a ++ c :: b.
Proof.
  revert a. induction s as [|x s IH]; intros a; cbn; [done|]. destruct (decide (x = c)) as [->|]; [by intros [= <- <-]|].
  destruct (strchr c s) as [[a' b']|]; [|done]. intros [= <- <-]. cbn. by rewrite <- IH.
Qed.

Definition in_text (s : bytes) (n : nat) : Prop := (0 < n <= length s)%nat.

Lemma run_le f s : (run f s <= length s)%nat.
Proof. induction s as [|c s IH]; cbn; [done|]. destruct (f c); lia. Qed.

Lemma m_lit_in p s n : p <> [] -> m_lit p s = Some n -> in_text s n.
Proof.
  unfold m_lit, in_text. intros Hp. destruct (strip_prefix p s) as [r|] eqn:E; [|done]. intros [= <-]. apply strip_prefix_Some in E as ->.
  rewrite length_app. destruct p; [done|]. cbn. lia.
Qed.

Lemma m_names_in l s n : Forall (fun p => p <> []) l -> m_names l s = Some n -> in_text s n.
Proof.
  intros Hl. revert n. induction Hl as [|p l Hp Hl IH]; intros n; cbn; [done|].
  destruct (m_lit p s) as [a|] eqn:E; [|by apply IH]. apply m_lit_in in E; [|done]. destruct (m_names l s) as [b|]; intros [= <-]; [|done].
  specialize (IH b eq_refl). unfold in_text in *. lia.
Qed.

Lemma patterns_in st : Forall (fun rm => forall s n, snd rm s = Some n -> in_text s n) (patterns st).
Proof.
  assert (Hrun : forall f s n, some_pos (run f s) = Some n -> in_text s n).
  { intros f s n. pose proof (run_le f s). destruct (run f s); [done|]. intros [= <-]. unfold in_text. lia. }
  assert (Hany : forall s n, m_any s = Some n -> in_text s n).
  { intros [|c s] n; cbn; [done|]. case_bool_decide; [done|]. intros [= <-]. unfold in_text. cbn. lia. }
  assert (Hchar : forall s n, m_char s = Some n -> in_text s n) by (intros [|c s] n; [done|]; intros [= <-]; unfold in_text; cbn; lia).
  destruct st; repeat (apply list.Forall_cons; split); try apply list.Forall_nil_2; cbn [snd]; try done; try (intros s n; by apply m_lit_in); try (intros s n; by apply Hrun).
  - intros [|c s] n; cbn; [done|]. repeat case_match; try done; intros [= <-]; subst; unfold in_text;
      match goal with H : strchr _ _ = _ |- _ => apply strchr_Some in H as -> end; cbn; rewrite length_app; cbn; lia.
  - intros s n. apply m_names_in. repeat constructor; done.
  - intros [|c s] n; cbn; [done|]. repeat case_match; try done; intros [= <-]; subst; unfold in_text;
      match goal with H : strchr _ _ = _ |- _ => apply strchr_Some in H as -> end; cbn; rewrite ?length_app; cbn; lia.
  - intros [|c [|d s]] n; cbn; [done|..]; repeat case_match; try done; intros [= <-]; unfold in_text; cbn; lia.
  - intros [|c [|d s]] n; cbn; [done..|]; repeat case_match; try done; intros [= <-]; unfold in_text; cbn; lia.
Qed.

Lemma longest_in l s best r n : Forall (fun rm => forall s n, snd rm s = Some n -> in_text s n) l ->
  (forall r n, best = Some (r, n) -> in_text s n) -> longest l s best = Some (r, n) -> in_text s n.
Proof.
  intros Hl. revert best. induction Hl as [|[r0 m] l Hm Hl IH]; intros best Hb; cbn; [apply Hb|]. apply IH. intros r1 n1. cbn in Hm.
  destruct (m s) as [k|] eqn:E; [|apply Hb]. destruct best as [[r2 k2]|]; [case_match|]; intros [= <- <-]; eauto.
Qed.

Lemma yy_match_in st s r n : yy_match st s = Some (r, n) -> in_text s n.
Proof. apply longest_in; [apply patterns_in|done]. Qed.

(** A text with a byte has a match. *)
Lemma longest_some l s best : best <> None -> longest l s best <> None.
Proof.
  revert best. induction l as [|[r m] l IH]; intros best Hb; cbn; [done|]. apply IH. destruct (m s); [|done]. destruct best as [[? ?]|]; [|done]. by case_match.
Qed.

Lemma longest_app l l' s best : longest (l ++ l') s best = longest l' s (longest l s best).
Proof. revert best. induction l as [|[r m] l IH]; intros best; [done|]. cbn. apply IH. Qed.

Lemma yy_match_none st s : yy_match st s = None -> s = [].
Proof.
  destruct s as [|c s]; [done|]. unfold yy_match.
  assert (exists l, patterns st = l ++ [(R_echo, m_char)]) as [l ->] by (destruct st; [by eexists [_; _; _; _; _; _; _; _; _; _]|by eexists [_; _; _; _; _]]).
  rewrite longest_app. cbn. destruct (longest l (c :: s) None) as [[? ?]|]; [case_match|]; done.
Qed.

(** ** The scanner ends *)

Lemma string_append_chr_ends s c : string_append_chr s c <> NoFuel /\ forall k m, string_append_chr s c <> Die k m.
Proof. unfold string_append_chr, store. cbn. repeat (case_match; cbn); by split. Qed.

Lemma strncpy_ends n i s b : strncpy n i s b <> NoFuel /\ forall k m, strncpy n i s b <> Die k m.
Proof.
  revert i s b. induction n as [|n IH]; intros i s b; cbn; [by split|]. unfold store. destruct s as [|c s]; case_match; cbn; try apply IH; by split.
Qed.

(** Neither without fuel nor with an exit. *)
Definition ends {A} (o : out A) : Prop := o <> NoFuel /\ forall k m, o <> Die k m.

Lemma ends_bind {A B} (o : out A) (f : A -> out B) : ends o -> (forall a, o = Ret a -> ends (f a)) -> ends (let! x := o in f x).
Proof. intros [H1 H2] Hf. destruct o; cbn; [by apply Hf| |by split|done]. by destruct (H2 code msg). Qed.

Lemma append_ends lval c : ends (append lval c).
Proof. unfold append. destruct lval; [|by split]. apply ends_bind; [apply string_append_chr_ends|by split]. Qed.

Lemma attr_token_ends t : ends (attr_token t).
Proof.
  unfold attr_token. apply ends_bind; [|by split]. unfold string_append_str. apply ends_bind; [apply strncpy_ends|]. intros b _.
  unfold store. by case_match; split.
Qed.

(** The rest of the text is a suffix of it, and shorter unless the file ended. *)
Definition shorter (sc sc' : scanner) (t : token) : Prop :=
  (length (text sc') < length (text sc))%nat \/ (text sc' = [] /\ t = T_EOF).

Lemma yylex_ends fuel lval sc : (length (text sc) < fuel)%nat ->
  ends (yylex fuel lval sc) /\ forall t sc', yylex fuel lval sc = Ret (t, sc') -> shorter sc sc' t.
Proof.
  revert lval sc. induction fuel as [|fuel IH]; intros lval sc Hf; [lia|]. cbn.
  destruct (yy_match (state sc) (text sc)) as [[r n]|] eqn:E.
  2:{ apply yy_match_none in E. split; [by split|]. intros t sc' [= <- <-]. by right. }
  apply yy_match_in in E. unfold in_text in E.
  assert (Hlen : (length (text (matched n sc)) < length (text sc))%nat) by (cbn; rewrite length_drop; lia).
  assert (Hret : forall t sc1, text sc1 = text (matched n sc) -> ends (Ret (t, sc1)) /\ forall t' sc', Ret (t, sc1) = Ret (t', sc') -> shorter sc sc' t').
  { intros t sc1 Et. split; [by split|]. intros t' sc' [= <- <-]. left. by rewrite Et. }
  assert (Hrec : forall l sc1, text sc1 = text (matched n sc) -> ends (yylex fuel l sc1) /\ forall t sc', yylex fuel l sc1 = Ret (t, sc') -> shorter sc sc' t).
  { intros l sc1 Et. destruct (IH l sc1) as [H1 H2]; [rewrite Et; lia|]. split; [done|]. intros t sc' H.
    destruct (H2 t sc' H) as [H3|H3]; [left; rewrite Et in H3; lia|by right]. }
  assert (Happ : forall c, ends (let! l := append lval c in yylex fuel l (matched n sc)) /\
    forall t sc', (let! l := append lval c in yylex fuel l (matched n sc)) = Ret (t, sc') -> shorter sc sc' t).
  { intros c. split; [apply ends_bind; [apply append_ends|intros; by apply Hrec]|]. intros t sc'. destruct (append lval c); try done. by apply Hrec. }
  destruct r; try (by apply Hret); try (by apply Hrec); try apply Happ.
  - split; [apply ends_bind; [apply attr_token_ends|intros; by split]|]. intros t sc'. destruct (attr_token _); try done. intros [= <- <-]. by left.
  - destruct lval; [by apply Hret|]. split; [by split|done].
Qed.

Lemma next_token_ends sc : ends (next_token sc) /\ forall t sc', next_token sc = Ret (t, sc') -> shorter sc sc' t.
Proof. apply yylex_ends. lia. Qed.

(** The end of the file is only found when nothing is left. *)
Lemma yylex_eof fuel lval sc sc' : yylex fuel lval sc = Ret (T_EOF, sc') -> text sc' = [].
Proof.
  revert lval sc. induction fuel as [|fuel IH]; intros lval sc; cbn [yylex]; [done|].
  destruct (yy_match (state sc) (text sc)) as [[r n]|] eqn:E; [|intros [= <-]; by eapply yy_match_none].
  destruct r; try done; try apply IH; unfold key_token, op_token; try (by case_match).
  all: try (destruct (append _ _); try done; apply IH).
  - unfold attr_token. by destruct (string_append_str _ _ _).
Qed.

(** ** Texts that scan as intended *)

Definition loc_at (p q : pos) : loc := {| first_line := line p; first_column := column p; last_line := line q; last_column := column q |}.
Definition at_text (s : bytes) (l : loc) (e : bytes) : scanner := {| text := s; state := INITIAL; lloc := l; echoed := e |}.
Definition in_string (s : bytes) (l : loc) (e : bytes) : scanner := {| text := s; state := STRING; lloc := l; echoed := e |}.

Lemma pos_eta (p : pos) : {| line := line p; column := column p |} = p.
Proof. by destruct p. Qed.

Lemma to_nul_id s : NUL ∉ s -> to_nul s = s.
Proof.
  induction s as [|c s IH]; [done|]. rewrite not_elem_of_cons. intros [Hc Hs]. cbn. by rewrite decide_False, IH by done.
Qed.

Lemma update_loc_at p q a : NUL ∉ a -> update_loc a (loc_at p q) = loc_at q (advance q a).
Proof. intros Ha. unfold update_loc. rewrite to_nul_id by done. cbn [last_line last_column loc_at]. by rewrite pos_eta. Qed.

Lemma advance_app p a b : advance p (a ++ b) = advance (advance p a) b.
Proof. revert p. induction a as [|c a IH]; intros p; [done|]. cbn. apply IH. Qed.

Lemma matched_at a rest p q e n : n = length a -> NUL ∉ a ->
  matched n (at_text (a ++ rest) (loc_at p q) e) = at_text rest (loc_at q (advance q a)) e.
Proof. intros -> Ha. unfold matched, at_text. cbn. by rewrite drop_app_length, take_app_length, update_loc_at. Qed.

Lemma matched_in a rest p q e n : n = length a -> NUL ∉ a ->
  matched n (in_string (a ++ rest) (loc_at p q) e) = in_string rest (loc_at q (advance q a)) e.
Proof. intros -> Ha. unfold matched, in_string. cbn. by rewrite drop_app_length, take_app_length, update_loc_at. Qed.

(** A match of a pattern that returns a token at once. *)
Lemma scan_token a rest r fuel lval p q e : yy_match INITIAL (a ++ rest) = Some (r, length a) -> NUL ∉ a ->
  yylex (S fuel) lval (at_text (a ++ rest) (loc_at p q) e) =
  let sc := at_text rest (loc_at q (advance q a)) e in
  match r with
  | R_blank | R_comment | R_continue => yylex fuel lval sc
  | R_eol => Ret (T_EOL, sc)
  | R_comma => Ret (T_COMMA, sc)
  | R_key => Ret (key_token a, sc)
  | R_attr => let! t := attr_token a in Ret (t, sc)
  | R_quote => yylex fuel (Some new_string) (BEGIN STRING sc)
  | R_op => Ret (op_token a, sc)
  | R_any => Ret (T_ERROR, sc)
  | S_quote => match lval with Some s => Ret (T_VALUE s, BEGIN INITIAL sc) | None => Undef end
  | S_esc_quote => let! l := append lval QUOTE in yylex fuel l sc
  | S_esc_bslash => let! l := append lval BSLASH in yylex fuel l sc
  | S_esc => let! l := append lval (default NUL (a !! 1%nat)) in yylex fuel l sc
  | S_any => let! l := append lval (default NUL (a !! 0%nat)) in yylex fuel l sc
  | R_echo => yylex fuel lval (ECHO a sc)
  end.
Proof.
  intros Hm Ha. cbn [yylex state text at_text]. rewrite Hm. rewrite (matched_at a rest p q e) by done. cbn [at_text text].
  rewrite take_app_length. by destruct r.
Qed.

(** What can follow a key. *)
Definition after_key (c : ascii) : Prop := c ∈ #"{:!=+-".

Lemma key_match k c rest : after_key c -> yy_match INITIAL (rule_key_names k ++ c :: rest) = Some (R_key, length (rule_key_names k)).
Proof.
  intros Hc. unfold after_key in Hc. repeat (apply elem_of_cons in Hc as [->|Hc]); [..|by apply not_elem_of_nil in Hc]; destruct k; vm_compute; reflexivity.
Qed.

Lemma scan_key k c rest fuel lval p q e : after_key c ->
  yylex (S fuel) lval (at_text (rule_key_names k ++ c :: rest) (loc_at p q) e) =
  Ret (T_KEY k, at_text (c :: rest) (loc_at q (advance q (rule_key_names k))) e).
Proof.
  intros Hc. rewrite (scan_token _ _ R_key) by (by apply key_match || (destruct k; apply (bool_decide_unpack _); vm_compute; exact I)).
  assert (key_token (rule_key_names k) = T_KEY k) as -> by (by destruct k). done.
Qed.

Lemma op_match o rest : yy_match INITIAL (rule_op_names o ++ QUOTE :: rest) = Some (R_op, length (rule_op_names o)).
Proof. destruct o; vm_compute; reflexivity. Qed.

Lemma scan_op o rest fuel lval p q e :
  yylex (S fuel) lval (at_text (rule_op_names o ++ QUOTE :: rest) (loc_at p q) e) =
  Ret (T_OPERATION o, at_text (QUOTE :: rest) (loc_at q (advance q (rule_op_names o))) e).
Proof.
  rewrite (scan_token _ _ R_op) by (apply op_match || (destruct o; apply (bool_decide_unpack _); vm_compute; exact I)).
  assert (op_token (rule_op_names o) = T_OPERATION o) as -> by (by destruct o). done.
Qed.

Definition attr_ok (a : bytes) : Prop := a <> [] /\ "}"%char ∉ a /\ NUL ∉ a /\ lenZ a < 2 ^ 60.

(** The patterns one by one: those that do not match, the first that does, and those
    that match no more. *)
Lemma longest_none r m l s best : m s = None -> longest ((r, m) :: l) s best = longest l s best.
Proof. cbn. by intros ->. Qed.

Lemma longest_new r m l s n : m s = Some n -> longest ((r, m) :: l) s None = longest l s (Some (r, n)).
Proof. cbn. by intros ->. Qed.

Lemma longest_keep r m l s n r0 k : m s = Some n -> (n <= k)%nat -> longest ((r, m) :: l) s (Some (r0, k)) = longest l s (Some (r0, k)).
Proof. cbn [longest]. intros -> Hn. by rewrite (proj2 (Nat.ltb_ge k n)). Qed.

Lemma m_op_none c s : c ∉ #":!=+-" -> m_op (c :: s) = None.
Proof.
  intros Hc. assert (c <> "="%char) by (intros ->; apply Hc; by apply (bool_decide_unpack _)).
  destruct s as [|d s]; cbn; [by rewrite bool_decide_false|]. rewrite !bool_decide_false by tauto. done.
Qed.

Ltac no_match := repeat (rewrite longest_none by reflexivity).

Lemma attr_match_braces a rest : a <> [] -> "}"%char ∉ a -> yy_match INITIAL (("{"%char :: a ++ #"}") ++ rest) = Some (R_attr, length ("{"%char :: a ++ #"}")).
Proof.
  intros Hne Hb. change (("{"%char :: a ++ #"}") ++ rest) with ("{"%char :: (a ++ #"}") ++ rest). rewrite <- app_assoc.
  unfold yy_match, patterns. no_match. rewrite (longest_new _ _ _ _ (length a + 2)).
  2:{ unfold m_attr. change (#"}" ++ rest) with ("}"%char :: rest). rewrite strchr_app by done. by destruct a. }
  no_match. rewrite longest_none by (apply m_op_none; by apply (bool_decide_unpack _)). erewrite !longest_keep by (reflexivity || lia).
  cbn [longest length]. rewrite length_app. cbn [length]. do 2 f_equal. change (length #"}") with 1%nat. lia.
Qed.

Lemma attr_match a rest : attr_ok a -> yy_match INITIAL (("{"%char :: a ++ #"}") ++ rest) = Some (R_attr, length ("{"%char :: a ++ #"}")).
Proof. intros (Hne & Hb & _). by apply attr_match_braces. Qed.

Lemma attr_token_holds a : attr_ok a -> exists s, attr_token ("{"%char :: a ++ #"}") = Ret (T_ATTR s) /\ holds s a.
Proof.
  intros (Hne & Hb & Hn & Hl). unfold attr_token. cbn [drop]. rewrite drop_0. pose proof (lenZ_nonneg a).
  rewrite to_nul_id by (rewrite elem_of_app; intros [?|?%list_elem_of_singleton]; done). rewrite lenZ_app. change (lenZ #"}") with 1.
  rewrite u64_small by lia. replace (lenZ a + 1 - 1) with (lenZ a) by lia.
  destruct (string_append new_string [] #"}" a new_string_holds) as [(s & -> & Hs) _].
  - change (lenZ (@nil ascii)) with 0. lia.
  - apply list.Forall_forall. intros x Hx ->. done.
  - exists s. by split.
Qed.

Lemma scan_attr a rest fuel lval p q e : attr_ok a -> exists s, holds s a /\
  yylex (S fuel) lval (at_text (("{"%char :: a ++ #"}") ++ rest) (loc_at p q) e) =
  Ret (T_ATTR s, at_text rest (loc_at q (advance q ("{"%char :: a ++ #"}"))) e).
Proof.
  intros Ha. destruct (attr_token_holds a Ha) as (s & Hs & Hh). exists s. split; [done|].
  rewrite (scan_token _ _ R_attr) by (by apply attr_match || (destruct Ha as (_ & _ & Hn & _); rewrite elem_of_cons, elem_of_app;
    intros [?|[?|?%list_elem_of_singleton]]; done)).
  by rewrite Hs.
Qed.

(** ** Values *)

(** Quotes and backslashes with a backslash in front. *)
Fixpoint quoted (v : bytes) : bytes :=
  match v with
  | [] => []
  | c :: v => if bool_decide (c = QUOTE \/ c = BSLASH) then BSLASH :: c :: quoted v else c :: quoted v
  end.

Definition value_ok (v : bytes) : Prop := NL ∉ v /\ NUL ∉ v /\ lenZ v < 2 ^ 60.

Lemma string_char_match c rest : c <> QUOTE -> c <> BSLASH -> c <> NL -> yy_match STRING (c :: rest) = Some (S_any, 1%nat).
Proof.
  intros Hq Hb Hn. unfold yy_match, patterns.
  assert (Hlit : forall d p, c <> d -> m_lit (d :: p) (c :: rest) = None) by (intros d p Hd; unfold m_lit; cbn; by rewrite decide_False by congruence).
  rewrite !longest_none by (by apply Hlit). rewrite longest_none by (destruct rest; cbn; [done|]; by rewrite bool_decide_false by tauto).
  rewrite (longest_new _ _ _ _ 1) by (cbn; by rewrite bool_decide_false). by rewrite (longest_keep _ _ _ _ 1) by (done || lia).
Qed.

Lemma nul_free_1 c : c <> NUL -> NUL ∉ [c].
Proof. rewrite not_elem_of_cons. intros ?. split; [done|apply not_elem_of_nil]. Qed.

Lemma nul_free_2 c d : c <> NUL -> d <> NUL -> NUL ∉ [c; d].
Proof. rewrite not_elem_of_cons. intros ? ?. split; [done|by apply nul_free_1]. Qed.

Lemma scan_string v : forall s t fuel rest p q e, holds s t -> NL ∉ v -> NUL ∉ v -> lenZ t + lenZ v < 2 ^ 61 ->
  (length (quoted v) < fuel)%nat -> exists s', holds s' (t ++ v) /\
  yylex fuel (Some s) (in_string (quoted v ++ QUOTE :: rest) (loc_at p q) e) =
  Ret (T_VALUE s', at_text rest (loc_at (advance q (quoted v)) (advance q (quoted v ++ [QUOTE]))) e).
Proof.
  induction v as [|c v IH]; intros s t fuel rest p q e Hh Hl Hn Hlen Hf; (destruct fuel as [|fuel]; [lia|]).
  - exists s. rewrite app_nil_r. split; [done|]. cbn [quoted app yylex state text in_string].
    assert (yy_match STRING (QUOTE :: rest) = Some (S_quote, 1%nat)) as -> by (destruct rest; vm_compute; reflexivity).
    rewrite (matched_in [QUOTE] rest p q e) by (done || by apply nul_free_1). done.
  - rewrite not_elem_of_cons in Hl, Hn. destruct Hl as [Hcl Hl], Hn as [Hcn Hn]. rewrite lenZ_cons in Hlen.
    destruct (string_append s t [] [] Hh) as [_ Hchr]; [pose proof (lenZ_nonneg v); change (lenZ (@nil ascii)) with 0; lia|constructor|].
    destruct (Hchr c) as (s1 & Hs1 & Hh1).
    assert (Hstep : forall a, NUL ∉ a -> yylex (S fuel) (Some s) (in_string ((a ++ quoted v) ++ QUOTE :: rest) (loc_at p q) e) =
        yylex fuel (Some s1) (in_string (quoted v ++ QUOTE :: rest) (loc_at q (advance q a)) e) -> (0 < length a)%nat ->
        quoted (c :: v) = a ++ quoted v ->
        exists s', holds s' (t ++ c :: v) /\
          yylex (S fuel) (Some s) (in_string (quoted (c :: v) ++ QUOTE :: rest) (loc_at p q) e) =
          Ret (T_VALUE s', at_text rest (loc_at (advance q (quoted (c :: v))) (advance q (quoted (c :: v) ++ [QUOTE]))) e)).
    { intros a Ha Hy Hpos Hq. destruct (IH s1 (t ++ [c]) fuel rest q (advance q a) e Hh1 Hl Hn) as (s' & Hh' & Hs').
      - rewrite lenZ_app, lenZ_cons. change (lenZ (@nil ascii)) with 0. lia.
      - rewrite Hq, length_app in Hf. lia.
      - exists s'. rewrite <- app_assoc in Hh'. split; [exact Hh'|]. rewrite Hq, Hy, Hs'. by rewrite <- app_assoc, !advance_app. }
    destruct (decide (c = QUOTE \/ c = BSLASH)) as [Hsp|Hsp].
    + apply (Hstep [BSLASH; c]); [by apply nul_free_2| |cbn; lia|by cbn; rewrite bool_decide_true].
      cbn [app yylex state text in_string].
      assert (yy_match STRING (BSLASH :: c :: quoted v ++ QUOTE :: rest) = Some (if decide (c = QUOTE) then S_esc_quote else S_esc_bslash, 2%nat)) as ->
        by (destruct Hsp as [-> | ->]; vm_compute; reflexivity).
      pose proof (matched_in [BSLASH; c] (quoted v ++ QUOTE :: rest) p q e 2 eq_refl) as Hm. cbn [app] in Hm. rewrite Hm by (by apply nul_free_2).
      destruct Hsp as [-> | ->]; cbn [decide]; unfold append; rewrite Hs1; done.
    + apply (Hstep [c]); [by apply nul_free_1| |cbn; lia|by cbn; rewrite bool_decide_false].
      cbn [app yylex state text in_string]. rewrite string_char_match by naive_solver.
      pose proof (matched_in [c] (quoted v ++ QUOTE :: rest) p q e 1 eq_refl) as Hm. cbn [app] in Hm. rewrite Hm by (by apply nul_free_1). unfold append. cbn. by rewrite Hs1.
Qed.

Lemma scan_value v rest fuel p q e : value_ok v -> (length (quoted v) + 1 < fuel)%nat -> exists s, holds s v /\
  yylex fuel None (at_text (QUOTE :: quoted v ++ QUOTE :: rest) (loc_at p q) e) =
  Ret (T_VALUE s, at_text rest (loc_at (advance q (QUOTE :: quoted v)) (advance q (QUOTE :: quoted v ++ [QUOTE]))) e).
Proof.
  intros (Hl & Hn & Hlen) Hf. destruct fuel as [|fuel]; [lia|].
  destruct (scan_string v new_string [] fuel rest q (advance q [QUOTE]) e new_string_holds Hl Hn) as (s & Hs & Hy);
    [change (lenZ (@nil ascii)) with 0; lia|lia|].
  exists s. split; [done|]. change (QUOTE :: quoted v ++ QUOTE :: rest) with ([QUOTE] ++ (quoted v ++ QUOTE :: rest)).
  rewrite (scan_token _ _ R_quote) by (by apply nul_free_1 || (destruct (quoted v ++ QUOTE :: rest); reflexivity)). exact Hy.
Qed.

(** ** Texts without a NUL are scanned inside of the buffers *)

(** A match is one of the patterns. *)
Lemma longest_from l s best r n : longest l s best = Some (r, n) -> best = Some (r, n) \/ exists m, (r, m) ∈ l /\ m s = Some n.
Proof.
  revert best. induction l as [|[r0 m] l IH]; intros best H; [by left|]. cbn [longest] in H. apply IH in H as [H|(m' & Hm & Hs)].
  - destruct (m s) as [k|] eqn:E; [|by left]. destruct best as [[r1 k1]|]; [destruct (k1 <? k)%nat; [|by left]|]; injection H as -> ->; right; exists m;
      (split; [apply elem_of_cons; by left|done]).
  - right. exists m'. split; [apply elem_of_cons; by right|done].
Qed.

Lemma yy_match_rule st s r n : yy_match st s = Some (r, n) -> exists m, (r, m) ∈ patterns st /\ m s = Some n.
Proof. intros [H|H]%longest_from; [done|done]. Qed.

(** The patterns of a string. *)
Definition string_rule (r : lex_rule) : bool := match r with S_quote | S_esc_quote | S_esc_bslash | S_esc | S_any => true | _ => false end.

Lemma patterns_rule st r m : (r, m) ∈ patterns st -> r = R_echo \/ string_rule r = match st with INITIAL => false | STRING => true end.
Proof. destruct st; cbn; rewrite !elem_of_cons, elem_of_nil; intros H; destruct_or! H; simplify_eq; auto. Qed.

Lemma strchr_before c s a b : strchr c s = Some (a, b) -> c ∉ a.
Proof.
  revert a. induction s as [|x s IH]; intros a; cbn; [done|]. destruct (decide (x = c)) as [->|Hx]; [intros [= <- _]; apply not_elem_of_nil|].
  destruct (strchr c s) as [[a' b']|] eqn:E; [|done]. intros [= <- ->]. rewrite not_elem_of_cons. split; [congruence|by apply IH].
Qed.

Lemma attr_match_inv st s n : yy_match st s = Some (R_attr, n) ->
  exists a rest, s = ("{"%char :: a ++ #"}") ++ rest /\ n = length ("{"%char :: a ++ #"}") /\ a <> [] /\ "}"%char ∉ a.
Proof.
  intros (m & Hin & Hm)%yy_match_rule. assert (m = m_attr) as ->.
  { destruct st; cbn in Hin; rewrite !elem_of_cons, elem_of_nil in Hin; destruct_or! Hin; by simplify_eq. }
  destruct s as [|c s]; [done|]. unfold m_attr in Hm. destruct (decide (c = "{"%char)) as [->|Hc]; [|repeat case_match; congruence].
  destruct (strchr "}"%char s) as [[a b]|] eqn:E; [|done]. pose proof (strchr_before _ _ _ _ E). apply strchr_Some in E as ->.
  destruct a as [|x a]; [done|]. exists (x :: a), b. injection Hm as <-. split_and!; [cbn; by rewrite <- app_assoc|cbn; rewrite length_app; cbn; lia|done|done].
Qed.

(** The strings of a token are strings. *)
Definition token_ok (t : token) : Prop := match t with T_ATTR u | T_VALUE u => exists x, holds u x | _ => True end.

(** In a string there is a buffer with room for the rest of the text. *)
Definition string_open (lval : option ustring) (sc : scanner) : Prop :=
  state sc = STRING -> text sc = [] \/ exists s t, lval = Some s /\ holds s t /\ lenZ t + lenZ (text sc) < 2 ^ 60.

(** Where the scanner can stop. *)
Definition scanned (sc sc' : scanner) : Prop := (state sc' = STRING -> text sc' = []) /\ exists k, text sc' = drop k (text sc).

Lemma append_holds s t c : holds s t -> lenZ t < 2 ^ 60 -> exists s', append (Some s) c = Ret (Some s') /\ holds s' (t ++ [c]).
Proof.
  intros Hh Hl. destruct (string_append s t [] [] Hh) as [_ H]; [change (lenZ (@nil ascii)) with 0; lia|constructor|].
  destruct (H c) as (s' & Hs & Hh'). exists s'. unfold append. by rewrite Hs.
Qed.

Lemma yylex_safe fuel lval sc : (length (text sc) < fuel)%nat -> NUL ∉ text sc -> lenZ (text sc) < 2 ^ 60 -> string_open lval sc ->
  exists t sc', yylex fuel lval sc = Ret (t, sc') /\ token_ok t /\ scanned sc sc'.
Proof.
  revert lval sc. induction fuel as [|fuel IH]; intros lval sc Hf Hn Hl Ho; [lia|]. cbn [yylex].
  destruct (yy_match (state sc) (text sc)) as [[r n]|] eqn:E.
  2:{ apply yy_match_none in E. exists T_EOF, sc. split_and!; [done|done|by split; [|exists O; by rewrite drop_0]]. }
  pose proof (yy_match_in _ _ _ _ E) as Hin. unfold in_text in Hin. destruct (yy_match_rule _ _ _ _ E) as (m & Hm & _).
  apply patterns_rule in Hm.
  assert (Hlen : lenZ (text (matched n sc)) + 1 <= lenZ (text sc)) by (cbn; unfold lenZ; rewrite length_drop; lia).
  assert (Hrec : forall l sc1, text sc1 = drop n (text sc) -> string_open l sc1 -> exists t sc', yylex fuel l sc1 = Ret (t, sc') /\ token_ok t /\ scanned sc sc').
  { intros l sc1 Et Hs1. destruct (IH l sc1) as (t & sc' & H & Ht & Hst & k & Hk); [rewrite Et, length_drop; lia| |rewrite Et; cbn in Hlen; lia|done|].
    - rewrite Et. intros Hx. apply Hn. rewrite <- (take_drop n). apply elem_of_app. by right.
    - exists t, sc'. split_and!; [done|done|split; [done|]]. exists (n + k)%nat. by rewrite Hk, Et, drop_drop. }
  assert (Hret : forall t sc1, token_ok t -> text sc1 = drop n (text sc) -> state sc1 = INITIAL ->
    exists t' sc', Ret (t, sc1) = Ret (t', sc') /\ token_ok t' /\ scanned sc sc').
  { intros t sc1 Ht Et Est. exists t, sc1. split_and!; [done|done|]. split; [by rewrite Est|by exists n]. }
  assert (Happ : forall c, state sc = STRING -> exists t sc', (let! l := append lval c in yylex fuel l (matched n sc)) = Ret (t, sc') /\ token_ok t /\ scanned sc sc').
  { intros c Est. destruct (Ho Est) as [Hx|(s & t & -> & Hh & Hb)]; [rewrite Hx in Hin; cbn in Hin; lia|].
    pose proof (lenZ_nonneg (text sc)). destruct (append_holds s t c Hh) as (s' & -> & Hh'); [lia|]. cbn [obind]. apply Hrec; [done|].
    intros _. right. exists s', (t ++ [c]). split_and!; [done|done|]. rewrite lenZ_app. change (lenZ [c]) with 1. lia. }
  assert (Hkeep : string_open lval (matched n sc)).
  { intros Est. destruct (Ho Est) as [Hx|(s & t & -> & Hh & Hb)]; [rewrite Hx in Hin; cbn in Hin; lia|]. right. exists s, t. split_and!; [done|done|lia]. }
  assert (Hini : string_rule r = false -> r <> R_echo -> state sc = INITIAL) by (intros H1 H2; destruct Hm as [?|Hm]; [done|]; destruct (state sc); congruence).
  assert (Hstr : string_rule r = true -> state sc = STRING) by (intros H1; destruct Hm as [->|Hm]; [done|]; destruct (state sc); congruence).
  destruct r; try (by apply Happ, Hstr); try (by apply Hrec); try (apply Hret; [exact I|done|by apply Hini]).
  - apply Hret; [unfold key_token; destruct (List.find _ _); exact I|done|by apply Hini].
  - destruct (attr_match_inv _ _ _ E) as (a & rest & Et & -> & Ha & Hb). rewrite Et, take_app_length.
    rewrite Et in Hn, Hl. destruct (attr_token_holds a) as (u & -> & Hu).
    { split_and!; [done|done| |]; [intros Hx; apply Hn; rewrite elem_of_app, elem_of_cons, elem_of_app; tauto|].
      rewrite lenZ_app, lenZ_cons, lenZ_app in Hl. change (lenZ #"}") with 1 in Hl. pose proof (lenZ_nonneg rest). lia. }
    cbn [obind]. apply Hret; [by exists a|done|by apply Hini].
  - apply Hrec; [done|]. intros _. right. exists new_string, []. split_and!; [done|exact new_string_holds|].
    change (lenZ (@nil ascii)) with 0. cbn [BEGIN text]. lia.
  - apply Hret; [unfold op_token; destruct (List.find _ _); exact I|done|by apply Hini].
  - destruct (Ho (Hstr eq_refl)) as [Hx|(s & t & -> & Hh & _)]; [rewrite Hx in Hin; cbn in Hin; lia|]. apply Hret; [by exists t|done|done].
Qed.

(** ** Separators and the end of a line *)

Lemma scan_eol rest fuel lval p q e :
  yylex (S fuel) lval (at_text (NL :: rest) (loc_at p q) e) = Ret (T_EOL, at_text rest (loc_at q {| line := line q + 1; column := 1 |}) e).
Proof.
  change (NL :: rest) with ([NL] ++ rest). rewrite (scan_token _ _ R_eol); [reflexivity|by destruct rest|by apply nul_free_1].
Qed.

Lemma run_stop f c s : f c = false -> run f (c :: s) = O.
Proof. cbn. by intros ->. Qed.

Lemma scan_comma c rest fuel lval p q e : c <> ","%char ->
  yylex (S fuel) lval (at_text (","%char :: c :: rest) (loc_at p q) e) = Ret (T_COMMA, at_text (c :: rest) (loc_at q (advance q #",")) e).
Proof.
  intros Hc. change (","%char :: c :: rest) with (#"," ++ c :: rest). rewrite (scan_token _ _ R_comma); [reflexivity| |by apply nul_free_1].
  unfold yy_match, patterns. no_match. rewrite (longest_new _ _ _ _ 1).
  2:{ unfold m_comma. cbn. by rewrite (bool_decide_false (c = ","%char)). }
  no_match. by erewrite !longest_keep by (reflexivity || lia).
Qed.

Definition comment_ok (t : bytes) : Prop := NL ∉ t /\ NUL ∉ t.

Lemma comment_match t rest : comment_ok t ->
  yy_match INITIAL (("#"%char :: t ++ [NL]) ++ rest) = Some (R_comment, length ("#"%char :: t ++ [NL])).
Proof.
  intros [Hl Hn]. change (("#"%char :: t ++ [NL]) ++ rest) with ("#"%char :: (t ++ [NL]) ++ rest). rewrite <- app_assoc.
  unfold yy_match, patterns. rewrite longest_none by reflexivity. rewrite (longest_new _ _ _ _ (length t + 2)).
  2:{ unfold m_comment. change ([NL] ++ rest) with (NL :: rest). by rewrite strchr_app. }
  no_match. rewrite longest_none by (apply m_op_none; by apply (bool_decide_unpack _)). erewrite !longest_keep by (reflexivity || lia).
  cbn [longest length]. rewrite length_app. cbn [length]. do 2 f_equal. lia.
Qed.

(** ** The next token of such a text *)

(** More fuel than bytes is as good as any other. *)
Lemma yylex_fuel f1 : forall f2 lval sc, (length (text sc) < f1)%nat -> (length (text sc) < f2)%nat -> yylex f1 lval sc = yylex f2 lval sc.
Proof.
  induction f1 as [|f1 IH]; intros f2 lval sc H1 H2; [lia|]. destruct f2 as [|f2]; [lia|]. cbn [yylex].
  destruct (yy_match (state sc) (text sc)) as [[r n]|] eqn:E; [|done]. apply yy_match_in in E. unfold in_text in E.
  assert (Hrec : forall l sc1, text sc1 = drop n (text sc) -> yylex f1 l sc1 = yylex f2 l sc1)
    by (intros l sc1 Et; apply IH; rewrite Et, length_drop; lia).
  destruct r; try done; try (by apply Hrec); unfold append; (destruct lval; [|done]); destruct (string_append_chr _ _); try done; cbn [obind]; by apply Hrec.
Qed.

Lemma next_token_skip a rest r p q e : yy_match INITIAL (a ++ rest) = Some (r, length a) -> NUL ∉ a ->
  r = R_blank \/ r = R_comment \/ r = R_continue ->
  next_token (at_text (a ++ rest) (loc_at p q) e) = next_token (at_text rest (loc_at q (advance q a)) e).
Proof.
  intros Hm Ha Hr. unfold next_token at 1. rewrite (scan_token _ _ r) by done. cbn zeta.
  assert (length a <> 0)%nat by (apply yy_match_in in Hm; unfold in_text in Hm; lia).
  assert (yylex (length (text (at_text (a ++ rest) (loc_at p q) e))) None (at_text rest (loc_at q (advance q a)) e) =
    next_token (at_text rest (loc_at q (advance q a)) e)) as E by (apply yylex_fuel; cbn; rewrite ?length_app; lia).
  by destruct Hr as [-> | [-> | ->]].
Qed.

Lemma next_comment t rest p q e : comment_ok t ->
  next_token (at_text (("#"%char :: t ++ [NL]) ++ rest) (loc_at p q) e) =
  next_token (at_text rest (loc_at q (advance q ("#"%char :: t ++ [NL]))) e).
Proof.
  intros Ht. apply (next_token_skip _ _ R_comment); [by apply comment_match| |tauto]. destruct Ht as [_ Hn].
  rewrite elem_of_cons, elem_of_app. intros [?|[?|?%list_elem_of_singleton]]; done.
Qed.

(** The separator of two pairs, with the second one on the same line or on the next. *)
Definition separator (wrap : bool) : bytes := if wrap then [","; " "; BSLASH; NL]%char else #", ".

Lemma next_separator (wrap : bool) k rest p q e : exists p',
  next_token (at_text (separator wrap ++ rule_key_names k ++ rest) (loc_at p q) e) =
    Ret (T_COMMA, at_text (drop 1 (separator wrap) ++ rule_key_names k ++ rest) (loc_at q (advance q #",")) e)
  /\ next_token (at_text (drop 1 (separator wrap) ++ rule_key_names k ++ rest) (loc_at q (advance q #",")) e) =
    next_token (at_text (rule_key_names k ++ rest) (loc_at p' (advance q (separator wrap))) e).
Proof.
  destruct wrap.
  - eexists. split; [apply scan_comma; done|].
    change (drop 1 (separator true) ++ rule_key_names k ++ rest) with (#" " ++ [BSLASH; NL] ++ rule_key_names k ++ rest).
    rewrite (next_token_skip _ _ R_blank); [|reflexivity|by apply nul_free_1|tauto].
    rewrite (next_token_skip [BSLASH; NL] _ R_continue); [|by destruct k|by apply nul_free_2|tauto]. rewrite <- !advance_app. done.
  - eexists. split; [apply scan_comma; done|].
    change (drop 1 (separator false) ++ rule_key_names k ++ rest) with (#" " ++ rule_key_names k ++ rest).
    rewrite (next_token_skip _ _ R_blank); [|by destruct k|by apply nul_free_1|tauto]. rewrite <- advance_app. done.
Qed.
