(* ===== verification/UdevParser.v ===== *)
(** The parser of udev rules and the program around it (udev-rules-parser.y from its
    grammar on, main of udev-rules.c).

    The grammar has no conflicts, so [parse_step] is its automaton: what is on the stack
    of yyparse is one of six forms. As bison documents it, an action runs when its last
    token is read if the state behind it has one reduction only, which is the case for
    both actions here; without an error rule a syntax error is reported and yyparse
    returns 1, with the offending token dropped; the location starts at 1:1 in every
    call of yyparse. *)

From Stdlib Require Import ZArith Ascii String Lia.
From stdpp Require Import base list strings tactics numbers relations sorting.
From S2P Require Import Prelude CString ListSort UdevString UdevRules UdevScanner.

Open Scope Z_scope.
Open Scope cprog_scope.

(** ** State *)

Record rule := { line_nr : Z; file : Z; pairs : list rule_pair }.
Record rule_file_t := { name : bytes; rules_nr : Z }.

(** [checks] is the state of UdevRules. [rules] are the rules in front of [cur_rule],
    which is the last one of the list when it is set. [cur_file] is a position in [files]. *)
Record parser := {
  checks : rules_state;
  files : list rule_file_t;
  rules : list rule;
  cur_rule : option rule;
  global_rule_nr : Z;
  cur_file : Z;
}.

Definition with_checks (c : rules_state) (s : parser) : parser :=
  {| checks := c; files := files s; rules := rules s; cur_rule := cur_rule s; global_rule_nr := global_rule_nr s; cur_file := cur_file s |}.
Definition with_rule (r : option rule) (s : parser) : parser :=
  {| checks := checks s; files := files s; rules := rules s; cur_rule := r; global_rule_nr := global_rule_nr s; cur_file := cur_file s |}.

(** A pointer to the string of a buffer. *)
Fixpoint read_nul (b : list (option ascii)) : out bytes :=
  match b with
  | Some c :: b => if decide (c = NUL) then Ret [] else let! s := read_nul b in Ret (c :: s)
  | _ => Undef
  end.
Definition c_string (s : ustring) : out string := let! b := read_nul (buf s) in Ret (str b).
Definition c_attr (a : option ustring) : out (option string) :=
  match a with Some a => let! a := c_string a in Ret (Some a) | None => Ret None end.

(** ** Grammar *)

Definition yyerror (at_ : pos) (s : parser) : parser := with_checks (set_retcode 1 (print (M_syntax at_) (checks s))) s.

Definition get_rule (at_ : pos) (s : parser) : rule :=
  match cur_rule s with Some r => r | None => {| line_nr := line at_; file := cur_file s; pairs := [] |} end.

(** get_pair puts the new pair behind the others of its rule; process_token checks it. *)
Definition add_pair (r : rule) (p : rule_pair) (s : parser) : out parser :=
  let! (c, p) := process_token p (pairs r) (checks s) in
  Ret (with_rule (Some {| line_nr := line_nr r; file := file r; pairs := pairs r ++ [p] |}) (with_checks c s)).

(** The action of pair. *)
Definition pair_action (k : rule_key_t) (pk : pos) (a : option ustring) (o : rule_op_t) (po : pos) (v : ustring) (pv : pos) (s : parser) : out parser :=
  let r := get_rule pk s in
  let! a := c_attr a in
  let! v := c_string v in
  let p := {| pos_key := pk; pos_op := po; pos_value := pv; key := k; op := o; attr := a; value := v; rule_line := line_nr r; rule_file := file r |} in
  add_pair r p s.

Definition count_rule (f : rule_file_t) : rule_file_t := {| name := name f; rules_nr := i32 (rules_nr f + 1) |}.

(** The action of ruleline. *)
Definition ruleline_action (s : parser) : parser :=
  let '(c, done) :=
    match cur_rule s with
    | None => (checks s, [])
    | Some r =>
        let c := check_match_only_conditions (pairs r) (line_nr r) (checks s) in
        (check_program_result (pairs r) (line_nr r) c, [{| line_nr := line_nr r; file := file r; pairs := sortl rule_pair_cmp (pairs r) |}])
    end in
  {| checks := c; files := alter count_rule (Z.to_nat (cur_file s)) (files s); rules := rules s ++ done; cur_rule := None;
     global_rule_nr := i32 (global_rule_nr s + 1); cur_file := cur_file s |}.

(** What is read of the line: nothing, whole pairs, whole pairs and a comma, or the
    beginning of a pair. *)
Inductive pstate :=
  | PS_input
  | PS_pairs
  | PS_comma
  | PS_key (k : rule_key_t) (pk : pos)
  | PS_attr (k : rule_key_t) (pk : pos) (a : ustring)
  | PS_op (k : rule_key_t) (pk : pos) (a : option ustring) (o : rule_op_t) (po : pos).

Inductive verdict := Go (ps : pstate) | Accept | Abort.

Definition parse_step (ps : pstate) (t : token) (at_ : pos) (s : parser) : out (verdict * parser) :=
  match ps, t with
  | PS_input, T_EOF => Ret (Accept, s)
  | PS_input, T_EOL => Ret (Go PS_input, s)
  | PS_input, T_KEY k | PS_comma, T_KEY k => Ret (Go (PS_key k at_), s)
  | PS_key k pk, T_ATTR a => Ret (Go (PS_attr k pk a), s)
  | PS_key k pk, T_OPERATION o => Ret (Go (PS_op k pk None o at_), s)
  | PS_attr k pk a, T_OPERATION o => Ret (Go (PS_op k pk (Some a) o at_), s)
  | PS_op k pk a o po, T_VALUE v => let! s := pair_action k pk a o po v at_ s in Ret (Go PS_pairs, s)
  | PS_pairs, T_COMMA => Ret (Go PS_comma, s)
  | PS_pairs, T_EOL => Ret (Go PS_input, ruleline_action s)
  | _, _ => Ret (Abort, yyerror at_ s)
  end.

Definition first_pos (l : loc) : pos := {| line := first_line l; column := first_column l |}.

(** [true] when yyparse returns 1. Every token but the last one has a byte. *)
Fixpoint yyparse_loop (fuel : nat) (ps : pstate) (sc : scanner) (s : parser) : out (bool * scanner * parser) :=
  match fuel with
  | O => NoFuel
  | S fuel =>
      let! (t, sc) := next_token sc in
      let! (v, s) := parse_step ps t (first_pos (lloc sc)) s in
      match v with
      | Go ps => yyparse_loop fuel ps sc s
      | Accept => Ret (false, sc, s)
      | Abort => Ret (true, sc, s)
      end
  end.

Definition parse_from (ps : pstate) (sc : scanner) (s : parser) : out (bool * scanner * parser) :=
  yyparse_loop (S (length (text sc))) ps sc s.

Definition reset_loc (sc : scanner) : scanner := {| text := text sc; state := state sc; lloc := loc0; echoed := echoed sc |}.
Definition yyparse (sc : scanner) (s : parser) : out (bool * scanner * parser) := parse_from PS_input (reset_loc sc) s.

(** ** Files *)

Definition PATH_MAX : Z := 4096.

(** A call that fails has consumed a byte. *)
Fixpoint parse_again (fuel : nat) (sc : scanner) (s : parser) : out (scanner * parser) :=
  match fuel with
  | O => NoFuel
  | S fuel =>
      let! (r, sc, s) := yyparse sc s in
      if r : bool then parse_again fuel sc s else Ret (sc, s)
  end.
Definition rules_parse (content : bytes) (s : parser) : out (scanner * parser) :=
  parse_again (S (length content)) (scanner0 content) s.

Inductive ftype := S_IFREG | S_IFDIR | S_IFOTHER.

(** What the system says: stat of a path, the content of a file that can be opened, and
    the entries of a directory that can be opened. *)
Record filesystem := { stat : bytes -> option ftype; fopen : bytes -> option bytes; opendir : bytes -> option (list bytes) }.

Section Program.
Context (fs : filesystem).

Definition note (what : string) (s : parser) : parser := with_checks (print (M_note what) (checks s)) s.

Definition open_rules (filename : bytes) (s : parser) : parser :=
  {| checks := checks s; files := files s ++ [{| name := filename; rules_nr := 0 |}];
     rules := rules s ++ match cur_rule s with Some r => [r] | None => [] end; cur_rule := None;
     global_rule_nr := global_rule_nr s; cur_file := lenZ (files s) |}.

Definition rules_readfile (filename : bytes) (s : parser) : out (Z * parser) :=
  match stat fs filename with
  | None => Ret (-1, note "stat" s)
  | Some S_IFREG =>
      match fopen fs filename with
      | None => Ret (-1, note "fopen" s)
      | Some content => let! (_, s) := rules_parse content (open_rules filename s) in Ret (0, s)
      end
  | Some _ => Ret (-1, note "not a regular file" s)
  end.

Definition RULES_SUFFIX : bytes := #".rules".
Definition is_rules (d_name : bytes) : bool :=
  (lenZ d_name >? 6) && bool_decide (dropZ (lenZ d_name - 6) d_name = RULES_SUFFIX).

Fixpoint readdir_loop (dir : bytes) (ents : list bytes) (ret : Z) (s : parser) : out (Z * parser) :=
  match ents with
  | [] => Ret (ret, s)
  | d_name :: ents =>
      if negb (is_rules d_name) then readdir_loop dir ents ret s else
      let filename := dir ++ #"/" ++ d_name in
      if lenZ filename >=? PATH_MAX then readdir_loop dir ents ret (note "path too long" s) else
      let! (r, s) := rules_readfile filename s in
      readdir_loop dir ents (if r <? 0 then -1 else ret) s
  end.

Definition rules_readdir (dir : bytes) (s : parser) : out (Z * parser) :=
  match opendir fs dir with
  | None => Ret (-1, note "opendir" s)
  | Some ents => readdir_loop dir ents 0 s
  end.

Definition fail (s : parser) : parser := with_checks (set_retcode 1 (checks s)) s.

(** The loop over the arguments: [false] when it jumps to the end. *)
Fixpoint main_args (argv : list bytes) (s : parser) : out (parser * bool) :=
  match argv with
  | [] => Ret (s, true)
  | arg :: argv =>
      match stat fs arg with
      | None => Die EXIT_FAILURE "stat"
      | Some S_IFOTHER => Ret (fail (note "neither a file nor a directory" s), false)
      | Some t =>
          let! (r, s) := match t with S_IFDIR => rules_readdir arg s | _ => rules_readfile arg s end in
          if r <? 0 then Ret (fail s, false) else main_args argv s
      end
  end.

Definition parser0 (c : rules_state) : parser :=
  {| checks := c; files := []; rules := []; cur_rule := None; global_rule_nr := 0; cur_file := 0 |}.

(** The lines that point to the documentation of the warnings. *)
Definition summary (c : rules_state) : list string :=
  match List.filter (fun w => negb (warning_summary c w =? 0)) all_warns with
  | [] => []
  | ws => "For more information:"%string :: map (fun w => String.append "  https://github.com/osboot/make-initrd/wiki/udev-rules-W" (warning_str w)) ws
  end.

(** The final state and the lines of the summary; main returns the retcode. *)
Definition udev_rules (opts : list rules_opt) (argv : list bytes) : out (parser * list string) :=
  let! c := rules_options opts rules_state0 in
  match argv with
  | [] => Die EXIT_FAILURE "missing directory name"
  | _ =>
      let! (s, ok) := main_args argv (parser0 c) in
      if ok : bool then let s := with_checks (check_goto_label (checks s)) s in Ret (s, summary (checks s)) else Ret (s, [])
  end.
End Program.

(** ** The loops end *)

(** The end of the file is never shifted. *)
Lemma step_eof ps at_ s v s' : parse_step ps T_EOF at_ s = Ret (v, s') -> forall ps', v <> Go ps'.
Proof. intros H ps' ->. by destruct ps. Qed.

Lemma yyparse_fuel f1 : forall f2 ps sc s, (length (text sc) < f1)%nat -> (length (text sc) < f2)%nat ->
  yyparse_loop f1 ps sc s = yyparse_loop f2 ps sc s.
Proof.
  induction f1 as [|f1 IH]; intros f2 ps sc s H1 H2; [lia|]. destruct f2 as [|f2]; [lia|]. cbn [yyparse_loop].
  destruct (next_token sc) as [[t sc1]| | |] eqn:Et; try done. cbn [obind].
  destruct (parse_step ps t (first_pos (lloc sc1)) s) as [[v s1]| | |] eqn:Es; try done. cbn [obind]. destruct v as [ps1| |]; try done.
  destruct (proj2 (next_token_ends sc) _ _ Et) as [Hl|[_ ->]]; [apply IH; lia|]. by destruct (step_eof _ _ _ _ _ Es ps1).
Qed.

Lemma parse_from_eq ps sc s : parse_from ps sc s =
  let! (t, sc) := next_token sc in
  let! (v, s) := parse_step ps t (first_pos (lloc sc)) s in
  match v with Go ps => parse_from ps sc s | Accept => Ret (false, sc, s) | Abort => Ret (true, sc, s) end.
Proof.
  unfold parse_from at 1. cbn [yyparse_loop].
  destruct (next_token sc) as [[t sc1]| | |] eqn:Et; try done. cbn [obind].
  destruct (parse_step ps t (first_pos (lloc sc1)) s) as [[v s1]| | |] eqn:Es; try done. cbn [obind]. destruct v as [ps1| |]; try done.
  destruct (proj2 (next_token_ends sc) _ _ Et) as [Hl|[_ ->]]; [apply yyparse_fuel; lia|]. by destruct (step_eof _ _ _ _ _ Es ps1).
Qed.

Lemma read_nul_ends b : ends (read_nul b).
Proof. induction b as [|[c|] b IH]; cbn; [by split| |by split]. case_decide; [by split|]. apply ends_bind; [done|by split]. Qed.

Lemma c_string_ends s : ends (c_string s).
Proof. apply ends_bind; [apply read_nul_ends|by split]. Qed.

Lemma pair_action_ends k pk a o po v pv s : ends (pair_action k pk a o po v pv s).
Proof.
  unfold pair_action. cbn zeta. apply ends_bind.
  { destruct a; [|by split]. apply ends_bind; [apply c_string_ends|by split]. }
  intros a' _. apply ends_bind; [apply c_string_ends|]. intros v' _. apply ends_bind; [|intros [c p] _; by split].
  match goal with |- ends (process_token ?p ?q ?r) => destruct (process_token_crash p q r) as [(_ & _ & ->)|(_ & s' & p' & ->)] end; by split.
Qed.

Lemma parse_step_ends ps t at_ s : ends (parse_step ps t at_ s).
Proof. destruct ps, t; cbn; try by split. apply ends_bind; [apply pair_action_ends|by split]. Qed.

(** A call of yyparse that fails consumes a byte; one that does not, the whole text. *)
Definition eats (started : bool) (sc sc' : scanner) (failed : bool) : Prop :=
  if failed then (length (text sc') <= length (text sc))%nat /\ (started = false -> length (text sc') < length (text sc))%nat else text sc' = [].

Definition started (ps : pstate) : bool := match ps with PS_input => false | _ => true end.

Ltac not_ret H := destruct H as [? Hd]; first [done | by destruct (Hd _ _ eq_refl) | split; [by split|done]].

Lemma parse_from_ends ps sc s : ends (parse_from ps sc s) /\
  forall r sc' s', parse_from ps sc s = Ret (r, sc', s') -> eats (started ps) sc sc' r.
Proof.
  remember (length (text sc)) as n eqn:Hn. revert ps sc s Hn. induction n as [n IH] using lt_wf_ind. intros ps sc s ->.
  rewrite parse_from_eq. destruct (next_token_ends sc) as [He Hs]. destruct (next_token sc) as [[t sc1]| | |] eqn:Et; cbn [obind]; try by not_ret He.
  specialize (Hs _ _ eq_refl). pose proof (parse_step_ends ps t (first_pos (lloc sc1)) s) as Hp.
  destruct (parse_step ps t (first_pos (lloc sc1)) s) as [[v s1]| | |] eqn:Es; cbn [obind]; try by not_ret Hp.
  destruct v as [ps1| |].
  - destruct Hs as [Hl|[_ ->]]; [|by destruct (step_eof _ _ _ _ _ Es ps1)].
    destruct (IH _ Hl ps1 sc1 s1 eq_refl) as [H1 H2]. split; [done|]. intros r sc' s' H. specialize (H2 _ _ _ H). destruct r; [|done]. cbn in *. lia.
  - split; [by split|]. intros r sc' s' [= <- <- <-]. destruct ps, t; try done; [by eapply yylex_eof|]. cbn in Es. by destruct (pair_action _ _ _ _ _ _ _ _).
  - split; [by split|]. intros r sc' s' [= <- <- <-]. destruct Hs as [Hl|[Hx ->]]; [cbn; lia|]. destruct ps; cbn; rewrite Hx; cbn; try done; lia.
Qed.

Lemma parse_again_ends fuel sc s : (length (text sc) < fuel)%nat ->
  ends (parse_again fuel sc s) /\ forall sc' s', parse_again fuel sc s = Ret (sc', s') -> text sc' = [].
Proof.
  revert sc s. induction fuel as [|fuel IH]; intros sc s Hf; [lia|]. cbn [parse_again].
  destruct (parse_from_ends PS_input (reset_loc sc) s) as [He Hr]. unfold yyparse.
  destruct (parse_from PS_input (reset_loc sc) s) as [[[r sc1] s1]| | |]; cbn [obind]; try by not_ret He.
  specialize (Hr _ _ _ eq_refl). destruct r; cbn in Hr; [apply IH; cbn in Hr; lia|]. split; [by split|]. by intros sc' s' [= <- <-].
Qed.

(** ** Texts and their rules *)

(** A pair as it is written; [wrap] is whether the separator in front of it ends the
    line with a backslash. *)
Record written := { w_wrap : bool; w_key : rule_key_t; w_attr : option bytes; w_op : rule_op_t; w_value : bytes }.
Inductive doc_line := D_blank | D_comment (t : bytes) | D_rule (w : written) (ws : list written).

Definition w_ok (w : written) : Prop := match w_attr w with Some a => attr_ok a | None => True end /\ value_ok (w_value w).
Definition line_ok (d : doc_line) : Prop :=
  match d with D_blank => True | D_comment t => comment_ok t | D_rule w ws => Forall w_ok (w :: ws) end.

Definition print_attr (a : option bytes) : bytes := match a with Some a => "{"%char :: a ++ #"}" | None => [] end.
Definition print_head (w : written) : bytes := rule_key_names (w_key w) ++ print_attr (w_attr w).
Definition print_value (w : written) : bytes := QUOTE :: quoted (w_value w).
Definition print_pair (w : written) : bytes := print_head w ++ rule_op_names (w_op w) ++ print_value w ++ [QUOTE].

Fixpoint print_more (ws : list written) : bytes :=
  match ws with [] => [] | w :: ws => separator (w_wrap w) ++ print_pair w ++ print_more ws end.
Definition print_line (d : doc_line) : bytes :=
  match d with
  | D_blank => [NL]
  | D_comment t => "#"%char :: t ++ [NL]
  | D_rule w ws => print_pair w ++ print_more ws ++ [NL]
  end.
Definition print_doc (ds : list doc_line) : bytes := concat (map print_line ds).

(** The pairs with their positions. The position of a value is the one of its closing
    quote, and the line of a rule is the one of its first key. *)
Definition place (f l : Z) (p : pos) (w : written) : rule_pair :=
  {| pos_key := p; pos_op := advance p (print_head w); pos_value := advance p (print_head w ++ rule_op_names (w_op w) ++ print_value w);
     key := w_key w; op := w_op w; attr := str <$> w_attr w; value := str (w_value w); rule_line := l; rule_file := f |}.

Fixpoint place_more (f l : Z) (p : pos) (ws : list written) : list rule_pair :=
  match ws with
  | [] => []
  | w :: ws => let p := advance p (separator (w_wrap w)) in place f l p w :: place_more f l (advance p (print_pair w)) ws
  end.

Definition place_line (f : Z) (p : pos) (d : doc_line) : list (list rule_pair * Z) :=
  match d with
  | D_rule w ws => [(place f (line p) p w :: place_more f (line p) (advance p (print_pair w)) ws, line p)]
  | _ => []
  end.

Fixpoint place_doc (f : Z) (p : pos) (ds : list doc_line) : list (list rule_pair * Z) :=
  match ds with [] => [] | d :: ds => place_line f p d ++ place_doc f (advance p (print_line d)) ds end.

(** ** Parsing such a text *)

Lemma c_string_holds s t : holds s t -> NUL ∉ t -> c_string s = Ret (str t).
Proof.
  intros (_ & _ & rest & Hb) Hn. unfold c_string. assert (read_nul (buf s) = Ret t) as ->; [|done].
  rewrite Hb. clear Hb. induction t as [|c t IH]; [by cbn|]. apply not_elem_of_cons in Hn as [Hc Hn]. cbn. rewrite decide_False by done.
  cbn in IH. by rewrite IH.
Qed.

Lemma first_pos_at p q : first_pos (loc_at p q) = p.
Proof. apply pos_eta. Qed.

Lemma after_head a o rest : exists c rest', print_attr a ++ rule_op_names o ++ rest = c :: rest' /\ after_key c.
Proof. destruct a as [a|]; [|destruct o]; (do 2 eexists; split; [reflexivity|]); by apply (bool_decide_unpack _). Qed.

Lemma next_key k a o rest p q e :
  next_token (at_text (rule_key_names k ++ print_attr a ++ rule_op_names o ++ rest) (loc_at p q) e) =
  Ret (T_KEY k, at_text (print_attr a ++ rule_op_names o ++ rest) (loc_at q (advance q (rule_key_names k))) e).
Proof. destruct (after_head a o rest) as (c & rest' & -> & Hc). by apply scan_key. Qed.

Lemma next_op o v rest p q e :
  next_token (at_text (rule_op_names o ++ (QUOTE :: v) ++ rest) (loc_at p q) e) =
  Ret (T_OPERATION o, at_text ((QUOTE :: v) ++ rest) (loc_at q (advance q (rule_op_names o))) e).
Proof. apply scan_op. Qed.

Lemma next_value v rest p q e : value_ok v -> exists u, holds u v /\
  next_token (at_text ((QUOTE :: quoted v) ++ [QUOTE] ++ rest) (loc_at p q) e) =
  Ret (T_VALUE u, at_text rest (loc_at (advance q (QUOTE :: quoted v)) (advance q ((QUOTE :: quoted v) ++ [QUOTE]))) e).
Proof. intros Hv. apply scan_value; [done|]. cbn. rewrite length_app. cbn. lia. Qed.

Lemma parse_op_value k pk a o v rest p q e s : value_ok v -> exists u, holds u v /\
  forall ps, (forall at_, parse_step ps (T_OPERATION o) at_ s = Ret (Go (PS_op k pk a o at_), s)) ->
  parse_from ps (at_text (rule_op_names o ++ (QUOTE :: quoted v) ++ [QUOTE] ++ rest) (loc_at p q) e) s =
  let q1 := advance q (rule_op_names o) in let q2 := advance q1 (QUOTE :: quoted v) in
  let! s := pair_action k pk a o q u q2 s in
  parse_from PS_pairs (at_text rest (loc_at q2 (advance q2 [QUOTE])) e) s.
Proof.
  intros Hv. set (q1 := advance q (rule_op_names o)). destruct (next_value v rest q q1 e Hv) as (u & Hu & Hn).
  exists u. split; [done|]. intros ps Hps. rewrite parse_from_eq, next_op. cbn [obind lloc at_text]. rewrite first_pos_at, Hps. cbn [obind].
  fold q1. rewrite parse_from_eq. rewrite Hn. cbn [obind lloc at_text parse_step]. rewrite first_pos_at. cbn zeta.
  rewrite advance_app. by destruct (pair_action _ _ _ _ _ _ _ _).
Qed.

(** A pair at the beginning of a line or behind a comma. *)
Lemma parse_pair ps w rest p q e s : ps = PS_input \/ ps = PS_comma -> w_ok w ->
  let r := get_rule q s in let q2 := advance q (print_head w ++ rule_op_names (w_op w) ++ print_value w) in
  parse_from ps (at_text (print_pair w ++ rest) (loc_at p q) e) s =
  let! s := add_pair r (place (file r) (line_nr r) q w) s in
  parse_from PS_pairs (at_text rest (loc_at q2 (advance q (print_pair w))) e) s.
Proof.
  intros Hps [Ha Hv] r q2. unfold print_pair, print_head, print_value. rewrite <- !app_assoc, parse_from_eq, next_key. cbn [obind lloc at_text].
  rewrite first_pos_at. assert (parse_step ps (T_KEY (w_key w)) q s = Ret (Go (PS_key (w_key w) q), s)) as -> by (by destruct Hps as [-> | ->]).
  cbn [obind]. set (q0 := advance q (rule_key_names (w_key w))).
  assert (Hend : forall a u, c_attr a = Ret (str <$> w_attr w) -> holds u (w_value w) ->
    pair_action (w_key w) q a (w_op w) (advance q (print_head w)) u q2 s = add_pair r (place (file r) (line_nr r) q w) s).
  { intros a u Hca Hu. unfold pair_action. rewrite Hca. cbn [obind]. rewrite (c_string_holds u (w_value w)) by (done || apply Hv). done. }
  assert (Hq2 : q2 = advance (advance (advance q (print_head w)) (rule_op_names (w_op w))) (QUOTE :: quoted (w_value w)))
    by (unfold q2, print_value; by rewrite !advance_app).
  destruct (w_attr w) as [a|] eqn:Hw; cbn [print_attr].
  - destruct (scan_attr a (rule_op_names (w_op w) ++ (QUOTE :: quoted (w_value w)) ++ [QUOTE] ++ rest)
      (length (text (at_text (("{"%char :: a ++ #"}") ++ rule_op_names (w_op w) ++ (QUOTE :: quoted (w_value w)) ++ [QUOTE] ++ rest) (loc_at q q0) e)))
      None q q0 e Ha) as (ua & Hua & Hsa).
    rewrite parse_from_eq. unfold next_token at 1. rewrite Hsa. cbn [obind lloc at_text parse_step].
    destruct (parse_op_value (w_key w) q (Some ua) (w_op w) (w_value w) rest q0 (advance q0 ("{"%char :: a ++ #"}")) e s Hv) as (u & Hu & Hp).
    unfold at_text in Hp. rewrite Hp by done. cbn zeta.
    assert (advance q0 ("{"%char :: a ++ #"}") = advance q (print_head w)) as -> by (unfold q0, print_head; by rewrite Hw, advance_app).
    rewrite <- Hq2. rewrite Hend; [|cbn; by rewrite (c_string_holds ua a) by (done || apply Ha)|done].
    unfold q2, print_head, print_value. rewrite Hw, !advance_app. done.
  - destruct (parse_op_value (w_key w) q None (w_op w) (w_value w) rest q q0 e s Hv) as (u & Hu & Hp). rewrite app_nil_l.
    rewrite Hp by done. cbn zeta.
    assert (q0 = advance q (print_head w)) as -> by (unfold q0, print_head; by rewrite Hw, advance_app).
    rewrite <- Hq2, Hend by done. unfold q2, print_head, print_value. rewrite Hw, !advance_app. reflexivity.
Qed.

Definition set_rule (c : rules_state) (r : rule) (ps : list rule_pair) (s : parser) : parser :=
  with_rule (Some {| line_nr := line_nr r; file := file r; pairs := ps |}) (with_checks c s).

Lemma parse_from_cong ps sc1 sc2 s : next_token sc1 = next_token sc2 -> parse_from ps sc1 s = parse_from ps sc2 s.
Proof. intros H. rewrite parse_from_eq, H. symmetry. apply parse_from_eq. Qed.

Lemma parse_separator w rest p q e s : exists p0,
  parse_from PS_pairs (at_text (separator (w_wrap w) ++ print_pair w ++ rest) (loc_at p q) e) s =
  parse_from PS_comma (at_text (print_pair w ++ rest) (loc_at p0 (advance q (separator (w_wrap w)))) e) s.
Proof.
  unfold print_pair, print_head. rewrite <- !app_assoc.
  destruct (next_separator (w_wrap w) (w_key w) (print_attr (w_attr w) ++ rule_op_names (w_op w) ++ print_value w ++ [QUOTE] ++ rest) p q e) as (p0 & H1 & H2).
  exists p0. rewrite parse_from_eq, H1. cbn [obind parse_step]. by apply parse_from_cong.
Qed.

(** Where the last token of the pairs begins. *)
Fixpoint last_first (p q : pos) (ws : list written) : pos :=
  match ws with
  | [] => p
  | w :: ws =>
      let q := advance q (separator (w_wrap w)) in
      last_first (advance q (print_head w ++ rule_op_names (w_op w) ++ print_value w)) (advance q (print_pair w)) ws
  end.

Lemma parse_more ws : forall p q e s r rest, cur_rule s = Some r -> Forall w_ok ws ->
  parse_from PS_pairs (at_text (print_more ws ++ rest) (loc_at p q) e) s =
  let! (c, ps) := process_pairs (place_more (file r) (line_nr r) q ws) (pairs r) (checks s) in
  parse_from PS_pairs (at_text rest (loc_at (last_first p q ws) (advance q (print_more ws))) e) (set_rule c r ps s).
Proof.
  induction ws as [|w ws IH]; intros p q e s r rest Hr Hw.
  { cbn [print_more place_more process_pairs obind app last_first advance]. f_equal. destruct s, r. cbn in *. by subst. }
  apply list.Forall_cons in Hw as [Hw Hws]. cbn [print_more place_more process_pairs last_first]. rewrite <- !app_assoc.
  destruct (parse_separator w (print_more ws ++ rest) p q e s) as [p0 ->]. rewrite !advance_app. set (q1 := advance q (separator (w_wrap w))).
  rewrite parse_pair by (by auto). cbn zeta. unfold add_pair.
  assert (get_rule q1 s = r) as -> by (unfold get_rule; by rewrite Hr).
  destruct (process_token _ _ _) as [[c p1]| | |]; cbn [obind]; try done.
  rewrite (IH _ _ _ _ {| line_nr := line_nr r; file := file r; pairs := pairs r ++ [p1] |}) by done. cbn [file line_nr pairs].
  by rewrite !advance_app.
Qed.

(** What a rule line does to the parser, by the rule line of UdevRules. *)
Definition run_line (ps : list rule_pair) (l : Z) (s : parser) : out parser :=
  let! (c, sorted) := ruleline ps l (checks s) in
  Ret {| checks := c; files := alter count_rule (Z.to_nat (cur_file s)) (files s);
         rules := rules s ++ [{| line_nr := l; file := cur_file s; pairs := sorted |}]; cur_rule := None;
         global_rule_nr := i32 (global_rule_nr s + 1); cur_file := cur_file s |}.

Fixpoint run_lines (ls : list (list rule_pair * Z)) (s : parser) : out parser :=
  match ls with [] => Ret s | (ps, l) :: ls => let! s := run_line ps l s in run_lines ls s end.

Lemma parse_eol ps rest p q e s s' : parse_step ps T_EOL q s = Ret (Go PS_input, s') ->
  parse_from ps (at_text (NL :: rest) (loc_at p q) e) s = parse_from PS_input (at_text rest (loc_at q (advance q [NL])) e) s'.
Proof.
  intros H. rewrite parse_from_eq. unfold next_token at 1. rewrite scan_eol. cbn [obind lloc at_text]. rewrite first_pos_at, H. done.
Qed.

Lemma parse_rule w ws rest p q e s : cur_rule s = None -> Forall w_ok (w :: ws) -> exists p',
  parse_from PS_input (at_text (print_line (D_rule w ws) ++ rest) (loc_at p q) e) s =
  let! s := run_lines (place_line (cur_file s) q (D_rule w ws)) s in
  parse_from PS_input (at_text rest (loc_at p' (advance q (print_line (D_rule w ws)))) e) s.
Proof.
  intros Hr Hw. apply list.Forall_cons in Hw as [Hw Hws]. cbn [print_line place_line run_lines]. rewrite <- !app_assoc, !advance_app.
  eexists. rewrite parse_pair by (by auto). cbn zeta. unfold add_pair, get_rule. rewrite Hr. cbn [file line_nr pairs].
  unfold run_line, ruleline. cbn [process_pairs]. destruct (process_token _ _ _) as [[c p1]| | |]; cbn [obind]; try done.
  erewrite parse_more by done. cbn [file line_nr pairs checks with_rule with_checks app].
  destruct (process_pairs _ _ _) as [[c' ps]| | |]; cbn [obind]; try done.
  by erewrite parse_eol by done.
Qed.

Lemma parse_line d rest p q e s : cur_rule s = None -> line_ok d -> exists p',
  parse_from PS_input (at_text (print_line d ++ rest) (loc_at p q) e) s =
  let! s := run_lines (place_line (cur_file s) q d) s in
  parse_from PS_input (at_text rest (loc_at p' (advance q (print_line d))) e) s.
Proof.
  intros Hr Hd. destruct d as [|t|w ws]; [| |by apply parse_rule].
  - exists q. cbn [print_line place_line run_lines obind app]. by erewrite parse_eol by done.
  - exists q. cbn [place_line run_lines obind]. by apply parse_from_cong, next_comment.
Qed.

Lemma run_line_cur ps l s s' : run_line ps l s = Ret s' -> cur_rule s' = None /\ cur_file s' = cur_file s.
Proof. unfold run_line. destruct (ruleline _ _ _) as [[c sorted]| | |]; cbn; try done. by intros [= <-]. Qed.

Lemma run_lines_app ls ls' s : run_lines (ls ++ ls') s = let! s := run_lines ls s in run_lines ls' s.
Proof. revert s. induction ls as [|[ps l] ls IH]; intros s; cbn; [done|]. destruct (run_line ps l s); cbn; try done. Qed.

Lemma run_lines_cur ls : forall s s', run_lines ls s = Ret s' -> cur_rule s = None -> cur_rule s' = None /\ cur_file s' = cur_file s.
Proof.
  induction ls as [|[ps l] ls IH]; intros s s' H Hr; cbn in H; [by simplify_eq|].
  destruct (run_line ps l s) as [s1| | |] eqn:E; cbn in H; try done. apply run_line_cur in E as [E1 E2]. destruct (IH _ _ H E1). by rewrite <- E2.
Qed.

Lemma parse_lines ds : forall rest p q e s, cur_rule s = None -> Forall line_ok ds -> exists p',
  parse_from PS_input (at_text (print_doc ds ++ rest) (loc_at p q) e) s =
  let! s := run_lines (place_doc (cur_file s) q ds) s in
  parse_from PS_input (at_text rest (loc_at p' (advance q (print_doc ds))) e) s.
Proof.
  induction ds as [|d ds IH]; intros rest p q e s Hr Hd; [by eexists|]. apply list.Forall_cons in Hd as [Hd Hds].
  unfold print_doc. cbn [map concat place_doc]. fold (print_doc ds). rewrite <- app_assoc, advance_app.
  destruct (parse_line d (print_doc ds ++ rest) p q e s Hr Hd) as [p' ->]. rewrite run_lines_app.
  destruct (run_lines (place_line (cur_file s) q d) s) as [s1| | |] eqn:E; cbn [obind]; try (by exists p).
  destruct (run_lines_cur _ _ _ E Hr) as [Hr1 <-]. by apply IH.
Qed.

Lemma parse_doc ds p q e s : cur_rule s = None -> Forall line_ok ds -> exists l,
  parse_from PS_input (at_text (print_doc ds) (loc_at p q) e) s =
  let! s := run_lines (place_doc (cur_file s) q ds) s in Ret (false, at_text [] l e, s).
Proof.
  intros Hr Hd. destruct (parse_lines ds [] p q e s Hr Hd) as [p' Hp]. rewrite app_nil_r in Hp. exists (loc_at p' (advance q (print_doc ds))). exact Hp.
Qed.

Definition pos0 : pos := {| line := 1; column := 1 |}.

Lemma rules_parse_doc ds s : cur_rule s = None -> Forall line_ok ds -> exists l,
  rules_parse (print_doc ds) s = let! s := run_lines (place_doc (cur_file s) pos0 ds) s in Ret (at_text [] l [], s).
Proof.
  intros Hr Hd. destruct (parse_doc ds pos0 pos0 [] s Hr Hd) as [l Hp]. exists l. unfold rules_parse. cbn [parse_again]. unfold yyparse.
  change (reset_loc (scanner0 (print_doc ds))) with (at_text (print_doc ds) (loc_at pos0 pos0) []). rewrite Hp. by destruct (run_lines _ _).
Qed.

Lemma run_lines_checks ls : forall s, (let! s := run_lines ls s in Ret (checks s)) = read_lines ls (checks s).
Proof.
  induction ls as [|[ps l] ls IH]; intros s; cbn; [done|]. unfold run_line. destruct (ruleline ps l (checks s)) as [[c sorted]| | |]; cbn; [apply IH|done..].
Qed.

(** ** The program on such files *)

Section Documents.
Context (fs : filesystem) (docs : bytes -> list doc_line).

(** The files an argument stands for. *)
Definition arg_files (arg : bytes) : list bytes :=
  match stat fs arg, opendir fs arg with
  | Some S_IFDIR, Some ents => map (fun d_name => arg ++ #"/" ++ d_name) (List.filter is_rules ents)
  | _, _ => [arg]
  end.

(** A file that has the text of its document, an argument that can be read. *)
Definition file_ok (f : bytes) : Prop :=
  stat fs f = Some S_IFREG /\ fopen fs f = Some (print_doc (docs f)) /\ Forall line_ok (docs f).
Definition arg_ok (arg : bytes) : Prop :=
  (stat fs arg = Some S_IFREG \/ stat fs arg = Some S_IFDIR /\ opendir fs arg <> None /\ Forall (fun f => lenZ f < PATH_MAX) (arg_files arg))
  /\ Forall file_ok (arg_files arg).

(** The rule lines of the files, which are numbered from [n]. *)
Fixpoint place_files (n : Z) (fl : list bytes) : list (list rule_pair * Z) :=
  match fl with [] => [] | f :: fl => place_doc n pos0 (docs f) ++ place_files (n + 1) fl end.
Fixpoint place_args (n : Z) (argv : list bytes) : list rules_arg :=
  match argv with [] => [] | a :: argv => (place_files n (arg_files a), true) :: place_args (n + lenZ (arg_files a)) argv end.

(** A step that succeeds with [c] as its checks and [n] files, or fails as [c] fails. *)
Definition simulates {A} (o : out (A * parser)) (a : A) (n : Z) (c : out rules_state) : Prop :=
  match c with
  | Ret c => exists s, o = Ret (a, s) /\ checks s = c /\ lenZ (files s) = n
  | Die k m => o = Die k m
  | Undef => o = Undef
  | NoFuel => o = NoFuel
  end.

Lemma run_lines_files ls : forall s s', run_lines ls s = Ret s' -> lenZ (files s') = lenZ (files s).
Proof.
  induction ls as [|[ps l] ls IH]; intros s s' H; cbn in H; [by simplify_eq|].
  destruct (run_line ps l s) as [s1| | |] eqn:E; cbn in H; try done. rewrite (IH _ _ H).
  unfold run_line in E. destruct (ruleline _ _ _) as [[c sorted]| | |]; cbn in E; try done. simplify_eq. cbn. unfold lenZ. by rewrite length_alter.
Qed.

Lemma readfile_doc f s : file_ok f ->
  simulates (rules_readfile fs f s) 0 (lenZ (files s) + 1) (read_lines (place_doc (lenZ (files s)) pos0 (docs f)) (checks s)).
Proof.
  intros (Hs & Ho & Hd). unfold rules_readfile. rewrite Hs, Ho. destruct (rules_parse_doc (docs f) (open_rules f s) eq_refl Hd) as [l ->].
  change (cur_file (open_rules f s)) with (lenZ (files s)). change (checks s) with (checks (open_rules f s)). rewrite <- run_lines_checks.
  destruct (run_lines _ _) as [s1| | |] eqn:E; cbn; try done. eexists. split_and!; [done|done|]. apply run_lines_files in E. rewrite E. cbn. by rewrite lenZ_app.
Qed.

Lemma read_lines_app ls ls' c : read_lines (ls ++ ls') c = let! c := read_lines ls c in read_lines ls' c.
Proof. revert c. induction ls as [|[ps l] ls IH]; intros c; cbn; [done|]. destruct (ruleline ps l c) as [[c1 ?]| | |]; cbn; [apply IH|done..]. Qed.

Lemma readdir_doc dir ents : forall s,
  let fl := map (fun d_name => dir ++ #"/" ++ d_name) (List.filter is_rules ents) in
  Forall (fun f => lenZ f < PATH_MAX) fl -> Forall file_ok fl ->
  simulates (readdir_loop fs dir ents 0 s) 0 (lenZ (files s) + lenZ fl) (read_lines (place_files (lenZ (files s)) fl) (checks s)).
Proof.
  induction ents as [|d ents IH]; intros s fl Hlen Hok; subst fl.
  { cbn. exists s. split_and!; [done|done|]. change (lenZ (@nil bytes)) with 0. lia. }
  cbn [List.filter readdir_loop] in *. destruct (is_rules d) eqn:Er; cbn [negb]; [|by apply IH]. cbn [map place_files] in *.
  apply list.Forall_cons in Hlen as [Hl Hlen], Hok as [Ho Hok].
  rewrite Z.geb_leb, (proj2 (Z.leb_gt _ _)) by lia. rewrite read_lines_app. pose proof (readfile_doc _ s Ho) as Hf.
  destruct (read_lines (place_doc _ _ _) _) as [c| | |]; cbn [obind simulates] in *; [|by rewrite Hf..].
  destruct Hf as (s1 & -> & <- & Hn). cbn [obind Z.ltb Z.compare]. rewrite lenZ_cons, <- Hn.
  replace (lenZ (files s) + (1 + _)) with (lenZ (files s1) + lenZ (map (fun d_name => dir ++ #"/" ++ d_name) (List.filter is_rules ents))) by lia.
  by apply IH.
Qed.

Lemma main_args_doc argv : forall s, Forall arg_ok argv ->
  match read_args (place_args (lenZ (files s)) argv) (checks s) with
  | Ret (c, ok) => ok = true /\ exists s', main_args fs argv s = Ret (s', true) /\ checks s' = c
  | Die k m => main_args fs argv s = Die k m
  | Undef => main_args fs argv s = Undef
  | NoFuel => main_args fs argv s = NoFuel
  end.
Proof.
  induction argv as [|a argv IH]; intros s Hok; [cbn; eauto|]. apply list.Forall_cons in Hok as [[Ha Hf] Hok]. cbn [place_args read_args main_args].
  assert (Hsim : exists t, stat fs a = Some t /\ t <> S_IFOTHER /\
    simulates (match t with S_IFDIR => rules_readdir fs a s | _ => rules_readfile fs a s end) 0 (lenZ (files s) + lenZ (arg_files a))
      (read_lines (place_files (lenZ (files s)) (arg_files a)) (checks s))).
  { unfold arg_files in *. destruct Ha as [Ha|(Ha & Hd & Hl)]; rewrite Ha in *; eexists; (split; [done|split; [done|]]).
    - apply list.Forall_cons in Hf as [Hf _]. cbn [place_files]. rewrite app_nil_r. by apply readfile_doc.
    - destruct (opendir fs a) as [ents|] eqn:Eo; [|done]. unfold rules_readdir. rewrite Eo. by apply readdir_doc. }
  destruct Hsim as (t & -> & Ht & Hs).
  destruct (read_lines _ _) as [c| | |]; cbn [obind simulates negb] in *; [|by destruct t; rewrite ?Hs..].
  destruct Hs as (s1 & Hs & <- & <-). specialize (IH s1 Hok). by destruct t; rewrite ?Hs.
Qed.
End Documents.

(** ** The order of the pairs *)

Lemma advance_line p s : line p <= line (advance p s).
Proof. revert p. induction s as [|c s IH]; intros p; cbn; [lia|]. etrans; [|apply IH]. case_decide; cbn; lia. Qed.

Lemma place_more_of f l p ws : Forall (fun x => rule_file x = f /\ rule_line x = l) (place_more f l p ws).
Proof. revert p. induction ws as [|w ws IH]; intros p; cbn; constructor; [done|apply IH]. Qed.

(** Pairs of the file [f] from the line [n] on, in order. *)
Definition placed (f n : Z) (ps : list rule_pair) : Prop := Forall (fun x => rule_file x = f /\ n <= rule_line x) ps /\ StronglySorted in_order ps.

Lemma sorted_app (ps qs : list rule_pair) : StronglySorted in_order ps -> StronglySorted in_order qs ->
  (forall x y, x ∈ ps -> y ∈ qs -> in_order x y) -> StronglySorted in_order (ps ++ qs).
Proof.
  induction 1 as [|p ps Hs IH HF]; intros Hq Hx; [done|]. cbn. constructor.
  - apply IH; [done|]. intros x y Hin. apply Hx. by right.
  - apply list.Forall_app. split; [done|]. apply list.Forall_forall. intros y. apply Hx. by left.
Qed.

Lemma place_line_placed f p d : let ps := all_pairs (place_line f p d) in
  Forall (fun x => rule_file x = f /\ rule_line x = line p) ps /\ StronglySorted in_order ps.
Proof.
  assert (Hs : forall ps, Forall (fun x => rule_file x = f /\ rule_line x = line p) ps -> StronglySorted in_order ps).
  { induction 1 as [|x ps [Hf Hl] HF IH]; constructor; [done|]. eapply list.Forall_impl; [exact HF|]. intros y [_ Hy] _. lia. }
  intros ps. assert (Forall (fun x => rule_file x = f /\ rule_line x = line p) ps) as H; [|by split; [|apply Hs]].
  destruct d as [|t|w ws]; [constructor..|]. unfold ps, all_pairs. cbn. rewrite app_nil_r. constructor; [done|apply place_more_of].
Qed.

Lemma all_pairs_app ls ls' : all_pairs (ls ++ ls') = all_pairs ls ++ all_pairs ls'.
Proof. unfold all_pairs. by rewrite map_app, concat_app. Qed.

Lemma place_doc_placed f ds : forall p, placed f (line p) (all_pairs (place_doc f p ds)).
Proof.
  induction ds as [|d ds IH]; intros p; [split; constructor|]. cbn [place_doc]. rewrite all_pairs_app.
  destruct (place_line_placed f p d) as [HF HS], (IH (advance p (print_line d))) as [HF' HS']. pose proof (advance_line p (print_line d)). split.
  - apply list.Forall_app. split; (eapply list.Forall_impl; [eassumption|]); cbn; intros x [? ?]; split; (done || lia).
  - apply sorted_app; [done..|]. intros x y Hx Hy _. rewrite list.Forall_forall in HF, HF'. destruct (HF _ Hx), (HF' _ Hy). cbn in *. lia.
Qed.

Lemma place_files_placed docs fl : forall n, let ps := all_pairs (place_files docs n fl) in
  Forall (fun x => n <= rule_file x < n + lenZ fl) ps /\ StronglySorted in_order ps.
Proof.
  induction fl as [|f fl IH]; intros n; [split; constructor|]. cbn [place_files]. rewrite all_pairs_app, lenZ_cons. pose proof (lenZ_nonneg fl).
  destruct (place_doc_placed n (docs f) pos0) as [HF HS], (IH (n + 1)) as [HF' HS']. split.
  - apply list.Forall_app. split; (eapply list.Forall_impl; [eassumption|]); cbn; intros x; lia.
  - apply sorted_app; [done..|]. intros x y Hx Hy Hxy. rewrite list.Forall_forall in HF, HF'. destruct (HF _ Hx), (HF' _ Hy). cbn in *. lia.
Qed.

Definition args_pairs (args : list rules_arg) : list rule_pair := concat (map (fun a => all_pairs a.1) args).

Lemma place_args_placed fs docs argv : forall n, let ps := args_pairs (place_args fs docs n argv) in
  Forall (fun x => n <= rule_file x) ps /\ StronglySorted in_order ps.
Proof.
  induction argv as [|a argv IH]; intros n; [split; constructor|]. unfold args_pairs. cbn [place_args map concat fst].
  pose proof (lenZ_nonneg (arg_files fs a)). destruct (place_files_placed docs (arg_files fs a) n) as [HF HS], (IH (n + lenZ (arg_files fs a))) as [HF' HS']. split.
  - apply list.Forall_app. split; (eapply list.Forall_impl; [eassumption|]); cbn; intros x; lia.
  - apply sorted_app; [done..|]. intros x y Hx Hy Hxy. rewrite list.Forall_forall in HF, HF'. specialize (HF _ Hx). specialize (HF' _ Hy). cbn in *. lia.
Qed.

(** ** Pairs that the actions cannot take *)

(** A pair without an attribute whose check reads the attribute: CONST, IMPORT, and an
    ENV that is assigned to. *)
Definition null_attr (ps : pstate) (t : token) : bool :=
  match ps, t with
  | PS_op k _ None o _, T_VALUE _ =>
      match k with KEY_CONST | KEY_IMPORT => true | KEY_ENV => negb (op_num o <? op_num OP_ADD) | _ => false end
  | _, _ => false
  end.

(** What yyparse and the loop around it do with one token: they go on, or start again behind
    a syntax error. *)
Inductive reads : pstate * scanner * parser -> pstate * scanner * parser -> Prop :=
| reads_go ps sc s t sc' ps' s' : next_token sc = Ret (t, sc') -> parse_step ps t (first_pos (lloc sc')) s = Ret (Go ps', s') ->
    reads (ps, sc, s) (ps', sc', s')
| reads_again ps sc s t sc' s' : next_token sc = Ret (t, sc') -> parse_step ps t (first_pos (lloc sc')) s = Ret (Abort, s') ->
    reads (ps, sc, s) (PS_input, reset_loc sc', s').

(** The parser comes to the value of such a pair. *)
Definition meets_null (x : pstate * scanner * parser) : Prop :=
  exists ps sc s t sc', rtc reads x (ps, sc, s) /\ next_token sc = Ret (t, sc') /\ null_attr ps t = true.

Definition pstate_ok (ps : pstate) : Prop := match ps with PS_attr _ _ a | PS_op _ _ (Some a) _ _ => exists x, holds a x | _ => True end.

Lemma c_string_ret u x : holds u x -> exists y, c_string u = Ret y.
Proof.
  intros (_ & _ & rest & Hb). unfold c_string. rewrite Hb. clear Hb.
  assert (exists b, read_nul (map Some (x ++ [NUL]) ++ rest) = Ret b) as [b ->]; [|by eexists].
  induction x as [|c x [b IH]]; [by exists []|]. cbn. case_decide; [by exists []|]. cbn in IH. rewrite IH. by eexists.
Qed.

Lemma pair_action_safe k pk a o po v pv s : pstate_ok (PS_op k pk a o po) -> token_ok (T_VALUE v) ->
  if null_attr (PS_op k pk a o po) (T_VALUE v) then pair_action k pk a o po v pv s = Undef else exists s', pair_action k pk a o po v pv s = Ret s'.
Proof.
  intros Ha [y Hy]. unfold pair_action. destruct (c_string_ret v y Hy) as [v' Hv].
  assert (exists a', c_attr a = Ret a' /\ (a' = None <-> a = None)) as (a' & -> & Hn).
  { destruct a as [a|]; [|by exists None]. destruct Ha as [x Hx]. destruct (c_string_ret a x Hx) as [a' Hc]. exists (Some a'). cbn. by rewrite Hc. }
  cbn [obind]. rewrite Hv. cbn [obind]. unfold add_pair. set (p := {| pos_key := pk |}).
  destruct (process_token_crash p (pairs (get_rule pk s)) (checks s)) as [(Hx & Hk & ->)|(Hx & c & p' & ->)]; unfold is_op_match, p in *; cbn [attr key op] in *.
  - apply Hn in Hx as ->. cbn [null_attr]. destruct Hk as [-> | [-> | [-> Ho]]]; [done|done|]. by rewrite Ho.
  - cbn [obind]. assert (null_attr (PS_op k pk a o po) (T_VALUE v) = false) as ->; [|by eexists].
    cbn [null_attr]. destruct a; [done|]. assert (a' = None) by (by apply Hn).
    destruct k; try done; try (destruct Hx; tauto). destruct (op_num o <? op_num OP_ADD) eqn:E; [done|]. destruct Hx. tauto.
Qed.

Lemma parse_step_safe ps t at_ s : pstate_ok ps -> token_ok t ->
  if null_attr ps t then parse_step ps t at_ s = Undef
  else exists v s', parse_step ps t at_ s = Ret (v, s') /\ match v with Go ps' => pstate_ok ps' | _ => True end.
Proof.
  intros Hp Ht. destruct ps as [| | | | |k pk a o po], t as [| | | |v| | |]; cbn [null_attr parse_step]; try (do 2 eexists; split; [reflexivity|]; done).
  2: destruct a; do 2 eexists; (split; [reflexivity|done]).
  all: try (destruct a; do 2 eexists; (split; [reflexivity|done])).
  pose proof (pair_action_safe k pk a o po v at_ s Hp Ht) as H. cbn [null_attr] in H. destruct a as [a|].
  - destruct H as [s' ->]. do 2 eexists. by split.
  - case_match; [by rewrite H|]. destruct H as [s' ->]. do 2 eexists. by split.
Qed.

(** The scanner at the start of a token. *)
Definition ready (sc : scanner) : Prop := NUL ∉ text sc /\ lenZ (text sc) < 2 ^ 60 /\ (state sc = STRING -> text sc = []).

Lemma next_token_safe sc : ready sc -> exists t sc', next_token sc = Ret (t, sc') /\ token_ok t /\ ready sc'.
Proof.
  intros (Hn & Hl & Hs). destruct (yylex_safe (S (length (text sc))) None sc) as (t & sc' & H & Ht & Hst & k & Hk); [lia|done|done|by left; auto|].
  exists t, sc'. split_and!; [done|done|]. split_and!; [|rewrite Hk; unfold lenZ in *; rewrite length_drop; lia|done].
  rewrite Hk. intros Hx. apply Hn. rewrite <- (take_drop k). apply elem_of_app. by right.
Qed.

(** One token further. *)
Lemma meets_null_token ps sc s t sc' : next_token sc = Ret (t, sc') -> pstate_ok ps -> token_ok t ->
  meets_null (ps, sc, s) <-> null_attr ps t = true \/ exists v s', parse_step ps t (first_pos (lloc sc')) s = Ret (v, s') /\
    match v with Go ps' => meets_null (ps', sc', s') | Abort => meets_null (PS_input, reset_loc sc', s') | Accept => False end.
Proof.
  intros Hn Hp Ht. split.
  - intros (ps1 & sc1 & s1 & t1 & sc1' & Hr & Hn1 & Hx). apply rtc_inv in Hr as [[= <- <- <-]|(y & Hy & Hr)].
    { left. rewrite Hn in Hn1. by injection Hn1 as <- <-. }
    right. inversion Hy as [? ? ? t2 sc2 ps2 s2 H1 H2|? ? ? t2 sc2 s2 H1 H2]; subst; rewrite Hn in H1; injection H1 as <- <-; eexists _, s2;
      (split; [exact H2|]); by exists ps1, sc1, s1, t1, sc1'.
  - intros [Hx|(v & s' & Hs & Hx)]; [by exists ps, sc, s, t, sc'|].
    assert (Hy : forall y, reads (ps, sc, s) y -> meets_null y -> meets_null (ps, sc, s)).
    { intros y Hy (ps1 & sc1 & s1 & t1 & sc1' & Hr & H1). exists ps1, sc1, s1, t1, sc1'. split; [by eapply rtc_l|done]. }
    destruct v; [| done|]; (eapply Hy; [|exact Hx]); [by eapply reads_go|by eapply reads_again].
Qed.

Lemma parse_from_safe ps sc s : ready sc -> pstate_ok ps ->
  (parse_from ps sc s = Undef /\ meets_null (ps, sc, s)) \/
  exists r sc' s', parse_from ps sc s = Ret (r, sc', s') /\ ready sc' /\
    (meets_null (ps, sc, s) <-> if r : bool then meets_null (PS_input, reset_loc sc', s') else False).
Proof.
  remember (length (text sc)) as n eqn:Hn. revert ps sc s Hn. induction n as [n IH] using lt_wf_ind. intros ps sc s -> Hr Hp.
  rewrite parse_from_eq. destruct (next_token_safe sc Hr) as (t & sc1 & Et & Ht & Hr1). destruct (next_token_ends sc) as [_ Hs]. specialize (Hs _ _ Et).
  rewrite Et. cbn [obind]. pose proof (meets_null_token ps sc s t sc1 Et Hp Ht) as Hm.
  pose proof (parse_step_safe ps t (first_pos (lloc sc1)) s Hp Ht) as Hstep. destruct (null_attr ps t) eqn:Ex.
  { left. rewrite Hstep. split; [done|]. apply Hm. by left. }
  destruct Hstep as (v & s1 & Es & Hv). rewrite Es in Hm |- *. cbn [obind].
  assert (Hm' : meets_null (ps, sc, s) <-> match v with Go ps' => meets_null (ps', sc1, s1) | Abort => meets_null (PS_input, reset_loc sc1, s1) | Accept => False end).
  { rewrite Hm. split; [intros [?|(v' & s' & [= <- <-] & H)]; [done|exact H]|]. intros H. right. by exists v, s1. }
  clear Hm. destruct v as [ps1| |].
  - destruct Hs as [Hl|[_ ->]]; [|by destruct (step_eof _ _ _ _ _ Es ps1)]. setoid_rewrite Hm'. by apply (IH _ Hl).
  - right. by exists false, sc1, s1.
  - right. by exists true, sc1, s1.
Qed.

Lemma parse_again_safe fuel sc s : (length (text sc) < fuel)%nat -> ready sc ->
  (parse_again fuel sc s = Undef /\ meets_null (PS_input, reset_loc sc, s)) \/
  exists sc' s', parse_again fuel sc s = Ret (sc', s') /\ ~ meets_null (PS_input, reset_loc sc, s).
Proof.
  revert sc s. induction fuel as [|fuel IH]; intros sc s Hf Hr; [lia|]. cbn [parse_again]. unfold yyparse.
  destruct (parse_from_safe PS_input (reset_loc sc) s Hr I) as [[-> H]|(r & sc1 & s1 & E & Hr1 & Hm)]; [by left|].
  destruct (parse_from_ends PS_input (reset_loc sc) s) as [_ He]. specialize (He _ _ _ E). rewrite E. cbn [obind]. setoid_rewrite Hm.
  destruct r; [|right; by exists sc1, s1; split; [|tauto]]. apply IH; [cbn in He; lia|done].
Qed.

(** ** Syntax errors *)

(** The beginning of a rule: its first pairs, if it has some. *)
Definition print_begun (w : option (written * list written)) : bytes := match w with Some (w, ws) => print_pair w ++ print_more ws | None => [] end.
Definition begun_ok (w : option (written * list written)) : Prop := match w with Some (w, ws) => Forall w_ok (w :: ws) | None => True end.

(** The state with such a rule open. *)
Definition begin_rule (q : pos) (w : option (written * list written)) (s : parser) : out parser :=
  match w with
  | None => Ret s
  | Some (w, ws) =>
      let! (c, ps) := process_pairs (place (cur_file s) (line q) q w :: place_more (cur_file s) (line q) (advance q (print_pair w)) ws) [] (checks s) in
      Ret (with_rule (Some {| line_nr := line q; file := cur_file s; pairs := ps |}) (with_checks c s))
  end.

(** The tokens, by their patterns, that are errors at the beginning of a line or behind
    a pair. *)
Definition unexpected (w : option (written * list written)) : list lex_rule :=
  match w with None => [R_comma; R_attr; R_op; R_any] | Some _ => [R_key; R_attr; R_op; R_any] end.

(** Such a token between blanks and the rest of the file. *)
Record bad_token (w : option (written * list written)) (blanks bad rest : bytes) : Prop := {
  bt_blanks : blanks = [] \/ yy_match INITIAL (blanks ++ bad ++ rest) = Some (R_blank, length blanks);
  bt_match : exists r, yy_match INITIAL (bad ++ rest) = Some (r, length bad) /\ r ∈ unexpected w;
  bt_text : NUL ∉ blanks ++ bad;
  bt_len : lenZ bad < 2 ^ 60;
}.

Definition begun_state (w : option (written * list written)) : pstate := match w with Some _ => PS_pairs | None => PS_input end.

Lemma bad_token_aborts w blanks bad rest p q e s : bad_token w blanks bad rest -> let q1 := advance q blanks in
  parse_from (begun_state w) (at_text (blanks ++ bad ++ rest) (loc_at p q) e) s = Ret (true, at_text rest (loc_at q1 (advance q1 bad)) e, yyerror q1 s).
Proof.
  intros [Hb (r & Hm & Hr) Hn Hl] q1. rewrite not_elem_of_app in Hn. destruct Hn as [Hn1 Hn2].
  assert (Hskip : exists p', next_token (at_text (blanks ++ bad ++ rest) (loc_at p q) e) = next_token (at_text (bad ++ rest) (loc_at p' q1) e)).
  { destruct Hb as [->|Hb]; [by exists p|]. exists q. apply (next_token_skip _ _ R_blank); [done|done|tauto]. }
  destruct Hskip as [p' Hskip]. rewrite parse_from_eq, Hskip. unfold next_token. rewrite (scan_token _ _ r) by done. cbn zeta.
  assert (Ha : r = R_attr -> exists u, attr_token bad = Ret (T_ATTR u)).
  { intros ->. destruct (attr_match_inv _ _ _ Hm) as (a & rest' & Et & Elen & Ha & Hbr).
    assert (bad = "{"%char :: a ++ #"}") as -> by (apply (f_equal (take (length bad))) in Et; rewrite take_app_length in Et; by rewrite Elen, take_app_length in Et).
    destruct (attr_token_holds a) as (u & Hu & _); [|by exists u]. rewrite elem_of_cons, elem_of_app in Hn2. rewrite lenZ_cons, lenZ_app in Hl.
    change (lenZ #"}") with 1 in Hl. split_and!; [done|done|tauto|lia]. }
  destruct w; cbn [unexpected] in Hr; rewrite !elem_of_cons, elem_of_nil in Hr; destruct_or! Hr; subst r; cbn [begun_state];
    try (destruct (Ha eq_refl) as [u ->]); cbn [obind lloc at_text]; rewrite ?first_pos_at; unfold key_token, op_token; try (destruct (List.find _ _)); done.
Qed.

(** The pairs at the beginning of a rule. *)
Lemma parse_begun w rest p q e s : cur_rule s = None -> begun_ok w -> exists p',
  parse_from PS_input (at_text (print_begun w ++ rest) (loc_at p q) e) s =
  let! s := begin_rule q w s in
  parse_from (begun_state w) (at_text rest (loc_at p' (advance q (print_begun w))) e) s.
Proof.
  intros Hr Hw. destruct w as [[w ws]|]; [|by exists p]. cbn [begun_ok] in Hw. apply list.Forall_cons in Hw as [Hw Hws].
  cbn [print_begun begin_rule begun_state]. rewrite <- !app_assoc, !advance_app.
  eexists. rewrite parse_pair by (by auto). cbn zeta. unfold add_pair, get_rule. rewrite Hr. cbn [file line_nr pairs].
  cbn [process_pairs]. destruct (process_token _ _ _) as [[c p1]| | |]; cbn [obind]; try done.
  erewrite parse_more by done. cbn [file line_nr pairs checks with_rule with_checks app]. by destruct (process_pairs _ _ _) as [[c' ps]| | |].
Qed.

Lemma parse_again_fuel f1 : forall f2 sc1 sc2 s, (length (text sc1) < f1)%nat -> (length (text sc1) < f2)%nat -> reset_loc sc1 = reset_loc sc2 ->
  parse_again f1 sc1 s = parse_again f2 sc2 s.
Proof.
  induction f1 as [|f1 IH]; intros f2 sc1 sc2 s H1 H2 Hsc; [lia|]. destruct f2 as [|f2]; [lia|]. cbn [parse_again]. unfold yyparse. rewrite <- Hsc.
  destruct (parse_from_ends PS_input (reset_loc sc1) s) as [_ He]. destruct (parse_from PS_input (reset_loc sc1) s) as [[[r sc] s']| | |]; cbn [obind]; try done.
  specialize (He _ _ _ eq_refl). destruct r; [|done]. cbn in He. apply IH; (done || lia).
Qed.

(** ** Theorems *)

(** C5. udev-rules on written files. Let the arguments be regular files or directories,
    whose files with the suffix .rules have paths that fit, and let each file hold the
    text of blank lines, comments and rules. Then the program does with them what
    [rules_main] does with the pairs of the rules, each at its line and column: every
    attribute, operator and value is the one written, with the escapes of the value
    undone, a rule that goes on behind a backslash is one rule, and nothing else is
    reported. The pairs of a file come in the order of their lines, which is what the
    warnings about labels depend on. *)
Theorem udev_rules_refines fs docs opts argv : Forall (arg_ok fs docs) argv ->
  (let! (s, _) := udev_rules fs opts argv in Ret (checks s)) = rules_main opts (place_args fs docs 0 argv)
  /\ StronglySorted in_order (args_pairs (place_args fs docs 0 argv)).
Proof.
  intros Hok. split; [|apply place_args_placed]. unfold udev_rules, rules_main.
  destruct (rules_options opts rules_state0) as [c| | |]; cbn [obind]; try done. destruct argv as [|a argv]; [done|].
  pose proof (main_args_doc fs docs (a :: argv) (parser0 c) Hok) as H. change (lenZ (files (parser0 c))) with 0 in H.
  change (checks (parser0 c)) with c in H. destruct (place_args fs docs 0 (a :: argv)) eqn:E; [done|]. rewrite <- E in *.
  destruct (read_args _ c) as [[c' ok]| | |]; cbn [obind]; [|by rewrite H..]. destruct H as (-> & s' & -> & <-). done.
Qed.

(** C37. The parser ends, reads everything, and stays inside of its buffers. For a file
    without a NUL byte, and of less than 2^60 bytes, whatever syntax errors it has: yylex,
    yyparse and the loop that calls yyparse again after a syntax error end, and return with
    the whole file read, unless the parser comes to the value of a CONST, an IMPORT or an
    assigned ENV without an attribute. In that case, and in no other, the behaviour is
    undefined: the check reads the attribute through a null pointer. *)
Theorem rules_parse_total content s : NUL ∉ content -> lenZ content < 2 ^ 60 ->
  let start := (PS_input, scanner0 content, s) in
  (~ meets_null start /\ exists sc s', rules_parse content s = Ret (sc, s') /\ text sc = []) \/
  (meets_null start /\ rules_parse content s = Undef).
Proof.
  intros Hn Hl start. destruct (parse_again_ends (S (length content)) (scanner0 content) s) as [_ He]; [cbn; lia|]. unfold rules_parse.
  destruct (parse_again_safe (S (length content)) (scanner0 content) s) as [[H1 H2]|(sc & s' & H1 & H2)]; [cbn; lia|by split_and!|by right|].
  left. split; [exact H2|]. exists sc, s'. split; [done|]. by apply (He sc s').
Qed.

(** C39. Positions behind a syntax error. Let the error be one token that cannot stand
    where it is, at the beginning of a line or behind a pair of a rule, with or without
    blanks in front of it. It is reported at its place; but what follows, whatever it is,
    is read like a file of its own: its lines and columns are counted from 1 again, and
    the pairs of the rule that the error has cut off are those of the next rule. *)
Theorem positions_restart ds w blanks bad rest s : cur_rule s = None -> Forall line_ok ds -> begun_ok w -> bad_token w blanks bad rest ->
  rules_parse (print_doc ds ++ print_begun w ++ blanks ++ bad ++ rest) s =
  let q := advance pos0 (print_doc ds) in
  let! s := run_lines (place_doc (cur_file s) pos0 ds) s in
  let! s := begin_rule q w s in
  rules_parse rest (yyerror (advance q (print_begun w ++ blanks)) s).
Proof.
  intros Hr Hd Hw Hbad. cbv zeta. set (q := advance pos0 (print_doc ds)). set (tail := print_begun w ++ blanks ++ bad ++ rest). unfold rules_parse at 1. cbn [parse_again]. unfold yyparse.
  change (reset_loc (scanner0 (print_doc ds ++ tail))) with (at_text (print_doc ds ++ tail) (loc_at pos0 pos0) []).
  destruct (parse_lines ds tail pos0 pos0 [] s Hr Hd) as [p1 ->].
  destruct (run_lines (place_doc (cur_file s) pos0 ds) s) as [s1| | |] eqn:E; cbn [obind]; try done.
  destruct (run_lines_cur _ _ _ E Hr) as [Hr1 _]. destruct (parse_begun w (blanks ++ bad ++ rest) p1 q [] s1 Hr1 Hw) as [p2 Hp].
  unfold tail at 1. fold q. rewrite Hp. destruct (begin_rule q w s1) as [s2| | |]; cbn [obind]; try done.
  rewrite bad_token_aborts by done. cbn [obind]. rewrite advance_app. destruct Hbad as [_ (r & Hm & _) _ _]. apply yy_match_in in Hm. unfold in_text in Hm.
  apply parse_again_fuel; [|cbn; lia|done]. unfold tail. cbn [at_text text]. rewrite !length_app in *. lia.
Qed.

(** A write of more bytes than the buffer has is undefined. *)
Lemma strncpy_over n : forall i t b, 0 <= i -> lenZ b < i + Z.of_nat n -> strncpy n i t b = Undef \/ lenZ b < i.
Proof.
  induction n as [|n IH]; intros i t b Hi Hl; [right; lia|]. cbn [strncpy]. unfold store.
  destruct ((0 <=? i) && (i <? lenZ b)) eqn:E; [|left; by destruct t]. assert (i < lenZ b) by zlia.
  assert (Hn : forall c t', strncpy n (i + 1) t' (<[Z.to_nat i := Some c]> b) = Undef).
  { intros c t'. assert (lenZ (<[Z.to_nat i := Some c]> b) = lenZ b) as Hb by (unfold lenZ; by rewrite length_insert).
    destruct (IH (i + 1) t' (<[Z.to_nat i := Some c]> b)) as [->|Hx]; [lia|lia|done|]. rewrite Hb in Hx. lia. }
  left. destruct t; cbn [obind]; apply Hn.
Qed.

(** An attribute that begins with a NUL byte. Its length as a string is 0, one less is
    2^64 - 1, the size of the buffer wraps around to 0, and string_append_str writes
    behind the buffer. *)
Theorem nul_attr_overflow a rest p q e : "}"%char ∉ a ->
  next_token (at_text (("{"%char :: (NUL :: a) ++ #"}") ++ rest) (loc_at p q) e) = Undef.
Proof.
  intros Ha. unfold next_token. cbn [yylex state text at_text].
  assert (yy_match INITIAL (("{"%char :: (NUL :: a) ++ #"}") ++ rest) = Some (R_attr, length ("{"%char :: (NUL :: a) ++ #"}"))) as ->.
  { apply attr_match_braces; [done|]. by rewrite not_elem_of_cons. }
  rewrite take_app_length. unfold attr_token. cbn [drop app to_nul]. rewrite decide_True by done.
  change (lenZ (@nil ascii)) with 0. change (u64 (0 - 1)) with (2 ^ 64 - 1). unfold string_append_str.
  change (u64 (u64 (length_ new_string + (2 ^ 64 - 1)) + 1)) with 0. change (resize_string new_string 0) with new_string.
  destruct (strncpy_over (Z.to_nat (2 ^ 64 - 1)) (length_ new_string) [] (buf new_string)) as [->|Hx]; [done|..|done|].
  - rewrite Z2Nat.id by done. done.
  - done.
Qed.

Lemma nul_attr_overflow_witness : next_token (at_text (("{"%char :: [NUL] ++ #"}") ++ #"=") (loc_at pos0 pos0) []) = Undef.
Proof. apply (nul_attr_overflow [] #"=" pos0 pos0 []). apply not_elem_of_nil. Defined.

(** ** Examples *)

Definition demo_w (k : rule_key_t) (o : rule_op_t) (a : option bytes) (v : bytes) (wrap : bool) : written :=
  {| w_wrap := wrap; w_key := k; w_attr := a; w_op := o; w_value := v |}.

(** A rule on two lines whose goal has a quote in its name. *)
Definition demo_doc : list doc_line :=
  [D_comment #" rules"; D_blank;
   D_rule (demo_w KEY_KERNEL OP_MATCH None #"sd*" false)
     [demo_w KEY_ATTR OP_MATCH (Some #"removable") #"1" false; demo_w KEY_GOTO OP_ASSIGN None (#"e" ++ [QUOTE] ++ #"nd") true];
   D_rule (demo_w KEY_LABEL OP_ASSIGN None (#"e" ++ [QUOTE] ++ #"nd") false) []].
Definition demo_label : doc_line := D_rule (demo_w KEY_LABEL OP_ASSIGN None #"lost" false) [].

Definition demo_docs (f : bytes) : list doc_line := if decide (f = #"a.rules") then demo_doc else [demo_label].
Definition demo_fs : filesystem :=
  {| stat := fun f => Some (if decide (f = #"d") then S_IFDIR else S_IFREG); fopen := fun f => Some (print_doc (demo_docs f));
     opendir := fun _ => Some [ #"README"; #"x.rules"] |}.

Lemma demo_w_ok k o a v wrap : match a with Some a => attr_ok a | None => True end -> value_ok v -> w_ok (demo_w k o a v wrap).
Proof. by split. Qed.

(** Conditions that are decided by evaluation. *)
Ltac by_eval := apply (bool_decide_unpack _); vm_compute; exact I.

Lemma demo_docs_ok f : Forall line_ok (demo_docs f).
Proof.
  unfold demo_docs. case_decide; repeat first [apply list.Forall_nil_2 | apply list.Forall_cons; split]; try exact I; cbn [line_ok];
    repeat first [apply list.Forall_nil_2 | apply list.Forall_cons; split | apply demo_w_ok]; try exact I; repeat split; by_eval.
Qed.

Lemma demo_file_ok f : f <> #"d" -> file_ok demo_fs demo_docs f.
Proof. intros Hf. split_and!; [|done|apply demo_docs_ok]. cbn. by rewrite decide_False. Qed.

Lemma demo_args_ok : Forall (arg_ok demo_fs demo_docs) [ #"a.rules"; #"d"].
Proof.
  assert (forall l, Forall (fun f => f <> #"d") l -> Forall (file_ok demo_fs demo_docs) l) as Hl.
  { intros l H. eapply list.Forall_impl; [exact H|]. apply demo_file_ok. }
  apply list.Forall_cons. split; [split; [by left|apply Hl; by_eval]|].
  apply list.Forall_cons. split; [|apply list.Forall_nil_2]. split; [right; split_and!; [done|done|by_eval]|apply Hl; by_eval].
Qed.

Lemma udev_rules_refines_witness :
  match (let! (s, _) := udev_rules demo_fs [OptW "all"] [ #"a.rules"; #"d"] in Ret (checks s)) with
  | Ret c => log c = [M_unused_label (place 1 1 pos0 (demo_w KEY_LABEL OP_ASSIGN None #"lost" false))]
  | _ => False
  end.
Proof.
  rewrite (proj1 (udev_rules_refines demo_fs demo_docs [OptW "all"] [ #"a.rules"; #"d"] demo_args_ok)). vm_compute. reflexivity.
Defined.

(** A file with a stray operator and a label is read, and one with a CONST that has no
    attribute leads to a null pointer. *)
Definition demo_error : bytes := #"= " ++ [NL] ++ print_doc [demo_label].
Definition demo_const : bytes := print_doc [D_blank; D_rule (demo_w KEY_CONST OP_MATCH None #"x" false) []].

Lemma rules_parse_total_witness : let s := open_rules #"a.rules" (parser0 rules_state0) in
  (~ meets_null (PS_input, scanner0 demo_error, s) /\ exists sc s', rules_parse demo_error s = Ret (sc, s') /\ text sc = []) /\
  meets_null (PS_input, scanner0 demo_const, s) /\ rules_parse demo_const s = Undef.
Proof.
  intros s. split.
  - destruct (rules_parse_total demo_error s) as [H|[_ H]]; [by_eval|vm_compute; reflexivity|exact H|vm_compute in H; discriminate].
  - destruct (rules_parse_total demo_const s) as [[_ (sc & s' & H & _)]|H]; [by_eval|vm_compute; reflexivity|vm_compute in H; discriminate|exact H].
Defined.

Lemma positions_restart_witness :
  let s := open_rules #"a.rules" (parser0 rules_state0) in
  match rules_parse (print_doc [D_blank; D_blank; D_blank] ++ print_begun None ++ [] ++ #"=" ++ NL :: print_doc [demo_label]) s with
  | Ret (_, s) => log (checks s) = [M_syntax {| line := 4; column := 1 |}] /\ map line_nr (rules s) = [2]
  | _ => False
  end.
Proof.
  intros s. rewrite (positions_restart [D_blank; D_blank; D_blank] None [] #"=" (NL :: print_doc [demo_label]) s eq_refl).
  - split; vm_compute; reflexivity.
  - repeat constructor.
  - exact I.
  - split; [by left|exists R_op; split; [reflexivity|by right; right; left]|by_eval|vm_compute; reflexivity].
Defined.

(** A rule that a syntax error cuts off. The pairs of the next rule are added to it: the
    rule of line 1 has the pairs of both lines, and the second match is reported as a
    conflict with the first one. *)
Theorem rule_merged_after_error :
  let text := #"KERNEL==" ++ [QUOTE] ++ #"a" ++ [QUOTE] ++ #" x" ++ [NL] ++ #"KERNEL==" ++ [QUOTE] ++ #"b" ++ [QUOTE] ++ [NL] in
  let s := open_rules #"a.rules" (parser0 (set_warning (fun _ => 1) rules_state0)) in
  match rules_parse text s with
  | Ret (_, s) => map (fun r => (line_nr r, map value (pairs r))) (rules s) = [(1, ["b"; "a"]%string)]
                  /\ exists p q, M_contradict p q ∈ log (checks s) /\ value p = "b"%string /\ value q = "a"%string
  | _ => False
  end.
Proof.
  vm_compute. split; [reflexivity|]. do 2 eexists. split; [right; left|done].
Qed.
