(* ===== verification/Depinfo.v ===== *)
(** depinfo (kmod-depinfo.c): the modules and firmware that a module needs.

    libkmod, the file system and the kernel's release are parameters. The state is
    the one of the program: the table of built-in modules with the queue of those
    that have aliases, the set of modules already seen, the depth of the tree and
    the output. *)

From Stdlib Require Import ZArith Ascii String Lia.
From stdpp Require Import base list strings gmap sets tactics numbers.
From S2P Require Import Prelude CString.

Open Scope Z_scope.
Open Scope cprog_scope.

Inductive alias_need := ALIAS_OPTIONAL | ALIAS_REQUIRED.

Definition SHOW_DEPS : Z := 2.
Definition SHOW_MODULES : Z := 4.
Definition SHOW_FIRMWARE : Z := 8.
Definition SHOW_PREFIX : Z := 16.
Definition SHOW_BUILTIN : Z := 32.
Definition SHOW_MISSING_FIRMWARE : Z := 64.
Definition opts0 : Z :=
  Z.lor (Z.lor (Z.lor (Z.lor SHOW_DEPS SHOW_MODULES) SHOW_FIRMWARE) SHOW_PREFIX) SHOW_BUILTIN.
Definition suffixes : list string := [""; ".zst"; ".xz"; ".bz2"; ".gz"]%string.
Definition MAXPATHLEN : Z := 4096.

(** ** The built-in modules *)

Record kernel_builtin := { aliases : list string; firmware : list string; b_tracked : bool }.

(** The search tree is a map by name. The queue of the built-ins with aliases is
    linked through them: [alias_next] is the field alias_entries, the tail of the
    queue points to the head ([None]) or to the field of a built-in. *)
Record builtins := {
  kbuiltin_tree : gmap string kernel_builtin;
  alias_first : option string;
  alias_next : gmap string (option string);
  alias_tail : option string;
}.

Definition no_builtins : builtins :=
  {| kbuiltin_tree := ∅; alias_first := None; alias_next := ∅; alias_tail := None |}.

Definition set_builtin (n : string) (b : kernel_builtin) (bs : builtins) : builtins :=
  {| kbuiltin_tree := <[n := b]> (kbuiltin_tree bs); alias_first := alias_first bs;
     alias_next := alias_next bs; alias_tail := alias_tail bs |}.

(** The walk through the queue from [p]; [fuel] bounds its length. *)
Fixpoint find_alias (fuel : nat) (p : option string) (s : string) (bs : builtins) : out (option string) :=
  match fuel with
  | O => NoFuel
  | S fuel =>
      match p with
      | None => Ret None
      | Some n =>
          match kbuiltin_tree bs !! n, alias_next bs !! n with
          | Some b, Some next =>
              if existsb (fun a => fnmatch #a #s) (aliases b) then Ret (Some n)
              else find_alias fuel next s bs
          | _, _ => Undef
          end
      end
  end.

(** The name of the built-in that is found. *)
Definition find_kernel_builtin (s : string) (bs : builtins) : out (option string) :=
  if bool_decide (s = ""%string) then Ret None else
  match kbuiltin_tree bs !! s with
  | Some _ => Ret (Some s)
  | None => find_alias (S (size (kbuiltin_tree bs))) (alias_first bs) s bs
  end.

Definition append_kernel_builtin (n : string) (bs : builtins) : builtins :=
  match kbuiltin_tree bs !! n with
  | Some _ => bs
  | None => set_builtin n {| aliases := []; firmware := []; b_tracked := false |} bs
  end.

Definition append_string_entry (l : list string) (s : string) : list string :=
  if bool_decide (s = ""%string) then l else l ++ [s].

(** STAILQ_INSERT_TAIL. *)
Definition stailq_insert_tail (n : string) (bs : builtins) : builtins :=
  let nx := <[n := None]> (alias_next bs) in
  match alias_tail bs with
  | None => {| kbuiltin_tree := kbuiltin_tree bs; alias_first := Some n; alias_next := nx; alias_tail := Some n |}
  | Some t => {| kbuiltin_tree := kbuiltin_tree bs; alias_first := alias_first bs;
                 alias_next := <[t := Some n]> nx; alias_tail := Some n |}
  end.

Definition append_kernel_builtin_alias (n : string) (b : kernel_builtin) (a : string) (bs : builtins) : builtins :=
  let bs := if decide (aliases b = []) then stailq_insert_tail n bs else bs in
  set_builtin n {| aliases := append_string_entry (aliases b) a; firmware := firmware b; b_tracked := b_tracked b |} bs.

(** The name, the field and the value of a string of the file: the string is cut at
    its first [=], what is in front of it at the last dot. *)
Definition entry_parts (s : bytes) : option (string * string * string) :=
  match strchr "=" s with
  | None => None
  | Some (l, value) =>
      match strrchr "." l with
      | None => None
      | Some (n, field) => Some (str n, str field, str value)
      end
  end.

(** One string of the file. [None] is another format. *)
Definition builtin_entry (s : bytes) (bs : builtins) : option builtins :=
  match entry_parts s with
  | None => None
  | Some (n, field, value) =>
      let bs := append_kernel_builtin n bs in
      match kbuiltin_tree bs !! n with
      | None => Some bs
      | Some b =>
          if bool_decide (field = "alias"%string) then Some (append_kernel_builtin_alias n b value bs)
          else if bool_decide (field = "firmware"%string) then
            Some (set_builtin n {| aliases := aliases b; firmware := append_string_entry (firmware b) value;
                                   b_tracked := b_tracked b |} bs)
          else Some bs
      end
  end.

Definition free_kernel_builtin : builtins := no_builtins.

(** The loop over the strings of a mapped file, [mem] from the position [bytes]. *)
Fixpoint builtin_loop (fuel : nat) (mem : bytes) (pos size : Z) (bs : builtins) : out builtins :=
  match fuel with
  | O => NoFuel
  | S fuel =>
      if pos <? size then
        match cstr mem with
        | None => Undef
        | Some s =>
            match builtin_entry s bs with
            | None => Ret free_kernel_builtin
            | Some bs => builtin_loop fuel (dropZ (lenZ s + 1) mem) (pos + lenZ s + 1) size bs
            end
        end
      else Ret bs
  end.

(** The rest of the last page of the mapping is zero. *)
Definition PAGE_SIZE : Z := 4096.
Definition mapping (file : bytes) : bytes := file ++ replicate (Z.to_nat ((- lenZ file) mod PAGE_SIZE)) NUL.

Inductive opened := Missing | Unreadable | Opened (content : bytes).

(** An empty file cannot be mapped. *)
Definition read_kernel_builtin (file : opened) (bs : builtins) : out (Z * builtins) :=
  match file with
  | Missing => Ret (0, bs)
  | Unreadable => Ret (-1, bs)
  | Opened f =>
      if lenZ f =? 0 then Ret (-1, bs) else
      let! bs := builtin_loop (S (length f)) (mapping f) 0 (lenZ f) bs in Ret (0, bs)
  end.

(** ** The state and the output *)

Record line := { depth : Z; keyword : string; val : string }.

Record dstate := {
  builtin_tab : builtins;
  tracked_modules : gset string;
  show_tree : Z;
  output : list line;
}.

(** The settings, and the file system as far as the program looks at it. *)
Record config := {
  opts : Z;
  use_blacklist : bool;
  kversion : string;
  firmware_dir : string;
  firmware_class_path : string;
  access : string -> bool;
  glob : string -> list string;
  is_regular : string -> bool;
}.

Definition has_opt (c : config) (f : Z) : bool := negb (Z.land (opts c) f =? 0).

Definition set_tree (t : Z) (s : dstate) : dstate :=
  {| builtin_tab := builtin_tab s; tracked_modules := tracked_modules s; show_tree := t; output := output s |}.
Definition set_builtins (b : builtins) (s : dstate) : dstate :=
  {| builtin_tab := b; tracked_modules := tracked_modules s; show_tree := show_tree s; output := output s |}.
Definition track (p : string) (s : dstate) : dstate :=
  {| builtin_tab := builtin_tab s; tracked_modules := {[ p ]} ∪ tracked_modules s; show_tree := show_tree s;
     output := output s |}.

(** The output keeps the lines; [render] is the text of one. *)
Definition show_with_prefix (d : Z) (k v : string) (s : dstate) : dstate :=
  {| builtin_tab := builtin_tab s; tracked_modules := tracked_modules s; show_tree := show_tree s;
     output := output s ++ [{| depth := d; keyword := k; val := v |}] |}.

Fixpoint indent (n : nat) : string := match n with O => "" | S n => String.append "   " (indent n) end.

Definition render (c : config) (l : line) : string :=
  let d := depth l - 1 in
  String.append (if d >? 0 then String.append (indent (Z.to_nat d)) "\_ " else "")
    (String.append (if has_opt c SHOW_PREFIX then String.append (keyword l) " " else "") (val l)).

(** ** Firmware *)

Definition expand_pattern (c : config) (k p : string) (s : dstate) : bool * dstate :=
  if access c p then (true, show_with_prefix (show_tree s) k p s)
  else (negb (bool_decide (glob c p = [])),
        foldl (fun s f => show_with_prefix (show_tree s) k f s) s (glob c p)).

(** snprintf into the rest of the buffer cuts the path at 4095 bytes. *)
Definition fw_path (parts : list string) : string :=
  String.substring 0 (Z.to_nat (MAXPATHLEN - 1)) (foldr String.append ""%string parts).

Fixpoint fw_suffixes (c : config) (dir pattern : string) (l : list string) (s : dstate) : bool * dstate :=
  match l with
  | [] => (false, s)
  | suf :: l =>
      let '(found, s) := expand_pattern c "firmware" (fw_path [dir; "/"; kversion c; "/"; pattern; suf]%string) s in
      if found : bool then (true, s) else
      let '(found, s) := expand_pattern c "firmware" (fw_path [dir; "/"; pattern; suf]%string) s in
      if found : bool then (true, s) else fw_suffixes c dir pattern l s
  end.

(** [None] is the path that is too long. *)
Definition process_firmware_pattern (c : config) (dir pattern : string) (s : dstate) : option bool * dstate :=
  if Z.of_nat (String.length dir) >=? MAXPATHLEN then (None, s)
  else let '(found, s) := fw_suffixes c dir pattern suffixes s in (Some found, s).

Fixpoint fw_dirs (c : config) (dirs : list bytes) (pattern : string) (s : dstate) : bool * dstate :=
  match dirs with
  | [] => (false, s)
  | d :: dirs =>
      if decide (d = []) then fw_dirs c dirs pattern s else
      match process_firmware_pattern c (str d) pattern s with
      | (Some true, s) => (true, s)
      | (_, s) => fw_dirs c dirs pattern s
      end
  end.

Definition process_firmware (c : config) (pattern : string) (s : dstate) : dstate :=
  let '(found, s) :=
    if bool_decide (firmware_class_path c = ""%string) then (false, s)
    else match process_firmware_pattern c (firmware_class_path c) pattern s with
         | (Some true, s) => (true, s)
         | (_, s) => (false, s)
         end in
  if found : bool then s else
  let '(found, s) := fw_dirs c (split_on ":" #(firmware_dir c)) pattern s in
  if found : bool then s
  else if has_opt c SHOW_MISSING_FIRMWARE then show_with_prefix (show_tree s) "missing-firmware" pattern s else s.

Definition set_b_tracked (b : kernel_builtin) : kernel_builtin :=
  {| aliases := aliases b; firmware := firmware b; b_tracked := true |}.

Definition process_builtin (c : config) (name : string) (s : dstate) : out (Z * dstate) :=
  let! r := find_kernel_builtin name (builtin_tab s) in
  let b := match r with Some n => (fun b => (n, b)) <$> kbuiltin_tree (builtin_tab s) !! n | None => None end in
  if match b with Some (_, b) => b_tracked b | None => false end then Ret (0, s) else
  let s := match b with
           | Some (n, b) => set_builtins (set_builtin n (set_b_tracked b) (builtin_tab s)) s
           | None => s
           end in
  let s := if has_opt c SHOW_BUILTIN then
             let s := show_with_prefix (show_tree s) "builtin" (match b with Some (n, _) => n | None => name end) s in
             if negb (show_tree s =? 0) then set_tree (show_tree s + 1) s else s
           else s in
  let s := match b with
           | Some (_, b) =>
               if has_opt c SHOW_FIRMWARE then foldl (fun s f => process_firmware c f s) s (firmware b) else s
           | None => s
           end in
  Ret (0, if has_opt c SHOW_BUILTIN && (show_tree s >? 1) then set_tree (show_tree s - 1) s else s).

(** ** libkmod *)

(** The functions of libkmod that the program calls, for one context. [None] is a
    negative result, [[]] the null list. A libkmod without weak dependencies is one
    where [get_weakdeps] always fails. *)
Class Libkmod (kmod : Type) := {
  get_path : kmod -> option string;
  get_name : kmod -> string;
  get_info : kmod -> option (list (string * string));
  get_softdeps : kmod -> option (list kmod * list kmod);
  get_weakdeps : kmod -> option (list kmod);
  new_from_lookup : string -> option (list kmod);
  new_from_path : string -> option kmod;
  filter_blacklist : list kmod -> option (list kmod);
  filter_builtin : list kmod -> option (list kmod);
}.

(** What the theorems rely on: a context has one object for a path, the paths are
    those of finitely many files, the modules that are not built in have their
    information in a file, and a filter only drops modules. *)
Class LibkmodLaws (kmod : Type) `{Libkmod kmod} := {
  files : gset string;
  path_file m p : get_path m = Some p -> p ∈ files;
  path_inj m m' p : get_path m = Some p -> get_path m' = Some p -> m = m';
  not_builtin_path l l' m : filter_builtin l = Some l' -> m ∈ l' -> get_path m = None -> get_info m = None;
  opened_path f m : new_from_path f = Some m -> get_path m <> None;
}.

(** ** The modules *)

Section Modules.
Context {kmod : Type} `{Libkmod kmod}.
Variable (c : config).

Definition tracked_module (m : kmod) (s : dstate) : Z * dstate :=
  match get_path m with
  | None => (0, s)
  | Some p => if bool_decide (p ∈ tracked_modules s) then (1, s) else (0, track p s)
  end.

Definition module_in_list (m : kmod) (l : list kmod) : bool :=
  existsb (fun m' => bool_decide (get_name m' = get_name m)) l.

(** The calls below end in depinfo, which is the argument [rec]. *)
Section Calls.
Variable rec : kmod -> dstate -> out (Z * dstate).

(** The modules that the filter has dropped. *)
Fixpoint builtin_modules (filtered l : list kmod) (s : dstate) : out dstate :=
  match l with
  | [] => Ret s
  | m :: l =>
      if module_in_list m filtered then builtin_modules filtered l s
      else let! r := process_builtin c (get_name m) s in builtin_modules filtered l (snd r)
  end.

Fixpoint filtered_modules (l : list kmod) (ret : Z) (s : dstate) : out (Z * dstate) :=
  match l with
  | [] => Ret (ret, s)
  | m :: l =>
      let! b := find_kernel_builtin (get_name m) (builtin_tab s) in
      match b with
      | Some _ => let! r := process_builtin c (get_name m) s in filtered_modules l ret (snd r)
      | None => let! r := rec m s in filtered_modules l (if fst r <? 0 then -1 else ret) (snd r)
      end
  end.

Definition process_module_list (l : list kmod) (s : dstate) : out (Z * dstate) :=
  if decide (l = []) then Ret (0, s) else
  let ol := if use_blacklist c then filter_blacklist l else Some l in
  match ol with
  | None => Ret (-1, s)
  | Some l =>
      if use_blacklist c && bool_decide (length l = 0%nat) then Ret (0, s) else
      match filter_builtin l with
      | None => Ret (-1, s)
      | Some filtered =>
          let! s := builtin_modules filtered l s in
          filtered_modules filtered 0 s
      end
  end.

Definition depinfo_alias (alias : string) (req : alias_need) (s : dstate) : out (Z * dstate) :=
  let missing := match req with ALIAS_OPTIONAL => 0 | ALIAS_REQUIRED => -1 end in
  let! b := find_kernel_builtin alias (builtin_tab s) in
  match b with
  | Some _ => process_builtin c alias s
  | None =>
      match new_from_lookup alias with
      | None | Some [] => Ret (missing, s)
      | Some l => process_module_list l s
      end
  end.

(** Both lists are processed, a failure of one is kept. *)
Definition process_soft_deps (m : kmod) (s : dstate) : out (Z * dstate) :=
  match get_softdeps m with
  | None => Ret (0, s)
  | Some (pre, post) =>
      let! r := process_module_list pre s in
      let! r' := process_module_list post (snd r) in
      Ret (if (fst r <? 0) || (fst r' <? 0) then -1 else 0, snd r')
  end.

Definition process_weak_deps (m : kmod) (s : dstate) : out (Z * dstate) :=
  match get_weakdeps m with
  | None => Ret (0, s)
  | Some weak =>
      let! r := process_module_list weak s in
      Ret (if fst r <? 0 then -1 else 0, snd r)
  end.

Fixpoint aliases_loop (l : list string) (req : alias_need) (ret : Z) (s : dstate) : out (Z * dstate) :=
  match l with
  | [] => Ret (ret, s)
  | a :: l =>
      let! r := depinfo_alias a req s in
      aliases_loop l req (if fst r <? 0 then -1 else ret) (snd r)
  end.

Definition blanks : bytes := [" "; "009"; "013"; "010"]%char.

Definition __process_depends (depends : string) (delim : bytes) (req : alias_need) (s : dstate) : out (Z * dstate) :=
  aliases_loop (str <$> strtok delim #depends) req 0 s.

Definition process_depends (depends : string) (s : dstate) : out (Z * dstate) :=
  __process_depends depends (","%char :: blanks) ALIAS_REQUIRED s.

(** The name in a token of a softdep line, if it has one. *)
Definition soft_token (t : bytes) : option string :=
  if decide (t = #"pre:") then None else if decide (t = #"post:") then None else
  let t := match strip_prefix #"pre:" t with
           | Some t => t
           | None => match strip_prefix #"post:" t with Some t => t | None => t end
           end in
  if decide (t = []) then None else Some (str t).

Definition process_soft_depends (depends : string) (s : dstate) : out (Z * dstate) :=
  aliases_loop (omap soft_token (strtok blanks #depends)) ALIAS_OPTIONAL 0 s.

Definition process_weak_depends (depends : string) (s : dstate) : out (Z * dstate) :=
  __process_depends depends blanks ALIAS_OPTIONAL s.

(** One key of the module's information. *)
Definition info_entry (key v : string) (ret : Z) (s : dstate) : out (Z * dstate) :=
  let fails (r : Z * dstate) := (if fst r <? 0 then -1 else ret, snd r) in
  let! r :=
    if has_opt c SHOW_DEPS && has_opt c SHOW_MODULES then
      if bool_decide (key = "depends"%string) then let! r := process_depends v s in Ret (fails r)
      else if bool_decide (key = "softdep"%string) then let! r := process_soft_depends v s in Ret (fails r)
      else if bool_decide (key = "weakdep"%string) then let! r := process_weak_depends v s in Ret (fails r)
      else Ret (ret, s)
    else Ret (ret, s) in
  Ret (fst r, if has_opt c SHOW_FIRMWARE && bool_decide (key = "firmware"%string)
              then process_firmware c v (snd r) else snd r).

Fixpoint info_loop (l : list (string * string)) (ret : Z) (s : dstate) : out (Z * dstate) :=
  match l with
  | [] => Ret (ret, s)
  | (k, v) :: l => let! r := info_entry k v ret s in info_loop l (fst r) (snd r)
  end.

(** The module is not tracked yet. *)
Definition depinfo_new (m : kmod) (s : dstate) : out (Z * dstate) :=
  match get_info m with
  | None => Ret (-1, s)
  | Some info =>
      let! s :=
        if has_opt c SHOW_MODULES then
          match get_path m with
          | None => Undef
          | Some p =>
              let s := show_with_prefix (show_tree s) "module" p s in
              Ret (if negb (show_tree s =? 0) then set_tree (show_tree s + 1) s else s)
          end
        else Ret s in
      let! r := info_loop info 0 s in
      let! r :=
        if has_opt c SHOW_DEPS && has_opt c SHOW_MODULES then
          let! r1 := process_soft_deps m (snd r) in
          let! r2 := process_weak_deps m (snd r1) in
          Ret (if (fst r1 <? 0) || (fst r2 <? 0) then -1 else fst r, snd r2)
        else Ret r in
      Ret (fst r, if show_tree (snd r) >? 1 then set_tree (show_tree (snd r) - 1) (snd r) else snd r)
  end.
End Calls.

(** [fuel] bounds the depth of the recursion. *)
Fixpoint depinfo (fuel : nat) (m : kmod) (s : dstate) : out (Z * dstate) :=
  match fuel with
  | O => NoFuel
  | S fuel =>
      let '(t, s) := tracked_module m s in
      if t =? 1 then Ret (0, s) else depinfo_new (depinfo fuel) m s
  end.

Definition depinfo_path (fuel : nat) (path : string) (s : dstate) : out (Z * dstate) :=
  match new_from_path path with
  | None => Ret (-1, s)
  | Some m => depinfo fuel m s
  end.

(** 0 is yes. *)
Definition is_filename (path : string) : Z :=
  match #path with
  | x :: y :: _ =>
      if negb (bool_decide (y = "/"%char)) && negb (bool_decide (x = "."%char)) && negb (bool_decide (x = "/"%char))
      then 1
      else if negb (bool_decide ("."%char ∈ #path)) then 1
      else if negb (is_regular c path) then 1 else 0
  | _ => 1
  end.

Definition process_name (fuel : nat) (arg : string) (s : dstate) : out (Z * dstate) :=
  if negb (is_filename arg =? 0) then depinfo_alias (depinfo fuel) arg ALIAS_REQUIRED s
  else depinfo_path fuel arg s.

Fixpoint names_loop (fuel : nat) (l : list string) (ret : Z) (s : dstate) : out (Z * dstate) :=
  match l with
  | [] => Ret (ret, s)
  | a :: l =>
      let! r := process_name fuel a s in
      names_loop fuel l (if fst r <? 0 then -1 else ret) (snd r)
  end.

(** ** The names *)

(** The name on a line: the blanks at both ends go, and what follows a NUL. *)
Definition line_name (l : bytes) : bytes :=
  let arg := rev (skip_while isspace (rev (skip_while isspace l))) in
  match cstr arg with Some a => a | None => arg end.

Definition read_names (fuel : nat) (file : option opened) (s : dstate) : out (Z * dstate) :=
  match file with
  | None => Ret (0, s)
  | Some (Opened f) =>
      names_loop fuel (str <$> filter (fun a => a <> []) (line_name <$> getlines [] f)) 0 s
  | Some _ => Ret (-1, s)
  end.
End Modules.

(** ** The program *)

Inductive option_arg :=
  | opt_use_blacklist | opt_missing_firmware | opt_no_deps | opt_no_modules | opt_no_firmware
  | opt_no_prefix | opt_no_builtin | opt_tree | opt_set_version (v : string) | opt_base_dir (d : string)
  | opt_firmware_dir (d : string) | opt_input (f : string) | opt_version | opt_help | opt_unknown.

Record settings := {
  s_opts : Z; s_blacklist : bool; s_tree : Z; s_kversion : option string;
  s_base_dir : option string; s_firmware_dir : option string; s_from_file : option string;
}.

Definition settings0 : settings :=
  {| s_opts := opts0; s_blacklist := false; s_tree := 0; s_kversion := None;
     s_base_dir := None; s_firmware_dir := None; s_from_file := None |}.

Definition with_opts (x : settings) (o : Z) : settings :=
  {| s_opts := o; s_blacklist := s_blacklist x; s_tree := s_tree x; s_kversion := s_kversion x;
     s_base_dir := s_base_dir x; s_firmware_dir := s_firmware_dir x; s_from_file := s_from_file x |}.

(** One option; [None] is an option that prints and exits with 0. *)
Definition option_step (x : settings) (o : option_arg) : option settings :=
  match o with
  | opt_use_blacklist => Some {| s_opts := s_opts x; s_blacklist := true; s_tree := s_tree x; s_kversion := s_kversion x;
       s_base_dir := s_base_dir x; s_firmware_dir := s_firmware_dir x; s_from_file := s_from_file x |}
  | opt_missing_firmware => Some (with_opts x (Z.lor (s_opts x) SHOW_MISSING_FIRMWARE))
  | opt_no_deps => Some (with_opts x (Z.lxor (s_opts x) SHOW_DEPS))
  | opt_no_modules => Some (with_opts x (Z.lxor (s_opts x) SHOW_MODULES))
  | opt_no_firmware => Some (with_opts x (Z.lxor (s_opts x) SHOW_FIRMWARE))
  | opt_no_prefix => Some (with_opts x (Z.lxor (s_opts x) SHOW_PREFIX))
  | opt_no_builtin => Some (with_opts x (Z.lxor (s_opts x) SHOW_BUILTIN))
  | opt_tree => Some {| s_opts := s_opts x; s_blacklist := s_blacklist x; s_tree := 1; s_kversion := s_kversion x;
       s_base_dir := s_base_dir x; s_firmware_dir := s_firmware_dir x; s_from_file := s_from_file x |}
  | opt_set_version v => Some {| s_opts := s_opts x; s_blacklist := s_blacklist x; s_tree := s_tree x; s_kversion := Some v;
       s_base_dir := s_base_dir x; s_firmware_dir := s_firmware_dir x; s_from_file := s_from_file x |}
  | opt_base_dir d => Some {| s_opts := s_opts x; s_blacklist := s_blacklist x; s_tree := s_tree x; s_kversion := s_kversion x;
       s_base_dir := Some d; s_firmware_dir := s_firmware_dir x; s_from_file := s_from_file x |}
  | opt_firmware_dir d => Some {| s_opts := s_opts x; s_blacklist := s_blacklist x; s_tree := s_tree x; s_kversion := s_kversion x;
       s_base_dir := s_base_dir x; s_firmware_dir := Some d; s_from_file := s_from_file x |}
  | opt_input f => Some {| s_opts := s_opts x; s_blacklist := s_blacklist x; s_tree := s_tree x; s_kversion := s_kversion x;
       s_base_dir := s_base_dir x; s_firmware_dir := s_firmware_dir x; s_from_file := Some f |}
  | opt_version | opt_help => None
  | opt_unknown => Some x
  end.

Fixpoint parse_options (l : list option_arg) (x : settings) : option settings :=
  match l with
  | [] => Some x
  | o :: l => match option_step x o with Some x => parse_options l x | None => None end
  end.

(** The machine as far as main looks at it: uname, the files that it reads, the
    parameter of firmware_class, kmod_new. The file "-" is the standard input. *)
Record machine (kmod : Type) := {
  uname : option string;
  open_file : string -> opened;
  class_path : option bytes;
  m_access : string -> bool;
  m_glob : string -> list string;
  m_regular : string -> bool;
  kmod_new : string -> option (Libkmod kmod);
}.
Arguments uname {_}. Arguments open_file {_}. Arguments class_path {_}. Arguments m_access {_}.
Arguments m_glob {_}. Arguments m_regular {_}. Arguments kmod_new {_}.

(** The buffer of PATH_MAX + 1 bytes is zero behind what was read. *)
Definition read_class_path (content : option bytes) : string :=
  match content with
  | None => ""%string
  | Some b =>
      let b := rev (skip_while (fun ch => bool_decide (ch = "010"%char)) (rev (takeZ 4096 b))) in
      match cstr b with Some b => str b | None => str b end
  end.

(** snprintf into a buffer of MAXPATHLEN bytes, or with one byte less. *)
Definition clip (n : Z) (l : list string) : string :=
  String.substring 0 (Z.to_nat n) (foldr String.append ""%string l).

(** The exit status and the state at the end. *)
Definition main {kmod} (k : machine kmod) (fuel : nat) (options : list option_arg) (args : list string)
    : out (Z * list line) :=
  match parse_options options settings0 with
  | None => Ret (0, [])
  | Some x =>
      if match s_from_file x with None => true | _ => false end && bool_decide (length args = 0%nat)
      then Die 1 "ERROR: Missing module or filename." else
      let fdir := match s_firmware_dir x with Some d => d | None => "/lib/firmware/updates:/lib/firmware"%string end in
      let base := match s_base_dir x with Some d => d | None => ""%string end in
      match (match s_kversion x with Some v => Some v | None => uname k end) with
      | None => Die 1 "ERROR: uname()"
      | Some kv =>
          let module_dir := clip (MAXPATHLEN - 1) [base; "/lib/modules/"; kv]%string in
          let! r1 := read_kernel_builtin (open_file k (clip (MAXPATHLEN - 2) [module_dir; "/kernel.builtin.modinfo"]%string)) no_builtins in
          if fst r1 <? 0 then Die 1 "ERROR: read_kernel_builtin()" else
          let! r2 := read_kernel_builtin (open_file k (clip (MAXPATHLEN - 2) [module_dir; "/modules.builtin.modinfo"]%string)) (snd r1) in
          if fst r2 <? 0 then Die 1 "ERROR: read_kernel_builtin()" else
          match kmod_new k module_dir with
          | None => Die 1 "ERROR: kmod_new()"
          | Some lib =>
              let cfg := {| opts := s_opts x; use_blacklist := s_blacklist x; kversion := kv; firmware_dir := fdir;
                            firmware_class_path := read_class_path (class_path k); access := m_access k;
                            glob := m_glob k; is_regular := m_regular k |} in
              let s := {| builtin_tab := snd r2; tracked_modules := ∅; show_tree := s_tree x; output := [] |} in
              let! r := read_names cfg fuel (option_map (open_file k) (s_from_file x)) s in
              let! r' := names_loop cfg fuel args 0 (snd r) in
              Ret (if (fst r <? 0) || (fst r' <? 0) then 1 else 0, output (snd r'))
          end
      end
  end.

(** ** The lookup of built-in modules *)

(** The queue holds the built-ins with aliases, each once, in the order [q]. *)
Record queue_wf (bs : builtins) (q : list string) : Prop := {
  wf_nodup : NoDup q;
  wf_first : alias_first bs = q !! 0%nat;
  wf_next i n : q !! i = Some n -> alias_next bs !! n = Some (q !! S i);
  wf_tail : alias_tail bs = list.last q;
  wf_mem n : n ∈ q <-> exists b, kbuiltin_tree bs !! n = Some b /\ aliases b <> [];
}.

Definition alias_matches (bs : builtins) (s n : string) : bool :=
  match kbuiltin_tree bs !! n with
  | Some b => existsb (fun a => fnmatch #a #s) (aliases b)
  | None => false
  end.

(** The lookup as it is meant: by name, else the first in the queue by alias. *)
Definition lookup_spec (bs : builtins) (q : list string) (s : string) : option string :=
  if bool_decide (s = ""%string) then None else
  match kbuiltin_tree bs !! s with
  | Some _ => Some s
  | None => List.find (alias_matches bs s) q
  end.

Lemma queue_size bs q : queue_wf bs q -> (length q <= size (kbuiltin_tree bs))%nat.
Proof.
  intros H. rewrite <- (size_dom (D:=gset string)). rewrite <- (size_list_to_set (C:=gset string) q) by apply H.
  apply subseteq_size. intros n Hn. apply elem_of_list_to_set in Hn.
  apply (wf_mem _ _ H) in Hn as (b & Hb & _). by apply elem_of_dom_2 in Hb.
Qed.

Lemma find_alias_ok bs q s : queue_wf bs q -> forall k fuel,
  (length q - k < fuel)%nat ->
  find_alias fuel (q !! k) s bs = Ret (List.find (alias_matches bs s) (drop k q)).
Proof.
  intros H k fuel. revert k. induction fuel as [|fuel IH]; intros k Hk; [lia|]. cbn [find_alias].
  destruct (q !! k) as [n|] eqn:E.
  - assert (n ∈ q) as Hin by (by eapply list_elem_of_lookup_2).
    apply (wf_mem _ _ H) in Hin as (b & Hb & Ha).
    rewrite Hb, (wf_next _ _ H _ _ E). rewrite (drop_S _ _ _ E). cbn [List.find].
    unfold alias_matches at 1. rewrite Hb.
    destruct (existsb _ _); [done|]. apply IH. apply lookup_lt_Some in E. lia.
  - rewrite drop_ge by (by apply lookup_ge_None). done.
Qed.

Lemma find_kernel_builtin_ok bs q s : queue_wf bs q -> find_kernel_builtin s bs = Ret (lookup_spec bs q s).
Proof.
  intros H. unfold find_kernel_builtin, lookup_spec. case_bool_decide; [done|].
  destruct (kbuiltin_tree bs !! s); [done|].
  rewrite (wf_first _ _ H). rewrite (find_alias_ok _ _ _ H); [done|]. pose proof (queue_size _ _ H). lia.
Qed.

Lemma queue_wf_none : queue_wf no_builtins [].
Proof. split; try done. - apply base.NoDup_nil_2. - intros n. split; [set_solver|]. intros (b & Hb & _). done. Qed.

(** A new value of a built-in that keeps whether it has aliases. *)
Lemma queue_wf_set bs q n b :
  queue_wf bs q ->
  (b.(aliases) = [] <-> match kbuiltin_tree bs !! n with Some b0 => aliases b0 = [] | None => True end) ->
  queue_wf (set_builtin n b bs) q.
Proof.
  intros H Hb. split; cbn; try apply H.
  intros m. rewrite (wf_mem _ _ H). destruct (decide (n = m)) as [->|Hn].
  - rewrite lookup_insert_eq. destruct (kbuiltin_tree bs !! m) as [b0|]; naive_solver.
  - by rewrite lookup_insert_ne.
Qed.

Lemma queue_wf_insert bs q n b :
  queue_wf bs q -> n ∉ q -> aliases b <> [] ->
  queue_wf (set_builtin n b (stailq_insert_tail n bs)) (q ++ [n]).
Proof.
  intros H Hn Hb. assert (Htree : kbuiltin_tree (stailq_insert_tail n bs) = kbuiltin_tree bs).
  { unfold stailq_insert_tail. by destruct (alias_tail bs). }
  split.
  - apply list.NoDup_app. split_and!; [apply H| |apply NoDup_singleton]. set_solver.
  - cbn. unfold stailq_insert_tail. rewrite (wf_tail _ _ H). destruct q as [|x q] using rev_ind; [done|].
    rewrite last_snoc. cbn. rewrite (wf_first _ _ H). by destruct q.
  - intros i m Hm. cbn. unfold stailq_insert_tail. rewrite (wf_tail _ _ H).
    destruct (decide (i < length q)%nat) as [Hi|Hi].
    + rewrite lookup_app_l in Hm by done. assert (m <> n) by (intros ->; apply Hn; by eapply list_elem_of_lookup_2).
      destruct q as [|x q _] using rev_ind; [cbn in Hi; lia|]. rewrite last_snoc. cbn.
      destruct (decide (i = length q)) as [->|Hne].
      * rewrite lookup_app_r in Hm by lia. rewrite Nat.sub_diag in Hm. injection Hm as ->.
        rewrite lookup_insert_eq. rewrite lookup_app_r by (rewrite length_app; cbn; lia).
        by rewrite length_app, Nat.add_1_r, Nat.sub_diag.
      * rewrite length_app in Hi. cbn in Hi.
        assert (m <> x). { intros ->. pose proof (wf_nodup _ _ H) as Hd. apply Hne.
          eapply (NoDup_lookup _ _ _ x Hd); [done|]. by rewrite lookup_app_r, Nat.sub_diag by lia. }
        rewrite !lookup_insert_ne by done. rewrite (wf_next _ _ H _ _ Hm).
        by rewrite (lookup_app_l (q ++ [x])) by (rewrite length_app; cbn; lia).
    + rewrite lookup_app_r in Hm by lia. apply list_lookup_singleton_Some in Hm as [Hm ->].
      rewrite (lookup_ge_None_2 (q ++ [m])) by (rewrite length_app; cbn; lia).
      destruct q as [|x q _] using rev_ind; cbn; [by rewrite lookup_insert_eq|].
      rewrite last_snoc. cbn. rewrite lookup_insert_ne by set_solver. by rewrite lookup_insert_eq.
  - cbn. unfold stailq_insert_tail. rewrite last_snoc. by destruct (alias_tail bs).
  - intros m. cbn. rewrite Htree. rewrite elem_of_app, list_elem_of_singleton, (wf_mem _ _ H).
    destruct (decide (n = m)) as [->|Hne].
    + rewrite lookup_insert_eq. naive_solver.
    + rewrite lookup_insert_ne by done. naive_solver.
Qed.

(** ** The table is what the files say *)

Definition table_field (get : kernel_builtin -> list string) (bs : builtins) (n : string) : list string :=
  match kbuiltin_tree bs !! n with Some b => get b | None => [] end.

(** The value that the string [s] gives to the field [f] of [n]. *)
Definition entry_value (n f : string) (s : bytes) : option string :=
  match entry_parts s with
  | Some (n', f', v) => if bool_decide (n' = n /\ f' = f /\ v <> ""%string) then Some v else None
  | None => None
  end.

Definition entry_name (s : bytes) : option string :=
  match entry_parts s with Some (n, _, _) => Some n | None => None end.

(** A string in the format of the file whose alias, if it is one, is not empty. *)
Definition good_entry (s : bytes) : bool :=
  match entry_parts s with
  | Some (_, f, v) => negb (bool_decide (f = "alias"%string) && bool_decide (v = ""%string))
  | None => false
  end.

(** What a file of the strings [ss] makes of the table [bs]. *)
Record table_after (ss : list bytes) (bs bs' : builtins) : Prop := {
  ta_queue : exists q, queue_wf bs' q;
  ta_aliases n : table_field aliases bs' n = table_field aliases bs n ++ omap (entry_value n "alias") ss;
  ta_firmware n : table_field firmware bs' n = table_field firmware bs n ++ omap (entry_value n "firmware") ss;
  ta_names n : is_Some (kbuiltin_tree bs' !! n) <-> is_Some (kbuiltin_tree bs !! n) \/ n ∈ omap entry_name ss;
}.

Lemma table_field_set get n b bs m :
  table_field get (set_builtin n b bs) m = if decide (n = m) then get b else table_field get bs m.
Proof.
  unfold table_field, set_builtin. cbn. destruct (decide (n = m)) as [->|].
  - by rewrite lookup_insert_eq.
  - by rewrite lookup_insert_ne.
Qed.

Lemma append_entry l v : append_string_entry l v = l ++ option_list (if bool_decide (v = ""%string) then None else Some v).
Proof. unfold append_string_entry. case_bool_decide; cbn; [by rewrite app_nil_r|done]. Qed.

(** The record of [n] after append_kernel_builtin. *)
Lemma append_builtin_ok n bs q : queue_wf bs q -> exists b,
  kbuiltin_tree (append_kernel_builtin n bs) !! n = Some b /\
  aliases b = table_field aliases bs n /\ firmware b = table_field firmware bs n /\
  queue_wf (append_kernel_builtin n bs) q /\
  (forall get m, m <> n -> table_field get (append_kernel_builtin n bs) m = table_field get bs m) /\
  (forall m, is_Some (kbuiltin_tree (append_kernel_builtin n bs) !! m) <-> is_Some (kbuiltin_tree bs !! m) \/ m = n).
Proof.
  intros Hq. unfold append_kernel_builtin, table_field. destruct (kbuiltin_tree bs !! n) as [b|] eqn:E.
  - exists b. split_and!; try done. intros m. split; [tauto|]. intros [?| ->]; [done|by rewrite E].
  - eexists. split_and!; [cbn; by rewrite lookup_insert_eq|done..| | |].
    + apply queue_wf_set; [done|]. by rewrite E.
    + intros get m Hm. cbn. by rewrite lookup_insert_ne.
    + intros m. cbn. destruct (decide (n = m)) as [->|Hm].
      * rewrite lookup_insert_eq. split; [by right|done].
      * rewrite lookup_insert_ne by done. naive_solver.
Qed.

Lemma entry_value_parts s n f v m g : entry_parts s = Some (n, f, v) ->
  entry_value m g s = if bool_decide (n = m /\ f = g /\ v <> ""%string) then Some v else None.
Proof. unfold entry_value. by intros ->. Qed.

(** A change of the record of [n] in the table [bs1] that append_kernel_builtin left. *)
Lemma set_after s n f v b bs bs1 bs2 q :
  entry_parts s = Some (n, f, v) ->
  (forall get m, m <> n -> table_field get bs1 m = table_field get bs m) ->
  (forall m, is_Some (kbuiltin_tree bs1 !! m) <-> is_Some (kbuiltin_tree bs !! m) \/ m = n) ->
  kbuiltin_tree bs2 = <[n := b]> (kbuiltin_tree bs1) -> queue_wf bs2 q ->
  aliases b = table_field aliases bs n ++ option_list (entry_value n "alias" s) ->
  firmware b = table_field firmware bs n ++ option_list (entry_value n "firmware" s) ->
  table_after [s] bs bs2.
Proof.
  intros Hp Hother Hdom Htree Hq Ha Hf.
  assert (Hfield : forall get m, table_field get bs2 m = if decide (n = m) then get b else table_field get bs m).
  { intros get m. unfold table_field at 1. rewrite Htree. destruct (decide (n = m)) as [->|Hm].
    - by rewrite lookup_insert_eq.
    - rewrite lookup_insert_ne by done. by apply Hother. }
  split; [by exists q|..].
  1, 2: intros m; rewrite Hfield; destruct (decide (n = m)) as [->|Hm];
    [rewrite ?Ha, ?Hf; cbn; by destruct (entry_value _ _ _)|].
  1, 2: cbn; rewrite (entry_value_parts _ _ _ _ _ _ Hp), bool_decide_eq_false_2 by naive_solver; by rewrite app_nil_r.
  intros m. rewrite Htree. cbn. unfold entry_name. rewrite Hp, list_elem_of_singleton.
  destruct (decide (n = m)) as [->|Hm].
  - rewrite lookup_insert_eq. split; [by right|done].
  - rewrite lookup_insert_ne by done. apply Hdom.
Qed.

Lemma builtin_entry_ok s bs q : queue_wf bs q -> good_entry s = true ->
  exists bs', builtin_entry s bs = Some bs' /\ table_after [s] bs bs'.
Proof.
  intros Hq Hg. unfold good_entry in Hg. unfold builtin_entry.
  destruct (entry_parts s) as [[[n f] v]|] eqn:Hp; [|done].
  destruct (append_builtin_ok n bs q Hq) as (b & Hb & Ha & Hf & Hq1 & Hother & Hdom).
  set (bs1 := append_kernel_builtin n bs) in *. rewrite Hb.
  pose proof (entry_value_parts _ _ _ _ n "alias" Hp) as Hva.
  pose proof (entry_value_parts _ _ _ _ n "firmware" Hp) as Hvf.
  destruct (decide (f = "alias"%string)) as [Hal|Hal];
    [rewrite (bool_decide_eq_true_2 _ Hal) in Hg |- * | rewrite (bool_decide_eq_false_2 _ Hal);
     destruct (decide (f = "firmware"%string)) as [Hfw|Hfw];
       [rewrite (bool_decide_eq_true_2 _ Hfw) | rewrite (bool_decide_eq_false_2 _ Hfw)]].
  - subst f. rewrite bool_decide_eq_false_2 in Hvf by naive_solver.
    assert (Hv0 : v <> ""%string) by (intros ->; by rewrite bool_decide_eq_true_2 in Hg). rewrite bool_decide_eq_true_2 in Hva by done.
    eexists. split; [done|]. unfold append_kernel_builtin_alias.
    eapply (set_after s n "alias" v {| aliases := append_string_entry (aliases b) v; firmware := firmware b;
                                       b_tracked := b_tracked b |} bs bs1); try done.
    + cbn. destruct (decide (aliases b = [])); [|done]. unfold stailq_insert_tail. by destruct (alias_tail bs1).
    + instantiate (1 := if decide (aliases b = []) then q ++ [n] else q).
      rewrite append_entry, bool_decide_eq_false_2 by done.
      destruct (decide (aliases b = [])) as [E|E].
      * apply queue_wf_insert; [done| |cbn; by destruct (aliases b)].
        rewrite (wf_mem _ _ Hq1). intros (b' & Hb' & Hn). congruence.
      * apply queue_wf_set; [done|]. rewrite Hb. cbn. split; [|done]. by destruct (aliases b).
    + cbn. rewrite append_entry, Hva, bool_decide_eq_false_2 by done. by rewrite Ha.
    + cbn. rewrite Hvf, app_nil_r. done.
  - subst f. rewrite bool_decide_eq_false_2 in Hva by naive_solver.
    eexists. split; [done|].
    eapply (set_after s n "firmware" v {| aliases := _; firmware := _; b_tracked := _ |} bs bs1); try done.
    + apply queue_wf_set; [done|]. by rewrite Hb.
    + cbn. by rewrite Hva, app_nil_r.
    + cbn. rewrite append_entry, Hvf, Hf. do 2 f_equal. repeat case_bool_decide; naive_solver.
  - rewrite bool_decide_eq_false_2 in Hva by naive_solver. rewrite bool_decide_eq_false_2 in Hvf by naive_solver.
    eexists. split; [done|].
    eapply (set_after s n f v b bs bs1); try done; [by rewrite insert_id|..].
    + by rewrite Hva, app_nil_r.
    + by rewrite Hvf, app_nil_r.
Qed.

Lemma table_after_app ss1 ss2 bs bs1 bs2 :
  table_after ss1 bs bs1 -> table_after ss2 bs1 bs2 -> table_after (ss1 ++ ss2) bs bs2.
Proof.
  intros H1 H2. split; [apply H2|..].
  - intros n. by rewrite (ta_aliases _ _ _ H2), (ta_aliases _ _ _ H1), omap_app, app_assoc.
  - intros n. by rewrite (ta_firmware _ _ _ H2), (ta_firmware _ _ _ H1), omap_app, app_assoc.
  - intros n. rewrite (ta_names _ _ _ H2), (ta_names _ _ _ H1), omap_app, elem_of_app. tauto.
Qed.

(** A file of strings. *)
Definition modinfo_file (ss : list bytes) : bytes := concat ((fun s => s ++ [NUL]) <$> ss).

Lemma modinfo_file_cons s ss : modinfo_file (s :: ss) = s ++ NUL :: modinfo_file ss.
Proof. unfold modinfo_file. cbn. by rewrite <- app_assoc. Qed.

Lemma builtin_loop_nil fuel mem pos bs : builtin_loop (S fuel) mem pos (pos + lenZ (modinfo_file [])) bs = Ret bs.
Proof.
  cbn [builtin_loop]. change (modinfo_file []) with (@nil ascii). change (lenZ []) with 0.
  by rewrite Z.add_0_r, Z.ltb_irrefl.
Qed.

Lemma builtin_loop_cons fuel s ss pad pos bs : NUL ∉ s ->
  builtin_loop (S fuel) (modinfo_file (s :: ss) ++ pad) pos (pos + lenZ (modinfo_file (s :: ss))) bs =
  match builtin_entry s bs with
  | None => Ret free_kernel_builtin
  | Some bs => builtin_loop fuel (modinfo_file ss ++ pad) (pos + lenZ s + 1) (pos + lenZ s + 1 + lenZ (modinfo_file ss)) bs
  end.
Proof.
  intros Hn. rewrite modinfo_file_cons, <- app_assoc. cbn [app builtin_loop].
  assert (Hlen : lenZ (s ++ NUL :: modinfo_file ss) = lenZ s + 1 + lenZ (modinfo_file ss)).
  { unfold lenZ. rewrite length_app. cbn. lia. }
  assert (0 <= lenZ s /\ 0 <= lenZ (modinfo_file ss)) by (unfold lenZ; lia).
  rewrite Hlen. destruct (pos <? _) eqn:E; [|apply Z.ltb_ge in E; lia].
  rewrite cstr_app by done. destruct (builtin_entry s bs); [|done]. f_equal; [|lia].
  change (NUL :: modinfo_file ss ++ pad) with ([NUL] ++ (modinfo_file ss ++ pad)). rewrite app_assoc.
  apply dropZ_app'. unfold lenZ. rewrite length_app. cbn. lia.
Qed.

Lemma builtin_loop_ok ss : forall pad fuel pos bs q,
  queue_wf bs q -> Forall (fun s => NUL ∉ s /\ good_entry s = true) ss -> (length ss < fuel)%nat ->
  exists bs', builtin_loop fuel (modinfo_file ss ++ pad) pos (pos + lenZ (modinfo_file ss)) bs = Ret bs' /\
    table_after ss bs bs'.
Proof.
  induction ss as [|s ss IH]; intros pad fuel pos bs q Hq Hss Hfuel; (destruct fuel as [|fuel]; [cbn in Hfuel; lia|]).
  - exists bs. rewrite builtin_loop_nil.
    split; [done|]. split; [by exists q|..]; intros n; cbn; rewrite ?app_nil_r; try done.
    split; [tauto|]. intros [?|Hin]; [done|]. by apply not_elem_of_nil in Hin.
  - apply list.Forall_cons in Hss as [[Hn Hg] Hss]. rewrite builtin_loop_cons by done.
    destruct (builtin_entry_ok s bs q Hq Hg) as (bs1 & -> & H1).
    destruct (ta_queue _ _ _ H1) as [q1 Hq1].
    destruct (IH pad fuel (pos + lenZ s + 1) bs1 q1 Hq1 Hss) as (bs2 & Hr & H2); [cbn in Hfuel; lia|].
    exists bs2. split; [done|]. apply (table_after_app [s] ss bs bs1 bs2 H1 H2).
Qed.

Lemma read_kernel_builtin_file ss bs : ss <> [] ->
  read_kernel_builtin (Opened (modinfo_file ss)) bs =
  let! bs' := builtin_loop (S (length (modinfo_file ss)))
    (modinfo_file ss ++ replicate (Z.to_nat ((- lenZ (modinfo_file ss)) mod PAGE_SIZE)) NUL)
    0 (0 + lenZ (modinfo_file ss)) bs in Ret (0, bs').
Proof.
  intros Hne. unfold read_kernel_builtin, mapping.
  destruct (lenZ (modinfo_file ss) =? 0) eqn:E; [|done]. apply Z.eqb_eq in E. unfold lenZ in E.
  destruct ss as [|s ss]; [done|]. rewrite modinfo_file_cons, length_app in E. cbn in E. lia.
Qed.

Lemma length_modinfo_file ss : (length ss <= length (modinfo_file ss))%nat.
Proof. induction ss as [|s ss IH]; [done|]. unfold modinfo_file in *. cbn. rewrite !length_app. cbn. lia. Qed.

(** A file of built-in modules whose strings have the format name.field=value
    and no empty alias is read completely: the aliases and the firmware of every
    module are those it had followed by those of the file, in the order of the file,
    and the known names are those of both. The lookup afterwards terminates for
    every string and returns the module of that name, else the first module, in the
    order of their first aliases, with an alias that matches. *)
Theorem builtin_table ss bs q :
  queue_wf bs q -> ss <> [] -> Forall (fun s => NUL ∉ s /\ good_entry s = true) ss ->
  exists bs' q', read_kernel_builtin (Opened (modinfo_file ss)) bs = Ret (0, bs') /\
    table_after ss bs bs' /\ queue_wf bs' q' /\
    forall s, find_kernel_builtin s bs' = Ret (lookup_spec bs' q' s).
Proof.
  intros Hq Hne Hss. rewrite read_kernel_builtin_file by done. pose proof (length_modinfo_file ss) as Hlen.
  destruct (builtin_loop_ok ss (replicate (Z.to_nat ((- lenZ (modinfo_file ss)) mod PAGE_SIZE)) NUL)
    (S (length (modinfo_file ss))) 0 bs q Hq Hss) as (bs' & Hr & Hta); [lia|].
  rewrite Hr. cbn.
  destruct (ta_queue _ _ _ Hta) as [q' Hq']. exists bs', q'. split_and!; try done.
  intros s. by apply find_kernel_builtin_ok.
Qed.

Definition example_modinfo : list bytes :=
  [ #"ext4.license=GPL"; #"ext4.alias=fs-ext4"; #"e1000.alias=pci:v*d1000*"; #"ext4.alias=ext3";
   #"e1000.firmware=e1000.bin"; #"e1000.firmware="].

Lemma builtin_table_witness :
  exists bs' q', read_kernel_builtin (Opened (modinfo_file example_modinfo)) no_builtins = Ret (0, bs') /\
    table_after example_modinfo no_builtins bs' /\ queue_wf bs' q' /\
    forall s, find_kernel_builtin s bs' = Ret (lookup_spec bs' q' s).
Proof.
  apply (builtin_table example_modinfo no_builtins []).
  - apply queue_wf_none.
  - done.
  - repeat (apply list.Forall_cons; split; [split; [apply (bool_decide_unpack _); vm_compute; exact I|vm_compute; reflexivity]|]).
    apply list.Forall_nil. done.
Defined.

Lemma entry_parts_alias n v : "="%char ∉ n -> entry_parts (n ++ #".alias=" ++ v) = Some (str n, "alias"%string, str v).
Proof.
  intros Hn. unfold entry_parts. change (#".alias=" ++ v) with (#".alias" ++ "="%char :: v). rewrite app_assoc.
  rewrite strchr_app.
  - change #".alias" with ("."%char :: #"alias"). rewrite strrchr_app; [done|]. apply (bool_decide_unpack _). done.
  - rewrite not_elem_of_app. split; [done|]. apply (bool_decide_unpack _). done.
Qed.

Definition looped (n a : bytes) : builtins :=
  {| kbuiltin_tree := {[ str n := {| aliases := [str a]; firmware := []; b_tracked := false |} ]};
     alias_first := Some (str n); alias_next := {[ str n := Some (str n) ]}; alias_tail := Some (str n) |}.

Lemma str_empty a : str a = ""%string -> a = [].
Proof. intros H. rewrite <- (list_str a), H. done. Qed.

Lemma builtin_entry_empty_alias n : "="%char ∉ n ->
  builtin_entry (n ++ #".alias=") no_builtins =
  Some {| kbuiltin_tree := {[ str n := {| aliases := []; firmware := []; b_tracked := false |} ]};
     alias_first := Some (str n); alias_next := {[ str n := None ]}; alias_tail := Some (str n) |}.
Proof.
  intros Hn. unfold builtin_entry. rewrite <- (app_nil_r #".alias="), entry_parts_alias by done.
  unfold append_kernel_builtin. change (kbuiltin_tree no_builtins !! str n) with (@None kernel_builtin).
  cbn. rewrite lookup_insert_eq. rewrite bool_decide_eq_true_2 by done.
  unfold append_kernel_builtin_alias, set_builtin. cbn.
  rewrite decide_True by done. cbn. by rewrite insert_insert_eq.
Qed.

Lemma builtin_entry_second_alias n a : "="%char ∉ n -> a <> [] ->
  builtin_entry (n ++ #".alias=" ++ a)
    {| kbuiltin_tree := {[ str n := {| aliases := []; firmware := []; b_tracked := false |} ]};
       alias_first := Some (str n); alias_next := {[ str n := None ]}; alias_tail := Some (str n) |} = Some (looped n a).
Proof.
  intros Hn Ha. unfold builtin_entry. rewrite entry_parts_alias by done.
  unfold append_kernel_builtin. cbn. rewrite !lookup_singleton_eq. cbn. rewrite lookup_singleton_eq, (bool_decide_eq_true_2 ("alias"%string = _)) by done.
  unfold append_kernel_builtin_alias, set_builtin, append_string_entry. cbn.
  rewrite bool_decide_eq_false_2 by (intros H; by apply str_empty in H).
  rewrite decide_True by done. cbn. unfold looped, singletonM, map_singleton. by rewrite !insert_insert_eq.
Qed.

(** A module with an empty alias is entered into the queue of the modules with
    aliases again at its next alias. The queue then leads from the module to itself,
    and the lookup of a string that is neither its name nor an alias of it never ends. *)
Theorem empty_alias_loops n a s fuel :
  "="%char ∉ n -> NUL ∉ n -> a <> [] -> NUL ∉ a -> s <> str n -> fnmatch a #s = false ->
  exists bs, read_kernel_builtin (Opened (modinfo_file [n ++ #".alias="; n ++ #".alias=" ++ a])) no_builtins = Ret (0, bs) /\
    alias_next bs !! str n = Some (Some (str n)) /\
    kbuiltin_tree bs !! s = None /\ find_alias fuel (alias_first bs) s bs = NoFuel.
Proof.
  intros Hn Hn0 Ha Ha0 Hs Hf. exists (looped n a).
  assert (Hloop : forall fuel, find_alias fuel (Some (str n)) s (looped n a) = NoFuel).
  { induction fuel0 as [|k IH]; [done|]. cbn [find_alias looped kbuiltin_tree alias_next].
    rewrite !lookup_singleton_eq. cbn [aliases existsb]. rewrite list_str, Hf. apply IH. }
  assert (Hlit : NUL ∉ #".alias=") by (by apply (bool_decide_unpack _)).
  split_and!; [|by cbn; rewrite lookup_singleton_eq|by cbn; rewrite lookup_singleton_ne|apply Hloop].
  rewrite read_kernel_builtin_file by done.
  rewrite builtin_loop_cons by (rewrite not_elem_of_app; tauto).
  rewrite builtin_entry_empty_alias by done.
  destruct (length _) as [|[|k]] eqn:E.
  { rewrite modinfo_file_cons, length_app in E. cbn in E. lia. }
  { rewrite modinfo_file_cons, modinfo_file_cons, !length_app in E. cbn in E. lia. }
  rewrite builtin_loop_cons by (rewrite !not_elem_of_app; tauto).
  rewrite builtin_entry_second_alias by done. by rewrite builtin_loop_nil.
Qed.

Lemma empty_alias_loops_witness :
  exists bs, read_kernel_builtin (Opened (modinfo_file [ #"a" ++ #".alias="; #"a" ++ #".alias=" ++ #"x"])) no_builtins = Ret (0, bs) /\
    alias_next bs !! str #"a" = Some (Some (str #"a")) /\
    kbuiltin_tree bs !! "y"%string = None /\ find_alias 1000 (alias_first bs) "y" bs = NoFuel.
Proof.
  apply (empty_alias_loops #"a" #"x" "y" 1000); first
    [done | apply (bool_decide_unpack _); vm_compute; exact I | vm_compute; reflexivity].
Defined.

(** ** The walk over the modules *)

Definition module_lines (l : list line) : list string :=
  omap (fun x => if bool_decide (keyword x = "module"%string) then Some (val x) else None) l.

(** A step that neither tracks nor shows a module. *)
Record quiet (s s' : dstate) : Prop := {
  q_find x : find_kernel_builtin x (builtin_tab s') = find_kernel_builtin x (builtin_tab s);
  q_tracked : tracked_modules s' = tracked_modules s;
  q_tree : show_tree s' = show_tree s;
  q_lines : module_lines (output s') = module_lines (output s);
}.

Lemma quiet_refl s : quiet s s.
Proof. done. Qed.

Lemma quiet_trans s1 s2 s3 : quiet s1 s2 -> quiet s2 s3 -> quiet s1 s3.
Proof. intros [A1 A2 A3 A4] [B1 B2 B3 B4]. split; [intros x; by rewrite B1|congruence..]. Qed.

Lemma quiet_show d k v s : k <> "module"%string -> quiet s (show_with_prefix d k v s).
Proof.
  intros Hk. split; try done. unfold module_lines. cbn. rewrite omap_app. cbn.
  rewrite bool_decide_eq_false_2 by done. by rewrite app_nil_r.
Qed.

Lemma quiet_foldl {A} (f : dstate -> A -> dstate) l :
  (forall s a, quiet s (f s a)) -> forall s, quiet s (foldl f s l).
Proof.
  intros Hf. induction l as [|a l IH]; intros s; [apply quiet_refl|]. cbn. eapply quiet_trans; [apply Hf|apply IH].
Qed.

Lemma quiet_expand c k p s : k <> "module"%string -> quiet s (expand_pattern c k p s).2.
Proof.
  intros Hk. unfold expand_pattern. destruct (access c p); cbn; [by apply quiet_show|].
  apply quiet_foldl. intros. by apply quiet_show.
Qed.

Lemma quiet_suffixes c dir pattern l s : quiet s (fw_suffixes c dir pattern l s).2.
Proof.
  revert s. induction l as [|suf l IH]; intros s; [apply quiet_refl|]. cbn [fw_suffixes].
  pose proof (fun p => quiet_expand c "firmware" p s ltac:(done)) as H1.
  specialize (H1 (fw_path [dir; "/"; kversion c; "/"; pattern; suf]%string)).
  destruct (expand_pattern c _ _ s) as [[] s1]; [done|]. cbn in H1.
  pose proof (quiet_expand c "firmware" (fw_path [dir; "/"; pattern; suf]%string) s1 ltac:(done)) as H2.
  destruct (expand_pattern c _ _ s1) as [[] s2]; cbn in *; [by eapply quiet_trans|].
  eapply quiet_trans; [exact H1|]. eapply quiet_trans; [exact H2|apply IH].
Qed.

Lemma quiet_pattern c dir pattern s : quiet s (process_firmware_pattern c dir pattern s).2.
Proof.
  unfold process_firmware_pattern. destruct (_ >=? _); [apply quiet_refl|].
  pose proof (quiet_suffixes c dir pattern suffixes s) as H. by destruct (fw_suffixes _ _ _ _ _).
Qed.

Lemma quiet_dirs c dirs pattern s : quiet s (fw_dirs c dirs pattern s).2.
Proof.
  revert s. induction dirs as [|d dirs IH]; intros s; [apply quiet_refl|]. cbn [fw_dirs].
  destruct (decide _); [apply IH|]. pose proof (quiet_pattern c (str d) pattern s) as H.
  destruct (process_firmware_pattern _ _ _ _) as [[[]|] s1]; cbn in H |- *; [done|by eapply quiet_trans..].
Qed.

Lemma quiet_firmware c pattern s : quiet s (process_firmware c pattern s).
Proof.
  unfold process_firmware.
  set (first := if bool_decide (firmware_class_path c = ""%string) then (false, s) else _).
  assert (H1 : quiet s first.2).
  { unfold first. case_bool_decide; [apply quiet_refl|]. pose proof (quiet_pattern c (firmware_class_path c) pattern s) as Hp.
    by destruct (process_firmware_pattern _ _ _ _) as [[[]|] s1]. }
  destruct first as [[] s1]; [done|]. cbn in H1.
  pose proof (quiet_dirs c (split_on ":" #(firmware_dir c)) pattern s1) as H2.
  destruct (fw_dirs _ _ _ _) as [[] s2]; cbn in H2; [by eapply quiet_trans|].
  destruct (has_opt _ _); [|by eapply quiet_trans].
  eapply quiet_trans; [by eapply quiet_trans|]. by apply quiet_show.
Qed.

(** The mark that a built-in was shown does not change what the lookup finds. *)
Lemma find_alias_mark fuel p x n b bs : kbuiltin_tree bs !! n = Some b ->
  find_alias fuel p x (set_builtin n (set_b_tracked b) bs) = find_alias fuel p x bs.
Proof.
  intros Hb. revert p. induction fuel as [|fuel IH]; intros p; [done|]. cbn [find_alias].
  destruct p as [m|]; [|done]. cbn [set_builtin kbuiltin_tree alias_next].
  destruct (decide (n = m)) as [->|Hm].
  - rewrite lookup_insert_eq, Hb. destruct (alias_next bs !! m); [|done]. cbn. destruct (existsb _ _); [done|apply IH].
  - rewrite lookup_insert_ne by done. destruct (kbuiltin_tree bs !! m), (alias_next bs !! m); try done.
    destruct (existsb _ _); [done|apply IH].
Qed.

Lemma find_mark x n b bs : kbuiltin_tree bs !! n = Some b ->
  find_kernel_builtin x (set_builtin n (set_b_tracked b) bs) = find_kernel_builtin x bs.
Proof.
  intros Hb. unfold find_kernel_builtin. case_bool_decide; [done|].
  assert (Hs : size (kbuiltin_tree (set_builtin n (set_b_tracked b) bs)) = size (kbuiltin_tree bs)).
  { cbn. by apply map_size_insert_Some. }
  rewrite Hs, find_alias_mark by done. cbn [set_builtin kbuiltin_tree alias_first].
  destruct (decide (n = x)) as [->|Hn]; [by rewrite lookup_insert_eq, Hb|by rewrite lookup_insert_ne].
Qed.

(** The tree is one deeper while a built-in's firmware is shown. *)
Lemma quiet_deeper (o : bool) s0 s f :
  0 <= show_tree s -> quiet s s0 -> (forall s, quiet s (f s)) ->
  let s1 := if o then if negb (show_tree s0 =? 0) then set_tree (show_tree s0 + 1) s0 else s0 else s0 in
  quiet s (if o && (show_tree (f s1) >? 1) then set_tree (show_tree (f s1) - 1) (f s1) else f s1).
Proof.
  intros Hs Hq Hf s1. destruct o; [|by eapply quiet_trans]. cbn.
  pose proof (q_tree _ _ Hq) as Ht. pose proof (Hf s1) as [F1 F2 F3 F4]. destruct Hq as [Q1 Q2 Q3 Q4].
  rewrite F3. unfold s1 in *. destruct (show_tree s0 =? 0) eqn:E; cbn in *; unbool.
  - destruct (show_tree s0 >? 1) eqn:E1; unbool; [lia|]. split; [intros x; by rewrite F1|congruence..].
  - destruct (show_tree s0 + 1 >? 1) eqn:E1; unbool; [|lia].
    split; cbn; [intros x; by rewrite F1|congruence|lia|etrans; [exact F4|exact Q4]].
Qed.

Lemma quiet_builtin c name s r : 0 <= show_tree s -> find_kernel_builtin name (builtin_tab s) = Ret r ->
  exists s', process_builtin c name s = Ret (0, s') /\ quiet s s'.
Proof.
  intros Hs Hr. unfold process_builtin. rewrite Hr. cbn.
  set (b := match r with Some n => _ | None => None end).
  destruct (match b with Some _ => _ | None => false end) eqn:E; [exists s; split; [done|apply quiet_refl]|]. clear E.
  eexists. split; [done|].
  set (s0 := match b with Some _ => _ | None => s end).
  assert (H0 : quiet s s0).
  { unfold s0, b. destruct r as [n|]; [|apply quiet_refl]. cbn.
    destruct (kbuiltin_tree (builtin_tab s) !! n) as [k|] eqn:E; cbn; [|apply quiet_refl].
    split; try done. intros x. cbn. by apply find_mark. }
  set (fw := fun s : dstate => match b with
     | Some (_, k) => if has_opt c SHOW_FIRMWARE then foldl (fun s f => process_firmware c f s) s (firmware k) else s
     | None => s end).
  assert (Hfw : forall s, quiet s (fw s)).
  { intros s'. unfold fw. destruct b as [[n k]|]; [|apply quiet_refl]. destruct (has_opt _ _); [|apply quiet_refl].
    apply quiet_foldl. intros. apply quiet_firmware. }
  destruct (has_opt c SHOW_BUILTIN).
  - apply (quiet_deeper true (show_with_prefix (show_tree s0) "builtin" (match b with Some (n, _) => n | None => name end) s0) s fw);
      [done| |done]. eapply quiet_trans; [done|]. by apply quiet_show.
  - apply (quiet_deeper false s0 s fw); done.
Qed.

(** ** What is needed *)

Section Needed.
Context {kmod : Type} `{LibkmodLaws kmod}.
Variable (c : config).
(** The built-in that the lookup finds for a string. *)
Variable (look : string -> option string).

(** The modules of a list that are neither blacklisted nor built in. *)
Definition list_mods (l : list kmod) : list kmod :=
  if decide (l = []) then [] else
  match (if use_blacklist c then filter_blacklist l else Some l) with
  | Some l =>
      if decide (l = []) then [] else
      match filter_builtin l with
      | Some l => filter (fun m => look (get_name m) = None) l
      | None => []
      end
  | None => []
  end.

Definition alias_mods (a : string) : list kmod :=
  match look a with
  | Some _ => []
  | None => match new_from_lookup a with Some l => list_mods l | None => [] end
  end.

(** The modules that an entry of the information names. *)
Definition entry_mods (e : string * string) : list kmod :=
  let '(k, v) := e in
  if bool_decide (k = "depends"%string) then (str <$> strtok (","%char :: blanks) #v) ≫= alias_mods
  else if bool_decide (k = "softdep"%string) then omap soft_token (strtok blanks #v) ≫= alias_mods
  else if bool_decide (k = "weakdep"%string) then (str <$> strtok blanks #v) ≫= alias_mods
  else [].

Definition soft_mods (m : kmod) : list kmod :=
  match get_softdeps m with Some (pre, post) => list_mods pre ++ list_mods post | None => [] end.

Definition weak_mods (m : kmod) : list kmod :=
  match get_weakdeps m with Some l => list_mods l | None => [] end.

(** The modules that [m] depends on. *)
Definition deps (m : kmod) : list kmod :=
  match get_info m with
  | Some info => (info ≫= entry_mods) ++ soft_mods m ++ weak_mods m
  | None => []
  end.

Definition name_mods (a : string) : list kmod :=
  if is_filename c a =? 0 then option_list (new_from_path a) else alias_mods a.

Definition needed_by (m m' : kmod) : Prop := rtc (fun a b => b ∈ deps a) m m'.

(** The lookup of [s] is [look]. *)
Record ready (s : dstate) : Prop := {
  rd_look x : find_kernel_builtin x (builtin_tab s) = Ret (look x);
  rd_tree : 0 <= show_tree s;
}.

(** What a walk from the modules [ms] does to the state: the modules tracked and
    shown on the way are those that [ms] need and that were not tracked before, each
    shown once, and all their dependencies are tracked. *)
Record visited (ms : list kmod) (s s' : dstate) : Prop := {
  v_look x : find_kernel_builtin x (builtin_tab s') = find_kernel_builtin x (builtin_tab s);
  v_tree : show_tree s' = show_tree s;
  v_mono : tracked_modules s ⊆ tracked_modules s';
  v_roots m p : m ∈ ms -> get_path m = Some p -> p ∈ tracked_modules s';
  v_new p : p ∈ tracked_modules s' -> p ∉ tracked_modules s -> exists m0 m,
    m0 ∈ ms /\ needed_by m0 m /\ get_path m = Some p /\
    forall m' p', m' ∈ deps m -> get_path m' = Some p' -> p' ∈ tracked_modules s';
  v_shown : exists new, module_lines (output s') = module_lines (output s) ++ new /\ NoDup new /\
    forall p, p ∈ new <-> p ∈ tracked_modules s' /\ p ∉ tracked_modules s /\
                          exists m, get_path m = Some p /\ get_info m <> None;
}.

Lemma quiet_visited s s' : quiet s s' -> visited [] s s'.
Proof.
  intros [Q1 Q2 Q3 Q4]. split; try done.
  - by rewrite Q2.
  - intros m p Hm. by apply not_elem_of_nil in Hm.
  - intros p Hp Hn. by rewrite Q2 in Hp.
  - exists []. rewrite app_nil_r. split_and!; [done|apply base.NoDup_nil_2|].
    intros p. rewrite Q2. split; [intros Hp; by apply not_elem_of_nil in Hp|tauto].
Qed.

Lemma visited_app ms1 ms2 s s1 s2 : visited ms1 s s1 -> visited ms2 s1 s2 -> visited (ms1 ++ ms2) s s2.
Proof.
  intros A B. split.
  - intros x. by rewrite (v_look _ _ _ B), (v_look _ _ _ A).
  - by rewrite (v_tree _ _ _ B), (v_tree _ _ _ A).
  - etrans; [apply A|apply B].
  - intros m p [Hm|Hm]%elem_of_app Hp; [|by eapply (v_roots _ _ _ B)].
    apply (v_mono _ _ _ B). by eapply (v_roots _ _ _ A).
  - intros p Hp Hn. destruct (decide (p ∈ tracked_modules s1)) as [H1|H1].
    + destruct (v_new _ _ _ A p H1 Hn) as (m0 & m & Hin & Hr & Hm & Hd). exists m0, m. split_and!; try done.
      * apply elem_of_app. by left.
      * intros m' p' Hm' Hp'. apply (v_mono _ _ _ B). by eapply Hd.
    + destruct (v_new _ _ _ B p Hp H1) as (m0 & m & Hin & Hr & Hm & Hd). exists m0, m. split_and!; try done.
      apply elem_of_app. by right.
  - destruct (v_shown _ _ _ A) as (n1 & E1 & D1 & I1), (v_shown _ _ _ B) as (n2 & E2 & D2 & I2).
    exists (n1 ++ n2). split_and!.
    + by rewrite E2, E1, app_assoc.
    + apply list.NoDup_app. split_and!; [done| |done]. intros p Hp1 Hp2. apply I1 in Hp1. apply I2 in Hp2. tauto.
    + intros p. rewrite elem_of_app, I1, I2. pose proof (v_mono _ _ _ A p). pose proof (v_mono _ _ _ B p).
      destruct (decide (p ∈ tracked_modules s1)); tauto.
Qed.

Lemma visited_ready ms s s' : ready s -> visited ms s s' -> ready s'.
Proof.
  intros R V. split.
  - intros x. rewrite (v_look _ _ _ V). apply R.
  - rewrite (v_tree _ _ _ V). apply R.
Qed.

(** The modules that are not tracked yet. *)
Definition unseen (s : dstate) : nat := size (files ∖ tracked_modules s).

Lemma visited_unseen ms s s' : visited ms s s' -> (unseen s' <= unseen s)%nat.
Proof. intros V. unfold unseen. apply subseteq_size. pose proof (v_mono _ _ _ V). set_solver. Qed.

(** [f] walks from [ms] when at most [n] modules are left. *)
Definition walks (n : nat) (ms : list kmod) (f : dstate -> out (Z * dstate)) : Prop :=
  forall s, ready s -> (unseen s < n)%nat -> exists r s', f s = Ret (r, s') /\ visited ms s s'.

Lemma walks_ret n r : walks n [] (fun s => Ret (r, s)).
Proof. intros s R L. exists r, s. split; [done|]. apply quiet_visited, quiet_refl. Qed.

Lemma walks_bind n ms1 ms2 f g : walks n ms1 f -> (forall r, walks n ms2 (g r)) ->
  walks n (ms1 ++ ms2) (fun s => let! r := f s in g (fst r) (snd r)).
Proof.
  intros Hf Hg s R L. destruct (Hf s R L) as (r & s1 & -> & V1). cbn.
  destruct (Hg r s1) as (r2 & s2 & -> & V2).
  - by eapply visited_ready.
  - pose proof (visited_unseen _ _ _ V1). lia.
  - exists r2, s2. split; [done|]. by eapply visited_app.
Qed.

Lemma walks_ext n ms f g : (forall s, ready s -> f s = g s) -> walks n ms f -> walks n ms g.
Proof. intros E Hf s R L. rewrite <- E by done. by apply Hf. Qed.

Lemma walks_builtin n name : walks n [] (process_builtin c name).
Proof.
  intros s R L. destruct (quiet_builtin c name s (look name)) as (s' & -> & Q); [apply R..|].
  exists 0, s'. split; [done|]. by apply quiet_visited.
Qed.

Definition pathful (m : kmod) : Prop := get_path m = None -> get_info m = None.

(** The functions between two calls of depinfo. *)
Section Between.
Variable rec : kmod -> dstate -> out (Z * dstate).
Variable n : nat.
Hypothesis Hrec : forall m, pathful m -> walks n [m] (rec m).

Lemma walks_filtered l : (forall m, m ∈ l -> pathful m) -> forall ret,
  walks n (filter (fun m => look (get_name m) = None) l) (filtered_modules c rec l ret).
Proof.
  induction l as [|m l IH]; intros Hl ret; [apply walks_ret|].
  assert (Hl' : forall m, m ∈ l -> pathful m) by (intros; apply Hl; by apply elem_of_cons; right).
  rewrite filter_cons.
  eapply walks_ext; [intros s R; symmetry; cbn [filtered_modules]; rewrite (rd_look _ R); cbn; reflexivity|].
  destruct (look (get_name m)) as [b|] eqn:E.
  - rewrite decide_False by done. apply (walks_bind n [] _ _ (fun _ => filtered_modules c rec l ret)); [apply walks_builtin|auto].
  - rewrite decide_True by done.
    apply (walks_bind n [m] _ _ (fun r => filtered_modules c rec l (if r <? 0 then -1 else ret))).
    + apply Hrec, Hl. apply elem_of_cons. by left.
    + intros r. by apply IH.
Qed.

Lemma walks_builtins filtered l : walks n [] (fun s => let! s := builtin_modules c filtered l s in Ret (0, s)).
Proof.
  induction l as [|m l IH]; [apply walks_ret|]. cbn [builtin_modules].
  destruct (module_in_list m filtered); [done|].
  intros s R L. destruct (walks_builtin n (get_name m) s R L) as (r & s1 & -> & V1). cbn.
  destruct (IH s1) as (r2 & s2 & E2 & V2); [by eapply visited_ready|pose proof (visited_unseen _ _ _ V1); lia|].
  exists r2, s2. split; [done|]. by eapply (visited_app [] []).
Qed.

Lemma walks_list l : walks n (list_mods l) (process_module_list c rec l).
Proof.
  unfold process_module_list, list_mods. destruct (decide (l = [])) as [|Hl]; [apply walks_ret|].
  destruct (if use_blacklist c then filter_blacklist l else Some l) as [l1|] eqn:E1; [|apply walks_ret].
  assert (E0 : use_blacklist c && bool_decide (length l1 = 0%nat) = bool_decide (l1 = [])).
  { destruct (use_blacklist c); cbn [andb].
    - apply bool_decide_ext. by destruct l1.
    - injection E1 as <-. symmetry. by apply bool_decide_eq_false_2. }
  rewrite E0. destruct (decide (l1 = [])) as [El|El];
    [rewrite bool_decide_eq_true_2 by done; apply walks_ret|rewrite bool_decide_eq_false_2 by done].
  destruct (filter_builtin l1) as [l2|] eqn:E2; [|apply walks_ret].
  assert (Hp : forall m, m ∈ l2 -> pathful m) by (intros m Hm; exact (not_builtin_path l1 l2 m E2 Hm)).
  intros s R L. destruct (walks_builtins l2 l1 s R L) as (r1 & s1 & Hb & V1).
  destruct (builtin_modules c l2 l1 s) as [s1'| | |]; cbn in Hb; try done. injection Hb as _ ->. cbn.
  destruct (walks_filtered l2 Hp 0 s1) as (r2 & s2 & -> & V2);
    [by eapply visited_ready|pose proof (visited_unseen _ _ _ V1); lia|].
  exists r2, s2. split; [done|]. by eapply (visited_app []).
Qed.

Lemma walks_alias a req : walks n (alias_mods a) (depinfo_alias c rec a req).
Proof.
  unfold alias_mods.
  eapply walks_ext; [intros s R; symmetry; unfold depinfo_alias; rewrite (rd_look _ R); cbn; reflexivity|].
  destruct (look a) as [b|]; [apply walks_builtin|].
  destruct (new_from_lookup a) as [[|m l]|]; [apply walks_ret|apply walks_list|apply walks_ret].
Qed.

Lemma walks_aliases l req : forall ret, walks n (l ≫= alias_mods) (aliases_loop c rec l req ret).
Proof.
  induction l as [|a l IH]; intros ret; [apply walks_ret|]. cbn [aliases_loop].
  apply (walks_bind n (alias_mods a) _ _ (fun r => aliases_loop c rec l req (if r <? 0 then -1 else ret)));
    [apply walks_alias|intros r; apply IH].
Qed.

Lemma walks_map ms f g : walks n ms f -> walks n ms (fun s => let! r := f s in Ret (g (fst r), snd r)).
Proof.
  intros Hf. rewrite <- (app_nil_r ms). apply (walks_bind n ms [] f (fun r s => Ret (g r, s))); [done|].
  intros r. apply walks_ret.
Qed.

Hypothesis Hdeps : has_opt c SHOW_DEPS = true.
Hypothesis Hmods : has_opt c SHOW_MODULES = true.

Lemma walks_firmware n' ms f key v : walks n' ms f ->
  walks n' ms (fun s => let! r := f s in Ret (fst r,
    if has_opt c SHOW_FIRMWARE && bool_decide (key = "firmware"%string) then process_firmware c v (snd r) else snd r)).
Proof.
  intros Hf. rewrite <- (app_nil_r ms).
  apply (walks_bind n' ms [] f (fun r s => Ret (r, if has_opt c SHOW_FIRMWARE && bool_decide (key = "firmware"%string)
    then process_firmware c v s else s))); [done|].
  intros r s R L. eexists _, _. split; [done|]. apply quiet_visited. destruct (_ && _); [apply quiet_firmware|apply quiet_refl].
Qed.

Lemma walks_entry k v ret : walks n (entry_mods (k, v)) (info_entry c rec k v ret).
Proof.
  unfold info_entry, entry_mods. rewrite Hdeps, Hmods. cbn [andb].
  apply (walks_firmware n _ (fun s => if bool_decide (k = "depends"%string) then _ else _)).
  repeat case_bool_decide; try apply walks_ret.
  all: apply (walks_map _ _ (fun r => if r <? 0 then -1 else ret)).
  all: apply walks_aliases.
Qed.

Lemma walks_info l : forall ret, walks n (l ≫= entry_mods) (info_loop c rec l ret).
Proof.
  induction l as [|[k v] l IH]; intros ret; [apply walks_ret|]. cbn [info_loop].
  apply (walks_bind n (entry_mods (k, v)) _ _ (fun r => info_loop c rec l r)); [apply walks_entry|done].
Qed.

Lemma walks_soft m : walks n (soft_mods m) (process_soft_deps c rec m).
Proof.
  unfold soft_mods, process_soft_deps. destruct (get_softdeps m) as [[pre post]|]; [|apply walks_ret].
  apply (walks_bind n _ _ _ (fun r s => let! r' := process_module_list c rec post s in
    Ret (if (r <? 0) || (fst r' <? 0) then -1 else 0, snd r'))); [apply walks_list|].
  intros r. apply (walks_map _ _ (fun r' => if (r <? 0) || (r' <? 0) then -1 else 0)), walks_list.
Qed.

Lemma walks_weak m : walks n (weak_mods m) (process_weak_deps c rec m).
Proof.
  unfold weak_mods, process_weak_deps. destruct (get_weakdeps m) as [l|]; [|apply walks_ret].
  apply (walks_map _ _ (fun r => if r <? 0 then -1 else 0)), walks_list.
Qed.

(** All that follows the line of the module itself. *)
Lemma walks_deps m info : get_info m = Some info -> walks n (deps m) (fun s =>
  let! r := info_loop c rec info 0 s in
  let! r1 := process_soft_deps c rec m (snd r) in
  let! r2 := process_weak_deps c rec m (snd r1) in
  Ret (if (fst r1 <? 0) || (fst r2 <? 0) then -1 else fst r, snd r2)).
Proof.
  intros Hi. unfold deps. rewrite Hi.
  apply (walks_bind n _ _ _ (fun r s => let! r1 := process_soft_deps c rec m s in
    let! r2 := process_weak_deps c rec m (snd r1) in Ret (if (fst r1 <? 0) || (fst r2 <? 0) then -1 else r, snd r2)));
    [apply walks_info|]. intros r.
  apply (walks_bind n _ _ _ (fun r1 s => let! r2 := process_weak_deps c rec m s in
    Ret (if (r1 <? 0) || (fst r2 <? 0) then -1 else r, snd r2))); [apply walks_soft|]. intros r1.
  apply (walks_map _ _ (fun r2 => if (r1 <? 0) || (r2 <? 0) then -1 else r)), walks_weak.
Qed.
End Between.

Lemma visited_tracked m s : (forall p, get_path m = Some p -> p ∈ tracked_modules s) -> visited [m] s s.
Proof.
  intros Ht. destruct (quiet_visited s s (quiet_refl s)). split; try done.
  - intros m' p Hm'. apply list_elem_of_singleton in Hm' as ->. apply Ht.
Qed.

(** The module [m] with the path [p] is entered in [s1], the walk from its
    dependencies ends in [s2], and [s3] has the depth of [s] again. *)
Lemma visited_enter m p s s1 s2 s3 :
  get_path m = Some p -> p ∉ tracked_modules s ->
  (forall x, find_kernel_builtin x (builtin_tab s1) = find_kernel_builtin x (builtin_tab s)) ->
  tracked_modules s1 = {[ p ]} ∪ tracked_modules s ->
  module_lines (output s1) = module_lines (output s) ++ (if get_info m then [p] else []) ->
  visited (deps m) s1 s2 ->
  builtin_tab s3 = builtin_tab s2 -> tracked_modules s3 = tracked_modules s2 -> output s3 = output s2 ->
  show_tree s3 = show_tree s -> visited [m] s s3.
Proof.
  intros Hp Hn Hf1 Ht1 Hl1 V Hb3 Ht3 Ho3 Htree.
  pose proof (v_mono _ _ _ V) as Hmono. rewrite Ht1 in Hmono.
  assert (Hp2 : p ∈ tracked_modules s2) by (apply Hmono; set_solver).
  split.
  - intros x. by rewrite Hb3, (v_look _ _ _ V).
  - done.
  - rewrite Ht3. set_solver.
  - intros m' p' Hm' Hp'. apply list_elem_of_singleton in Hm' as ->. rewrite Ht3. congruence.
  - intros p' Hp' Hn'. rewrite Ht3 in *. destruct (decide (p' = p)) as [->|Hne].
    + exists m, m. split_and!; [set_solver|apply rtc_refl|done|]. intros m' p' Hm'. by eapply (v_roots _ _ _ V).
    + destruct (v_new _ _ _ V p' Hp') as (m0 & m' & Hin & Hr & Hm' & Hd); [rewrite Ht1; set_solver|].
      exists m, m'. split_and!; try done; [set_solver|]. by eapply rtc_l.
  - destruct (v_shown _ _ _ V) as (new & E & D & I). rewrite Ht1 in I.
    exists ((if get_info m then [p] else []) ++ new). rewrite Ho3, Ht3, E, Hl1, app_assoc. split_and!; [done|..].
    + apply list.NoDup_app. split_and!; [|intros x Hx Hx'; apply I in Hx'; destruct (get_info m); set_solver|done].
      destruct (get_info m); [apply NoDup_singleton|apply base.NoDup_nil_2].
    + intros p'. rewrite elem_of_app, I.
      assert (Hin : p' ∈ (if get_info m then [p] else []) <-> p' = p /\ exists m, get_path m = Some p' /\ get_info m <> None).
      { destruct (get_info m) eqn:Ei.
        - rewrite list_elem_of_singleton. split; [|tauto]. intros ->. split; [done|]. exists m. by rewrite Ei.
        - split; [intros Hx; by apply not_elem_of_nil in Hx|]. intros [-> (m' & Hm' & Hi')].
          by rewrite (path_inj m' m p Hm' Hp) in Hi'. }
      rewrite Hin. rewrite not_elem_of_union, not_elem_of_singleton.
      destruct (decide (p' = p)) as [->|Hne]; tauto.
Qed.

Section Walk.
Hypothesis Hdeps : has_opt c SHOW_DEPS = true.
Hypothesis Hmods : has_opt c SHOW_MODULES = true.

Lemma unseen_track p s : p ∈ files -> p ∉ tracked_modules s -> (unseen (track p s) < unseen s)%nat.
Proof. intros Hp Hn. unfold unseen. apply subset_size. cbn. set_solver. Qed.

Lemma walks_new rec n m p s :
  (forall m, pathful m -> walks n [m] (rec m)) ->
  ready s -> get_path m = Some p -> p ∉ tracked_modules s -> (unseen (track p s) < n)%nat ->
  exists r s', depinfo_new c rec m (track p s) = Ret (r, s') /\ visited [m] s s'.
Proof.
  intros Hrec R Hp Hn L. unfold depinfo_new. rewrite Hmods, Hdeps. cbn [andb].
  destruct (get_info m) as [info|] eqn:Ei.
  2: { eexists _, _. split; [done|].
    eapply (visited_enter m p s (track p s) (track p s)); try done.
    - by rewrite Ei, app_nil_r.
    - unfold deps. rewrite Ei. apply quiet_visited, quiet_refl. }
  rewrite Hp. cbn -[show_with_prefix].
  set (s1 := if negb _ then _ else _).
  assert (Hs1 : builtin_tab s1 = builtin_tab s /\ tracked_modules s1 = {[ p ]} ∪ tracked_modules s /\
    module_lines (output s1) = module_lines (output s) ++ [p] /\
    show_tree s1 = if show_tree s =? 0 then 0 else show_tree s + 1).
  { unfold s1. cbn. destruct (show_tree s =? 0) eqn:E; cbn; unbool; unfold module_lines; rewrite omap_app; cbn; split_and!; done. }
  destruct Hs1 as (B1 & T1 & L1 & D1). clearbody s1. pose proof (rd_tree _ R) as Hs0.
  destruct (walks_deps rec n Hrec Hdeps Hmods m info Ei s1) as (r & s2 & E2 & V2).
  - split; [intros x; rewrite B1; apply R|]. rewrite D1. destruct (show_tree s =? 0); lia.
  - unfold unseen in *. rewrite T1. done.
  - destruct (info_loop c rec info 0 s1) as [ra| | |]; cbn in E2 |- *; try done.
    destruct (process_soft_deps c rec m ra.2) as [rb| | |]; cbn in E2 |- *; try done.
    destruct (process_weak_deps c rec m rb.2) as [rc| | |]; cbn in E2 |- *; try done.
    injection E2 as _ <-. eexists _, _. split; [done|].
    pose proof (v_tree _ _ _ V2) as Ht2. rewrite D1 in Ht2.
    eapply (visited_enter m p s s1 rc.2); try done.
    + intros x. by rewrite B1.
    + by rewrite Ei.
    + by destruct (_ >? 1).
    + by destruct (_ >? 1).
    + by destruct (_ >? 1).
    + rewrite Ht2. destruct (show_tree s =? 0) eqn:E; unbool; cbn; [lia|].
      destruct (show_tree s + 1 >? 1) eqn:E'; unbool; cbn; lia.
Qed.

Lemma walks_depinfo fuel : forall m, pathful m -> walks fuel [m] (depinfo c fuel m).
Proof.
  induction fuel as [|fuel IH]; intros m Hpath s R L; [lia|]. cbn [depinfo]. unfold tracked_module.
  destruct (get_path m) as [p|] eqn:Hp.
  - case_bool_decide as Hin; cbn.
    + eexists _, _. split; [done|]. apply visited_tracked. congruence.
    + apply (walks_new _ fuel m p); try done. pose proof (unseen_track p s (path_file m p Hp) Hin). lia.
  - cbn. unfold depinfo_new. rewrite Hpath by done. eexists _, _. split; [done|]. apply visited_tracked. congruence.
Qed.

Lemma walks_name fuel a : walks fuel (name_mods a) (process_name c fuel a).
Proof.
  unfold name_mods, process_name. destruct (is_filename c a =? 0); cbn.
  - unfold depinfo_path. destruct (new_from_path a) as [m|] eqn:E; [|apply walks_ret].
    apply walks_depinfo. intros Hp. by apply opened_path in E.
  - apply walks_alias, walks_depinfo.
Qed.

Lemma walks_names fuel l : forall ret, walks fuel (l ≫= name_mods) (names_loop c fuel l ret).
Proof.
  induction l as [|a l IH]; intros ret; [apply walks_ret|]. cbn [names_loop].
  apply (walks_bind fuel (name_mods a) _ _ (fun r => names_loop c fuel l (if r <? 0 then -1 else ret)));
    [apply walks_name|intros r; apply IH].
Qed.
End Walk.

Lemma list_mods_pathful l m : m ∈ list_mods l -> pathful m.
Proof.
  unfold list_mods. destruct (decide _); [intros Hm; by apply not_elem_of_nil in Hm|].
  destruct (if use_blacklist c then _ else _) as [l1|]; [|intros Hm; by apply not_elem_of_nil in Hm].
  destruct (decide _); [intros Hm; by apply not_elem_of_nil in Hm|].
  destruct (filter_builtin l1) as [l2|] eqn:E; [|intros Hm; by apply not_elem_of_nil in Hm].
  intros [_ Hm]%list_elem_of_filter. exact (not_builtin_path l1 l2 m E Hm).
Qed.

Lemma alias_mods_pathful a m : m ∈ alias_mods a -> pathful m.
Proof.
  unfold alias_mods. destruct (look a); [intros Hm; by apply not_elem_of_nil in Hm|].
  destruct (new_from_lookup a); [apply list_mods_pathful|intros Hm; by apply not_elem_of_nil in Hm].
Qed.

Lemma deps_pathful m m' : m' ∈ deps m -> pathful m'.
Proof.
  unfold deps. destruct (get_info m) as [info|]; [|intros Hm; by apply not_elem_of_nil in Hm].
  intros [Hm|[Hm|Hm]%elem_of_app]%elem_of_app.
  - apply list_elem_of_bind in Hm as ([k v] & Hm & _). unfold entry_mods in Hm.
    destruct (bool_decide _); [|destruct (bool_decide _); [|destruct (bool_decide _);
      [|by apply not_elem_of_nil in Hm]]].
    all: apply list_elem_of_bind in Hm as (a & Hm & _); by eapply alias_mods_pathful.
  - unfold soft_mods in Hm. destruct (get_softdeps m) as [[pre post]|]; [|by apply not_elem_of_nil in Hm].
    apply elem_of_app in Hm as [Hm|Hm]; by eapply list_mods_pathful.
  - unfold weak_mods in Hm. destruct (get_weakdeps m) as [l|]; [by eapply list_mods_pathful|by apply not_elem_of_nil in Hm].
Qed.

Lemma name_mods_pathful a m : m ∈ name_mods a -> pathful m.
Proof.
  unfold name_mods. destruct (is_filename c a =? 0); [|apply alias_mods_pathful].
  destruct (new_from_path a) as [m'|] eqn:E; cbn; [|intros Hm; by apply not_elem_of_nil in Hm].
  intros ->%list_elem_of_singleton Hp. by apply opened_path in E.
Qed.

(** The dependencies of the modules tracked from an empty set are all tracked. *)
Lemma visited_closed ms s s' m0 m : tracked_modules s = ∅ -> visited ms s s' ->
  needed_by m0 m -> pathful m0 -> (forall p, get_path m0 = Some p -> p ∈ tracked_modules s') ->
  forall p, get_path m = Some p -> p ∈ tracked_modules s'.
Proof.
  intros T0 V Hr. induction Hr as [m|m0 m1 m Hd Hr IH]; intros Hpath Ht; [done|].
  apply IH; [by eapply deps_pathful|]. intros p1 Hp1.
  destruct (get_path m0) as [p0|] eqn:E0.
  2: { unfold deps in Hd. rewrite Hpath in Hd by done. by apply not_elem_of_nil in Hd. }
  destruct (v_new _ _ _ V p0 (Ht p0 eq_refl)) as (m' & m'' & _ & _ & Hm & Hd'); [rewrite T0; set_solver|].
  rewrite (path_inj m'' m0 p0 Hm E0) in Hd'. by eapply Hd'.
Qed.
End Needed.

(** C6. The walk over the modules terminates when the recursion may be deeper than
    the number of module files, for every graph of dependencies, cycles included.
    From no tracked module, the modules tracked at the end are exactly those that
    the given names need, directly or through the dependencies of all kinds that
    are neither blacklisted nor built in. Every one of them with readable
    information is shown, and none twice. The depth of the tree is restored. *)
Theorem depinfo_closure {kmod} `{LibkmodLaws kmod} c look names s fuel :
  has_opt c SHOW_DEPS = true -> has_opt c SHOW_MODULES = true -> ready look s ->
  tracked_modules s = ∅ -> (size files < fuel)%nat ->
  let needed m := exists m0, m0 ∈ names ≫= name_mods c look /\ needed_by c look m0 m in
  exists r s' shown, names_loop c fuel names 0 s = Ret (r, s') /\ show_tree s' = show_tree s /\
    (forall p, p ∈ tracked_modules s' <-> exists m, needed m /\ get_path m = Some p) /\
    module_lines (output s') = module_lines (output s) ++ shown /\ NoDup shown /\
    (forall p, p ∈ shown <-> exists m, needed m /\ get_path m = Some p /\ get_info m <> None).
Proof.
  intros Hd Hm R T0 Hfuel needed.
  destruct (walks_names c look Hd Hm fuel names 0 s R) as (r & s' & E & V).
  { unfold unseen. rewrite T0, difference_empty_L. done. }
  assert (Ht : forall p, p ∈ tracked_modules s' <-> exists m, needed m /\ get_path m = Some p).
  { intros p. split.
    - intros Hp. destruct (v_new _ _ _ _ _ V p Hp) as (m0 & m & Hin & Hr & Hpm & _); [rewrite T0; set_solver|].
      exists m. split; [|done]. by exists m0.
    - intros (m & (m0 & Hin & Hr) & Hpm).
      refine (visited_closed c look _ s s' m0 m T0 V Hr _ _ p Hpm).
      + apply list_elem_of_bind in Hin as (a & Hin & _). by eapply name_mods_pathful.
      + intros p0. by eapply (v_roots _ _ _ _ _ V). }
  destruct (v_shown _ _ _ _ _ V) as (new & En & D & I).
  exists r, s', new. split_and!; try done; [apply V|].
  intros p. rewrite I, T0, Ht. split.
  - intros ((m & Hn & Hpm) & _ & m' & Hpm' & Hi). exists m'. split_and!; try done. by rewrite (path_inj m' m p).
  - intros (m & Hn & Hpm & Hi). split_and!; [by exists m|set_solver|by exists m].
Qed.

(** *** Two modules that need each other, and one without a file *)

Inductive example_mod := MA | MB | MC.

#[local] Instance example_mod_eq : EqDecision example_mod.
Proof. solve_decision. Defined.

#[local] Instance example_lib : Libkmod example_mod := {
  get_path m := match m with MA => Some "/m/a.ko"%string | MB => Some "/m/b.ko"%string | MC => None end;
  get_name m := match m with MA => "a" | MB => "b" | MC => "c" end%string;
  get_info m := match m with MA => Some [("depends", "b"); ("firmware", "fw")] | MB => Some [("softdep", "pre: a post:c")] | MC => None end%string;
  get_softdeps m := Some ([], []);
  get_weakdeps m := None;
  new_from_lookup a := if bool_decide (a = "a"%string) then Some [MA] else if bool_decide (a = "b"%string) then Some [MB]
                       else if bool_decide (a = "c"%string) then Some [MC] else None;
  new_from_path _ := None;
  filter_blacklist l := Some l;
  filter_builtin l := Some l;
}.

#[local] Instance example_laws : LibkmodLaws example_mod.
Proof.
  refine {| files := {[ "/m/a.ko"%string; "/m/b.ko"%string ]} |}.
  - intros [] p; cbn; intros E; try discriminate; injection E as <-; set_solver.
  - intros [] [] p; cbn; congruence.
  - intros l l' []; cbn; congruence.
  - intros f m; cbn. discriminate.
Defined.

Definition example_config : config :=
  {| opts := opts0; use_blacklist := false; kversion := "6.1"; firmware_dir := "/lib/firmware"; firmware_class_path := "";
     access := fun p => bool_decide (p = "/lib/firmware/fw.xz"%string); glob := fun _ => []; is_regular := fun _ => false |}.

Definition example_state : dstate :=
  {| builtin_tab := no_builtins; tracked_modules := ∅; show_tree := 1; output := [] |}.

(** The output for the module a. *)
Example example_output :
  (let! r := names_loop example_config 3 ["a"%string] 0 example_state in Ret (render example_config <$> output (snd r)))
  = Ret ["module /m/a.ko"; "   \_ module /m/b.ko"; "   \_ firmware /lib/firmware/fw.xz"]%string.
Proof. vm_compute. reflexivity. Qed.

Lemma example_ready : ready (fun _ => None) example_state.
Proof.
  split; [|done]. intros x. unfold find_kernel_builtin. case_bool_decide; [done|]. cbn. by rewrite lookup_empty.
Qed.

Lemma depinfo_closure_witness : exists r s' shown,
  names_loop example_config 3 ["a"%string] 0 example_state = Ret (r, s') /\
  "/m/b.ko"%string ∈ tracked_modules s' /\ module_lines (output s') = [] ++ shown /\ NoDup shown.
Proof.
  destruct (depinfo_closure example_config (fun _ => None) ["a"%string] example_state 3)
    as (r & s' & shown & E & _ & Ht & El & D & _).
  - reflexivity.
  - reflexivity.
  - apply example_ready.
  - reflexivity.
  - vm_compute. lia.
  - exists r, s', shown. split_and!; [exact E| |exact El|exact D].
    apply Ht. exists MB. split; [|reflexivity]. exists MA. split.
    + apply (bool_decide_unpack _). vm_compute. exact I.
    + apply rtc_once. apply (bool_decide_unpack _). vm_compute. exact I.
Defined.
