(* ===== verification/PutQueue.v ===== *)
(** initrd-put: the files, the queue of those still to be looked at and the tree of
    those that were (queue.c, queue.h, tree.c).

    A structure of a file has its path as address: the queue and the tree never
    hold two of the same path (this is proved). The search trees are sets of
    addresses. *)

From Stdlib Require Import ZArith Ascii String Lia.
From stdpp Require Import base list strings gmap sets tactics numbers.
From S2P Require Import Prelude CString.

Open Scope Z_scope.
Open Scope cprog_scope.

Definition PATH_MAX : Z := 4096.
Definition EX_SOFTWARE : Z := 70.

Record stat := {
  st_mode : Z; st_ino : Z; st_dev : Z; st_rdev : Z; st_nlink : Z; st_size : Z; st_uid : Z; st_gid : Z;
}.
Definition stat0 : stat :=
  {| st_mode := 0; st_ino := 0; st_dev := 0; st_rdev := 0; st_nlink := 0; st_size := 0; st_uid := 0; st_gid := 0 |}.

(** [None] is NULL. *)
Record file := {
  prev : option string;
  next : option string;
  f_stat : stat;
  dst : string;
  symlink : option string;
  hardlink_target : option string;
  recursive : bool;
  installed : bool;
}.

(** xcalloc: all zero. *)
Definition file0 : file :=
  {| prev := None; next := None; f_stat := stat0; dst := ""; symlink := None; hardlink_target := None;
     recursive := false; installed := false |}.

Definition set_prev (p : option string) (f : file) : file :=
  {| prev := p; next := next f; f_stat := f_stat f; dst := dst f; symlink := symlink f;
     hardlink_target := hardlink_target f; recursive := recursive f; installed := installed f |}.
Definition set_next (p : option string) (f : file) : file :=
  {| prev := prev f; next := p; f_stat := f_stat f; dst := dst f; symlink := symlink f;
     hardlink_target := hardlink_target f; recursive := recursive f; installed := installed f |}.

(** The structures, the head of the queue, its search tree and its length, the tree
    of the files that were looked at and their number. *)
Record put := {
  heap : gmap string file;
  inqueue : option string;
  queued_files : gset string;
  queue_nr : Z;
  files : gset string;
  tree_files_nr : Z;
}.

Definition put0 : put :=
  {| heap := ∅; inqueue := None; queued_files := ∅; queue_nr := 0; files := ∅; tree_files_nr := 0 |}.

Definition with_heap (h : gmap string file) (s : put) : put :=
  {| heap := h; inqueue := inqueue s; queued_files := queued_files s; queue_nr := queue_nr s;
     files := files s; tree_files_nr := tree_files_nr s |}.

Definition load (p : string) (s : put) : out file := match heap s !! p with Some f => Ret f | None => Undef end.

(** An assignment to fields of a structure. *)
Definition update (p : string) (g : file -> file) (s : put) : out put :=
  let! _ := load p s in Ret (with_heap (alter g p (heap s)) s).

Definition is_path_queued (path : string) (s : put) : bool := bool_decide (path ∈ queued_files s).

Definition is_path_added (path : string) (s : put) : bool :=
  bool_decide (path ∈ files s) || is_path_queued path s.

(** The first [len] bytes, at most PATH_MAX of them; all of them when [len] is
    negative. *)
Definition item_path (s : string) (len : Z) : string :=
  if len >=? 0 then str (takeZ (if len >? PATH_MAX then PATH_MAX else len) #s) else s.

(** [exclude]: does a regular expression of -e match. *)
Definition enqueue_item (exclude : string -> bool) (s : string) (len : Z) (q : put) : out (option string * put) :=
  let path := item_path s len in
  if exclude path then Ret (None, q)
  else if is_path_queued path q then Ret (Some path, q)
  else if is_path_added path q then Ret (None, q)
  else
    let q := with_heap (<[path := file0]> (heap q)) q in
    let! q :=
      match inqueue q with
      | None => Ret q
      | Some h =>
          let! f := load h q in
          match prev f with
          | Some _ => Die EX_SOFTWARE "bad queue head"
          | None =>
              let! q := update h (set_prev (Some path)) q in
              update path (set_next (Some h)) q
          end
      end in
    Ret (Some path, {| heap := heap q; inqueue := Some path; queued_files := {[ path ]} ∪ queued_files q;
                       queue_nr := u64 (queue_nr q + 1); files := files q; tree_files_nr := tree_files_nr q |}).

Definition dequeue_item (p : string) (q : put) : out put :=
  let q := {| heap := heap q; inqueue := inqueue q; queued_files := queued_files q ∖ {[ p ]};
              queue_nr := queue_nr q; files := files q; tree_files_nr := tree_files_nr q |} in
  let! f := load p q in
  let! q := match prev f with Some a => update a (set_next (next f)) q | None => Ret q end in
  let! f := load p q in
  let! q := match next f with Some b => update b (set_prev (prev f)) q | None => Ret q end in
  let! f := load p q in
  Ret {| heap := heap q; inqueue := if bool_decide (inqueue q = Some p) then next f else inqueue q;
         queued_files := queued_files q; queue_nr := u64 (queue_nr q - 1); files := files q;
         tree_files_nr := tree_files_nr q |}.

Definition free_file (p : string) (q : put) : put := with_heap (delete p (heap q)) q.

(** tsearch returns the structure of the tree that has the path, after it has put the
    given one there if there was none. As a structure has its path as address, it is the
    given one in both cases: it counts as added, also if it was in the tree before. *)
Definition tsearch_file (p : string) (q : put) : string * put :=
  (p, {| heap := heap q; inqueue := inqueue q; queued_files := queued_files q; queue_nr := queue_nr q;
         files := {[ p ]} ∪ files q; tree_files_nr := tree_files_nr q |}).

Definition tree_add_file (p : string) (q : put) : bool * put :=
  let '(ptr, q) := tsearch_file p q in
  let added := bool_decide (ptr = p) in
  (added, if added then {| heap := heap q; inqueue := inqueue q; queued_files := queued_files q; queue_nr := queue_nr q;
                           files := files q; tree_files_nr := u64 (tree_files_nr q + 1) |} else q).

(** The walk through the tree is in the order of strcmp. *)
Fixpoint strcmp_le (a b : bytes) : bool :=
  match a, b with
  | [], _ => true
  | _, [] => false
  | x :: a, y :: b => if ord x =? ord y then strcmp_le a b else ord x <? ord y
  end.

Fixpoint insert_sorted (x : string) (l : list string) : list string :=
  match l with
  | [] => [x]
  | y :: l' => if strcmp_le #x #y then x :: l else y :: insert_sorted x l'
  end.

Definition tree_order (q : put) : list string := foldr insert_sorted [] (elements (files q)).

Fixpoint walk_tree {A : Type} (handler : string -> A -> out A) (l : list string) (a : A) : out A :=
  match l with
  | [] => Ret a
  | p :: l => let! a := handler p a in walk_tree handler l a
  end.

(** The destructors free the structures of a table one by one; a structure that is not
    there any more would be freed twice. *)
Fixpoint free_all (l : list string) (q : put) : out put :=
  match l with
  | [] => Ret q
  | p :: l => let! f := load p q in free_all l (free_file p q)
  end.

Definition tree_destroy (q : put) : out put :=
  let! q := free_all (tree_order q) q in
  Ret {| heap := heap q; inqueue := inqueue q; queued_files := queued_files q; queue_nr := queue_nr q; files := ∅; tree_files_nr := 0 |}.

Definition queue_destroy (q : put) : out put :=
  let! q := free_all (foldr insert_sorted [] (elements (queued_files q))) q in
  Ret {| heap := heap q; inqueue := None; queued_files := ∅; queue_nr := 0; files := files q; tree_files_nr := tree_files_nr q |}.

(** xrealloc refuses a product that does not fit into an unsigned long. *)
Definition xrealloc_size (nmemb elem_size : Z) : out Z :=
  if negb (nmemb =? 0) && ((2 ^ 64 - 1) / nmemb <? elem_size) then Die 71 "realloc: nmemb*size > ULONG_MAX"
  else Ret (u64 (nmemb * elem_size)).

(** ** The queue is a list *)

(** The queue of [q] holds the paths [l], the newest first. *)
Record queue_ok (q : put) (l : list string) : Prop := {
  qo_nodup : NoDup l;
  qo_head : inqueue q = head l;
  qo_link l1 p l2 : l = l1 ++ p :: l2 -> exists f, heap q !! p = Some f /\ prev f = list.last l1 /\ next f = head l2;
  qo_set p : p ∈ queued_files q <-> p ∈ l;
  qo_nr : queue_nr q = u64 (lenZ l);
  qo_tree p : p ∈ files q -> is_Some (heap q !! p);
  qo_tree_nr : tree_files_nr q = u64 (Z.of_nat (size (files q)));
}.

Lemma queue_ok_empty : queue_ok put0 [].
Proof.
  split; try done.
  - apply base.NoDup_nil_2.
  - by intros [] p l2.
  - intros p. cbn. set_solver.
Qed.

Lemma queue_ok_heap q l p : queue_ok q l -> p ∈ l -> is_Some (heap q !! p).
Proof. intros Q Hp. apply list_elem_of_split in Hp as (l1 & l2 & ->). edestruct (qo_link _ _ Q) as (f & -> & _); done. Qed.

Lemma load_some p f q : heap q !! p = Some f -> load p q = Ret f.
Proof. unfold load. by intros ->. Qed.

Lemma update_some p g q : is_Some (heap q !! p) -> update p g q = Ret (with_heap (alter g p (heap q)) q).
Proof. intros [f Hf]. unfold update. by rewrite (load_some _ _ _ Hf). Qed.

(** A change of other fields. *)
Lemma queue_ok_update q l p g : queue_ok q l -> (forall f, prev (g f) = prev f) -> (forall f, next (g f) = next f) ->
  queue_ok (with_heap (alter g p (heap q)) q) l.
Proof.
  intros Q Hp Hn. split; cbn; try apply Q.
  - intros l1 x l2 E. destruct (qo_link _ _ Q _ _ _ E) as (f & Hf & Hf1 & Hf2).
    destruct (decide (x = p)) as [->|Hx].
    + exists (g f). rewrite lookup_alter_eq, Hf. cbn. by rewrite Hp, Hn.
    + exists f. by rewrite lookup_alter_ne.
  - intros x Hx. rewrite lookup_alter_is_Some. by apply Q.
Qed.

Lemma queue_nodup_ne (l1 l2 : list string) p x : NoDup (l1 ++ p :: l2) -> x ∈ l1 \/ x ∈ l2 -> x <> p.
Proof.
  intros (_ & H2 & [H3 _]%list.NoDup_cons)%list.NoDup_app Hx ->. destruct Hx as [Hx|Hx]; [|done].
  apply (H2 p Hx). set_solver.
Qed.

(** The fields other than the links. *)
Definition data (f : file) : file := set_prev None (set_next None f).

(** Whether enqueue_item adds the path. *)
Definition fresh (exclude : string -> bool) (path : string) (q : put) (l : list string) : bool :=
  negb (exclude path) && negb (bool_decide (path ∈ l)) && negb (bool_decide (path ∈ files q)).

Lemma u64_add z n : u64 (u64 z + n) = u64 (z + n).
Proof. unfold u64. apply Zplus_mod_idemp_l. Qed.

Lemma queue_ok_push q l path : queue_ok q l -> path ∉ l -> path ∉ files q ->
  exists h, (let q1 := with_heap (<[path := file0]> (heap q)) q in
    match inqueue q1 with
    | None => Ret q1
    | Some h =>
        let! f := load h q1 in
        match prev f with
        | Some _ => Die EX_SOFTWARE "bad queue head"
        | None => let! q2 := update h (set_prev (Some path)) q1 in update path (set_next (Some h)) q2
        end
    end) = Ret (with_heap h q) /\
    h !! path = Some (set_next (head l) file0) /\
    (forall x, x <> path -> h !! x = (if decide (Some x = head l) then set_prev (Some path) <$> heap q !! x else heap q !! x)).
Proof.
  intros Q Hl Hf. cbn [with_heap inqueue]. rewrite (qo_head _ _ Q). destruct l as [|h l]; cbn [head].
  - exists (<[path := file0]> (heap q)). split_and!; [done|by rewrite lookup_insert_eq|].
    intros x Hx. rewrite decide_False by done. by rewrite lookup_insert_ne.
  - destruct (qo_link _ _ Q [] h l eq_refl) as (f & Hh & Hp & Hn).
    assert (h <> path) as Hne by set_solver.
    rewrite (load_some h f) by (cbn; by rewrite lookup_insert_ne). cbn [list.last] in Hp. cbn. rewrite Hp.
    rewrite update_some by (cbn; rewrite lookup_insert_ne by done; by rewrite Hh).
    cbn. rewrite update_some by (cbn; rewrite lookup_alter_ne by done; by rewrite lookup_insert_eq).
    eexists. split_and!; [done|..].
    + cbn [heap with_heap]. rewrite lookup_alter_eq, lookup_alter_ne, lookup_insert_eq by done. done.
    + intros x Hx. cbn [heap with_heap]. rewrite lookup_alter_ne by done. destruct (decide (x = h)) as [->|Hxh].
      * rewrite decide_True by done. by rewrite lookup_alter_eq, lookup_insert_ne.
      * rewrite decide_False by congruence. by rewrite lookup_alter_ne, lookup_insert_ne.
Qed.

Lemma head_snoc_None {A} (l : list A) x : head (l ++ [x]) <> None.
Proof. by destruct l. Qed.

(** enqueue_item always returns and keeps the queue a list: a path that is excluded,
    queued or in the tree changes nothing, another one becomes the head. *)
Lemma enqueue_item_ok exclude s len q l : queue_ok q l ->
  let path := item_path s len in let new := fresh exclude path q l in
  exists q', enqueue_item exclude s len q =
      Ret (if exclude path then None else if negb (bool_decide (path ∈ l)) && bool_decide (path ∈ files q) then None else Some path, q') /\
    queue_ok q' (if new then path :: l else l) /\ files q' = files q /\
    forall p, data <$> heap q' !! p = if new && bool_decide (p = path) then Some file0 else data <$> heap q !! p.
Proof.
  intros Q path new. unfold enqueue_item. fold path.
  unfold new, fresh, is_path_added, is_path_queued. rewrite (bool_decide_ext _ _ (qo_set _ _ Q path)).
  destruct (exclude path); [exists q; by split_and!|].
  destruct (decide (path ∈ l)) as [Hl|Hl];
    [rewrite bool_decide_eq_true_2 by done; exists q; by split_and!|rewrite bool_decide_eq_false_2 by done].
  destruct (decide (path ∈ files q)) as [Hf|Hf];
    [rewrite bool_decide_eq_true_2 by done; exists q; by split_and!|rewrite bool_decide_eq_false_2 by done].
  destruct (queue_ok_push q l path Q Hl Hf) as (h & E & Hnew & Hold). cbn [negb orb andb]. cbn zeta in E. rewrite E. clear E.
  eexists. split; [done|]. split_and!; [|done|].
  - split; cbn.
    + apply list.NoDup_cons. split; [done|apply Q].
    + done.
    + intros [|x l1] p l2 Hl12; injection Hl12 as <- ->.
      * exists (set_next (head l2) file0). done.
      * destruct (qo_link _ _ Q l1 p l2 eq_refl) as (f & Hp & Hpr & Hne).
        assert (p <> path) as Hpp by set_solver. rewrite Hold, Hp by done.
        destruct (decide _) as [Hd|Hd].
        -- assert (l1 = []) as ->.
           { destruct l1 as [|y l1]; [done|]. injection Hd as ->. exfalso.
             eapply (queue_nodup_ne (y :: l1) l2 y y); [apply Q|left; set_solver|done]. }
           exists (set_prev (Some path) f). done.
        -- exists f. split_and!; [done| |done]. rewrite Hpr. destruct l1 as [|y l1]; [done|]. by destruct l1.
    + intros p. rewrite elem_of_union, elem_of_singleton, elem_of_cons, (qo_set _ _ Q). done.
    + rewrite (qo_nr _ _ Q), u64_add. f_equal. unfold lenZ. cbn. lia.
    + intros p Hp. destruct (decide (p = path)) as [->|Hne]; [by rewrite Hnew|]. rewrite Hold by done.
      destruct (decide _); [rewrite fmap_is_Some|]; by apply Q.
    + apply Q.
  - intros p. cbn [heap with_heap andb]. destruct (decide (p = path)) as [->|Hne].
    + by rewrite bool_decide_eq_true_2, Hnew.
    + rewrite bool_decide_eq_false_2, Hold by done. destruct (decide _); [|done]. by destruct (heap q !! p).
Qed.

Definition alter_opt (g : file -> file) (p : option string) (h : gmap string file) : gmap string file :=
  match p with Some x => alter g x h | None => h end.

Lemma lookup_alter_opt g p h x :
  alter_opt g p h !! x = if decide (p = Some x) then g <$> h !! x else h !! x.
Proof.
  destruct p as [y|]; cbn; [|by rewrite decide_False]. destruct (decide (y = x)) as [->|Hn].
  - by rewrite decide_True, lookup_alter_eq.
  - rewrite decide_False by congruence. by rewrite lookup_alter_ne.
Qed.

Lemma last_in (l : list string) x : list.last l = Some x -> x ∈ l.
Proof. rewrite last_Some. intros [l' ->]. set_solver. Qed.

Lemma head_in (l : list string) x : head l = Some x -> x ∈ l.
Proof. destruct l; [done|]. intros [= ->]. set_solver. Qed.

(** The heap without [p] between [l1] and [l2]. *)
Definition unlinked (l1 l2 : list string) (h : gmap string file) : gmap string file :=
  alter_opt (set_prev (list.last l1)) (head l2) (alter_opt (set_next (head l2)) (list.last l1) h).

Lemma unlinked_before q m1 x k p l2 f : NoDup (m1 ++ x :: k ++ p :: l2) ->
  heap q !! x = Some f -> prev f = list.last m1 -> next f = head (k ++ p :: l2) ->
  exists f', unlinked (m1 ++ x :: k) l2 (heap q) !! x = Some f' /\ prev f' = list.last m1 /\ next f' = head (k ++ l2).
Proof.
  intros Hnd Hf Hp Hn. unfold unlinked. rewrite !lookup_alter_opt, Hf.
  apply list.NoDup_app in Hnd as (_ & _ & Hnd). apply list.NoDup_cons in Hnd as [Hx Hnd].
  rewrite (decide_False (P := head l2 = Some x)) by (intros E; apply Hx; apply head_in in E; set_solver).
  destruct k as [|y k].
  - rewrite decide_True by (by rewrite last_snoc). exists (set_next (head l2) f). done.
  - rewrite decide_False; [by exists f|]. intros E. rewrite last_app in E. cbn in E. apply Hx.
    destruct (list.last (y :: k)) as [z|] eqn:Ez.
    + injection E as ->. apply last_in in Ez. set_solver.
    + by apply last_None in Ez.
Qed.

Lemma unlinked_behind q l1 p k x m2 f : NoDup (l1 ++ p :: k ++ x :: m2) ->
  heap q !! x = Some f -> prev f = list.last (l1 ++ p :: k) -> next f = head m2 ->
  exists f', unlinked l1 (k ++ x :: m2) (heap q) !! x = Some f' /\ prev f' = list.last (l1 ++ k) /\ next f' = head m2.
Proof.
  intros Hnd Hf Hp Hn. unfold unlinked. rewrite !lookup_alter_opt, Hf.
  apply list.NoDup_app in Hnd as (_ & Hd & Hnd). apply list.NoDup_cons in Hnd as [_ Hnd].
  apply list.NoDup_app in Hnd as (_ & Hk & _).
  rewrite (decide_False (P := list.last l1 = Some x)) by (intros E; apply last_in in E; apply (Hd x E); set_solver).
  destruct k as [|y k].
  - rewrite decide_True by done. exists (set_prev (list.last l1) f). rewrite app_nil_r. done.
  - rewrite decide_False; [|intros [= ->]; apply (Hk x); set_solver].
    exists f. split_and!; try done. rewrite Hp, !last_app. done.
Qed.

(** dequeue_item takes the path out of the list, wherever it is. *)
Lemma dequeue_item_ok q l1 p l2 : queue_ok q (l1 ++ p :: l2) ->
  exists q', dequeue_item p q = Ret q' /\ queue_ok q' (l1 ++ l2) /\ files q' = files q /\
    forall x, data <$> heap q' !! x = data <$> heap q !! x.
Proof.
  intros Q. pose proof (qo_nodup _ _ Q) as Hnd.
  destruct (qo_link _ _ Q l1 p l2 eq_refl) as (f & Hf & Hpr & Hne).
  exists {| heap := unlinked l1 l2 (heap q); inqueue := head (l1 ++ l2); queued_files := queued_files q ∖ {[ p ]};
            queue_nr := u64 (queue_nr q - 1); files := files q; tree_files_nr := tree_files_nr q |}.
  assert (Hin : forall x, x ∈ l1 \/ x ∈ l2 -> x <> p /\ is_Some (heap q !! x)).
  { intros x Hx. split; [by eapply queue_nodup_ne|]. eapply queue_ok_heap; [exact Q|]. set_solver. }
  assert (p ∉ l1 /\ p ∉ l2) as [Hp1 Hp2].
  { split; intros Hp; destruct (Hin p) as [? _]; auto. }
  assert (Hdata : forall x, data <$> unlinked l1 l2 (heap q) !! x = data <$> heap q !! x).
  { intros x. unfold unlinked. rewrite !lookup_alter_opt. destruct (heap q !! x); by repeat destruct (decide _). }
  split_and!; [| |done|done].
  - unfold dequeue_item. rewrite (load_some p f) by done. cbn [obind]. rewrite Hpr, Hne.
    set (q0 := {| heap := heap q; inqueue := inqueue q; queued_files := queued_files q ∖ {[ p ]}; queue_nr := queue_nr q;
                  files := files q; tree_files_nr := tree_files_nr q |}).
    assert (E1 : match list.last l1 with Some a => update a (set_next (head l2)) q0 | None => Ret q0 end =
      Ret (with_heap (alter_opt (set_next (head l2)) (list.last l1) (heap q)) q0)).
    { destruct (list.last l1) as [a|] eqn:E; [|done]. apply update_some. apply last_in in E. by apply Hin; left. }
    rewrite E1. cbn [obind].
    rewrite (load_some p f). 2: { cbn. rewrite lookup_alter_opt, decide_False; [exact Hf|].
      intros E. by apply last_in in E. }
    cbn [obind]. rewrite Hpr, Hne.
    assert (E2 : forall q1, (forall x, x ∈ l2 -> is_Some (heap q1 !! x)) ->
      match head l2 with Some b => update b (set_prev (list.last l1)) q1 | None => Ret q1 end =
      Ret (with_heap (alter_opt (set_prev (list.last l1)) (head l2) (heap q1)) q1)).
    { intros q1 H1. destruct (head l2) as [b|] eqn:E; [|by destruct q1]. apply update_some. apply head_in in E. by apply H1. }
    rewrite E2. 2: { intros x Hx. cbn. rewrite lookup_alter_opt. destruct (decide _); [apply fmap_is_Some|]; by apply Hin; right. }
    cbn [obind]. rewrite (load_some p f).
    2: { cbn. rewrite !lookup_alter_opt. rewrite !decide_False; [done|..]; intros E; [by apply last_in in E|by apply head_in in E]. }
    cbn. f_equal. f_equal. rewrite (qo_head _ _ Q), Hne. destruct l1 as [|a l1]; cbn.
    + by rewrite bool_decide_eq_true_2.
    + rewrite bool_decide_eq_false_2; [done|]. intros [= ->]. set_solver.
  - apply list.NoDup_app in Hnd as (N1 & N2 & [N3 N4]%list.NoDup_cons). split; cbn.
    + apply list.NoDup_app. split_and!; [done| |done]. intros x Hx Hx'. apply (N2 x Hx). set_solver.
    + done.
    + intros m1 x m2 E. apply app_eq_inv in E as [(k & -> & E)|(k & -> & E)].
      * destruct k as [|y k]; cbn in E.
        -- subst l2. destruct (qo_link _ _ Q (m1 ++ [] ++ [p]) x m2) as (fx & Hx & Hxp & Hxn); [by rewrite <- !app_assoc|].
           rewrite app_nil_r in *.
           eapply (unlinked_behind q m1 p [] x m2) in Hxn as (f' & ? & ? & ?); try done; [|apply Q].
           exists f'. by rewrite app_nil_r in *.
        -- injection E as -> ->. rewrite <- app_assoc in Q. cbn in Q.
           destruct (qo_link _ _ Q m1 y (k ++ p :: l2) eq_refl) as (fx & Hx & Hxp & Hxn).
           eapply unlinked_before; try done. apply Q.
      * subst l2. destruct (qo_link _ _ Q (l1 ++ p :: k) x m2) as (fx & Hx & Hxp & Hxn); [by rewrite <- app_assoc|].
        eapply unlinked_behind; try done. apply Q.
    + intros x. rewrite elem_of_difference, elem_of_singleton, (qo_set _ _ Q), !elem_of_app, elem_of_cons. split.
      * intros [[?|[?|?]] ?]; tauto.
      * intros Hx. destruct (Hin x Hx). tauto.
    + rewrite (qo_nr _ _ Q). replace (u64 (lenZ (l1 ++ p :: l2)) - 1) with (u64 (lenZ (l1 ++ p :: l2)) + -1) by lia.
      rewrite u64_add. f_equal. unfold lenZ. rewrite !length_app. cbn. lia.
    + intros x Hx. rewrite <- (fmap_is_Some data), Hdata, fmap_is_Some. by apply Q.
    + apply Q.
Qed.

Lemma queue_ok_free q l p : queue_ok q l -> p ∉ l -> p ∉ files q -> queue_ok (free_file p q) l.
Proof.
  intros Q Hl Hf. split; cbn; try apply Q.
  - intros l1 x l2 E. destruct (qo_link _ _ Q _ _ _ E) as (f & Hx & ?). exists f. split; [|done].
    rewrite lookup_delete_ne; [done|]. intros ->. apply Hl. rewrite E. set_solver.
  - intros x Hx. rewrite lookup_delete_ne; [by apply Q|]. by intros ->.
Qed.

Lemma tree_add_ok q l p : queue_ok q l -> p ∈ l -> p ∉ files q ->
  exists q', tree_add_file p q = (true, q') /\ queue_ok q' l /\ files q' = {[ p ]} ∪ files q /\ heap q' = heap q /\ queued_files q' = queued_files q.
Proof.
  intros Q Hl Hf. unfold tree_add_file, tsearch_file. rewrite bool_decide_eq_true_2 by done. eexists. split; [done|]. split_and!; try done.
  split; cbn; try apply Q.
  - intros x [->%elem_of_singleton|Hx]%elem_of_union; [by eapply queue_ok_heap|by apply Q].
  - rewrite (qo_tree_nr _ _ Q), u64_add. f_equal. rewrite size_union by set_solver. rewrite size_singleton. lia.
Qed.

(** The operations on the queue and the tree, in any order: a path of the queue is
    dequeued or goes into the tree if it is not there yet, and what is in neither of
    them is freed. *)
Inductive reachable (exclude : string -> bool) : put -> Prop :=
| reach_start : reachable exclude put0
| reach_enqueue q s len x q' : reachable exclude q -> enqueue_item exclude s len q = Ret (x, q') -> reachable exclude q'
| reach_assign q p g : reachable exclude q -> (forall f, prev (g f) = prev f) -> (forall f, next (g f) = next f) ->
    reachable exclude (with_heap (alter g p (heap q)) q)
| reach_dequeue q p q' : reachable exclude q -> p ∈ queued_files q -> dequeue_item p q = Ret q' -> reachable exclude q'
| reach_tree q p : reachable exclude q -> p ∈ queued_files q -> p ∉ files q -> reachable exclude (snd (tree_add_file p q))
| reach_free q p : reachable exclude q -> p ∉ queued_files q -> p ∉ files q -> reachable exclude (free_file p q).

Lemma reachable_ok exclude q : reachable exclude q -> exists l, queue_ok q l.
Proof.
  induction 1 as [|q s len x q' _ [l Q] E|q p g _ [l Q] Hp Hn|q p q' _ [l Q] Hp E|q p _ [l Q] Hp Hf|q p _ [l Q] Hp Hf].
  - exists []. apply queue_ok_empty.
  - destruct (enqueue_item_ok exclude s len q l Q) as (q1 & E1 & Q1 & _). rewrite E in E1. injection E1 as _ <-. by eexists.
  - exists l. by apply queue_ok_update.
  - apply (qo_set _ _ Q), list_elem_of_split in Hp as (l1 & l2 & ->).
    destruct (dequeue_item_ok q l1 p l2 Q) as (q1 & E1 & Q1 & _). rewrite E in E1. injection E1 as <-. by eexists.
  - exists l. apply (qo_set _ _ Q) in Hp. by destruct (tree_add_ok q l p Q Hp Hf) as (q' & -> & Q' & _).
  - exists l. rewrite (qo_set _ _ Q) in Hp. by apply queue_ok_free.
Qed.

(** C26. In every state that the operations lead to, if a structure is put into the tree
    only once, the structures of the queue form one doubly linked list without a path
    twice, the table of the queued paths and the counters agree with it, and every file
    of the tree has its structure. So the next operation always succeeds: no pointer to a
    freed structure is followed, and the program never ends with the message of a bad
    queue head. *)
Theorem queue_well_formed exclude q : reachable exclude q ->
  (exists l, queue_ok q l) /\
  (forall s len, exists x q', enqueue_item exclude s len q = Ret (x, q')) /\
  (forall p, p ∈ queued_files q -> exists q', dequeue_item p q = Ret q' /\ p ∉ queued_files q').
Proof.
  intros [l Q]%reachable_ok. split; [by exists l|]. split.
  - intros s len. destruct (enqueue_item_ok exclude s len q l Q) as (q' & E & _). by eauto.
  - intros p Hp. apply (qo_set _ _ Q), list_elem_of_split in Hp as (l1 & l2 & ->).
    destruct (dequeue_item_ok q l1 p l2 Q) as (q' & E & Q' & _). exists q'. split; [done|]. rewrite (qo_set _ _ Q').
    intros Hp. apply (queue_nodup_ne l1 l2 p p (qo_nodup _ _ Q)); [|done]. by apply elem_of_app.
Qed.

(** The state after two paths were enqueued, and the first went to the tree. *)
Definition two_paths : put :=
  match enqueue_item (fun _ => false) "/a" (-1) put0 with
  | Ret (_, q) => match enqueue_item (fun _ => false) "/b/c" 2 q with Ret (_, q) => snd (tree_add_file "/a" q) | _ => q end
  | _ => put0
  end.

Lemma queue_well_formed_witness : exists q', dequeue_item "/a" two_paths = Ret q' /\ "/a"%string ∉ queued_files q'.
Proof.
  apply (queue_well_formed (fun _ => false) two_paths).
  - unfold two_paths. destruct (enqueue_item (fun _ => false) "/a" (-1) put0) as [[x q]| | |] eqn:E; [|by constructor..].
    assert (R : reachable (fun _ => false) q) by (eapply reach_enqueue; [apply reach_start|exact E]).
    destruct (enqueue_item (fun _ => false) "/b/c" 2 q) as [[x' q']| | |] eqn:E'; try done.
    apply reach_tree; [eapply reach_enqueue; [exact R|exact E']|..];
      vm_compute in E; injection E as <- <-; vm_compute in E'; injection E' as <- <-; apply (bool_decide_unpack _); vm_compute; exact I.
  - apply (bool_decide_unpack _). vm_compute. exact I.
Defined.

(** ** What an operation that only enqueues may do *)

(** A law of the structures: what holds of the data of each of them, and how it may
    change. *)
Record structure_law := {
  sl_ok : string -> file -> Prop;
  sl_then : string -> file -> file -> Prop;
  sl_new p : sl_ok p file0;
  sl_refl p f : sl_then p f f;
  sl_trans p f g k : sl_then p f g -> sl_then p g k -> sl_then p f k;
}.

Definition any_file : structure_law.
Proof. by refine {| sl_ok _ _ := True; sl_then _ _ _ := True |}. Defined.

Section Grows.
Variable exclude : string -> bool.
Variable known : structure_law.

Definition stats_ok (q : put) : Prop := forall p f, heap q !! p = Some f -> sl_ok known p (data f).

(** Every structure is in the queue or in the tree. *)
Definition heap_ok (q : put) : Prop := forall p, is_Some (heap q !! p) -> p ∈ queued_files q \/ p ∈ files q.

(** New items of [allowed] are in front of the old ones; the tree is untouched. *)
Record grows (allowed : string -> Prop) (q q' : put) : Prop := {
  g_files : files q' = files q;
  g_queue l : queue_ok q l -> exists l', queue_ok q' (l' ++ l);
  g_stats : stats_ok q -> stats_ok q';
  g_data p f : p ∈ files q -> stats_ok q -> heap q !! p = Some f -> exists f', heap q' !! p = Some f' /\ sl_then known p (data f) (data f');
  g_heap : heap_ok q -> heap_ok q';
  g_new p : p ∈ queued_files q' -> p ∈ queued_files q \/ (allowed p /\ exclude p = false /\ p ∉ files q);
}.

(** The path is on its way into the tree, or excluded. *)
Definition settled (p : string) (q : put) : Prop := exclude p = true \/ p ∈ queued_files q \/ p ∈ files q.

Lemma grows_refl A q : grows A q q.
Proof.
  split; [done| |done| |done|by left].
  - intros l Q. by exists [].
  - intros p f _ _ Hf. exists f. split; [done|apply sl_refl].
Qed.

Lemma grows_trans A q1 q2 q3 : grows A q1 q2 -> grows A q2 q3 -> grows A q1 q3.
Proof.
  intros H1 H2. split.
  - by rewrite (g_files _ _ _ H2), (g_files _ _ _ H1).
  - intros l Q. destruct (g_queue _ _ _ H1 l Q) as [l1 Q1]. destruct (g_queue _ _ _ H2 _ Q1) as [l2 Q2].
    exists (l2 ++ l1). by rewrite <- app_assoc.
  - intros Hs. by apply (g_stats _ _ _ H2), (g_stats _ _ _ H1).
  - intros p f Hp Hs Hf. destruct (g_data _ _ _ H1 p f Hp Hs Hf) as (f1 & Hf1 & T1). rewrite <- (g_files _ _ _ H1) in Hp.
    destruct (g_data _ _ _ H2 p f1 Hp (g_stats _ _ _ H1 Hs) Hf1) as (f2 & Hf2 & T2). exists f2. split; [done|by eapply sl_trans].
  - intros Hh. by apply (g_heap _ _ _ H2), (g_heap _ _ _ H1).
  - intros p Hp. destruct (g_new _ _ _ H2 p Hp) as [Hp'|(? & ? & ?)]; [by apply (g_new _ _ _ H1)|]. right. by rewrite <- (g_files _ _ _ H1).
Qed.

Lemma grows_weaken (A B : string -> Prop) q q' : (forall p, A p -> B p) -> grows A q q' -> grows B q q'.
Proof. intros H [H1 H2 H3 H4 H5 H6]. split; [done|done|done|done|done|]. intros p Hp. destruct (H6 p Hp) as [?|(? & ? & ?)]; [by left|right; auto]. Qed.

Lemma settled_mono A p q q' l : queue_ok q l -> grows A q q' -> settled p q -> settled p q'.
Proof.
  intros Q G [?|[Hp|Hp]]; [by left| |].
  - right. left. destruct (g_queue _ _ _ G l Q) as [l' Q']. rewrite (qo_set _ _ Q'). rewrite (qo_set _ _ Q) in Hp. set_solver.
  - right. right. by rewrite (g_files _ _ _ G).
Qed.

(** Every enqueue_item is such an operation, and it settles its path. *)
Lemma enqueue_item_grows s len q l : queue_ok q l -> exists x q', enqueue_item exclude s len q = Ret (x, q') /\
  grows (eq (item_path s len)) q q' /\ settled (item_path s len) q' /\
  (forall f, x = Some f -> f = item_path s len /\ f ∈ queued_files q').
Proof.
  intros Q. destruct (enqueue_item_ok exclude s len q l Q) as (q' & E & Q' & Hf & Hdata). set (path := item_path s len) in *.
  set (new := fresh exclude path q l) in *. eexists _, q'. split; [exact E|].
  assert (Hset : forall p, p ∈ queued_files q' <-> p ∈ queued_files q \/ (new = true /\ p = path)).
  { intros p. rewrite (qo_set _ _ Q'), (qo_set _ _ Q). destruct new; [rewrite elem_of_cons|]; naive_solver. }
  assert (Hnew : new = true <-> exclude path = false /\ path ∉ l /\ path ∉ files q).
  { unfold new, fresh. rewrite !andb_true_iff, !negb_true_iff, !bool_decide_eq_false. tauto. }
  split_and!.
  - split; [done| | | | |].
    + intros l0 Q0. assert (Hl : forall x, x ∈ l0 <-> x ∈ l) by (intros; by rewrite <- (qo_set _ _ Q), (qo_set _ _ Q0)).
      destruct (enqueue_item_ok exclude s len q l0 Q0) as (q'' & E' & Q'' & _). rewrite E in E'. injection E' as _ <-.
      fold path in Q''. destruct (fresh exclude path q l0); [by exists [path]|by exists []].
    + intros Hs p f' Hp. specialize (Hdata p). rewrite Hp in Hdata. change (data <$> Some f') with (Some (data f')) in Hdata.
      destruct (new && bool_decide (p = path)).
      * assert (data f' = file0) as -> by congruence. apply sl_new.
      * destruct (heap q !! p) as [f|] eqn:Ef; [|done]. change (data <$> Some f) with (Some (data f)) in Hdata.
        assert (data f' = data f) as -> by congruence. by apply (Hs p f).
    + intros p f Hin Hs Hp. specialize (Hdata p). destruct (heap q' !! p) as [f'|] eqn:Ef'.
      * exists f'. split; [done|]. change (data <$> Some f') with (Some (data f')) in Hdata. destruct (new && bool_decide (p = path)) eqn:En.
        -- apply andb_true_iff in En as [En ->%bool_decide_eq_true]. by apply Hnew in En as (_ & _ & Hq).
        -- rewrite Hp in Hdata. change (data <$> Some f) with (Some (data f)) in Hdata. assert (data f' = data f) as -> by congruence. apply sl_refl.
      * rewrite Hp in Hdata. by destruct (new && bool_decide (p = path)).
    + intros Hh p [f' Hp]. specialize (Hdata p). rewrite Hp in Hdata. rewrite Hset, Hf. destruct (new && bool_decide (p = path)) eqn:En.
      * apply andb_true_iff in En as [En ->%bool_decide_eq_true]. left. by right.
      * destruct (heap q !! p) as [f|] eqn:Ef; [|done]. destruct (Hh p) as [?|?]; [by rewrite Ef|left; by left|by right].
    + intros p. rewrite Hset. intros [?|[Hn ->]]; [by left|]. right. apply Hnew in Hn as (? & ? & ?). done.
  - unfold settled. rewrite Hset, Hf. destruct (exclude path) eqn:Ee; [by left|]. right.
    destruct (decide (path ∈ l)); [left; left; by apply (qo_set _ _ Q)|]. destruct (decide (path ∈ files q)); [by right|].
    left. right. split; [by apply Hnew|done].
  - intros f Hx. rewrite Hset. destruct (exclude path) eqn:Ee; [done|].
    destruct (decide (path ∈ l)) as [Hl|Hl].
    + rewrite (bool_decide_eq_true_2 (path ∈ l)) in Hx by done. injection Hx as <-. split; [done|]. left. by apply (qo_set _ _ Q).
    + rewrite (bool_decide_eq_false_2 (path ∈ l)) in Hx by done. cbn [negb andb] in Hx.
      destruct (decide (path ∈ files q)) as [Hq|Hq].
      * by rewrite bool_decide_eq_true_2 in Hx.
      * rewrite bool_decide_eq_false_2 in Hx by done. injection Hx as <-. split; [done|]. right. split; [by apply Hnew|done].
Qed.

(** An assignment to fields that are not links. *)
Lemma grows_update A q p g : (forall f, prev (g f) = prev f) -> (forall f, next (g f) = next f) ->
  (forall f, heap q !! p = Some f -> sl_ok known p (data f) -> sl_ok known p (data (g f)) /\ sl_then known p (data f) (data (g f))) ->
  grows A q (with_heap (alter g p (heap q)) q).
Proof.
  intros H1 H2 H3. split; [done| | | | |by left].
  - intros l Q. exists []. by apply queue_ok_update.
  - intros Hs x f' Hx. cbn in Hx. destruct (decide (p = x)) as [->|Hn].
    + rewrite lookup_alter_eq in Hx. destruct (heap q !! x) as [f|] eqn:Ef; [|done]. injection Hx as <-. apply H3; [done|]. by apply Hs.
    + rewrite lookup_alter_ne in Hx by done. by apply Hs.
  - intros x f _ Hs Hx. cbn. destruct (decide (p = x)) as [->|Hn].
    + rewrite lookup_alter_eq, Hx. eexists. split; [done|]. by apply H3, Hs.
    + rewrite lookup_alter_ne by done. exists f. split; [done|apply sl_refl].
  - intros Hh x Hx. apply Hh. cbn in Hx. by rewrite lookup_alter_is_Some in Hx.
Qed.

End Grows.
