(* ===== verification/PutCanon.v ===== *)
(** initrd-put: the canonical path of a name (enqueue_canonicalized_path and its
    helpers in initrd-put.c).

    The buffer rname is the list of the bytes in front of [dest]; a write behind its
    end is [Undef]. The file system is a parameter. *)

From Stdlib Require Import ZArith Ascii String Lia.
From stdpp Require Import base list strings gmap sets tactics numbers.
From S2P Require Import Prelude CString PutQueue.

Open Scope Z_scope.
Open Scope cprog_scope.

(** The calls that look at a path. [readlink] is the target or errno; [stat_ok] that
    stat succeeds or fails with EOVERFLOW. *)
Record path_calls := {
  getcwd : option bytes;
  readlink : bytes -> bytes + Z;
  stat_ok : bytes -> bool;
}.

Definition EINVAL : Z := 22.
Definition MAXSYMLINKS : Z := 20.
Definition dir_suffix : bytes := #"/./".
Definition RNAME_SIZE : Z := PATH_MAX + (lenZ dir_suffix + 1) + 1.

Definition is_sep (c : ascii) : bool := bool_decide (c = "/"%char).

(** The part of the suffix behind a slash. *)
Fixpoint after_slash (e : bytes) : bool :=
  match e with
  | [] => true
  | "/"%char :: e' => after_slash e'
  | "."%char :: e' =>
      match e' with
      | [] => true
      | "/"%char :: e'' => after_slash e''
      | "."%char :: e'' => match e'' with [] => true | x :: _ => is_sep x end
      | _ => false
      end
  | _ => false
  end.

Definition suffix_requires_dir_check (e : bytes) : bool :=
  match e with "/"%char :: e' => after_slash e' | _ => false end.

Definition dir_check (fs : path_calls) (dir : bytes) : bool := stat_ok fs (dir ++ dir_suffix).

(** The component in front of the next separator. *)
Fixpoint span_comp (s : bytes) : bytes * bytes :=
  match s with
  | c :: s' => if is_sep c then ([], s) else let '(a, b) := span_comp s' in (c :: a, b)
  | [] => ([], [])
  end.

Definition ends_with_sep (r : bytes) : bool := match list.last r with Some c => is_sep c | None => false end.

(** [dest] goes back behind the separator in front of the last component. *)
Definition pop_dest (r : bytes) : bytes :=
  if lenZ r >? 1 then rev (skip_while (fun c => negb (is_sep c)) (List.tl (rev r))) else r.

Definition put_slash (r : bytes) : out bytes :=
  if ends_with_sep r then Ret r else if lenZ r <? RNAME_SIZE then Ret (r ++ ["/"%char]) else Undef.

(** The label error writes the NUL and exits. *)
Definition canon_error {A} (r : bytes) : out A :=
  if lenZ r <? RNAME_SIZE then Die EXIT_FAILURE "unable to process component of path" else Undef.

(** readlink fills at most PATH_MAX bytes of the buffer. *)
Definition read_link (fs : path_calls) (r : bytes) : bytes + Z :=
  match readlink fs r with inl t => inl (takeZ PATH_MAX t) | inr e => inr e end.

Definition is_absolute (s : bytes) : bool := match s with c :: _ => is_sep c | [] => false end.

(** The loop over the components of [rest]; [links] were followed so far. *)
Fixpoint canon_loop (exclude : string -> bool) (fs : path_calls) (fuel : nat) (r rest : bytes) (links : Z) (q : put)
    : out (bytes * Z * put) :=
  match fuel with
  | O => NoFuel
  | S fuel =>
      if decide (rest = []) then Ret (r, links, q) else
      let '(c, e) := span_comp (skip_while is_sep rest) in
      if decide (c = []) then Ret (r, links, q)
      else if decide (c = #".") then canon_loop exclude fs fuel r e links q
      else if decide (c = #"..") then canon_loop exclude fs fuel (pop_dest r) e links q
      else
        let! r := put_slash r in
        if RNAME_SIZE - lenZ r <? lenZ c + (lenZ dir_suffix + 1) then canon_error r else
        let r := r ++ c in
        match read_link fs r with
        | inl t =>
            if links + 1 >? MAXSYMLINKS then canon_error r else
            let! x := enqueue_item exclude (str r) (-1) q in
            if PATH_MAX + 1 <=? lenZ e + lenZ t then Die EXIT_FAILURE "bad path"
            else canon_loop exclude fs fuel (if is_absolute t then #"/" else pop_dest r) (t ++ e) (links + 1) (snd x)
        | inr errno =>
            if (if suffix_requires_dir_check e then dir_check fs r else errno =? EINVAL)
            then canon_loop exclude fs fuel r e links q else canon_error r
        end
  end.

Definition set_recursive (b : bool) (f : file) : file :=
  {| prev := prev f; next := next f; f_stat := f_stat f; dst := dst f; symlink := symlink f;
     hardlink_target := hardlink_target f; recursive := b; installed := installed f |}.

(** Enough for every name: each symlink leaves at most PATH_MAX bytes to look at. *)
Definition canon_fuel (name : bytes) : nat := S (Z.to_nat ((MAXSYMLINKS + 1) * (PATH_MAX + 1)) + length name).

Definition enqueue_canonicalized_path (exclude : string -> bool) (fs : path_calls) (name : bytes) (add_recursively : bool)
    (q : put) : out put :=
  if decide (name = []) then Die EXIT_FAILURE "enqueue_canonicalized_path: parameter points to an empty string" else
  let! r := if is_absolute name then Ret #"/"
            else match getcwd fs with Some d => Ret d | None => Die EXIT_FAILURE "unable to get current directory" end in
  let! x := canon_loop exclude fs (canon_fuel name) r name 0 q in
  let '(r, _, q) := x in
  let r := if (lenZ r >? 1) && ends_with_sep r then removelast r else r in
  if negb (lenZ r <? RNAME_SIZE) then Undef else
  let! x := enqueue_item exclude (str r) (-1) q in
  match fst x with
  | Some f => update f (set_recursive add_recursively) (snd x)
  | None => Ret (snd x)
  end.

(** ** Paths as lists of components *)

(** The components, the last one first. *)
Definition flat (st : list bytes) : bytes := concat (rev (map (cons "/"%char) st)).
Definition path_of (st : list bytes) : bytes := if decide (st = []) then #"/" else flat st.
Definition dirpath (st : list bytes) : bytes := flat st ++ ["/"%char].

Definition comp_ok (c : bytes) : Prop := c <> [] /\ "/"%char ∉ c /\ c <> #"." /\ c <> #"..".

#[export] Instance comp_ok_dec c : Decision (comp_ok c).
Proof. unfold comp_ok. apply _. Defined.

Definition slashes (sl : bytes) : Prop := Forall (fun c => c = "/"%char) sl.
Definition comp_end (e : bytes) : Prop := e = [] \/ is_absolute e = true.

(** A path that is not a symlink may be passed: it exists, and is a directory where
    the rest of the name needs one. *)
Definition may_pass (fs : path_calls) (r e : bytes) (errno : Z) : bool :=
  if suffix_requires_dir_check e then dir_check fs r else errno =? EINVAL.

(** The resolution of the rest of a name from a directory, with paths that fit into
    the buffers: the symlinks on the way and the directory or file that is reached. *)
Inductive resolves (fs : path_calls) : list bytes -> bytes -> list bytes -> list bytes -> Prop :=
  | res_done st rest : slashes rest -> resolves fs st rest [] st
  | res_dot st sl e ls st' : slashes sl -> comp_end e ->
      resolves fs st e ls st' -> resolves fs st (sl ++ #"." ++ e) ls st'
  | res_dotdot st sl e ls st' : slashes sl -> comp_end e ->
      resolves fs (List.tl st) e ls st' -> resolves fs st (sl ++ #".." ++ e) ls st'
  | res_link st sl c e t ls st' : slashes sl -> comp_end e -> comp_ok c ->
      lenZ (path_of (c :: st)) <= PATH_MAX + 1 ->
      read_link fs (path_of (c :: st)) = inl t -> lenZ e + lenZ t <= PATH_MAX ->
      resolves fs (if is_absolute t then [] else st) (t ++ e) ls st' ->
      resolves fs st (sl ++ c ++ e) (path_of (c :: st) :: ls) st'
  | res_plain st sl c e n ls st' : slashes sl -> comp_end e -> comp_ok c ->
      lenZ (path_of (c :: st)) <= PATH_MAX + 1 ->
      read_link fs (path_of (c :: st)) = inr n -> may_pass fs (path_of (c :: st)) e n = true ->
      resolves fs (c :: st) e ls st' -> resolves fs st (sl ++ c ++ e) ls st'.

(** The buffer is the path of [st], perhaps with a slash behind it. *)
Definition rep (r : bytes) (st : list bytes) : Prop := r = path_of st \/ r = dirpath st.

Lemma flat_cons c st : flat (c :: st) = flat st ++ "/"%char :: c.
Proof. unfold flat. cbn. rewrite concat_app. cbn. by rewrite app_nil_r. Qed.

Lemma path_of_cons c st : path_of (c :: st) = dirpath st ++ c.
Proof. unfold path_of, dirpath. rewrite decide_False, flat_cons, <- app_assoc by done. done. Qed.

Lemma path_of_nil : path_of [] = dirpath [].
Proof. done. Qed.

Lemma ends_dirpath st : ends_with_sep (dirpath st) = true.
Proof. unfold ends_with_sep, dirpath. by rewrite last_snoc. Qed.

Lemma ends_path c st : comp_ok c -> ends_with_sep (path_of (c :: st)) = false.
Proof.
  intros (Hc & Hs & _). rewrite path_of_cons. unfold ends_with_sep. destruct c as [|x c _] using rev_ind; [done|].
  rewrite app_assoc, last_snoc. unfold is_sep. apply bool_decide_eq_false_2. set_solver.
Qed.

Lemma skip_notsep (c r : bytes) : "/"%char ∉ c -> skip_while (fun c => negb (is_sep c)) (rev c ++ "/"%char :: r) = "/"%char :: r.
Proof.
  intros Hc. assert (Hr : "/"%char ∉ rev c) by (rewrite list_elem_of_In, <- in_rev, <- list_elem_of_In; done).
  induction (rev c) as [|x l IH]; [done|]. cbn. unfold is_sep at 1. rewrite bool_decide_eq_false_2 by set_solver.
  cbn. apply IH. set_solver.
Qed.

Lemma pop_to st c r x : "/"%char ∉ c -> r = (dirpath st ++ c) ++ [x] -> pop_dest r = dirpath st.
Proof.
  intros Hc ->. unfold pop_dest.
  assert (Hl : lenZ ((dirpath st ++ c) ++ [x]) > 1).
  { unfold dirpath. autorewrite with lenz. change (lenZ ["/"%char]) with 1. pose proof (lenZ_nonneg (flat st)). pose proof (lenZ_nonneg c).
    lia. }
  destruct (_ >? 1) eqn:E; [|rewrite Z.gtb_ltb in E; zlia]. rewrite rev_app_distr. cbn [rev app List.tl].
  rewrite rev_app_distr. unfold dirpath at 1. rewrite rev_app_distr. cbn [rev app].
  rewrite skip_notsep by done. cbn [rev]. by rewrite rev_involutive.
Qed.

(** Going back from the path of a directory gives that of its parent. *)
Lemma pop_dest_rep r st : Forall comp_ok st -> rep r st -> pop_dest r = dirpath (List.tl st).
Proof.
  intros Hst Hr. destruct st as [|c st].
  { assert (r = #"/") as -> by (by destruct Hr). done. }
  apply list.Forall_cons in Hst as [(Hc & Hs & _) _]. cbn [List.tl].
  destruct Hr as [-> | ->].
  - destruct c as [|x c _] using rev_ind; [done|]. apply (pop_to st c _ x); [set_solver|].
    rewrite path_of_cons. by rewrite app_assoc.
  - apply (pop_to st c _ "/"%char); [done|]. unfold dirpath at 1. rewrite flat_cons. unfold dirpath. by rewrite <- !app_assoc.
Qed.

Lemma rep_dirpath st : rep (dirpath st) st.
Proof. by right. Qed.

Lemma rep_path st : rep (path_of st) st.
Proof. by left. Qed.

Lemma put_slash_rep r st : Forall comp_ok st -> rep r st -> lenZ r < RNAME_SIZE -> put_slash r = Ret (dirpath st).
Proof.
  intros Hst Hr Hl. unfold put_slash. destruct Hr as [-> | ->]; [|by rewrite ends_dirpath].
  destruct st as [|c st]; [done|]. apply list.Forall_cons in Hst as [Hc _]. rewrite ends_path by done.
  rewrite (proj2 (Z.ltb_lt _ _)) by done. unfold path_of, dirpath. by rewrite decide_False.
Qed.

Lemma lenZ_dirpath st : lenZ (dirpath st) <= lenZ (path_of st) + 1.
Proof. unfold dirpath, path_of. destruct (decide _) as [->|]; [done|]. rewrite lenZ_app. change (lenZ ["/"%char]) with 1. lia. Qed.

(** ** The split into components *)

Lemma skip_sep rest : exists sl, Forall (fun c => c = "/"%char) sl /\ rest = sl ++ skip_while is_sep rest /\
  is_absolute (skip_while is_sep rest) = false.
Proof.
  induction rest as [|c rest (sl & H1 & H2 & H3)]; [by exists []|]. cbn. destruct (is_sep c) eqn:E.
  - exists (c :: sl). split_and!; [|cbn; congruence|done]. apply list.Forall_cons. split; [|done]. unfold is_sep in E. zlia || by unbool.
  - exists []. split_and!; [done..|]. cbn. done.
Qed.

Lemma span_comp_ok s c e : span_comp s = (c, e) ->
  s = c ++ e /\ "/"%char ∉ c /\ (e = [] \/ is_absolute e = true).
Proof.
  revert c e. induction s as [|x s IH]; intros c e E; cbn in E.
  - injection E as <- <-. split_and!; [done|set_solver|by left].
  - destruct (is_sep x) eqn:Ex.
    + injection E as <- <-. split_and!; [done|set_solver|by right].
    + destruct (span_comp s) as [a b]. injection E as <- <-. destruct (IH a b eq_refl) as (-> & H2 & H3).
      split_and!; try done. unfold is_sep in Ex. unbool. set_solver.
Qed.

Fixpoint enqueue_all (exclude : string -> bool) (l : list bytes) (q : put) : out put :=
  match l with
  | [] => Ret q
  | p :: l => let! x := enqueue_item exclude (str p) (-1) q in enqueue_all exclude l (snd x)
  end.

Lemma rep_lengths r st : Forall comp_ok st -> rep r st ->
  lenZ (dirpath (List.tl st)) <= lenZ r /\ lenZ (dirpath st) <= lenZ r + 1.
Proof.
  intros Hst Hr. pose proof (lenZ_dirpath st). destruct st as [|c st].
  - assert (r = #"/") as -> by (by destruct Hr). cbn [List.tl]. done.
  - cbn [List.tl]. destruct Hr as [-> | ->].
    + split; [|done]. rewrite path_of_cons, lenZ_app. pose proof (lenZ_nonneg c). lia.
    + split; [|lia]. unfold dirpath. rewrite flat_cons, !lenZ_app. cbn [List.app]. rewrite !lenZ_cons. pose proof (lenZ_nonneg c). lia.
Qed.

Lemma takeZ_len {A} n (l : list A) : 0 <= n -> lenZ (takeZ n l) <= n.
Proof. intros Hn. unfold takeZ. destruct (n <=? lenZ l) eqn:E; [|zlia]. unfold lenZ. rewrite length_take. lia. Qed.

(** ** The split of a name is unique *)

Lemma skip_slashes sl s : slashes sl -> is_absolute s = false -> skip_while is_sep (sl ++ s) = s.
Proof.
  intros Hsl Hs. induction Hsl as [|c sl -> Hsl IH]; cbn; [|done]. destruct s as [|x s]; [done|]. cbn in *. by rewrite Hs.
Qed.

Lemma span_comp_app c e : "/"%char ∉ c -> comp_end e -> span_comp (c ++ e) = (c, e).
Proof.
  intros Hc He. induction c as [|x c IH]; cbn.
  - destruct He as [->|He]; [done|]. destruct e as [|x e]; [done|]. cbn in *. by rewrite He.
  - unfold is_sep. rewrite bool_decide_eq_false_2 by set_solver. by rewrite IH by set_solver.
Qed.

Lemma split_name sl c e : slashes sl -> comp_end e -> c <> [] -> "/"%char ∉ c ->
  span_comp (skip_while is_sep (sl ++ c ++ e)) = (c, e).
Proof.
  intros Hsl He Hn Hc. rewrite skip_slashes; [by apply span_comp_app|done|]. destruct c as [|x c]; [done|]. cbn.
  unfold is_sep. apply bool_decide_eq_false_2. set_solver.
Qed.

(** How the rest of a name that starts with the component [c] resolves. *)
Definition resolves_next (fs : path_calls) (st : list bytes) (c e : bytes) (ls st' : list bytes) : Prop :=
  if decide (c = []) then ls = [] /\ st' = st
  else if decide (c = #".") then resolves fs st e ls st'
  else if decide (c = #"..") then resolves fs (List.tl st) e ls st'
  else lenZ (path_of (c :: st)) <= PATH_MAX + 1 /\
    match read_link fs (path_of (c :: st)) with
    | inl t => lenZ e + lenZ t <= PATH_MAX /\
        exists ls', ls = path_of (c :: st) :: ls' /\ resolves fs (if is_absolute t then [] else st) (t ++ e) ls' st'
    | inr n => may_pass fs (path_of (c :: st)) e n = true /\ resolves fs (c :: st) e ls st'
    end.

Lemma resolves_inv fs st rest ls st' c e : span_comp (skip_while is_sep rest) = (c, e) ->
  resolves fs st rest ls st' <-> resolves_next fs st c e ls st'.
Proof.
  intros E. unfold resolves_next. split.
  - intros H. destruct H as [st rest Hr|st sl e' ls st' Hs He H|st sl e' ls st' Hs He H|st sl c' e' t ls st' Hs He Hc Hl Ht Hf H|st sl c' e' n ls st' Hs He Hc Hl Hn Hp H].
    + rewrite <- (app_nil_r rest), skip_slashes in E by done. injection E as <- <-. by rewrite decide_True.
    + rewrite split_name in E by (done || by apply (bool_decide_unpack _)). injection E as <- <-. done.
    + rewrite split_name in E by (done || by apply (bool_decide_unpack _)). injection E as <- <-. done.
    + destruct Hc as (H1 & H2 & H3 & H4). rewrite split_name in E by done. injection E as <- <-.
      rewrite !decide_False by done. rewrite Ht. split_and!; try done. by exists ls.
    + destruct Hc as (H1 & H2 & H3 & H4). rewrite split_name in E by done. injection E as <- <-.
      rewrite !decide_False by done. rewrite Hn. done.
  - destruct (skip_sep rest) as (sl & Hsl & Erest & Habs).
    destruct (span_comp_ok _ _ _ E) as (Es & Hc & He). rewrite Es in Erest, Habs. intros H.
    destruct (decide (c = [])) as [->|H1].
    { destruct H as [-> ->]. constructor. destruct He as [->|He]; [|cbn in Habs; congruence]. by rewrite Erest, app_nil_r. }
    rewrite Erest. destruct (decide (c = #".")) as [->|H2]; [by constructor|].
    destruct (decide (c = #"..")) as [->|H3]; [by constructor|]. destruct H as [Hl H].
    destruct (read_link fs (path_of (c :: st))) as [t|n] eqn:Er.
    + destruct H as (Hf & ls' & -> & H). by eapply res_link.
    + destruct H as (Hp & H). by eapply res_plain.
Qed.

Section Loop.
Variables (exclude : string -> bool) (fs : path_calls).

(** The loop either resolves the rest of the name and has enqueued the symlinks on
    the way, or exits, and then there are too many symlinks or no resolution. *)
Definition loop_result (R : list bytes -> list bytes -> Prop) (links : Z) (q : put) (o : out (bytes * Z * put)) : Prop :=
  ((exists code msg, o = Die code msg) /\ forall ls st', R ls st' -> MAXSYMLINKS < links + lenZ ls) \/
  exists r' q' ls st', o = Ret (r', links + lenZ ls, q') /\ R ls st' /\ rep r' st' /\
    Forall comp_ok st' /\ lenZ r' <= RNAME_SIZE - 2 /\ enqueue_all exclude ls q = Ret q' /\ links + lenZ ls <= MAXSYMLINKS.

Lemma loop_result_here st links q r : Forall comp_ok st -> rep r st ->
  lenZ r <= RNAME_SIZE - 2 -> links <= MAXSYMLINKS ->
  loop_result (fun ls st' => ls = [] /\ st' = st) links q (Ret (r, links, q)).
Proof.
  intros Hst Hr Hlen Hlinks. right. exists r, q, [], st. change (lenZ (@nil bytes)) with 0. rewrite Z.add_0_r.
  by split_and!.
Qed.

Lemma loop_result_iff (R R' : list bytes -> list bytes -> Prop) links q o :
  (forall ls st', R ls st' <-> R' ls st') -> loop_result R links q o -> loop_result R' links q o.
Proof.
  intros H [[Hd Hn]|(r' & q' & ls & st' & H1 & H2 & H3)].
  - left. split; [done|]. intros ls st' Hr. apply Hn with st'. by apply H.
  - right. exists r', q', ls, st'. split; [done|]. split; [by apply H|done].
Qed.

Lemma loop_result_link (R : list bytes -> list bytes -> Prop) links q q1 x o p :
  enqueue_item exclude (str p) (-1) q = Ret (x, q1) ->
  loop_result R (links + 1) q1 o -> loop_result (fun ls st' => exists ls', ls = p :: ls' /\ R ls' st') links q o.
Proof.
  intros Hq [[Hd Hn]|(r' & q' & ls & st' & H1 & H2 & H3 & H4 & H5 & H6 & H7)].
  - left. split; [done|]. intros ls st' (ls' & -> & Hr). apply Hn in Hr. rewrite lenZ_cons. lia.
  - right. exists r', q', (p :: ls), st'. rewrite lenZ_cons, Z.add_assoc. split_and!; try done; [by exists ls|].
    cbn. rewrite Hq. done.
Qed.

Lemma canon_error_die {A} r : lenZ r < RNAME_SIZE -> exists code msg, @canon_error A r = Die code msg.
Proof. intros H. unfold canon_error. rewrite (proj2 (Z.ltb_lt _ _)) by done. by eexists _, _. Qed.

Lemma loop_result_error R links q r : lenZ r < RNAME_SIZE -> (forall ls st', R ls st' -> MAXSYMLINKS < links + lenZ ls) ->
  loop_result R links q (canon_error r).
Proof. intros Hr HR. left. split; [by apply canon_error_die|done]. Qed.

Lemma canon_loop_ok fuel : forall r rest st links q l,
  queue_ok q l -> Forall comp_ok st -> rep r st -> lenZ r <= RNAME_SIZE - 2 -> 0 <= links <= MAXSYMLINKS ->
  (Z.of_nat (length rest) + (MAXSYMLINKS - links) * (PATH_MAX + 1) < Z.of_nat fuel) ->
  loop_result (resolves fs st rest) links q (canon_loop exclude fs fuel r rest links q).
Proof.
  induction fuel as [|fuel IH]; intros r rest st links q l Q Hst Hr Hlen Hlinks Hfuel; [unfold PATH_MAX in *; nia|].
  cbn [canon_loop].
  destruct (span_comp (skip_while is_sep rest)) as [c e] eqn:Espan.
  apply (loop_result_iff (resolves_next fs st c e)); [intros; symmetry; by apply resolves_inv|].
  destruct (skip_sep rest) as (sl & Hsl & Erest & Habs).
  destruct (span_comp_ok _ _ _ Espan) as (Es & Hc & He). rewrite Es in Erest, Habs.
  assert (Hlrest : Z.of_nat (length rest) = lenZ sl + lenZ c + lenZ e) by (rewrite Erest; unfold lenZ; rewrite !length_app; lia).
  pose proof (lenZ_nonneg sl). pose proof (lenZ_nonneg c). pose proof (lenZ_nonneg e).
  destruct (rep_lengths r st Hst Hr) as [Hl1 Hl2]. unfold resolves_next.
  destruct (decide (rest = [])) as [->|Hrest].
  { injection Espan as <- <-. apply loop_result_here; try done; apply Hlinks. }
  destruct (decide (c = [])) as [->|Hc0]; [apply loop_result_here; try done; apply Hlinks|].
  assert (1 <= lenZ c) by (destruct c; [done|]; rewrite lenZ_cons; pose proof (lenZ_nonneg c); lia).
  unfold PATH_MAX, MAXSYMLINKS in Hfuel.
  destruct (decide (c = #".")) as [->|Hdot].
  { eapply IH; try done. unfold lenZ, PATH_MAX, MAXSYMLINKS in *. lia. }
  destruct (decide (c = #"..")) as [->|Hdd].
  { rewrite (pop_dest_rep r st) by done.
    eapply IH; try done; [by apply list.Forall_tail|apply rep_dirpath|lia|]. unfold lenZ, PATH_MAX, MAXSYMLINKS in *. lia. }
  assert (Hok : comp_ok c) by done.
  rewrite (put_slash_rep r st) by (done || lia). cbn [obind].
  assert (Hsz : RNAME_SIZE = PATH_MAX + 5) by done. change (lenZ dir_suffix) with 3.
  assert (Hlp : lenZ (path_of (c :: st)) = lenZ (dirpath st) + lenZ c) by (by rewrite path_of_cons, lenZ_app).
  destruct (RNAME_SIZE - _ <? _) eqn:Esize; unbool.
  { apply loop_result_error; [lia|]. intros ls st' [Hf _]. lia. }
  rewrite <- path_of_cons. assert (Hcst : Forall comp_ok (c :: st)) by (by apply list.Forall_cons).
  destruct (read_link fs (path_of (c :: st))) as [t|n] eqn:Elink.
  - destruct (links + 1 >? MAXSYMLINKS) eqn:Emax; rewrite Z.gtb_ltb in Emax; unbool.
    { apply loop_result_error; [lia|]. intros ls st' (_ & _ & ls' & -> & _). rewrite lenZ_cons. pose proof (lenZ_nonneg ls'). lia. }
    destruct (enqueue_item_ok exclude (str (path_of (c :: st))) (-1) q l Q) as (q1 & Eq & Q1 & _). rewrite Eq. cbn [obind snd].
    destruct (PATH_MAX + 1 <=? lenZ e + lenZ t) eqn:Ebad; unbool.
    { left. split; [by eexists _, _|]. intros ls st' (_ & Hf & _). lia. }
    apply (loop_result_iff (fun ls st' => exists ls', ls = path_of (c :: st) :: ls' /\
      resolves fs (if is_absolute t then [] else st) (t ++ e) ls' st')).
    { intros ls st'. split; [|naive_solver]. intros HR. split_and!; [lia|lia|done]. }
    eapply loop_result_link; [exact Eq|]. destruct (rep_lengths _ _ Hcst (rep_path (c :: st))) as [Hl3 _].
    eapply IH; [exact Q1|by destruct (is_absolute t)| | |lia|].
    + destruct (is_absolute t); [by left|]. rewrite (pop_dest_rep _ (c :: st)) by (done || apply rep_path). apply rep_dirpath.
    + destruct (is_absolute t); [done|]. rewrite (pop_dest_rep _ (c :: st)) by (done || apply rep_path). lia.
    + rewrite length_app. unfold lenZ, PATH_MAX, MAXSYMLINKS in *. lia.
  - fold (may_pass fs (path_of (c :: st)) e n). destruct (may_pass fs (path_of (c :: st)) e n) eqn:Epass.
    + apply (loop_result_iff (resolves fs (c :: st) e)); [intros ls st'; split; [intros HR; split_and!; [lia|done|done]|naive_solver]|].
      eapply IH; try done; [apply rep_path|lia|]. unfold lenZ, PATH_MAX, MAXSYMLINKS in *. lia.
    + apply loop_result_error; [lia|]. intros ls st' (_ & Hp & _). done.
Qed.
End Loop.

(** No directory on the way to [st] and not [st] itself is a symlink. *)
Fixpoint nolinks (fs : path_calls) (st : list bytes) : Prop :=
  match st with
  | [] => True
  | _ :: st' => (exists n, read_link fs (path_of st) = inr n) /\ nolinks fs st'
  end.

Lemma nolinks_tl fs st : nolinks fs st -> nolinks fs (List.tl st).
Proof. destruct st; [done|]. by intros [_ ?]. Qed.

Lemma resolves_nolinks fs st rest ls st' : resolves fs st rest ls st' -> nolinks fs st -> nolinks fs st'.
Proof.
  induction 1 as [| | st sl e ls st' Hs He H IH| st sl c e t ls st' Hs He Hc Hl Ht Hf H IH| st sl c e n ls st' Hs He Hc Hl Hn Hp H IH];
    intros Hst; auto.
  - apply IH. by apply nolinks_tl.
  - apply IH. by destruct (is_absolute t).
  - apply IH. split; [by exists n|done].
Qed.

(** Where the resolution of a name starts. *)
Definition starts_at (fs : path_calls) (name : bytes) (st0 : list bytes) : Prop :=
  if is_absolute name then st0 = []
  else getcwd fs = Some (path_of st0) /\ lenZ (path_of st0) <= RNAME_SIZE - 2 /\ Forall comp_ok st0.

Lemma starts_at_ok fs name st0 : starts_at fs name st0 -> Forall comp_ok st0 /\ lenZ (path_of st0) <= RNAME_SIZE - 2.
Proof. unfold starts_at. destruct (is_absolute name); [intros ->; by split|naive_solver]. Qed.

Lemma strip_rep r st : Forall comp_ok st -> rep r st ->
  (if (lenZ r >? 1) && ends_with_sep r then removelast r else r) = path_of st.
Proof.
  intros Hst Hr. destruct st as [|c st].
  { assert (r = #"/") as -> by (by destruct Hr). done. }
  apply list.Forall_cons in Hst as [Hc _]. destruct Hr as [-> | ->].
  - rewrite ends_path by done. by rewrite andb_false_r.
  - rewrite ends_dirpath, andb_true_r. unfold dirpath. rewrite removelast_last. unfold path_of. rewrite decide_False by done.
    rewrite lenZ_app. change (lenZ ["/"%char]) with 1. rewrite flat_cons, lenZ_app, lenZ_cons.
    pose proof (lenZ_nonneg c). pose proof (lenZ_nonneg (flat st)).
    destruct (_ >? 1) eqn:E; [done|]. rewrite Z.gtb_ltb in E. zlia.
Qed.

Lemma enqueue_all_ok exclude ls : forall q l, queue_ok q l -> exists q' l', enqueue_all exclude ls q = Ret q' /\ queue_ok q' l'.
Proof.
  induction ls as [|p ls IH]; intros q l Q; [by exists q, l|]. cbn.
  destruct (enqueue_item_ok exclude (str p) (-1) q l Q) as (q1 & -> & Q1 & _). cbn. by eapply IH.
Qed.

Lemma enqueue_canonicalized_ok exclude fs name rec st0 q l :
  name <> [] -> queue_ok q l -> starts_at fs name st0 ->
  ((exists code msg, enqueue_canonicalized_path exclude fs name rec q = Die code msg) /\
   forall ls st', resolves fs st0 name ls st' -> MAXSYMLINKS < lenZ ls) \/
  exists ls st' q1 x q2, resolves fs st0 name ls st' /\ lenZ ls <= MAXSYMLINKS /\ Forall comp_ok st' /\
    enqueue_all exclude ls q = Ret q1 /\ enqueue_item exclude (str (path_of st')) (-1) q1 = Ret (x, q2) /\
    enqueue_canonicalized_path exclude fs name rec q =
      match x with Some f => update f (set_recursive rec) q2 | None => Ret q2 end.
Proof.
  intros Hn Q Hs. destruct (starts_at_ok _ _ _ Hs) as [Hst Hlen]. unfold enqueue_canonicalized_path.
  rewrite decide_False by done.
  assert (E0 : (if is_absolute name then Ret #"/" else match getcwd fs with Some d => Ret d
    | None => Die EXIT_FAILURE "unable to get current directory" end) = Ret (path_of st0)).
  { unfold starts_at in Hs. destruct (is_absolute name); [by subst|]. destruct Hs as (-> & _). done. }
  rewrite E0. cbn [obind].
  assert (H0 : 0 <= 0 <= MAXSYMLINKS) by done.
  destruct (canon_loop_ok exclude fs (canon_fuel name) (path_of st0) name st0 0 q l Q Hst (rep_path st0) Hlen H0)
    as [[(code & msg & ->) HR]|(r' & q' & ls & st' & -> & HR & Hr & Hst' & Hlen' & Hq & Hls)].
  { unfold canon_fuel, MAXSYMLINKS, PATH_MAX. lia. }
  - left. split; [by eexists _, _|]. intros ls st' H. by apply (HR ls st').
  - right. destruct (enqueue_all_ok exclude ls q l Q) as (q1 & l1 & Hq1 & Q1). rewrite Hq in Hq1. injection Hq1 as <-.
    destruct (enqueue_item_ok exclude (str (path_of st')) (-1) q' l1 Q1) as (q2 & Eq & _).
    eexists ls, st', q', _, q2. split_and!; try done. cbn [obind]. rewrite (strip_rep r' st') by done.
    assert (Hfit : lenZ (path_of st') < RNAME_SIZE).
    { rewrite <- (strip_rep r' st' Hst' Hr). destruct ((lenZ r' >? 1) && ends_with_sep r'); [|lia].
      assert (lenZ (removelast r') <= lenZ r'); [|lia]. clear. induction r' as [|x r IH]; [done|]. cbn [removelast].
      destruct r; [done|]. rewrite !lenZ_cons in *. lia. }
    rewrite (proj2 (Z.ltb_lt _ _)) by done. cbn [negb]. rewrite Eq. cbn [obind fst snd]. done.
Qed.

(** C10. The name is resolved as the file system resolves it: with at most
    MAXSYMLINKS symlinks and paths that fit into the buffers, every symlink on the
    way is enqueued in order and then the path that is reached, whose components
    are proper names and which passes through no symlink. Otherwise the program
    exits. The loop ends for every name and every file system, and the buffer is
    never written outside its bounds. All this holds for an absolute name, or in a
    working directory whose path has at most RNAME_SIZE - 2 bytes and passes through no
    symlink. *)
Theorem canonicalized_path exclude fs name add_recursively st0 q l :
  name <> [] -> queue_ok q l -> starts_at fs name st0 -> nolinks fs st0 ->
  ((exists code msg, enqueue_canonicalized_path exclude fs name add_recursively q = Die code msg) /\
   forall ls st', resolves fs st0 name ls st' -> MAXSYMLINKS < lenZ ls) \/
  exists ls st' q1 x q2, resolves fs st0 name ls st' /\ lenZ ls <= MAXSYMLINKS /\
    Forall comp_ok st' /\ nolinks fs st' /\
    enqueue_all exclude ls q = Ret q1 /\ enqueue_item exclude (str (path_of st')) (-1) q1 = Ret (x, q2) /\
    enqueue_canonicalized_path exclude fs name add_recursively q =
      match x with Some f => update f (set_recursive add_recursively) q2 | None => Ret q2 end.
Proof.
  intros Hn Q Hs Hl. destruct (enqueue_canonicalized_ok exclude fs name add_recursively st0 q l Hn Q Hs)
    as [?|(ls & st' & q1 & x & q2 & HR & Hls & Hst & H1 & H2 & H3)]; [by left|right].
  exists ls, st', q1, x, q2. split_and!; try done. by eapply resolves_nolinks.
Qed.

(** A file system with the links /l -> d and /d/up -> ../d/f. *)
Definition example_fs : path_calls :=
  {| getcwd := Some #"/d";
     readlink := fun r => if bool_decide (r = #"/l") then inl #"d" else if bool_decide (r = #"/d/up") then inl #"../d/f"
       else if bool_decide (r ∈ [ #"/d"; #"/d/f"]) then inr EINVAL else inr 2;
     stat_ok := fun r => bool_decide (r ∈ [ #"/d/./"]) |}.

(** The queue after a relative name through both. *)
Example example_canon :
  (let! q := enqueue_canonicalized_path (fun _ => false) example_fs #"..//l/./up" true put0 in Ret (elements (queued_files q), inqueue q))
  = Ret (["/l"; "/d/up"; "/d/f"]%string, Some "/d/f"%string).
Proof. vm_compute. reflexivity. Qed.

Lemma canonicalized_path_witness :
  ((exists code msg, enqueue_canonicalized_path (fun _ => false) example_fs #"..//l/./up" true put0 = Die code msg) /\
   forall ls st', resolves example_fs [ #"d"] #"..//l/./up" ls st' -> MAXSYMLINKS < lenZ ls) \/
  exists ls st' q1 x q2, resolves example_fs [ #"d"] #"..//l/./up" ls st' /\ lenZ ls <= MAXSYMLINKS /\
    Forall comp_ok st' /\ nolinks example_fs st' /\
    enqueue_all (fun _ => false) ls put0 = Ret q1 /\ enqueue_item (fun _ => false) (str (path_of st')) (-1) q1 = Ret (x, q2) /\
    enqueue_canonicalized_path (fun _ => false) example_fs #"..//l/./up" true put0 =
      match x with Some f => update f (set_recursive true) q2 | None => Ret q2 end.
Proof.
  apply (canonicalized_path (fun _ => false) example_fs #"..//l/./up" true [ #"d"] put0 []).
  - done.
  - apply queue_ok_empty.
  - change (getcwd example_fs = Some (path_of [ #"d"]) /\ lenZ (path_of [ #"d"]) <= RNAME_SIZE - 2 /\ Forall comp_ok [ #"d"]).
    split; [reflexivity|]. split; [discriminate|]. apply (bool_decide_unpack _). vm_compute. exact I.
  - split; [exists EINVAL; vm_compute; reflexivity|exact I].
Defined.

(** In a working directory whose path is one byte shorter than the buffer (which
    getcwd can return), a relative name makes the program write the NUL one byte
    behind the end of the buffer. *)
Theorem long_cwd_overflow exclude fs c rec st0 q :
  comp_ok c -> st0 <> [] -> Forall comp_ok st0 -> getcwd fs = Some (path_of st0) -> lenZ (path_of st0) = RNAME_SIZE - 1 ->
  enqueue_canonicalized_path exclude fs c rec q = Undef.
Proof.
  intros Hc Hne Hst Hcwd Hlen. unfold enqueue_canonicalized_path. destruct Hc as (H1 & H2 & H3 & H4).
  rewrite decide_False by done.
  assert (Habs : is_absolute c = false).
  { destruct c as [|x c]; [done|]. cbn. unfold is_sep. apply bool_decide_eq_false_2. set_solver. }
  rewrite Habs, Hcwd. cbn [obind]. unfold canon_fuel. cbn [canon_loop]. rewrite decide_False by done.
  rewrite <- (app_nil_r c) at 1. change (c ++ []) with ([] ++ c ++ []).
  rewrite split_name by (try done; by left). rewrite !decide_False by done.
  rewrite (put_slash_rep _ st0) by (done || apply rep_path || lia). cbn [obind].
  assert (Hd : lenZ (dirpath st0) = RNAME_SIZE).
  { unfold dirpath. unfold path_of in Hlen. rewrite decide_False in Hlen by done. rewrite lenZ_app.
    change (lenZ ["/"%char]) with 1. lia. }
  rewrite Hd. pose proof (lenZ_nonneg c). change (lenZ dir_suffix) with 3.
  rewrite (proj2 (Z.ltb_lt _ _)) by lia. unfold canon_error. rewrite Hd, Z.ltb_irrefl. done.
Qed.

(** Forty directories of a hundred bytes and one of fifty-nine. *)
Definition deep_dir : list bytes := replicate 59 "a"%char :: replicate 40 (replicate 100 "a"%char).

Lemma long_cwd_overflow_witness :
  enqueue_canonicalized_path (fun _ => false)
    {| getcwd := Some (path_of deep_dir); readlink := fun _ => inr EINVAL; stat_ok := fun _ => true |} #"x" true put0 = Undef.
Proof.
  apply (long_cwd_overflow _ _ #"x" true deep_dir put0).
  - apply (bool_decide_unpack _). vm_compute. exact I.
  - discriminate.
  - apply (bool_decide_unpack _). vm_compute. exact I.
  - reflexivity.
  - vm_compute. reflexivity.
Defined.
