(* ===== verification/PutDeps.v ===== *)
(** initrd-put: what a regular file needs (enqueue-shebang.c, enqueue-library.c,
    elf_dlopen.c): the interpreter of a script, the shared libraries that ldd lists
    or that the cache knows, and those that the file opens at run time.

    libelf, json-c, ldd, dlopen, the regular expressions and the environment are
    parameters. *)

From Stdlib Require Import ZArith Ascii String Lia.
From stdpp Require Import base list strings gmap sets tactics numbers.
From S2P Require Import Prelude CString PutQueue.

Open Scope Z_scope.
Open Scope cprog_scope.

(** ** Scripts *)

Definition is_shebang (buf : bytes) : bool :=
  match buf with a :: b :: _ => bool_decide (a = "#"%char) && bool_decide (b = "!"%char) | _ => false end.

Definition to_nul (s : bytes) : bytes := match cstr s with Some a => a | None => s end.

Fixpoint take_while (f : ascii -> bool) (s : bytes) : bytes :=
  match s with
  | c :: s' => if f c then c :: take_while f s' else []
  | [] => []
  end.

(** The first word behind the [#!]. *)
Definition interpreter (buf : bytes) : bytes :=
  take_while (fun c => negb (isspace c)) (skip_while isspace (to_nul (drop 2 buf))).

Definition enqueue_shebang (exclude : string -> bool) (buf : bytes) (q : put) : out (Z * put) :=
  let p := interpreter buf in
  if decide (p = []) then Ret (0, q)
  else if is_path_added (str p) q then Ret (0, q)
  else let! x := enqueue_item exclude (str p) (-1) q in Ret (0, snd x).

(** ** Libraries opened at run time *)

Inductive json := json_array (l : list json) | json_object (l : list (string * json)) | json_string (s : string) | json_other.

Record dlopen_calls := {
  getenv : string -> option bytes;
  regcomp : bytes -> option (string -> bool);
  json_tokener_parse : bytes -> option json;
  json_object_get_string : json -> string;
  (** The path of the library that dlopen finds, when dlinfo tells it. *)
  dlopen : string -> option bytes;
}.

(** One word of the list: [word] or [regex:word]. *)
Definition env_word (d : dlopen_calls) (filename value : string) (w : bytes) : bool :=
  match strchr ":" w with
  | Some (re, word) =>
      match regcomp d re with
      | None => false
      | Some match_ => match_ filename && bool_decide (word = #value)
      end
  | None => bool_decide (w = #value)
  end.

Definition in_envvar (d : dlopen_calls) (envname filename value : string) : bool :=
  match getenv d envname with
  | None | Some [] => false
  | Some l => existsb (env_word d filename value) (split_on "," l)
  end.

(** The first soname that can be opened; the empty path when there is none. A path
    that does not fit is an error. *)
Fixpoint resolve_soname (d : dlopen_calls) (soname : list string) : Z * bytes :=
  match soname with
  | [] => (0, [])
  | s :: l =>
      match dlopen d s with
      | Some p => if lenZ p + 1 >? PATH_MAX + 1 then (-1, []) else (0, p)
      | None => resolve_soname d l
      end
  end.

Definition get_ex (o : list (string * json)) (k : string) : option json :=
  snd <$> List.find (fun e => bool_decide (fst e = k)) o.

Fixpoint sonames (l : list json) : out (list string) :=
  match l with
  | [] => Ret []
  | json_string s :: l => let! r := sonames l in Ret (s :: r)
  | _ => Die EXIT_FAILURE "unexpected object type of soname value"
  end.

(** One element of the array. json_object_array_length aborts on another type. *)
Definition visit_userfunc (exclude : string -> bool) (d : dlopen_calls) (filename : string) (jso : json) (ret : Z) (q : put)
    : out (Z * put) :=
  match jso with
  | json_object o =>
      match get_ex o "soname" with
      | None => Ret (ret, q)
      | Some value =>
          match value with
          | json_array a =>
              let feature := match get_ex o "feature" with Some v => json_object_get_string d v | None => "-"%string end in
              let priority := match get_ex o "priority" with Some v => json_object_get_string d v | None => "recommended"%string end in
              if in_envvar d "IGNORE_PUT_DLOPEN_FEATURE" filename feature
                 || in_envvar d "IGNORE_PUT_DLOPEN_PRIORITY" filename priority then Ret (ret, q) else
              let! names := sonames a in
              let '(ret, path) := resolve_soname d names in
              match path with
              | "/"%char :: _ =>
                  if negb (ret =? 0) then Ret (ret, q)
                  else if is_path_added (str path) q then Ret (ret, q)
                  else let! x := enqueue_item exclude (str path) (-1) q in Ret (ret, snd x)
              | _ => Ret (ret, q)
              end
          | _ => Undef
          end
      end
  | _ => Die EXIT_FAILURE "unexpected object type"
  end.

Fixpoint visit_array (exclude : string -> bool) (d : dlopen_calls) (filename : string) (l : list json) (ret : Z) (q : put)
    : out (Z * put) :=
  match l with
  | [] => Ret (ret, q)
  | x :: l => let! r := visit_userfunc exclude d filename x ret q in visit_array exclude d filename l (fst r) (snd r)
  end.

Definition process_json_metadata (exclude : string -> bool) (d : dlopen_calls) (filename : string) (text : bytes) (q : put)
    : out (Z * put) :=
  match json_tokener_parse d text with
  | None => Ret (-1, q)
  | Some (json_array l) => visit_array exclude d filename l 0 q
  | Some _ => Die EXIT_FAILURE "unexpected object type"
  end.

(** ** ELF files *)

Definition NT_FDO_DLOPEN_METADATA : Z := 1081871370.

Record elf_note := { n_type : Z; n_namesz : Z; note_name : bytes; note_desc : bytes }.
Inductive elf_dyn := DT_NULL | DT_RPATH | DT_NEEDED (soname : option string) | DT_OTHER.

(** What libelf tells about a file: whether its kind is known, the class and the
    machine, the bytes of the first interpreter segment if they could be read, the
    entries of the dynamic section and the notes. *)
Record elf := {
  elf_kind_known : bool;
  elf_ehdr : option (Z * Z);
  elf_interp : option bytes;
  elf_dynamic : option (list elf_dyn);
  elf_notes : list elf_note;
}.

Definition is_elf_file (buf : bytes) : bool := bool_decide (take 4 buf = ["127"; "E"; "L"; "F"]%char).

Fixpoint notes_loop (exclude : string -> bool) (d : dlopen_calls) (filename : string) (l : list elf_note) (q : put) : out put :=
  match l with
  | [] => Ret q
  | n :: l =>
      let! q :=
        if (n_type n =? NT_FDO_DLOPEN_METADATA) && (n_namesz n =? 4) && bool_decide (to_nul (note_name n) = #"FDO")
        then let! r := process_json_metadata exclude d filename (to_nul (note_desc n)) q in Ret (snd r)
        else Ret q in
      notes_loop exclude d filename l q
  end.

Definition enqueue_elf_dlopen (exclude : string -> bool) (d : dlopen_calls) (filename : string) (e : elf) (q : put) : out (Z * put) :=
  if negb (elf_kind_known e) then Ret (0, q)
  else let! q := notes_loop exclude d filename (elf_notes e) q in Ret (0, q).

(** The cache by class, machine and soname. *)
Abbreviation elf_cache := (gmap (Z * Z * string) string).

(** An entry that is there stays. *)
Definition elf_cache_insert (k : Z * Z * string) (path : string) (c : elf_cache) : elf_cache :=
  match c !! k with Some _ => c | None => <[k := path]> c end.

Definition strip_trailing (s : bytes) : bytes := rev (skip_while isspace (rev s)).

(** A line of ldd: the soname in front of the arrow, if there is one, and the
    absolute path. *)
Definition ldd_line (line : bytes) : option (option bytes * bytes) :=
  let line := to_nul (match list.last line with Some "010"%char => removelast line | _ => line end) in
  match strstr line #"(0x" with
  | None => None
  | Some (l, _) =>
      let l := strip_trailing l in
      let '(soname, p) :=
        match strstr l #" => " with
        | Some (a, b) =>
            let name := skip_while isspace a in
            (* A name of blanks only: the pointer has passed the arrow's first blank. *)
            let name := if decide (name = []) then #"=> " ++ (match b with c :: _ => if isspace c then [] else b | [] => [] end)
                        else strip_trailing name in
            (Some name, b)
        | None => (None, l)
        end in
      match skip_while isspace p with
      | "/"%char :: p' => Some (soname, "/"%char :: p')
      | _ => None
      end
  end.

(** The name under which the cache gets the path. *)
Definition cache_name (soname : option bytes) (p : bytes) : bytes :=
  let base := match strrchr "/" p with Some (_, b) => "/"%char :: b | None => [] end in
  let k := match soname with Some (c :: n) => c :: n | _ => base end in
  match k with "/"%char :: k' => k' | _ => k end.

(** The lines in order: the pairs for the cache and the paths. *)
Fixpoint ldd_loop (exclude : string -> bool) (lines : list bytes) (pending : list (string * string)) (q : put)
    : out (list (string * string) * put) :=
  match lines with
  | [] => Ret (pending, q)
  | line :: lines =>
      match ldd_line line with
      | None => ldd_loop exclude lines pending q
      | Some (soname, p) =>
          let k := cache_name soname p in
          let pending := if decide (k = []) then pending else pending ++ [(str k, str p)] in
          if is_path_added (str p) q then ldd_loop exclude lines pending q
          else let! x := enqueue_item exclude (str p) (-1) q in ldd_loop exclude lines pending (snd x)
      end
  end.

(** The output of ldd, and whether it could be closed; [None] when it was not run. *)
Definition enqueue_shared_libraries (exclude : string -> bool) (ldd : option (bytes * bool)) (class machine : Z) (can_cache : bool)
    (c : elf_cache) (q : put) : out (Z * elf_cache * put) :=
  match ldd with
  | None => Ret (-1, c, q)
  | Some (text, closed) =>
      let! r := ldd_loop exclude (getlines [] text) [] q in
      if negb closed then Ret (-1, c, snd r)
      else Ret (0, if can_cache then foldl (fun c e => elf_cache_insert (class, machine, fst e) (snd e) c) c (fst r) else c, snd r)
  end.

(** The entries up to DT_NULL. *)
Fixpoint dyn_until_null (l : list elf_dyn) : list elf_dyn :=
  match l with
  | [] | DT_NULL :: _ => []
  | e :: l => e :: dyn_until_null l
  end.

Definition has_rpath (l : list elf_dyn) : bool :=
  existsb (fun e => match e with DT_RPATH => true | _ => false end) (dyn_until_null l).

Definition needed_names (l : list elf_dyn) : list string :=
  omap (fun e => match e with DT_NEEDED (Some s) => if bool_decide (s = ""%string) then None else Some s | _ => None end) (dyn_until_null l).

Fixpoint enqueue_paths (exclude : string -> bool) (l : list string) (q : put) : out put :=
  match l with
  | [] => Ret q
  | p :: l =>
      if is_path_added p q then enqueue_paths exclude l q
      else let! x := enqueue_item exclude p (-1) q in enqueue_paths exclude l (snd x)
  end.

(** The interpreter of the program without blanks at its end; a segment that does
    not fit into the buffer is ignored. *)
Definition interp_path (e : elf) : bytes :=
  match elf_interp e with
  | Some b => if (0 <? lenZ b) && (lenZ b <? PATH_MAX + 1) then strip_trailing (to_nul b) else []
  | None => []
  end.

Definition is_elf_cache_disabled (d : dlopen_calls) : bool :=
  match getenv d "IGNORE_PUT_ELF_CACHE" with
  | Some (c :: s) => negb (bool_decide (c :: s = #"0"))
  | _ => false
  end.

(** The libraries that the dynamic section names, from the cache when it has them all.
    [cached] is as long as [needed] when it has. *)
Definition libraries_body (exclude : string -> bool) (d : dlopen_calls) (e : elf) (class machine : Z) (dyn : list elf_dyn)
    (ldd : option (bytes * bool)) (c : elf_cache) (q : put) : out (Z * elf_cache * put) :=
  let needed := needed_names dyn in
  let can_use_cache := negb (has_rpath dyn) && negb (is_elf_cache_disabled d) in
  let cached := omap (fun n => c !! (class, machine, n)) needed in
  if can_use_cache && bool_decide (length cached = length needed) then
    let! q := enqueue_paths exclude cached q in
    let i := interp_path e in
    let! q := match i with
              | "/"%char :: _ => enqueue_paths exclude [str i] q
              | _ => Ret q
              end in
    Ret (0, c, q)
  else enqueue_shared_libraries exclude ldd class machine can_use_cache c q.

(** [None]: elf_begin fails. *)
Definition enqueue_libraries (exclude : string -> bool) (d : dlopen_calls) (filename : string) (oe : option elf)
    (ldd : option (bytes * bool)) (c : elf_cache) (q : put) : out (Z * elf_cache * put) :=
  match oe with
  | None => Ret (0, c, q)
  | Some e =>
      match (if elf_kind_known e then elf_ehdr e else None), elf_dynamic e with
      | Some (class, machine), Some dyn =>
          let! r := libraries_body exclude d e class machine dyn ldd c q in
          let '(ret, c, q) := r in
          if ret =? 0 then let! r := enqueue_elf_dlopen exclude d filename e q in Ret (fst r, c, snd r)
          else Ret (ret, c, q)
      | _, _ => Ret (0, c, q)
      end
  end.

(** ** They only enqueue *)

(** The shape of the metadata that the program accepts. *)
Definition json_entry_ok (j : json) : bool :=
  match j with
  | json_object o =>
      match get_ex o "soname" with
      | None => true
      | Some (json_array a) => forallb (fun x => match x with json_string _ => true | _ => false end) a
      | Some _ => false
      end
  | _ => false
  end.
Definition json_ok (j : json) : bool := match j with json_array l => forallb json_entry_ok l | _ => false end.

Definition bad_note (d : dlopen_calls) (e : elf) : Prop :=
  exists n j, n ∈ elf_notes e /\ json_tokener_parse d (to_nul (note_desc n)) = Some j /\ json_ok j = false.

Section Allowed.
Variables (exclude : string -> bool) (known : structure_law) (allowed : string -> Prop) (bad : Prop).

(** A call that ends has only enqueued allowed paths; it exits only if [bad]. *)
Definition enqueues {A} (get : A -> put) (q : put) (o : out A) : Prop :=
  match o with
  | Ret x => grows exclude known allowed q (get x) /\ exists l, queue_ok (get x) l
  | NoFuel => False
  | _ => bad
  end.

Lemma enqueues_ret {A} (get : A -> put) q l x : queue_ok q l -> get x = q -> enqueues get q (Ret x).
Proof. intros Q <-. split; [apply grows_refl|by exists l]. Qed.

Lemma enqueues_bind {A B} (get : A -> put) (get' : B -> put) q o k :
  enqueues get q o -> (forall x l, queue_ok (get x) l -> enqueues get' (get x) (k x)) -> enqueues get' q (obind o k).
Proof.
  intros Ho Hk. destruct o as [x| | |]; cbn in *; try done. destruct Ho as [G [l Q]].
  specialize (Hk x l Q). destruct (k x) as [y| | |]; cbn in *; try done. destruct Hk as [G' Q']. split; [|done].
  by eapply grows_trans.
Qed.

Lemma enqueues_item s len q l : queue_ok q l -> allowed (item_path s len) -> enqueues snd q (enqueue_item exclude s len q).
Proof.
  intros Q Ha. destruct (enqueue_item_grows exclude known s len q l Q) as (x & q' & -> & G & _). cbn. split.
  - eapply grows_weaken; [|exact G]. by intros p <-.
  - destruct (g_queue _ _ _ _ _ G l Q) as [l' Q']. by eexists.
Qed.

Lemma enqueues_shebang buf q l : queue_ok q l -> (interpreter buf <> [] -> allowed (str (interpreter buf))) ->
  enqueues snd q (enqueue_shebang exclude buf q).
Proof.
  intros Q Ha. unfold enqueue_shebang. destruct (decide _) as [|Hn]; [by eapply enqueues_ret|].
  destruct (is_path_added _ _); [by eapply enqueues_ret|].
  eapply enqueues_bind; [eapply enqueues_item; [done|by apply Ha]|]. intros x l' Q'. by eapply enqueues_ret.
Qed.

Lemma enqueues_paths l : forall q ql, queue_ok q ql -> (forall p, p ∈ l -> allowed p) ->
  enqueues id q (enqueue_paths exclude l q).
Proof.
  induction l as [|p l IH]; intros q ql Q Ha; [by eapply enqueues_ret|]. cbn [enqueue_paths].
  destruct (is_path_added p q); [eapply IH; [done|]; intros; apply Ha; by right|].
  eapply enqueues_bind; [eapply enqueues_item; [done|apply Ha; by left]|].
  intros x l' Q'. eapply IH; [done|]. intros; apply Ha; by right.
Qed.

Lemma enqueues_ldd lines : forall pending q ql, queue_ok q ql ->
  (forall line s p, line ∈ lines -> ldd_line line = Some (s, p) -> allowed (str p)) ->
  enqueues snd q (ldd_loop exclude lines pending q).
Proof.
  induction lines as [|line lines IH]; intros pending q ql Q Ha; [by eapply enqueues_ret|]. cbn [ldd_loop].
  assert (Ha' : forall line s p, line ∈ lines -> ldd_line line = Some (s, p) -> allowed (str p)) by (intros; eapply Ha; [by right|done]).
  destruct (ldd_line line) as [[s p]|] eqn:E; [|by eapply IH].
  destruct (is_path_added (str p) q); [by eapply IH|].
  eapply enqueues_bind; [eapply enqueues_item; [done|eapply Ha; [by left|done]]|]. intros x l' Q'. by eapply IH.
Qed.

Lemma enqueues_dlopen d filename e q l : queue_ok q l -> (forall s p, dlopen d s = Some p -> allowed (str p)) ->
  (bad_note d e -> bad) ->
  enqueues snd q (enqueue_elf_dlopen exclude d filename e q).
Proof.
  intros Q Ha Hbad. unfold enqueue_elf_dlopen. destruct (negb _); [by eapply enqueues_ret|].
  assert (Hres : forall names r p, resolve_soname d names = (r, p) -> p <> [] -> allowed (str p)).
  { induction names as [|s names IH]; intros r p E Hp; cbn in E; [by injection E as <- <-|].
    destruct (dlopen d s) as [p'|] eqn:Ed; [|by eapply IH]. destruct (_ >? _); injection E as <- <-; [done|by eapply Ha]. }
  assert (Hvisit : forall x ret q l, queue_ok q l -> (json_entry_ok x = false -> bad) ->
    enqueues snd q (visit_userfunc exclude d filename x ret q)).
  { intros x ret q0 l0 Q0 Hx. unfold visit_userfunc. unfold json_entry_ok in Hx. destruct x as [|o| |]; try (by apply Hx).
    destruct (get_ex o "soname") as [v|]; [|by eapply enqueues_ret]. destruct v as [a| | |]; try (by apply Hx).
    destruct (_ || _); [by eapply enqueues_ret|].
    assert (Hs : match sonames a with Ret _ => True | NoFuel => False | _ => bad end).
    { clear -Hx. induction a as [|x a IH]; [done|]. cbn in *. destruct x; try (by apply Hx). cbn in Hx.
      specialize (IH Hx). by destruct (sonames a). }
    destruct (sonames a) as [names| | |] eqn:En; cbn; try done.
    destruct (resolve_soname d names) as [ret' p] eqn:Er.
    destruct p as [|ch p]; [by eapply enqueues_ret|].
    assert (Hc : enqueues snd q0 (if negb (ret' =? 0) then Ret (ret', q0) else if is_path_added (str (ch :: p)) q0 then Ret (ret', q0)
      else let! x := enqueue_item exclude (str (ch :: p)) (-1) q0 in Ret (ret', snd x))).
    { destruct (negb _); [by eapply enqueues_ret|]. destruct (is_path_added _ _); [by eapply enqueues_ret|].
      eapply enqueues_bind; [eapply enqueues_item; [done|by eapply Hres]|]. intros x l' Q'. by eapply enqueues_ret. }
    destruct (decide (ch = "/"%char)) as [->|Hch]; [exact Hc|].
    destruct ch as [[] [] [] [] [] [] [] []]; try (by eapply enqueues_ret); done. }
  eapply (enqueues_bind id); [|intros x l' Q'; by eapply enqueues_ret].
  assert (Hn : forall n j, n ∈ elf_notes e -> json_tokener_parse d (to_nul (note_desc n)) = Some j -> json_ok j = false -> bad).
  { intros n j H1 H2 H3. apply Hbad. by exists n, j. }
  clear Hbad. revert q l Q Hn. induction (elf_notes e) as [|n ns IH]; intros q l Q Hn; [by eapply enqueues_ret|]. cbn [notes_loop].
  eapply (enqueues_bind id); [|intros x l' Q'; eapply IH; [done|]; intros n' j Hin; apply Hn; by right].
  destruct (_ && _); [|by eapply enqueues_ret].
  eapply (enqueues_bind snd); [|intros x l' Q'; by eapply enqueues_ret].
  assert (Hn0 : forall j, json_tokener_parse d (to_nul (note_desc n)) = Some j -> json_ok j = false -> bad) by (intros j; apply Hn; by left).
  unfold process_json_metadata. destruct (json_tokener_parse _ _) as [[js| | |]|]; try (by eapply Hn0); [|by eapply enqueues_ret].
  specialize (Hn0 _ eq_refl). cbn in Hn0.
  generalize 0. clear IH Hn. revert q l Q Hn0. induction js as [|x js IH]; intros q l Q Hn0 ret; [by eapply enqueues_ret|]. cbn [visit_array].
  cbn in Hn0. eapply enqueues_bind; [eapply Hvisit; [done|]; intros E; apply Hn0; by rewrite E|].
  intros y l' Q'. eapply IH; [done|]. intros E. apply Hn0. rewrite E. apply andb_false_r.
Qed.
End Allowed.

(** ** The libraries of a file *)

Definition ldd_paths (ldd : option (bytes * bool)) (p : string) : Prop :=
  exists text closed line s b, ldd = Some (text, closed) /\ line ∈ getlines [] text /\ ldd_line line = Some (s, b) /\ p = str b.

(** The pairs that the lines of ldd give to the cache. *)
Definition ldd_pair (line : bytes) : option (string * string) :=
  match ldd_line line with
  | Some (s, p) => if decide (cache_name s p = []) then None else Some (str (cache_name s p), str p)
  | None => None
  end.

Lemma ldd_loop_pending exclude lines : forall pending q r, ldd_loop exclude lines pending q = Ret r ->
  fst r = pending ++ omap ldd_pair lines.
Proof.
  induction lines as [|line lines IH]; intros pending q r E; cbn [ldd_loop] in E; cbn.
  - injection E as <-. cbn. by rewrite app_nil_r.
  - unfold ldd_pair at 1. destruct (ldd_line line) as [[s p]|]; [|by apply IH in E].
    set (pending' := if decide (cache_name s p = []) then pending else _) in E.
    assert (Hp : pending' ++ omap ldd_pair lines =
      pending ++ match (if decide (cache_name s p = []) then None else Some (str (cache_name s p), str p)) with
                 | Some y => y :: omap ldd_pair lines | None => omap ldd_pair lines end).
    { unfold pending'. destruct (decide _); [done|]. by rewrite <- app_assoc. }
    destruct (is_path_added _ _).
    + apply IH in E. rewrite E. exact Hp.
    + destruct (enqueue_item _ _ _ _); cbn in E; try done. apply IH in E. rewrite E. exact Hp.
Qed.

Lemma cache_insert_values (k k' : Z * Z * string) (v v' : string) (c : elf_cache) :
  elf_cache_insert k v c !! k' = Some v' -> c !! k' = Some v' \/ (k' = k /\ v' = v).
Proof.
  unfold elf_cache_insert. destruct (c !! k) eqn:E; [by left|]. destruct (decide (k = k')) as [->|Hn].
  - rewrite lookup_insert_eq. intros [= ->]. by right.
  - rewrite lookup_insert_ne by done. by left.
Qed.

Lemma cache_fold_values class machine (l : list (string * string)) : forall (c : elf_cache) (k : Z * Z * string) (v : string),
  foldl (fun c e => elf_cache_insert (class, machine, fst e) (snd e) c) c l !! k = Some v ->
  c !! k = Some v \/ exists e, e ∈ l /\ k = (class, machine, fst e) /\ v = snd e.
Proof.
  induction l as [|e l IH]; intros c k v E; cbn in E; [by left|].
  apply IH in E as [E|(e' & He & -> & ->)].
  - apply cache_insert_values in E as [E|[-> ->]]; [by left|]. right. exists e. split_and!; [by left|done|done].
  - right. exists e'. split_and!; [by right|done|done].
Qed.

(** The ways into the queue: ldd, the cache, the interpreter and the dynamic linker. *)
Definition lib_allowed (d : dlopen_calls) (oe : option elf) (ldd : option (bytes * bool)) (c : elf_cache) (p : string) : Prop :=
  ldd_paths ldd p \/ (exists k : Z * Z * string, c !! k = Some p) \/ (exists e, oe = Some e /\ p = str (interp_path e)) \/
  (exists s b, dlopen d s = Some b /\ p = str b).

Definition out_cache (r : Z * elf_cache * put) : elf_cache := snd (fst r).
Definition out_put (r : Z * elf_cache * put) : put := snd r.

Lemma enqueues_interp known exclude allowed bad e q l : queue_ok q l -> (forall p, p = str (interp_path e) -> allowed p) ->
  enqueues exclude known allowed bad id q (match interp_path e with
    | "/"%char :: _ => enqueue_paths exclude [str (interp_path e)] q | _ => Ret q end).
Proof.
  intros Q Ha. destruct (interp_path e) as [|ch i] eqn:Ei; [by eapply enqueues_ret|].
  assert (Hc : enqueues exclude known allowed bad id q (enqueue_paths exclude [str (ch :: i)] q)).
  { eapply enqueues_paths; [done|]. intros p Hp%list_elem_of_singleton. by apply Ha. }
  destruct (decide (ch = "/"%char)) as [->|Hch]; [exact Hc|].
  destruct ch as [[] [] [] [] [] [] [] []]; try (by eapply enqueues_ret); done.
Qed.

Lemma enqueues_body known bad exclude d e class machine dyn ldd c q l : queue_ok q l ->
  enqueues exclude known (lib_allowed d (Some e) ldd c) bad out_put q (libraries_body exclude d e class machine dyn ldd c q) /\
  (forall r k p, libraries_body exclude d e class machine dyn ldd c q = Ret r -> out_cache r !! k = Some p ->
     c !! k = Some p \/ ldd_paths ldd p).
Proof.
  intros Q. unfold libraries_body. set (can := negb _ && negb _). destruct (can && _).
  - split.
    + eapply (enqueues_bind _ _ _ _ id).
      { eapply enqueues_paths; [done|]. intros p Hp. apply list_elem_of_omap in Hp as (n & _ & Hn).
        right. left. by eexists. }
      intros q1 l1 Q1. eapply (enqueues_bind _ _ _ _ id); [|intros q2 l2 Q2; by eapply enqueues_ret].
      eapply enqueues_interp; [done|]. intros p ->. right. right. left. by exists e.
    + intros r k p Er. destruct (enqueue_paths _ _ _) as [q1| | |]; cbn in Er; try done.
      destruct (match interp_path e with [] => _ | _ => _ end); cbn in Er; try done. injection Er as <-. by left.
  - unfold enqueue_shared_libraries. destruct ldd as [[text closed]|].
    2: { split; [by eapply enqueues_ret|]. intros r k p [= <-]. by left. }
    split.
    + eapply (enqueues_bind _ _ _ _ snd).
      * eapply enqueues_ldd; [done|]. intros line s0 p Hl Hp. left. by eexists _, _, _, _, _.
      * intros x l1 Q1. destruct (negb closed); by eapply enqueues_ret.
    + intros r k p Er Hk. destruct (ldd_loop exclude (getlines [] text) [] q) as [[pend q1]| | |] eqn:El; cbn in Er; try done.
      apply ldd_loop_pending in El. cbn in El. subst pend.
      destruct (negb closed); [injection Er as <-; by left|]. injection Er as <-. cbn in Hk.
      destruct can; [|by left]. apply cache_fold_values in Hk as [?|(pr & Hpr & _ & ->)]; [by left|]. right.
      apply list_elem_of_omap in Hpr as (line & Hline & Hpair). unfold ldd_pair in Hpair.
      destruct (ldd_line line) as [[s0 b]|] eqn:Ell; [|done]. destruct (decide _); [done|]. injection Hpair as <-.
      by eexists _, _, _, _, _.
Qed.

Lemma enqueues_libraries known bad exclude d filename oe ldd c q l : queue_ok q l ->
  (forall e, oe = Some e -> bad_note d e -> bad) ->
  enqueues exclude known (lib_allowed d oe ldd c) bad out_put q (enqueue_libraries exclude d filename oe ldd c q) /\
  (forall r k p, enqueue_libraries exclude d filename oe ldd c q = Ret r -> out_cache r !! k = Some p ->
     c !! k = Some p \/ ldd_paths ldd p).
Proof.
  intros Q Hbad. unfold enqueue_libraries. destruct oe as [e|].
  2: { split; [by eapply enqueues_ret|]. intros r k p [= <-]. by left. }
  destruct (if elf_kind_known e then elf_ehdr e else None) as [[class machine]|], (elf_dynamic e) as [dyn|];
    try (split; [by eapply enqueues_ret|]; intros r k p [= <-]; by left).
  destruct (enqueues_body known bad exclude d e class machine dyn ldd c q l Q) as [Hb1 Hb2]. split.
  - eapply (enqueues_bind _ _ _ _ out_put); [exact Hb1|]. intros [[ret c1] q1] l1 Q1. cbn in Q1.
    destruct (ret =? 0); [|by eapply enqueues_ret].
    eapply (enqueues_bind _ _ _ _ snd).
    + eapply enqueues_dlopen; [done| |by apply Hbad]. intros s0 b Hb. right. right. right. by exists s0, b.
    + intros x l2 Q2. by eapply enqueues_ret.
  - intros r k p Er Hk. destruct (libraries_body _ _ _ _ _ _ _ _ _) as [[[ret c1] q1]| | |] eqn:Eb; cbn in Er; try done.
    apply (Hb2 _ k p eq_refl). cbn. destruct (ret =? 0); [|by injection Er as <-].
    destruct (enqueue_elf_dlopen _ _ _ _ _); cbn in Er; try done. by injection Er as <-.
Qed.

(** A negative result comes from ldd only. *)
Lemma libraries_ret exclude d filename oe ldd c q r : enqueue_libraries exclude d filename oe ldd c q = Ret r ->
  fst (fst r) <> 0 -> (exists e, oe = Some e) /\ (ldd = None \/ exists text, ldd = Some (text, false)).
Proof.
  unfold enqueue_libraries. intros E Hr. destruct oe as [e|]; [|by injection E as <-]. split; [by exists e|].
  destruct (if elf_kind_known e then elf_ehdr e else None) as [[class machine]|], (elf_dynamic e) as [dyn|]; try (by injection E as <-).
  destruct (libraries_body _ _ _ _ _ _ _ _ _) as [[[ret c1] q1]| | |] eqn:Eb; cbn in E; try done.
  destruct (ret =? 0) eqn:E0.
  - unfold enqueue_elf_dlopen in E. destruct (negb _); cbn in E; [by injection E as <-|].
    destruct (notes_loop _ _ _ _ _); cbn in E; try done. by injection E as <-.
  - injection E as <-. unbool. cbn in Hr. unfold libraries_body in Eb. destruct (_ && _) in Eb.
    + destruct (enqueue_paths _ _ _); cbn in Eb; try done.
      destruct (match interp_path e with [] => _ | _ => _ end); cbn in Eb; try done. congruence.
    + unfold enqueue_shared_libraries in Eb. destruct ldd as [[text closed]|]; [|by left]. right.
      destruct (ldd_loop _ _ _ _); cbn in Eb; try done. destruct closed; [cbn in Eb; congruence|by eexists].
Qed.

(** ** The needed libraries reach the queue *)

Lemma is_path_added_settled exclude p q : is_path_added p q = true -> settled exclude p q.
Proof.
  unfold is_path_added, is_path_queued. intros [H|H]%orb_true_iff; apply bool_decide_eq_true in H; right; [by right|by left].
Qed.

(** One path of a loop, and then the rest of it. *)
Lemma settle_then exclude p q l : queue_ok q l -> exists q1 l1,
  (forall A (k : put -> out A), (if is_path_added p q then k q else let! x := enqueue_item exclude p (-1) q in k (snd x)) = k q1) /\
  queue_ok q1 l1 /\ grows exclude any_file (fun _ => True) q q1 /\ settled exclude p q1.
Proof.
  intros Q. destruct (is_path_added p q) eqn:E.
  - exists q, l. split_and!; [done|done|apply grows_refl|by apply is_path_added_settled].
  - destruct (enqueue_item_grows exclude any_file p (-1) q l Q) as (x & q1 & E1 & G & S & _).
    destruct (g_queue _ _ _ _ _ G l Q) as [l' Q']. exists q1, (l' ++ l). split_and!; [|done| |exact S].
    + intros A k. by rewrite E1.
    + eapply grows_weaken; [|exact G]. done.
Qed.

Lemma enqueue_paths_settled exclude ps : forall q l, queue_ok q l -> exists q' l',
  enqueue_paths exclude ps q = Ret q' /\ queue_ok q' l' /\ grows exclude any_file (fun _ => True) q q' /\
  forall p, p ∈ ps -> settled exclude p q'.
Proof.
  induction ps as [|p ps IH]; intros q l Q.
  { exists q, l. split_and!; [done|done|apply grows_refl|]. intros p Hp. by apply not_elem_of_nil in Hp. }
  destruct (settle_then exclude p q l Q) as (q1 & l1 & E1 & Q1 & G1 & S1).
  destruct (IH q1 l1 Q1) as (q2 & l2 & E2 & Q2 & G2 & S2). exists q2, l2. split_and!; [|done|by eapply grows_trans|].
  - cbn. by rewrite E1.
  - intros p' [->|Hp]%elem_of_cons; [|by apply S2]. eapply settled_mono; [exact Q1|exact G2|exact S1].
Qed.

Lemma ldd_loop_settled exclude lines : forall pending q l, queue_ok q l -> exists q' l',
  ldd_loop exclude lines pending q = Ret (pending ++ omap ldd_pair lines, q') /\ queue_ok q' l' /\
  grows exclude any_file (fun _ => True) q q' /\ forall line s b, line ∈ lines -> ldd_line line = Some (s, b) -> settled exclude (str b) q'.
Proof.
  induction lines as [|line lines IH]; intros pending q l Q.
  { exists q, l. cbn. rewrite app_nil_r. split_and!; [done|done|apply grows_refl|]. intros line s b Hl. by apply not_elem_of_nil in Hl. }
  cbn [ldd_loop]. cbn. unfold ldd_pair at 1. destruct (ldd_line line) as [[s b]|] eqn:El.
  - set (pending' := if decide (cache_name s b = []) then pending else _).
    destruct (settle_then exclude (str b) q l Q) as (q1 & l1 & E1 & Q1 & G1 & S1). rewrite E1.
    destruct (IH pending' q1 l1 Q1) as (q2 & l2 & -> & Q2 & G2 & S2). exists q2, l2.
    split_and!; [|done|by eapply grows_trans|].
    + do 2 f_equal. unfold pending'. destruct (decide _); [done|]. by rewrite <- app_assoc.
    + intros line' s' b' [->|Hl]%elem_of_cons Hb; [|by eapply S2]. rewrite El in Hb. injection Hb as <- <-. eapply settled_mono; [exact Q1|exact G2|exact S1].
  - destruct (IH pending q l Q) as (q2 & l2 & E2 & Q2 & G2 & S2). exists q2, l2. split_and!; try done.
    intros line' s' b' [->|Hl]%elem_of_cons Hb; [congruence|by eapply S2].
Qed.

Lemma omap_full {A B} (f : A -> option B) l : length (omap f l) = length l -> forall x, x ∈ l -> exists y, f x = Some y /\ y ∈ omap f l.
Proof.
  induction l as [|a l IH]; intros Hl x Hx; [by apply not_elem_of_nil in Hx|]. cbn in *.
  assert (Hle : (length (omap f l) <= length l)%nat) by (clear; induction l as [|b l IH]; [done|]; cbn; destruct (f b); cbn; lia).
  destruct (f a) as [y|] eqn:E; cbn in Hl; [|lia].
  apply elem_of_cons in Hx as [->|Hx]; [exists y; split; [done|by left]|].
  destruct (IH ltac:(lia) x Hx) as (z & Hz & Hin). exists z. split; [done|by right].
Qed.

Section Loader.
(** Where the dynamic linker finds a library. *)
Variable loads : Z * Z * string -> string.

Definition coherent (c : elf_cache) : Prop := forall k p, c !! k = Some p -> p = loads k.

(** ldd tells of every needed library, and nothing else than [loads]. *)
Definition ldd_tells (class machine : Z) (needed : list string) (text : bytes) : Prop :=
  (forall line pr, line ∈ getlines [] text -> ldd_pair line = Some pr -> snd pr = loads (class, machine, fst pr)) /\
  (forall n, n ∈ needed -> exists line, line ∈ getlines [] text /\ ldd_pair line = Some (n, loads (class, machine, n))).
End Loader.

(** C32. When what ldd prints is what the dynamic linker loads for every program, the
    cache agrees with it for ever, and every library that a file needs directly is
    excluded, queued or in the tree after enqueue_libraries, whether it was found in
    the cache or by ldd; the notes are looked at afterwards. *)
Theorem libraries_settled loads exclude d filename e class machine dyn text c q l :
  queue_ok q l -> elf_kind_known e = true -> elf_ehdr e = Some (class, machine) -> elf_dynamic e = Some dyn ->
  coherent loads c -> ldd_tells loads class machine (needed_names dyn) text ->
  exists c' q', coherent loads c' /\ (forall n, n ∈ needed_names dyn -> settled exclude (loads (class, machine, n)) q') /\
    enqueue_libraries exclude d filename (Some e) (Some (text, true)) c q =
      let! r := enqueue_elf_dlopen exclude d filename e q' in Ret (fst r, c', snd r).
Proof.
  intros Q Hk Hh Hd Hc [T1 T2]. unfold enqueue_libraries. rewrite Hk, Hh, Hd. unfold libraries_body.
  set (can := negb _ && negb _). destruct (can && _) eqn:Ecan.
  - apply andb_true_iff in Ecan as [_ Hlen%bool_decide_eq_true].
    destruct (enqueue_paths_settled exclude (omap (fun n => c !! (class, machine, n)) (needed_names dyn)) q l Q) as (q1 & l1 & -> & Q1 & G1 & S1).
    cbn [obind].
    assert (exists q2, (match interp_path e with "/"%char :: _ => enqueue_paths exclude [str (interp_path e)] q1 | _ => Ret q1 end) = Ret q2
      /\ grows exclude any_file (fun _ => True) q1 q2) as (q2 & -> & G2).
    { pose proof (enqueues_interp any_file exclude (fun _ => True) False e q1 l1 Q1 (fun _ _ => I)) as Hi.
      destruct (enqueue_paths_settled exclude [str (interp_path e)] q1 l1 Q1) as (q2 & l2 & E2 & Q2 & G2 & _). rewrite E2 in Hi |- *.
      destruct (interp_path e) as [|ch i]; [exists q1; split; [done|apply grows_refl]|].
      destruct ch as [[] [] [] [] [] [] [] []]; first [by exists q2|exists q1; split; [done|apply grows_refl]]. }
    cbn [obind]. exists c, q2. split_and!; [done| |done].
    intros n Hn. destruct (omap_full _ _ Hlen n Hn) as (p & Hp & Hin). rewrite <- (Hc _ _ Hp).
    eapply settled_mono; [exact Q1|exact G2|]. by apply S1.
  - unfold enqueue_shared_libraries. destruct (ldd_loop_settled exclude (getlines [] text) [] q l Q) as (q1 & l1 & -> & Q1 & G1 & S1).
    cbn [obind fst snd negb app]. eexists _, q1. split_and!; [| |cbn; done].
    + destruct can; [|done]. intros k p Hp. apply cache_fold_values in Hp as [Hp|(pr & Hpr & -> & ->)]; [by apply Hc|].
      apply list_elem_of_omap in Hpr as (line & Hline & Hpair). by eapply T1.
    + intros n Hn. destruct (T2 n Hn) as (line & Hline & Hpair). unfold ldd_pair in Hpair.
      destruct (ldd_line line) as [[s b]|] eqn:El; [|done]. destruct (decide _); [done|]. injection Hpair as _ <-. by eapply S1.
Qed.

(** *** Two programs *)

Definition no_dlopen : dlopen_calls :=
  {| getenv := fun _ => None; regcomp := fun _ => None; json_tokener_parse := fun _ => None;
     json_object_get_string := fun _ => ""%string; dlopen := fun _ => None |}.

Definition example_elf (needed : list string) : elf :=
  {| elf_kind_known := true; elf_ehdr := Some (2, 62); elf_interp := Some (#"/lib64/ld.so" ++ [NUL]);
     elf_dynamic := Some (((fun s => DT_NEEDED (Some s)) <$> needed) ++ [DT_NULL]); elf_notes := [] |}.

Definition text_lines (l : list string) : bytes := concat ((fun s => "009"%char :: #s ++ ["010"%char]) <$> l).

(** libA has a run path of its own, where libB is found. *)
Definition ldd_of_first : bytes :=
  text_lines ["linux-vdso.so.1 (0x1)"; "libA.so => /usr/lib/libA.so (0x2)"; "libB.so => /opt/A/libB.so (0x3)"; "/lib64/ld.so (0x4)"]%string.
Definition ldd_of_second : bytes := text_lines ["libB.so => /usr/lib/libB.so (0x3)"; "/lib64/ld.so (0x4)"]%string.

Definition example_loads (k : Z * Z * string) : string :=
  if bool_decide (snd k = "libA.so"%string) then "/usr/lib/libA.so" else if bool_decide (snd k = "libB.so"%string) then "/opt/A/libB.so"
  else if bool_decide (snd k = "ld.so"%string) then "/lib64/ld.so" else "".

Lemma libraries_settled_witness :
  exists c' q', coherent example_loads c' /\
    (forall n, n ∈ needed_names [DT_NEEDED (Some "libA.so"%string); DT_NULL] -> settled (fun _ => false) (example_loads (2, 62, n)) q') /\
    enqueue_libraries (fun _ => false) no_dlopen "/bin/first" (Some (example_elf ["libA.so"%string])) (Some (ldd_of_first, true)) ∅ put0 =
      let! r := enqueue_elf_dlopen (fun _ => false) no_dlopen "/bin/first" (example_elf ["libA.so"%string]) q' in Ret (fst r, c', snd r).
Proof.
  apply (libraries_settled example_loads (fun _ => false) no_dlopen "/bin/first" (example_elf ["libA.so"%string]) 2 62 _ ldd_of_first ∅ put0 []).
  - apply queue_ok_empty.
  - reflexivity.
  - reflexivity.
  - reflexivity.
  - intros k p Hk. by rewrite lookup_empty in Hk.
  - split.
    + assert (Hall : Forall (fun line => match ldd_pair line with Some pr => snd pr = example_loads (2, 62, fst pr) | None => True end)
        (getlines [] ldd_of_first)) by (repeat (apply list.Forall_cons; split; [vm_compute; first [reflexivity|exact I]|]); by apply list.Forall_nil).
      intros line pr Hl Hp. rewrite list.Forall_forall in Hall. specialize (Hall line Hl). by rewrite Hp in Hall.
    + intros n Hn. apply list_elem_of_singleton in Hn as ->.
      exists ("009"%char :: #"libA.so => /usr/lib/libA.so (0x2)" ++ ["010"%char]).
      split; [|vm_compute; reflexivity]. vm_compute. right. left.
Defined.

(** The cache takes over what ldd prints about the libraries of libraries, which
    may come from the run path of another library. The second program then gets that
    library, and the one that it loads itself is not enqueued. *)
Theorem cache_wrong_library :
  exists c q1 q2,
    enqueue_libraries (fun _ => false) no_dlopen "/bin/first" (Some (example_elf ["libA.so"%string]))
      (Some (ldd_of_first, true)) ∅ put0 = Ret (0, c, q1) /\
    enqueue_libraries (fun _ => false) no_dlopen "/bin/second" (Some (example_elf ["libB.so"%string]))
      (Some (ldd_of_second, true)) c q1 = Ret (0, c, q2) /\
    ldd_paths (Some (ldd_of_second, true)) "/usr/lib/libB.so" /\
    is_path_added "/usr/lib/libB.so" q2 = false /\ is_path_added "/opt/A/libB.so" q2 = true.
Proof.
  assert (H : match enqueue_libraries (fun _ => false) no_dlopen "/bin/first" (Some (example_elf ["libA.so"%string]))
                      (Some (ldd_of_first, true)) ∅ put0 with
    | Ret (z1, c, q1) =>
        match enqueue_libraries (fun _ => false) no_dlopen "/bin/second" (Some (example_elf ["libB.so"%string]))
                (Some (ldd_of_second, true)) c q1 with
        | Ret (z2, c2, q2) => (z1 =? 0) && (z2 =? 0) && bool_decide (c2 = c) &&
            negb (is_path_added "/usr/lib/libB.so" q2) && is_path_added "/opt/A/libB.so" q2
        | _ => false
        end
    | _ => false
    end = true) by (vm_compute; reflexivity).
  destruct (enqueue_libraries _ _ "/bin/first" _ _ _ _) as [[[z1 c] q1]| | |]; [|discriminate H..].
  destruct (enqueue_libraries _ _ "/bin/second" _ _ c q1) as [[[z2 c2] q2]| | |] eqn:E; [|discriminate H..].
  repeat (apply andb_true_iff in H as [H ?]). apply Z.eqb_eq in H as ->. unbool. subst c2 z2.
  exists c, q1, q2. split; [done|]. split; [exact E|]. split_and!; [|done|done].
  exists ldd_of_second, true, ("009"%char :: #"libB.so => /usr/lib/libB.so (0x3)" ++ ["010"%char]), (Some #"libB.so"), #"/usr/lib/libB.so".
  split; [done|]. split; [vm_compute; left|]. split; vm_compute; reflexivity.
Qed.
