(* ===== verification/PutTables.v ===== *)
(** initrd-put: the search trees behind its sets and maps (the comparisons of queue.c,
    tree.c, enqueue-library.c and initrd-put.c, with tsearch, tfind, tdelete and twalk).

    The other files of initrd-put have the queued paths, the tree of the files, the cache
    of libraries and the table of inodes as finite sets and maps. Here they are search
    trees over the comparison of the program, and both agree. The trees of the C library
    are balanced, which the program cannot see; these are not. *)

From Stdlib Require Import ZArith Ascii String Lia.
From stdpp Require Import base list strings gmap sets tactics numbers sorting.
From S2P Require Import Prelude CString PutQueue PutCanon PutDeps.

Open Scope Z_scope.
Open Scope cprog_scope.

(** ** Comparisons *)

(** The sign of strcmp is all that is promised. *)
Fixpoint strcmp (a b : bytes) : Z :=
  match a, b with
  | [], [] => 0
  | [], _ :: _ => -1
  | _ :: _, [] => 1
  | x :: a, y :: b => if ord x =? ord y then strcmp a b else ord x - ord y
  end.

(** Structures by their path. *)
Definition compare_file (a b : string) : Z := strcmp #a #b.

Record elf_cache_entry := { elf_class : Z; elf_machine : Z; soname : string; path : string }.

Definition elf_cache_compare (a b : elf_cache_entry) : Z :=
  if negb (elf_class a =? elf_class b) then i32 (elf_class a - elf_class b)
  else if negb (elf_machine a =? elf_machine b) then i32 (elf_machine a - elf_machine b)
  else strcmp #(soname a) #(soname b).

Record hardlink_entry := { he_dev : Z; he_ino : Z; he_file : string }.

Definition compare_hardlink_entry (a b : hardlink_entry) : Z :=
  if he_dev a <? he_dev b then -1
  else if he_dev a >? he_dev b then 1
  else if he_ino a <? he_ino b then -1
  else if he_ino a >? he_ino b then 1
  else 0.

(** ** Search trees *)

Inductive tree (A : Type) := Leaf | Node (l : tree A) (x : A) (r : tree A).
Arguments Leaf {_}. Arguments Node {_}.

Section Tree.
Context {A : Type} (cmp : A -> A -> Z).

Fixpoint tfind (k : A) (t : tree A) : option A :=
  match t with
  | Leaf => None
  | Node l x r => if cmp k x =? 0 then Some x else if cmp k x <? 0 then tfind k l else tfind k r
  end.

(** The element that is found or added, and the tree. *)
Fixpoint tsearch (k : A) (t : tree A) : A * tree A :=
  match t with
  | Leaf => (k, Node Leaf k Leaf)
  | Node l x r =>
      if cmp k x =? 0 then (x, t)
      else if cmp k x <? 0 then let '(y, l) := tsearch k l in (y, Node l x r)
      else let '(y, r) := tsearch k r in (y, Node l x r)
  end.

Fixpoint join (l r : tree A) : tree A := match l with Leaf => r | Node l x l' => Node l x (join l' r) end.

Fixpoint tdelete (k : A) (t : tree A) : tree A :=
  match t with
  | Leaf => Leaf
  | Node l x r => if cmp k x =? 0 then join l r else if cmp k x <? 0 then Node (tdelete k l) x r else Node l x (tdelete k r)
  end.

(** twalk: the order of the handlers that run for postorder and leaf. *)
Fixpoint twalk (t : tree A) : list A := match t with Leaf => [] | Node l x r => twalk l ++ x :: twalk r end.

(** tdestroy: the elements in the order in which they are freed. *)
Fixpoint tdestroy (t : tree A) : list A := match t with Leaf => [] | Node l x r => tdestroy l ++ tdestroy r ++ [x] end.
End Tree.

(** ** The tables *)

Definition queue_find (p : string) (t : tree string) : option string := tfind compare_file p t.

Definition elf_cache_lookup (class machine : Z) (name : string) (t : tree elf_cache_entry) : option string :=
  path <$> tfind elf_cache_compare {| elf_class := class; elf_machine := machine; soname := name; path := "" |} t.
Definition elf_cache_add (class machine : Z) (name p : string) (t : tree elf_cache_entry) : tree elf_cache_entry :=
  snd (tsearch elf_cache_compare {| elf_class := class; elf_machine := machine; soname := name; path := p |} t).

(** The empty cache, and the entries that are freed. *)
Definition elf_cache_destroy (t : tree elf_cache_entry) : tree elf_cache_entry * list elf_cache_entry := (Leaf, tdestroy t).

(** The first file of an inode. *)
Definition hardlink_first (dev ino : Z) (f : string) (t : tree hardlink_entry) : string * tree hardlink_entry :=
  let '(e, t) := tsearch compare_hardlink_entry {| he_dev := dev; he_ino := ino; he_file := f |} t in (he_file e, t).

(** ** What a comparison must do *)

(** It orders the keys [key] of the elements. *)
Class Orders {A K : Type} (cmp : A -> A -> Z) (key : A -> K) (ok : A -> Prop) : Prop := {
  cmp_eq a b : ok a -> ok b -> cmp a b = 0 <-> key a = key b;
  cmp_sym a b : ok a -> ok b -> cmp a b < 0 <-> 0 < cmp b a;
  cmp_trans a b c : ok a -> ok b -> ok c -> cmp a b < 0 -> cmp b c < 0 -> cmp a c < 0;
}.

Lemma ord_eq a b : ord a = ord b -> a = b.
Proof. unfold ord. intros E. rewrite <- (ascii_nat_embedding a), <- (ascii_nat_embedding b). f_equal. lia. Qed.

Lemma strcmp_eq a : forall b, strcmp a b = 0 <-> a = b.
Proof.
  induction a as [|x a IH]; intros [|y b]; cbn; try done. destruct (Z.eqb_spec (ord x) (ord y)) as [E|E].
  - apply ord_eq in E as ->. rewrite IH. split; [by intros ->|by intros [=]].
  - split; [lia|]. intros [= -> _]. done.
Qed.

Lemma strcmp_sym a : forall b, strcmp a b < 0 <-> 0 < strcmp b a.
Proof.
  induction a as [|x a IH]; intros [|y b]; cbn; try lia. rewrite (Z.eqb_sym (ord y)). destruct (Z.eqb_spec (ord x) (ord y)); [apply IH|lia].
Qed.

Lemma strcmp_trans a : forall b c, strcmp a b < 0 -> strcmp b c < 0 -> strcmp a c < 0.
Proof.
  induction a as [|x a IH]; intros [|y b] [|z c]; cbn; try lia.
  destruct (Z.eqb_spec (ord x) (ord y)), (Z.eqb_spec (ord y) (ord z)), (Z.eqb_spec (ord x) (ord z)); try lia. apply IH.
Qed.

#[export] Instance compare_file_orders : Orders compare_file id (fun _ => True).
Proof.
  unfold compare_file. split.
  - intros a b _ _. rewrite strcmp_eq. unfold id. split; [|by intros ->]. intros E. rewrite <- (str_list a), <- (str_list b). by f_equal.
  - intros a b _ _. apply strcmp_sym.
  - intros a b c _ _ _. apply strcmp_trans.
Qed.

(** The class has 8 bits and the machine 16, so that the differences are ints. *)
Definition entry_ok (e : elf_cache_entry) : Prop := 0 <= elf_class e < 2 ^ 8 /\ 0 <= elf_machine e < 2 ^ 16.
Definition entry_key (e : elf_cache_entry) : Z * Z * string := (elf_class e, elf_machine e, soname e).

#[export] Instance elf_cache_orders : Orders elf_cache_compare entry_key entry_ok.
Proof.
  assert (Hi : forall z, -2 ^ 16 < z < 2 ^ 16 -> i32 z = z) by (intros z Hz; apply i32_small; lia).
  assert (Hc : forall a b, entry_ok a -> entry_ok b -> elf_cache_compare a b =
    if negb (elf_class a =? elf_class b) then elf_class a - elf_class b
    else if negb (elf_machine a =? elf_machine b) then elf_machine a - elf_machine b else strcmp #(soname a) #(soname b)).
  { intros a b [] []. unfold elf_cache_compare. by rewrite !Hi by lia. }
  split.
  - intros a b Ha Hb. rewrite Hc by done. unfold entry_key.
    destruct (Z.eqb_spec (elf_class a) (elf_class b)) as [E1|E1]; cbn [negb]; [|split; [lia|intros [=]; done]].
    destruct (Z.eqb_spec (elf_machine a) (elf_machine b)) as [E2|E2]; cbn [negb]; [|split; [lia|intros [=]; done]].
    rewrite strcmp_eq, E1, E2. split; [|by intros [= ->]]. intros E. rewrite <- (str_list (soname a)), <- (str_list (soname b)). by rewrite E.
  - intros a b Ha Hb. rewrite !Hc by done. rewrite (Z.eqb_sym (elf_class b)), (Z.eqb_sym (elf_machine b)).
    destruct (Z.eqb_spec (elf_class a) (elf_class b)); cbn [negb]; [|lia]. destruct (Z.eqb_spec (elf_machine a) (elf_machine b)); cbn [negb]; [|lia]. apply strcmp_sym.
  - intros a b c Ha Hb He. rewrite !Hc by done. pose proof (strcmp_trans #(soname a) #(soname b) #(soname c)).
    destruct (Z.eqb_spec (elf_class a) (elf_class b)), (Z.eqb_spec (elf_class b) (elf_class c)), (Z.eqb_spec (elf_class a) (elf_class c)); cbn [negb]; try lia;
    destruct (Z.eqb_spec (elf_machine a) (elf_machine b)), (Z.eqb_spec (elf_machine b) (elf_machine c)), (Z.eqb_spec (elf_machine a) (elf_machine c)); cbn [negb]; lia.
Qed.

#[export] Instance hardlink_orders : Orders compare_hardlink_entry (fun e => (he_dev e, he_ino e)) (fun _ => True).
Proof.
  assert (Hz : forall a b : Z, (a >? b) = (b <? a)) by (intros; apply Z.gtb_ltb).
  split; intros *; unfold compare_hardlink_entry; rewrite ?Hz; repeat match goal with |- context [?x <? ?y] => destruct (Z.ltb_spec x y) end;
    intros; try lia; split; try lia; try (intros [=]; lia). intros _. f_equal; lia.
Qed.

(** ** Search trees over such a comparison *)

Section Ordered.
Context {A K : Type} (cmp : A -> A -> Z) (key : A -> K) (ok : A -> Prop) `{!Orders cmp key ok}.

Fixpoint ordered (t : tree A) : Prop :=
  match t with
  | Leaf => True
  | Node l x r => ok x /\ (forall y, y ∈ twalk l -> cmp y x < 0) /\ (forall y, y ∈ twalk r -> cmp x y < 0) /\ ordered l /\ ordered r
  end.

Lemma ordered_ok t y : ordered t -> y ∈ twalk t -> ok y.
Proof.
  induction t as [|l IHl x r IHr]; cbn; [by intros _ Hy%not_elem_of_nil|]. intros (Hx & _ & _ & Hl & Hr) [Hy|[->|Hy]%elem_of_cons]%elem_of_app; auto.
Qed.

Lemma ordered_sorted t : ordered t -> StronglySorted (fun a b => cmp a b < 0) (twalk t).
Proof.
  induction t as [|l IHl x r IHr]; cbn; [constructor|]. intros (Hx & Hlx & Hxr & Hl & Hr). apply StronglySorted_app. split_and!; [|auto|].
  - intros a b Ha [->|Hb]%elem_of_cons; [auto|]. apply (cmp_trans a x b); auto; [by apply (ordered_ok l)|by apply (ordered_ok r)].
  - constructor; [auto|]. apply list.Forall_forall. done.
Qed.

(** Where a key can be. *)
Lemma cmp_side k x y : ok k -> ok x -> ok y -> cmp k x = 0 -> cmp y x < 0 \/ cmp x y < 0 -> key y <> key k.
Proof.
  intros Hk Hx Hy E Hs Hky. apply cmp_eq in E; [|done..]. assert (cmp y x = 0) by (apply cmp_eq; congruence). assert (cmp x y = 0) by (apply cmp_eq; congruence). lia.
Qed.

Lemma cmp_left k x y : ok k -> ok x -> ok y -> cmp k x < 0 -> cmp x y < 0 -> key y <> key k.
Proof. intros Hk Hx Hy H1 H2 E. pose proof (cmp_trans k x y Hk Hx Hy H1 H2). symmetry in E. apply cmp_eq in E; [lia|done..]. Qed.

Lemma cmp_right k x y : ok k -> ok x -> ok y -> 0 < cmp k x -> cmp y x < 0 -> key y <> key k.
Proof.
  intros Hk Hx Hy H1 H2 E. apply (cmp_sym x k) in H1; [|done..]. pose proof (cmp_trans y x k Hy Hx Hk H2 H1). apply cmp_eq in E; [lia|done..].
Qed.

Lemma tfind_spec k t : ok k -> ordered t -> forall y, tfind cmp k t = Some y <-> y ∈ twalk t /\ key y = key k.
Proof.
  intros Hk. induction t as [|l IHl x r IHr]; intros Ht y; cbn.
  { split; [done|]. by intros [Hy%not_elem_of_nil _]. }
  pose proof (fun y => ordered_ok (Node l x r) y Ht) as Hok. cbn in Hok. destruct Ht as (Hx & Hlx & Hxr & Hl & Hr). rewrite elem_of_app, elem_of_cons.
  assert (Hokl : forall y, y ∈ twalk l -> ok y) by (intros z Hz; apply Hok; set_solver).
  assert (Hokr : forall y, y ∈ twalk r -> ok y) by (intros z Hz; apply Hok; set_solver).
  destruct (Z.eqb_spec (cmp k x) 0) as [E|E]; [|destruct (Z.ltb_spec (cmp k x) 0) as [E'|E']].
  - split; [intros [= <-]; split; [tauto|]; symmetry; by apply cmp_eq|]. intros [[Hy|[->|Hy]] Hky]; [exfalso|done|exfalso];
      (eapply (cmp_side k x y); [by auto..|by auto|done]).
  - rewrite (IHl Hl). split; [tauto|]. intros [[Hy|[->|Hy]] Hky]; [done|exfalso..].
    + apply E, cmp_eq; done.
    + eapply (cmp_left k x y); auto.
  - rewrite (IHr Hr). split; [tauto|]. intros [[Hy|[->|Hy]] Hky]; [exfalso|exfalso|done].
    + eapply (cmp_right k x y); auto. lia.
    + apply E, cmp_eq; done.
Qed.

Lemma tsearch_spec k t : ok k -> ordered t -> forall y t', tsearch cmp k t = (y, t') ->
  ordered t' /\ y = default k (tfind cmp k t) /\ forall z, z ∈ twalk t' <-> z ∈ twalk t \/ (z = k /\ tfind cmp k t = None).
Proof.
  intros Hk. induction t as [|l IHl x r IHr]; intros Ht y t' E; cbn in *.
  { simplify_eq. cbn. split_and!; try done; [by intros z Hz%not_elem_of_nil..|]. intros z. rewrite list_elem_of_singleton. split; [by right|]. intros [Hz%not_elem_of_nil|[-> _]]; done. }
  pose proof Ht as (Hx & Hlx & Hxr & Hl & Hr). destruct (Z.eqb_spec (cmp k x) 0) as [E0|E0]; [|destruct (Z.ltb_spec (cmp k x) 0) as [E1|E1]].
  - simplify_eq. cbn. split_and!; try done. intros z. split; [by left|]. intros [?|[_ ?]]; done.
  - destruct (tsearch cmp k l) as [y1 l1] eqn:El. simplify_eq. destruct (IHl Hl _ _ eq_refl) as (H1 & H2 & H3). split_and!; try done.
    + cbn. split_and!; try done. intros z Hz. apply H3 in Hz as [Hz|[-> _]]; auto.
    + intros z. cbn. rewrite !elem_of_app, H3, !elem_of_cons. tauto.
  - destruct (tsearch cmp k r) as [y1 r1] eqn:Er. simplify_eq. destruct (IHr Hr _ _ eq_refl) as (H1 & H2 & H3). split_and!; try done.
    + cbn. split_and!; try done. intros z Hz. apply H3 in Hz as [Hz|[-> _]]; [auto|]. apply cmp_sym; [done..|lia].
    + intros z. cbn. rewrite !elem_of_app, !elem_of_cons, H3. tauto.
Qed.

Lemma twalk_join (l r : tree A) : twalk (join l r) = twalk l ++ twalk r.
Proof. induction l as [|l IHl x l' IHl']; [done|]. cbn. by rewrite IHl', <- app_assoc. Qed.

Lemma join_ordered l r : ordered l -> ordered r -> (forall a b, a ∈ twalk l -> b ∈ twalk r -> cmp a b < 0) -> ordered (join l r).
Proof.
  induction l as [|l IHl x l' IHl']; intros Hl Hr Hlr; [done|]. cbn in *. destruct Hl as (Hx & H1 & H2 & H3 & H4). split_and!; try done.
  - intros y. rewrite twalk_join. intros [Hy|Hy]%elem_of_app; [auto|]. apply Hlr; [set_solver|done].
  - apply IHl'; [done..|]. intros a b Ha. apply Hlr. set_solver.
Qed.

Lemma tdelete_spec k t : ok k -> ordered t -> ordered (tdelete cmp k t) /\ forall z, z ∈ twalk (tdelete cmp k t) <-> z ∈ twalk t /\ key z <> key k.
Proof.
  intros Hk. induction t as [|l IHl x r IHr]; intros Ht; cbn.
  { split; [done|]. intros z. split; [by intros Hz%not_elem_of_nil|by intros [Hz%not_elem_of_nil _]]. }
  pose proof (fun y => ordered_ok (Node l x r) y Ht) as Hok. cbn in Hok. destruct Ht as (Hx & Hlx & Hxr & Hl & Hr).
  assert (Hokl : forall y, y ∈ twalk l -> ok y) by (intros z Hz; apply Hok; set_solver).
  assert (Hokr : forall y, y ∈ twalk r -> ok y) by (intros z Hz; apply Hok; set_solver).
  destruct (Z.eqb_spec (cmp k x) 0) as [E|E]; [|destruct (Z.ltb_spec (cmp k x) 0) as [E'|E']].
  - split.
    + apply join_ordered; [done..|]. intros a b Ha Hb. eapply (cmp_trans a x b); auto.
    + intros z. rewrite twalk_join, !elem_of_app, elem_of_cons. split.
      * intros Hz. split; [tauto|]. eapply (cmp_side k x z); auto; destruct Hz; auto.
      * intros [[?|[->|?]] Hn]; [by left| |by right]. exfalso. apply Hn. symmetry. by apply cmp_eq.
  - destruct (IHl Hl) as [H1 H2]. split; [cbn; split_and!; try done; intros y Hy; apply Hlx; by apply H2|].
    intros z. cbn. rewrite !elem_of_app, !elem_of_cons, H2. split; [|tauto].
    intros [[??]|[->|Hz]]; (split; [tauto|]); [done| |].
    + intros Ek. symmetry in Ek. apply cmp_eq in Ek; [lia|done..].
    + eapply (cmp_left k x z); auto.
  - destruct (IHr Hr) as [H1 H2]. split; [cbn; split_and!; try done; intros y Hy; apply Hxr; by apply H2|].
    intros z. cbn. rewrite !elem_of_app, !elem_of_cons, H2. split; [|tauto].
    intros [Hz|[->|[??]]]; (split; [tauto|]); [| |done].
    + eapply (cmp_right k x z); auto. lia.
    + intros Ek. symmetry in Ek. apply cmp_eq in Ek; [lia|done..].
Qed.

(** Two elements with the same key are one. *)
Lemma ordered_inj t y z : ordered t -> y ∈ twalk t -> z ∈ twalk t -> key y = key z -> y = z.
Proof.
  intros Ht Hy Hz E. assert (Hok := ordered_ok t z Ht Hz). assert (tfind cmp z t = Some y) as H1 by (by apply tfind_spec).
  assert (tfind cmp z t = Some z) as H2 by (by apply tfind_spec). congruence.
Qed.
End Ordered.

(** ** The sets and maps of the other files *)

Lemma strcmp_le_spec a : forall b, strcmp_le a b = true <-> strcmp a b <= 0.
Proof.
  induction a as [|x a IH]; intros [|y b]; cbn; try (split; [lia|done]); try (split; [done|lia]).
  destruct (Z.eqb_spec (ord x) (ord y)); [apply IH|]. rewrite Z.ltb_lt. lia.
Qed.

Definition path_le (a b : string) : Prop := strcmp #a #b <= 0.

Lemma strcmp_flip a b : 0 < strcmp a b -> strcmp b a < 0.
Proof. by rewrite strcmp_sym. Qed.

Lemma path_le_trans a b c : path_le a b -> path_le b c -> path_le a c.
Proof.
  unfold path_le. intros H1 H2. destruct (Z.eq_dec (strcmp #a #b) 0) as [E|E]; [apply strcmp_eq in E; by rewrite E|].
  destruct (Z.eq_dec (strcmp #b #c) 0) as [E'|E']; [apply strcmp_eq in E'; by rewrite <- E'|]. pose proof (strcmp_trans #a #b #c). lia.
Qed.

#[local] Instance path_le_anti : AntiSymm (=) path_le.
Proof.
  intros a b H1 H2. unfold path_le in *. assert (E : strcmp #a #b = 0).
  { destruct (Z.eq_dec (strcmp #a #b) 0) as [|Hn]; [done|]. assert (strcmp #a #b < 0) as Hl by lia. apply strcmp_sym in Hl. lia. }
  apply strcmp_eq in E. by rewrite <- (str_list a), E, str_list.
Qed.

Lemma insert_sorted_in x l y : y ∈ insert_sorted x l <-> y = x \/ y ∈ l.
Proof.
  induction l as [|z l IH]; cbn; [by rewrite elem_of_cons|]. case_match; rewrite !elem_of_cons; [tauto|]. rewrite IH. tauto.
Qed.

Lemma insert_sorted_sorted x l : StronglySorted path_le l -> StronglySorted path_le (insert_sorted x l).
Proof.
  induction 1 as [|y l Hs IH Hy]; cbn; [repeat constructor|]. destruct (strcmp_le #x #y) eqn:E.
  - apply strcmp_le_spec in E. constructor; [by constructor|]. constructor; [done|]. eapply list.Forall_impl; [exact Hy|]. intros z. by apply path_le_trans.
  - constructor; [done|]. apply list.Forall_forall. intros z. rewrite insert_sorted_in. intros [->|Hz]; [|by rewrite list.Forall_forall in Hy; apply Hy].
    unfold path_le. destruct (Z.le_gt_cases (strcmp #y #x) 0) as [|Hg]; [done|]. apply strcmp_flip, Z.lt_le_incl, strcmp_le_spec in Hg. congruence.
Qed.

Definition sorted_paths (X : gset string) : list string := foldr insert_sorted [] (elements X).

Lemma sorted_paths_spec X : StronglySorted path_le (sorted_paths X) /\ forall p, p ∈ sorted_paths X <-> p ∈ X.
Proof.
  unfold sorted_paths. assert (Hin : forall l, StronglySorted path_le (foldr insert_sorted [] l) /\ forall p, p ∈ foldr insert_sorted [] l <-> p ∈ l).
  { induction l as [|x l [IH1 IH2]]; [split; [constructor|done]|]. cbn. split; [by apply insert_sorted_sorted|]. intros p. rewrite insert_sorted_in, elem_of_cons, IH2. done. }
  destruct (Hin (elements X)) as [H1 H2]. split; [done|]. intros p. by rewrite H2, elem_of_elements.
Qed.

Lemma sorted_paths_nodup X : NoDup (sorted_paths X).
Proof.
  unfold sorted_paths. pose proof (NoDup_elements X) as Hn. induction (elements X) as [|x l IH]; [constructor|]. apply list.NoDup_cons in Hn as [Hx Hn]. cbn.
  assert (Hp : forall l', insert_sorted x l' ≡ₚ x :: l').
  { induction l' as [|y l' IHl]; [done|]. cbn. case_match; [done|]. rewrite IHl. apply Permutation_swap. }
  rewrite Hp. apply list.NoDup_cons. split; [|by apply IH]. assert (forall l' p, p ∈ foldr insert_sorted [] l' <-> p ∈ l') as ->; [|done].
  induction l' as [|y l' IHl]; intros p; [done|]. cbn. rewrite insert_sorted_in, elem_of_cons, IHl. done.
Qed.

(** The tree of a set of paths. *)
Definition set_tree (t : tree string) (X : gset string) : Prop := ordered compare_file (fun _ => True) t /\ forall p, p ∈ twalk t <-> p ∈ X.

Lemma lt_nodup (l : list string) : StronglySorted (fun a b => compare_file a b < 0) l -> NoDup l.
Proof.
  induction 1 as [|x l Hs IH Hx]; constructor; [|done]. intros Hin. rewrite list.Forall_forall in Hx. specialize (Hx x Hin). cbn in Hx.
  assert (compare_file x x = 0) by (by apply strcmp_eq). lia.
Qed.

Lemma set_tree_walk t X : set_tree t X -> twalk t = sorted_paths X.
Proof.
  intros [Ht HX]. destruct (sorted_paths_spec X) as [Hs Hin]. pose proof (ordered_sorted compare_file id (fun _ => True) t Ht) as Ho.
  apply (StronglySorted_unique path_le); [|done|].
  - clear -Ho. induction Ho as [|x l H IH Hx]; constructor; [done|]. eapply list.Forall_impl; [exact Hx|]. unfold path_le, compare_file. cbn. lia.
  - apply NoDup_Permutation; [by apply lt_nodup|apply sorted_paths_nodup|]. intros p. by rewrite HX, Hin.
Qed.

(** The tree of the cache; the keys have the widths of the ELF header. *)
Definition key_ok (k : Z * Z * string) : Prop := 0 <= k.1.1 < 2 ^ 8 /\ 0 <= k.1.2 < 2 ^ 16.
Definition cache_tree (t : tree elf_cache_entry) (c : elf_cache) : Prop :=
  ordered elf_cache_compare entry_ok t /\ forall k p, (c !! k = Some p /\ key_ok k) <-> exists e, e ∈ twalk t /\ entry_key e = k /\ path e = p.

Definition inode_tree (t : tree hardlink_entry) (m : gmap (Z * Z) string) : Prop :=
  ordered compare_hardlink_entry (fun _ => True) t /\ forall k p, m !! k = Some p <-> exists e, e ∈ twalk t /\ (he_dev e, he_ino e) = k /\ he_file e = p.

Lemma set_tree_search t X p : set_tree t X -> exists t', tsearch compare_file p t = (p, t') /\ set_tree t' ({[ p ]} ∪ X).
Proof.
  intros [Ht HX]. destruct (tsearch compare_file p t) as [y t'] eqn:E. destruct (tsearch_spec compare_file id (fun _ => True) p t I Ht y t' E) as (H1 & -> & H3).
  assert (Hf : forall y, tfind compare_file p t = Some y -> y = p) by (intros y Hy; apply (tfind_spec compare_file id (fun _ => True)) in Hy as [_ Hy]; done).
  exists t'. destruct (tfind compare_file p t) as [y|] eqn:Ef; cbn in *; [rewrite (Hf y eq_refl)|]; (split; [done|split; [done|]]).
  - assert (p ∈ twalk t) as Hp by (rewrite <- (Hf y eq_refl) at 1; by apply (tfind_spec compare_file id (fun _ => True)) in Ef as [? _]).
    intros z. rewrite H3, elem_of_union, elem_of_singleton, HX. apply HX in Hp. split; [intros [?|[_ ?]]; [by right|done]|]. intros [->|?]; by left.
  - intros z. rewrite H3, elem_of_union, elem_of_singleton, HX. naive_solver.
Qed.

Lemma set_tree_delete t X p : set_tree t X -> set_tree (tdelete compare_file p t) (X ∖ {[ p ]}).
Proof.
  intros [Ht HX]. destruct (tdelete_spec compare_file id (fun _ => True) p t I Ht) as [H1 H2]. split; [done|]. intros z.
  rewrite H2, elem_of_difference, elem_of_singleton, HX. done.
Qed.

Lemma set_tree_find t X p : set_tree t X -> is_Some (queue_find p t) <-> p ∈ X.
Proof.
  intros [Ht HX]. rewrite <- HX. unfold queue_find. split.
  - intros [y Hy]. apply (tfind_spec compare_file id (fun _ => True)) in Hy as [Hy E]; [|done..]. cbn in E. by subst.
  - intros Hp. exists p. by apply (tfind_spec compare_file id (fun _ => True)).
Qed.

Lemma cache_tree_lookup t c class machine name : cache_tree t c -> key_ok (class, machine, name) ->
  elf_cache_lookup class machine name t = c !! (class, machine, name).
Proof.
  intros [Ht Hc] Hk. unfold elf_cache_lookup. set (k := {| elf_class := class; elf_machine := machine; soname := name; path := "" |}).
  destruct (tfind elf_cache_compare k t) as [e|] eqn:E; cbn.
  - apply (tfind_spec elf_cache_compare entry_key entry_ok) in E as [He Hek]; [|done..]. symmetry. by apply (Hc (class, machine, name) (path e)); exists e.
  - destruct (c !! (class, machine, name)) as [p|] eqn:Ec; [|done]. exfalso. destruct (proj1 (Hc (class, machine, name) p)) as (e & He & Hek & _); [done|].
    assert (tfind elf_cache_compare k t = Some e) as E'; [|congruence]. by apply (tfind_spec elf_cache_compare entry_key entry_ok).
Qed.

Lemma cache_tree_add t c class machine name p : cache_tree t c -> key_ok (class, machine, name) ->
  cache_tree (elf_cache_add class machine name p t) (elf_cache_insert (class, machine, name) p c).
Proof.
  intros [Ht Hc] Hk. unfold elf_cache_add, elf_cache_insert. set (k := {| elf_class := class; elf_machine := machine; soname := name; path := p |}).
  destruct (tsearch elf_cache_compare k t) as [y t'] eqn:E. destruct (tsearch_spec elf_cache_compare entry_key entry_ok k t Hk Ht y t' E) as (H1 & _ & H3). cbn [snd].
  pose proof (tfind_spec elf_cache_compare entry_key entry_ok k t Hk Ht) as Hf.
  destruct (c !! (class, machine, name)) as [p0|] eqn:Ec.
  - split; [done|]. destruct (proj1 (Hc (class, machine, name) p0)) as (e & He & Hek & _); [done|].
    assert (tfind elf_cache_compare k t = Some e) as Hfe by (by apply Hf). intros k' p'. rewrite Hc. split; intros (e' & He' & Hx); exists e'; (split; [|done]).
    + apply H3. by left.
    + apply H3 in He' as [?|[_ ?]]; [done|congruence].
  - assert (tfind elf_cache_compare k t = None) as Hfn.
    { destruct (tfind elf_cache_compare k t) as [e|] eqn:Ef; [|done]. destruct (proj1 (Hf e) eq_refl) as [He Hek].
      assert (c !! (class, machine, name) = Some (path e) /\ key_ok (class, machine, name)) as [Hx _]; [|congruence]. apply Hc. by exists e. }
    split; [done|]. intros k' p'. destruct (decide (k' = (class, machine, name))) as [->|Hn].
    + rewrite lookup_insert_eq. split.
      * intros [[= <-] _]. exists k. split; [|done]. apply H3. by right.
      * intros (e & He & Hek & <-). split; [|done]. apply H3 in He as [He|[-> _]]; [|done].
        assert (tfind elf_cache_compare k t = Some e) by (by apply Hf). congruence.
    + rewrite lookup_insert_ne by done. rewrite Hc. split; intros (e & He & Hek & Hp); exists e; (split; [|done]).
      * apply H3. by left.
      * apply H3 in He as [?|[-> _]]; [done|]. by destruct Hn.
Qed.

(** The table of inodes does what classify_file does with its map. *)
Lemma inode_tree_first t m dev ino f : inode_tree t m -> exists t',
  hardlink_first dev ino f t = (default f (m !! (dev, ino)), t') /\
  inode_tree t' (match m !! (dev, ino) with Some _ => m | None => <[(dev, ino) := f]> m end).
Proof.
  intros [Ht Hm]. unfold hardlink_first. set (k := {| he_dev := dev; he_ino := ino; he_file := f |}).
  destruct (tsearch compare_hardlink_entry k t) as [y t'] eqn:E.
  destruct (tsearch_spec compare_hardlink_entry (fun e => (he_dev e, he_ino e)) (fun _ => True) k t I Ht y t' E) as (H1 & -> & H3).
  pose proof (tfind_spec compare_hardlink_entry (fun e => (he_dev e, he_ino e)) (fun _ => True) k t I Ht) as Hf. exists t'.
  destruct (tfind compare_hardlink_entry k t) as [e|] eqn:Ef; cbn [default].
  - destruct (proj1 (Hf e) eq_refl) as [He Hek]. assert (m !! (dev, ino) = Some (he_file e)) as Hme by (apply Hm; by exists e).
    rewrite Hme. split; [done|]. split; [done|]. intros k' p'. rewrite Hm. split; intros (e' & He' & Hx); exists e'; (split; [|done]).
    + apply H3. by left.
    + by apply H3 in He' as [?|[_ ?]].
  - destruct (m !! (dev, ino)) as [p0|] eqn:Em.
    + exfalso. destruct (proj1 (Hm (dev, ino) p0) Em) as (e & He & Hek & _). assert (None = Some e) by (by apply Hf). done.
    + split; [done|]. split; [done|]. intros k' p'. destruct (decide (k' = (dev, ino))) as [->|Hn].
      * rewrite lookup_insert_eq. split.
        -- intros [= <-]. exists k. split; [|done]. apply H3. by right.
        -- intros (e & He & Hek & <-). apply H3 in He as [He|[-> _]]; [|done]. assert (None = Some e) by (by apply Hf). done.
      * rewrite lookup_insert_ne by done. rewrite Hm. split; intros (e & He & Hek & Hp); exists e; (split; [|done]).
        -- apply H3. by left.
        -- apply H3 in He as [?|[-> _]]; [done|]. by destruct Hn.
Qed.

(** C23. The search trees of initrd-put. A tree over compare_file is the set of its paths:
    it finds a path exactly when it is in the set, adding and deleting do what the names
    say, and the walk visits the paths in the order of strcmp, once each. The tree of the
    cache answers as the finite map, and an entry that is there already wins over a new
    one. The tree of the inodes gives the first file of an inode. So the finite sets and
    maps that stand for the trees elsewhere lose nothing. *)
Theorem tables_refine t X ct c it m p class machine name so dev ino f :
  set_tree t X -> cache_tree ct c -> inode_tree it m -> key_ok (class, machine, name) ->
  (is_Some (queue_find p t) <-> p ∈ X) /\
  (exists t', tsearch compare_file p t = (p, t') /\ set_tree t' ({[ p ]} ∪ X)) /\
  set_tree (tdelete compare_file p t) (X ∖ {[ p ]}) /\
  twalk t = sorted_paths X /\
  elf_cache_lookup class machine name ct = c !! (class, machine, name) /\
  cache_tree (elf_cache_add class machine name so ct) (elf_cache_insert (class, machine, name) so c) /\
  exists it', hardlink_first dev ino f it = (default f (m !! (dev, ino)), it') /\
    inode_tree it' (match m !! (dev, ino) with Some _ => m | None => <[(dev, ino) := f]> m end).
Proof.
  intros Ht Hc Hm Hk. split_and!; [by apply set_tree_find|by apply set_tree_search|by apply set_tree_delete|by apply set_tree_walk|
    by apply cache_tree_lookup|by apply cache_tree_add|by apply inode_tree_first].
Qed.

Lemma tables_refine_witness :
  let t := snd (tsearch compare_file "/b"%string (snd (tsearch compare_file "/a"%string Leaf))) in
  twalk t = ["/a"; "/b"]%string /\ elf_cache_lookup 2 62 "libc.so" Leaf = None /\ fst (hardlink_first 1 2 "/a" Leaf) = "/a"%string.
Proof.
  intros t.
  assert (Ht : set_tree t {[ "/a"; "/b" ]}%string).
  { split; [vm_compute; split_and!; try done; intros y Hy; repeat (apply elem_of_cons in Hy as [->|Hy]; [vm_compute; reflexivity|]); by apply not_elem_of_nil in Hy|].
    intros p. change (twalk t) with ["/a"; "/b"]%string. set_solver. }
  destruct (tables_refine t {[ "/a"; "/b" ]}%string Leaf ∅ Leaf ∅ "/a" 2 62 "libc.so" "/lib/libc.so" 1 2 "/a") as (_ & _ & _ & Hw & Hl & _ & it & Hi & _).
  - exact Ht.
  - split; [exact I|]. intros k p. rewrite lookup_empty. split; [by intros [? _]|]. by intros (e & He%not_elem_of_nil & _).
  - split; [exact I|]. intros k p. rewrite lookup_empty. split; [done|]. by intros (e & He%not_elem_of_nil & _).
  - vm_compute. split; split; discriminate || reflexivity.
  - split; [rewrite Hw; vm_compute; reflexivity|]. split; [exact Hl|]. rewrite Hi. reflexivity.
Defined.

Lemma tdestroy_walk {A} (t : tree A) : tdestroy t ≡ₚ twalk t.
Proof. induction t as [|l IHl x r IHr]; cbn; [done|]. rewrite IHl, IHr. f_equiv. symmetry. apply Permutation_cons_append. Qed.

(** elf_cache_destroy frees the entries that the walk over the cache shows, each exactly
    once, and leaves the empty cache. *)
Theorem cache_destroyed t c : cache_tree t c ->
  cache_tree (fst (elf_cache_destroy t)) ∅ /\ Permutation (snd (elf_cache_destroy t)) (twalk t) /\
  forall k p, (c !! k = Some p /\ key_ok k) <-> exists e, e ∈ snd (elf_cache_destroy t) /\ entry_key e = k /\ path e = p.
Proof.
  intros [Ht Hc]. cbn [elf_cache_destroy fst snd]. split_and!; [|apply tdestroy_walk|].
  - split; [exact I|]. intros k p. rewrite lookup_empty. split; [by intros [? _]|]. by intros (e & He%not_elem_of_nil & _).
  - intros k p. rewrite Hc. split; intros (e & He & Hx); exists e; (split; [|done]); by rewrite tdestroy_walk in * || rewrite tdestroy_walk.
Qed.
