(* ===== verification/LddPipe.v ===== *)
(** initrd-put: the pipe from ldd (pipe_command and pipe_command_close of
    enqueue-library.c), with the descriptors of the two processes.

    Which descriptors pipe gives, which process fork makes and which calls fail are
    parameters. *)

From Stdlib Require Import ZArith Lia.
From stdpp Require Import base gmap sets tactics numbers.
From S2P Require Import Prelude.

Open Scope Z_scope.
Open Scope cprog_scope.

Inductive desc := PipeRead | PipeWrite | Other (what : Z).
Global Instance desc_eq_dec : EqDecision desc.
Proof. solve_decision. Defined.

(** The descriptors of a process and its children that were not waited for. *)
Record proc := { fds : gmap Z desc; children : gset Z }.

Definition STDOUT_FILENO : Z := 1.
Definition STDERR_FILENO : Z := 2.

Record pipe_calls := {
  pipe_ok : bool;
  fork_ok : bool;
  fdopen_ok : bool;
  fclose_ok : bool;
  waitpid_ok : bool;
  dup2_ok : Z -> bool;
  pipe_read : Z;
  pipe_write : Z;
  new_pid : Z;
}.

Section Pipe.
Variable k : pipe_calls.

Definition close (fd : Z) (p : proc) : proc := {| fds := delete fd (fds p); children := children p |}.
Definition reap (pid : Z) (p : proc) : proc := {| fds := fds p; children := children p ∖ {[ pid ]} |}.

(** waitpid for a child: whether it succeeds, and the process afterwards. *)
Definition waitpid (pid : Z) (p : proc) : bool * proc := if waitpid_ok k then (true, reap pid p) else (false, p).

(** dup2 of a descriptor that is open. *)
Definition dup2 (old new : Z) (t : gmap Z desc) : gmap Z desc := match t !! old with Some d => <[new := d]> t | None => t end.

(** The child up to execvp: what it leaves to the command, or [None] when it exits. *)
Definition child_exec (t : gmap Z desc) : option (gmap Z desc) :=
  let t := delete (pipe_read k) t in
  if negb (dup2_ok k STDOUT_FILENO) then None else
  let t := dup2 (pipe_write k) STDOUT_FILENO t in
  if negb (dup2_ok k STDERR_FILENO) then None else
  let t := dup2 (pipe_write k) STDERR_FILENO t in
  Some (if pipe_write k >? STDERR_FILENO then delete (pipe_write k) t else t).

(** The descriptor of the stream and the process, and the descriptors that the child
    starts with. Whether the waitpid after a failed fdopen succeeds is not looked at. *)
Definition pipe_command (p : proc) : option (Z * Z * gmap Z desc) * proc :=
  if negb (pipe_ok k) then (None, p) else
  let p := {| fds := <[pipe_write k := PipeWrite]> (<[pipe_read k := PipeRead]> (fds p)); children := children p |} in
  if negb (fork_ok k) then (None, close (pipe_write k) (close (pipe_read k) p)) else
  let inherited := fds p in
  let p := close (pipe_write k) {| fds := fds p; children := {[ new_pid k ]} ∪ children p |} in
  if negb (fdopen_ok k) then (None, (waitpid (new_pid k) (close (pipe_read k) p)).2) else
  (Some (pipe_read k, new_pid k, inherited), p).

(** fclose gives the descriptor back also when it fails. *)
Definition pipe_command_close (stream pid : Z) (p : proc) : Z * proc :=
  if pid <=? 0 then (-1, p) else
  let ret := if fclose_ok k then 0 else -1 in
  let p := close stream p in
  let '(ok, p) := waitpid pid p in
  (if ok then ret else -1, p).

(** ** Descriptors and processes are given back *)

(** What the system promises of its calls. *)
Record sane (p : proc) : Prop := {
  sa_read : fds p !! pipe_read k = None;
  sa_write : fds p !! pipe_write k = None;
  sa_lowest : 0 <= pipe_read k < pipe_write k;
  sa_pid : 0 < new_pid k /\ new_pid k ∉ children p;
  sa_fds n : fds p !! n <> Some PipeRead /\ fds p !! n <> Some PipeWrite;
}.

(** The process with its descriptors given back, and with the child if waitpid fails. *)
Definition given_back (p : proc) : proc := {| fds := fds p; children := if waitpid_ok k then children p else {[ new_pid k ]} ∪ children p |}.

Lemma wait_new (p : proc) : new_pid k ∉ children p -> waitpid (new_pid k) {| fds := fds p; children := {[ new_pid k ]} ∪ children p |} = (waitpid_ok k, given_back p).
Proof. intros Hp. unfold waitpid, reap, given_back. destruct (waitpid_ok k); cbn; [|done]. do 2 f_equal. set_solver. Qed.

Lemma unpipe (p : proc) : sane p -> delete (pipe_read k) (delete (pipe_write k) (<[pipe_write k := PipeWrite]> (<[pipe_read k := PipeRead]> (fds p)))) = fds p
  /\ delete (pipe_write k) (<[pipe_write k := PipeWrite]> (<[pipe_read k := PipeRead]> (fds p))) = <[pipe_read k := PipeRead]> (fds p).
Proof.
  intros [Hr Hw Hl _ _]. assert (delete (pipe_write k) (<[pipe_write k := PipeWrite]> (<[pipe_read k := PipeRead]> (fds p))) = <[pipe_read k := PipeRead]> (fds p)) as ->.
  { rewrite delete_insert_id; [done|]. rewrite lookup_insert_ne by lia. done. }
  split; [|done]. by rewrite delete_insert_id.
Qed.

(** What the command gets: both outputs are the pipe, and no other descriptor is. *)
Lemma child_fds p t : sane p -> child_exec (<[pipe_write k := PipeWrite]> (<[pipe_read k := PipeRead]> (fds p))) = Some t ->
  t !! STDOUT_FILENO = Some PipeWrite /\ t !! STDERR_FILENO = Some PipeWrite /\
  forall n, t !! n <> Some PipeRead /\ (t !! n = Some PipeWrite -> n = STDOUT_FILENO \/ n = STDERR_FILENO).
Proof.
  intros [Hr Hw Hl _ Hf]. unfold child_exec, STDOUT_FILENO, STDERR_FILENO. set (t0 := delete (pipe_read k) _).
  assert (Hn : forall n, t0 !! n <> Some PipeRead /\ (t0 !! n = Some PipeWrite <-> n = pipe_write k)).
  { intros n. unfold t0. destruct (decide (n = pipe_read k)) as [->|Hn1]; [rewrite lookup_delete_eq; split; [done|]; split; [done|lia]|].
    rewrite lookup_delete_ne by done. destruct (decide (n = pipe_write k)) as [->|Hn2]; [by rewrite lookup_insert_eq|].
    rewrite !lookup_insert_ne by done. destruct (Hf n). done. }
  clearbody t0. assert (Hw0 : t0 !! pipe_write k = Some PipeWrite) by (by apply Hn).
  destruct (negb (dup2_ok k 1)); [done|]. unfold dup2 at 2 4. rewrite Hw0. set (t1 := <[1 := PipeWrite]> t0).
  assert (Hw1 : t1 !! pipe_write k = Some PipeWrite).
  { unfold t1. destruct (decide (pipe_write k = 1)) as [->|]; [apply lookup_insert_eq|by rewrite lookup_insert_ne]. }
  destruct (negb (dup2_ok k 2)); [done|]. unfold dup2. rewrite Hw1. intros [= <-].
  assert (Hall : forall n, (<[2 := PipeWrite]> t1 : gmap Z desc) !! n = if decide (n = 1 \/ n = 2) then Some PipeWrite else t0 !! n).
  { intros n. unfold t1. destruct (decide (n = 2)) as [->|]; [rewrite lookup_insert_eq, decide_True by lia; done|]. rewrite lookup_insert_ne by done.
    destruct (decide (n = 1)) as [->|]; [rewrite lookup_insert_eq, decide_True by lia; done|]. rewrite lookup_insert_ne, decide_False by lia. done. }
  destruct (pipe_write k >? 2) eqn:Eg; [rewrite Z.gtb_ltb in Eg; apply Z.ltb_lt in Eg|rewrite Z.gtb_ltb in Eg; apply Z.ltb_ge in Eg].
  - rewrite !lookup_delete_ne by lia. rewrite !Hall, !decide_True by lia. split_and!; [done|done|]. intros n.
    destruct (decide (n = pipe_write k)) as [->|Hnw]; [rewrite lookup_delete_eq; done|]. rewrite lookup_delete_ne, Hall by done.
    case_decide; [split; [done|tauto]|]. destruct (Hn n) as [H1 H2]. split; [done|]. intros H3%H2. done.
  - rewrite !Hall, !decide_True by lia. split_and!; [done|done|]. intros n. rewrite Hall. case_decide; [split; [done|tauto]|].
    destruct (Hn n) as [H1 H2]. split; [done|]. intros ->%H2. lia.
Qed.
End Pipe.

(** C35. The pipe from ldd. When pipe_command fails, no descriptor is left, and no child
    either unless fdopen has failed and waitpid fails too. When it succeeds the process
    has the reading end only, the command has the writing end as its two outputs and
    nowhere else, so the end of the command is the end of the stream. pipe_command_close
    gives the descriptor back in every case; it succeeds if fclose and waitpid do, and the
    child is left exactly if waitpid fails. *)
Theorem pipe_balanced k p : sane k p ->
  match pipe_command k p with
  | (None, p') => p' = (if pipe_ok k && fork_ok k then given_back k p else p)
  | (Some (stream, pid, inherited), p') =>
      (forall n, fds p' !! n <> Some PipeWrite) /\ fds p' !! stream = Some PipeRead /\
      (forall t, child_exec k inherited = Some t -> t !! STDOUT_FILENO = Some PipeWrite /\ t !! STDERR_FILENO = Some PipeWrite /\
         forall n, t !! n <> Some PipeRead /\ (t !! n = Some PipeWrite -> n = STDOUT_FILENO \/ n = STDERR_FILENO)) /\
      pipe_command_close k stream pid p' = (if fclose_ok k && waitpid_ok k then 0 else -1, given_back k p)
  end.
Proof.
  intros Hs. pose proof Hs as [Hr Hw Hl [Hp1 Hp2] Hf]. destruct (unpipe k p Hs) as [U1 U2]. unfold pipe_command.
  destruct (pipe_ok k); cbn [negb]; [|done]. destruct (fork_ok k); cbn [negb andb].
  2:{ unfold close. cbn. rewrite delete_delete, U1. by destruct p. }
  destruct (fdopen_ok k); cbn [negb].
  2:{ unfold close. cbn. rewrite U1. by rewrite wait_new. }
  cbn [fds close]. rewrite U2. split_and!.
  - intros n. destruct (decide (n = pipe_read k)) as [->|Hn]; [by rewrite lookup_insert_eq|]. rewrite lookup_insert_ne by done. apply Hf.
  - apply lookup_insert_eq.
  - intros t. by apply child_fds.
  - unfold pipe_command_close. rewrite (proj2 (Z.leb_gt _ _)) by done. unfold close. cbn [fds children]. rewrite U2, delete_insert_id by done.
    rewrite wait_new by done. by destruct (fclose_ok k), (waitpid_ok k).
Qed.

Lemma pipe_balanced_witness :
  let k := {| pipe_ok := true; fork_ok := true; fdopen_ok := true; fclose_ok := true; waitpid_ok := true; dup2_ok := fun _ => true;
              pipe_read := 3; pipe_write := 4; new_pid := 7 |} in
  let p := {| fds := {[ 0 := Other 0; 1 := Other 1; 2 := Other 2 ]}; children := ∅ |} in
  match pipe_command k p with (Some (stream, pid, _), p') => pipe_command_close k stream pid p' = (0, p) | _ => False end.
Proof.
  intros k p. pose proof (pipe_balanced k p) as H. destruct (pipe_command k p) as [[[[stream pid] inh]|] p'] eqn:E; [|discriminate E].
  apply H. split; [reflexivity|reflexivity|cbn; lia|cbn; split; [lia|set_solver]|].
  intros n. cbn. destruct (decide (n = 0)) as [->|]; [done|]. destruct (decide (n = 1)) as [->|]; [done|]. destruct (decide (n = 2)) as [->|]; [done|].
  rewrite !lookup_insert_ne, lookup_singleton_ne by done. done.
Defined.
