(* ===== verification/DlopenPipe.v ===== *)
(** How initrd-put finds a library with dlopen (resolve_soname of
    utils/initrd-put/elf_dlopen.c): a child process opens the library and writes the
    length of its path and the path into a pipe, the parent reads them and waits for the
    child. The steps of both processes interleave in any way; a write takes a part of the
    bytes, a read gets a part of those that are there.

    The parent has the end of the pipe for writing open as well, so a read from an empty
    pipe never sees the end of the file: it waits. PutDeps has the result of the function
    without the processes, [PutDeps.resolve_soname]. *)

From Stdlib Require Import ZArith Ascii Lia.
From stdpp Require Import base list strings relations tactics.
From S2P Require Import Prelude CString PutQueue PutDeps.

Open Scope Z_scope.
Open Scope cprog_scope.

(** The path that the child finds: the loop over the names. *)
Fixpoint open_soname (d : dlopen_calls) (soname : list string) : option bytes :=
  match soname with
  | [] => None
  | s :: l => match dlopen d s with Some p => Some p | None => open_soname d l end
  end.

Inductive cphase := CSize | CName (rest : bytes) | CExit | CKilled.
Inductive pphase := PSize | PName (siz : Z) | PWait (ret : Z) | PDone (ret : Z).

(** The pipe, and what the parent has read into outbuf. *)
Record pipe_state := { child : cphase; parent : pphase; pipe : bytes; outbuf : bytes }.

Definition pipe0 : pipe_state := {| child := CSize; parent := PSize; pipe := []; outbuf := [] |}.

Section Pipe.
Context (d : dlopen_calls) (soname : list string) (cap : Z).

(** What the child writes: the length with the byte at the end of the path, or 0. *)
Definition body : bytes := match open_soname d soname with Some p => p ++ [NUL] | None => [] end.

Definition child_size (s : pipe_state) : option pipe_state :=
  match child s with
  | CSize => if lenZ (pipe s) + 8 <=? cap then
               Some {| child := CName body; parent := parent s; pipe := pipe s ++ le_bytes 8 (lenZ body); outbuf := outbuf s |}
             else None
  | _ => None
  end.

Definition child_write (n : Z) (s : pipe_state) : option pipe_state :=
  match child s with
  | CName rest => if (0 <? n) && (n <=? lenZ rest) && (lenZ (pipe s) + n <=? cap) then
                    Some {| child := CName (dropZ n rest); parent := parent s; pipe := pipe s ++ takeZ n rest; outbuf := outbuf s |}
                  else None
  | _ => None
  end.

Definition child_end (s : pipe_state) : option pipe_state :=
  match child s with
  | CName [] => Some {| child := CExit; parent := parent s; pipe := pipe s; outbuf := outbuf s |}
  | _ => None
  end.

Definition parent_size (s : pipe_state) : option pipe_state :=
  match parent s, pipe s with
  | PSize, _ :: _ =>
      let n := Z.min 8 (lenZ (pipe s)) in
      let siz := le_num (takeZ n (pipe s)) in
      let next := if siz =? 0 then PWait 0 else if siz >? PATH_MAX + 1 then PWait (-1) else PName siz in
      Some {| child := child s; parent := next; pipe := dropZ n (pipe s); outbuf := outbuf s |}
  | _, _ => None
  end.

Definition parent_read (n : Z) (s : pipe_state) : option pipe_state :=
  match parent s with
  | PName siz => if (0 <? n) && (n <=? siz) && (n <=? lenZ (pipe s)) then
                   Some {| child := child s; parent := PName (siz - n); pipe := dropZ n (pipe s); outbuf := outbuf s ++ takeZ n (pipe s) |}
                 else None
  | _ => None
  end.

(** The end of the loop, and waitpid. *)
Definition parent_end (s : pipe_state) : option pipe_state :=
  match parent s with
  | PName siz => if siz =? 0 then Some {| child := child s; parent := PWait 0; pipe := pipe s; outbuf := outbuf s |} else None
  | _ => None
  end.

Definition parent_wait (s : pipe_state) : option pipe_state :=
  match parent s, child s with
  | PWait r, CExit | PWait r, CKilled => Some {| child := child s; parent := PDone r; pipe := pipe s; outbuf := outbuf s |}
  | _, _ => None
  end.

(** The child can be killed at any time before its end, for instance by what the library
    does when it is opened. *)
Definition kill_child (s : pipe_state) : option pipe_state :=
  match child s with
  | CSize | CName _ => Some {| child := CKilled; parent := parent s; pipe := pipe s; outbuf := outbuf s |}
  | _ => None
  end.

Inductive pipe_step (s s' : pipe_state) : Prop :=
| step_child_size : child_size s = Some s' -> pipe_step s s'
| step_child_write n : child_write n s = Some s' -> pipe_step s s'
| step_child_end : child_end s = Some s' -> pipe_step s s'
| step_parent_size : parent_size s = Some s' -> pipe_step s s'
| step_parent_read n : parent_read n s = Some s' -> pipe_step s s'
| step_parent_end : parent_end s = Some s' -> pipe_step s s'
| step_parent_wait : parent_wait s = Some s' -> pipe_step s s'
| step_kill_child : kill_child s = Some s' -> pipe_step s s'.

(** ** What both processes keep true *)

Definition rest_of (c : cphase) : bytes := match c with CName r => r | _ => [] end.

Definition ended (s : pipe_state) (r : Z) : Prop :=
  (lenZ body <= PATH_MAX + 1 /\ r = 0 /\ outbuf s = body /\ pipe s = [] /\ rest_of (child s) = []) \/
  (PATH_MAX + 1 < lenZ body /\ r = -1 /\ outbuf s = [] /\ body = pipe s ++ rest_of (child s)).

Definition pipe_inv (s : pipe_state) : Prop :=
  child s <> CKilled /\
  match parent s with
  | PSize => outbuf s = [] /\ (child s = CSize /\ pipe s = [] \/
               child s <> CSize /\ exists t, pipe s = le_bytes 8 (lenZ body) ++ t /\ body = t ++ rest_of (child s))
  | PName siz => child s <> CSize /\ lenZ body <= PATH_MAX + 1 /\ body = outbuf s ++ pipe s ++ rest_of (child s) /\
                 siz = lenZ (pipe s) + lenZ (rest_of (child s))
  | PWait r => child s <> CSize /\ ended s r
  | PDone r => child s = CExit /\ ended s r
  end.

Context (Hlen : lenZ body < 2 ^ 64).

Lemma pipe_inv0 : pipe_inv pipe0.
Proof. split; [done|]. cbn. auto. Qed.

Lemma inv_child_size s s' : child_size s = Some s' -> pipe_inv s -> pipe_inv s'.
Proof.
  destruct s as [c p pi ob]. unfold child_size, pipe_inv. cbn. destruct c; try done. destruct (_ <=? cap); [|done]. intros [= <-] [_ Hi]. cbn.
  split; [done|]. destruct p; [|naive_solver..]. destruct Hi as [-> [[_ ->]|[? _]]]; [|done]. split; [done|]. right. split; [done|].
  exists []. by split.
Qed.

(** The child moves bytes from what it has to write into the pipe, or ends. *)
Lemma inv_child_moves c c' p pi t ob : pipe_inv {| child := c; parent := p; pipe := pi; outbuf := ob |} -> c <> CSize -> c' <> CSize -> c' <> CKilled ->
  rest_of c = t ++ rest_of c' -> (rest_of c = [] -> t = []) ->
  match p with PDone _ => c' = CExit | _ => True end -> pipe_inv {| child := c'; parent := p; pipe := pi ++ t; outbuf := ob |}.
Proof.
  unfold pipe_inv. cbn. intros [_ Hi] Hc Hc' Hk Hr Ht Hp. split; [done|].
  assert (He : forall r, ended {| child := c; parent := p; pipe := pi; outbuf := ob |} r -> ended {| child := c'; parent := p; pipe := pi ++ t; outbuf := ob |} r).
  { intros r [(H1 & -> & H3 & H4 & H5)|(H1 & -> & H3 & H4)]; cbn in *.
    - left. rewrite (Ht H5) in *. rewrite H5 in Hr. cbn. rewrite H4. by repeat split.
    - right. cbn. repeat split; try done. by rewrite <- app_assoc, <- Hr. }
  destruct p as [|siz|r|r].
  - destruct Hi as [-> [[? _]|[_ (t' & -> & Hb)]]]; [done|]. split; [done|]. right. split; [done|]. exists (t' ++ t). by rewrite <- !app_assoc, <- Hr.
  - destruct Hi as (_ & H1 & H2 & ->). split; [done|]. split; [done|]. rewrite <- app_assoc, <- Hr. split; [done|]. rewrite Hr, !lenZ_app. lia.
  - destruct Hi as [_ Hi]. auto.
  - destruct Hi as [_ Hi]. auto.
Qed.

Lemma inv_child_write n s s' : child_write n s = Some s' -> pipe_inv s -> pipe_inv s'.
Proof.
  destruct s as [c p pi ob]. unfold child_write. cbn. destruct c as [|rest| |]; try done.
  destruct (Z.ltb_spec 0 n); [|done]. destruct (Z.leb_spec n (lenZ rest)); [|done]. cbn [andb]. destruct (_ <=? cap); [|done]. intros [= <-] Hi.
  eapply inv_child_moves; [exact Hi|done|done|done|..].
  - cbn. symmetry. apply takeZ_dropZ; lia.
  - cbn. intros ->. by destruct n.
  - destruct p; try done. by destruct Hi as [_ [? _]].
Qed.

Lemma inv_child_end s s' : child_end s = Some s' -> pipe_inv s -> pipe_inv s'.
Proof.
  destruct s as [c p pi ob]. unfold child_end. cbn. destruct c as [|[|]| |]; try done. intros [= <-] Hi. rewrite <- (app_nil_r pi).
  eapply inv_child_moves; [exact Hi|done..|]. by destruct p.
Qed.

Lemma inv_parent_size s s' : parent_size s = Some s' -> pipe_inv s -> pipe_inv s'.
Proof.
  destruct s as [c p pi ob]. unfold parent_size. cbn [parent pipe]. destruct p; try done. destruct pi as [|x pi]; [done|].
  intros H [Hk Hi]. cbn [parent child pipe outbuf] in Hi. destruct Hi as [-> [[_ ?]|[Hc (t & Hpi & Hb)]]]; [done|]. rewrite Hpi in H.
  assert (Hmin : Z.min 8 (lenZ (le_bytes 8 (lenZ body) ++ t)) = 8) by (rewrite lenZ_app, lenZ_le_bytes; pose proof (lenZ_nonneg t); lia).
  rewrite Hmin in H. rewrite (takeZ_app 8), (dropZ_app' 8), le_num_bytes in H by (rewrite ?lenZ_le_bytes; pose proof (lenZ_nonneg body); lia).
  injection H as <-. split; [done|]. cbn [parent child pipe outbuf]. rewrite Z.gtb_ltb.
  destruct (Z.eqb_spec (lenZ body) 0) as [E|E]; [|destruct (Z.ltb_spec (PATH_MAX + 1) (lenZ body))].
  - split; [done|]. left. assert (body = []) as Hb0 by (by apply lenZ_zero).
    rewrite Hb0 in Hb. symmetry in Hb. apply app_nil in Hb as [-> Hb]. rewrite Hb0. cbn. by repeat split.
  - split; [done|]. right. by repeat split.
  - split; [done|]. split; [done|]. split; [done|]. rewrite Hb at 1. by rewrite lenZ_app.
Qed.

Lemma inv_parent_read n s s' : parent_read n s = Some s' -> pipe_inv s -> pipe_inv s'.
Proof.
  destruct s as [c p pi ob]. unfold parent_read, pipe_inv. cbn. destruct p as [|siz| |]; try done.
  destruct (Z.ltb_spec 0 n), (Z.leb_spec n siz), (Z.leb_spec n (lenZ pi)); try done. intros [= <-] (Hk & Hc & Hl & Hb & ->). cbn.
  split; [done|]. split; [done|]. split; [done|]. split.
  - rewrite <- app_assoc. by rewrite (app_assoc (takeZ n pi)), takeZ_dropZ by lia.
  - rewrite lenZ_dropZ by lia. lia.
Qed.

Lemma inv_parent_end s s' : parent_end s = Some s' -> pipe_inv s -> pipe_inv s'.
Proof.
  destruct s as [c p pi ob]. unfold parent_end, pipe_inv. cbn. destruct p as [|siz| |]; try done.
  destruct (Z.eqb_spec siz 0) as [->|]; [|done]. intros [= <-] (Hk & Hc & Hl & Hb & Hs). cbn. split; [done|]. split; [done|]. left.
  pose proof (lenZ_nonneg pi). pose proof (lenZ_nonneg (rest_of c)).
  assert (Hpi : pi = []) by (apply lenZ_zero; lia).
  assert (Hr : rest_of c = []) by (apply lenZ_zero; lia).
  cbn. rewrite Hpi, Hr, !app_nil_r in Hb. by rewrite Hpi, Hr.
Qed.

Lemma inv_parent_wait s s' : parent_wait s = Some s' -> pipe_inv s -> pipe_inv s'.
Proof.
  destruct s as [c p pi ob]. unfold parent_wait, pipe_inv. cbn. destruct p as [| |r|]; try done. destruct c; try done; intros [= <-]; cbn; [|naive_solver].
  intros (Hk & Hc & He). split; [done|]. split; [done|]. exact He.
Qed.

(** This holds as long as the child lives; what is left to read is never negative. *)
Definition pipe_ok (s : pipe_state) : Prop :=
  match parent s with PName siz => 0 <= siz | _ => True end /\ (child s = CKilled \/ pipe_inv s).

Lemma le_num_nonneg l : 0 <= le_num l.
Proof. unfold le_num. induction l as [|c l IH]; cbn [foldr]; [lia|]. fold (le_num l) in *. pose proof (Nat2Z.is_nonneg (nat_of_ascii c)). unfold ord, le_num in *. lia. Qed.

(** The steps of the child do not change the parent. *)
Lemma child_keeps s s' : (child_size s = Some s' \/ (exists n, child_write n s = Some s') \/ child_end s = Some s' \/ kill_child s = Some s') -> parent s' = parent s.
Proof.
  unfold child_size, child_write, child_end, kill_child.
  intros [H|[[n H]|[H|H]]]; destruct (child s) as [|[|]| |]; try done;
    try (match type of H with (if ?b then _ else _) = _ => destruct b; [|done] end); apply (inj Some) in H; by rewrite <- H.
Qed.

Lemma left_nonneg s s' : pipe_step s s' -> match parent s with PName siz => 0 <= siz | _ => True end -> match parent s' with PName siz => 0 <= siz | _ => True end.
Proof.
  intros [H|n H|H|H|n H|H|H|H]; try (rewrite (child_keeps s s'); [done|naive_solver]); destruct s as [c p pi ob].
  - unfold parent_size in H. cbn [parent pipe child outbuf] in H. destruct p; try done. destruct pi; [done|]. apply (inj Some) in H as <-. intros _. cbn [parent].
    set (l := takeZ _ _). pose proof (le_num_nonneg l). destruct (le_num l =? 0); [done|]. by destruct (_ >? _).
  - unfold parent_read in H. cbn [parent pipe child outbuf] in H. destruct p as [|siz| |]; try done.
    destruct (Z.ltb_spec 0 n), (Z.leb_spec n siz), (_ <=? lenZ pi); try done. apply (inj Some) in H as <-. cbn. lia.
  - unfold parent_end in H. cbn [parent pipe child outbuf] in H. destruct p as [|siz| |]; try done. destruct (siz =? 0); [|done]. by apply (inj Some) in H as <-.
  - unfold parent_wait in H. cbn [parent pipe child outbuf] in H. destruct p as [| |r|]; try done. destruct c; try done; by apply (inj Some) in H as <-.
Qed.

Lemma killed_stays s s' : pipe_step s s' -> child s = CKilled -> child s' = CKilled.
Proof.
  destruct s as [c p pi ob]. cbn [child]. intros H ->. destruct H as [H|n H|H|H|n H|H|H|H]; try done.
  - unfold parent_size in H. cbn [parent pipe child outbuf] in H. destruct p; try done. destruct pi; [done|]. by apply (inj Some) in H as <-.
  - unfold parent_read in H. cbn [parent pipe child outbuf] in H. destruct p as [|siz| |]; try done. destruct (_ && _); [|done]. by apply (inj Some) in H as <-.
  - unfold parent_end in H. cbn [parent pipe child outbuf] in H. destruct p as [|siz| |]; try done. destruct (siz =? 0); [|done]. by apply (inj Some) in H as <-.
  - unfold parent_wait in H. cbn [parent pipe child outbuf] in H. destruct p as [| |r|]; try done. by apply (inj Some) in H as <-.
Qed.

Lemma pipe_ok_step s s' : pipe_step s s' -> pipe_ok s -> pipe_ok s'.
Proof.
  intros Hs [H1 H2]. split; [by eapply left_nonneg|]. destruct H2 as [H2|H2]; [left; by eapply killed_stays|].
  destruct Hs as [H|n H|H|H|n H|H|H|H]; [right..|left];
    [by eapply inv_child_size|by eapply (inv_child_write n)|by eapply inv_child_end|by eapply inv_parent_size|by eapply (inv_parent_read n)|
     by eapply inv_parent_end|by eapply inv_parent_wait|].
  unfold kill_child in H. destruct (child s); try done; by injection H as <-.
Qed.

Lemma pipe_ok_steps s s' : rtc pipe_step s s' -> pipe_ok s -> pipe_ok s'.
Proof. induction 1; [done|]. intros. by apply IHrtc, pipe_ok_step with x. Qed.

(** ** No state without a step but the last one *)

Lemma pipe_progress s : 8 <= cap -> (PATH_MAX + 1 < lenZ body -> lenZ body <= cap) -> pipe_inv s -> (forall r, parent s <> PDone r) -> exists s', pipe_step s s'.
Proof.
  intros Hcap Hbig. destruct s as [c p pi ob]. unfold pipe_inv. cbn. intros [Hk Hi] Hp.
  assert (Hwrite : forall x l, c = CName (x :: l) -> lenZ pi + 1 <= cap -> exists s', pipe_step {| child := c; parent := p; pipe := pi; outbuf := ob |} s').
  { intros x l -> H. eexists. apply (step_child_write _ _ 1). unfold child_write. cbn. rewrite lenZ_cons. pose proof (lenZ_nonneg l).
    rewrite (proj2 (Z.leb_le 1 _)), (proj2 (Z.leb_le _ _)) by lia. done. }
  destruct p as [|siz|r|r].
  - destruct Hi as [-> [[-> ->]|[Hc (t & -> & Hb)]]].
    + eexists. apply step_child_size. unfold child_size. cbn. by rewrite (proj2 (Z.leb_le _ _)).
    + eexists. apply step_parent_size. unfold parent_size. cbn [parent pipe]. cbn [le_bytes app]. done.
  - destruct Hi as (Hc & Hl & Hb & ->). destruct pi as [|x pi].
    + destruct c as [|rest| |]; try done.
      * destruct rest as [|x l]; [eexists; by apply step_parent_end|]. eapply (Hwrite x l); [done|]. change (lenZ (@nil ascii)) with 0. lia.
      * eexists. by apply step_parent_end.
    + eexists. apply (step_parent_read _ _ 1). unfold parent_read. cbn [parent pipe]. rewrite !lenZ_cons.
      pose proof (lenZ_nonneg pi). pose proof (lenZ_nonneg (rest_of c)). rewrite (proj2 (Z.leb_le 1 _)), (proj2 (Z.leb_le 1 _)) by lia. done.
  - destruct Hi as [Hc He]. destruct c as [|rest| |]; try done; [|eexists; by apply step_parent_wait].
    destruct rest as [|x l]; [eexists; by apply step_child_end|]. destruct He as [(_ & _ & _ & _ & ?)|(H1 & _ & _ & H4)]; [done|].
    eapply (Hwrite x l); [done|]. cbn in H4. specialize (Hbig H1). rewrite H4, lenZ_app, lenZ_cons in Hbig. pose proof (lenZ_nonneg l). lia.
  - by destruct (Hp r).
Qed.

(** A parent that waits for bytes of a child that was killed. *)
Definition hangs (s : pipe_state) : Prop :=
  child s = CKilled /\ pipe s = [] /\ (parent s = PSize \/ exists siz, parent s = PName siz /\ 0 < siz).

Lemma killed_progress s : child s = CKilled -> match parent s with PName siz => 0 <= siz | _ => True end ->
  hangs s \/ (exists r, parent s = PDone r) \/ exists s', pipe_step s s'.
Proof.
  destruct s as [c p pi ob]. unfold hangs. cbn. intros -> Hsiz. destruct p as [|siz|r|r]; [| | |right; left; by exists r].
  - destruct pi as [|x pi]; [left; auto|]. right; right. eexists. by apply step_parent_size.
  - destruct (decide (siz = 0)) as [->|Hz]; [right; right; eexists; by apply step_parent_end|].
    destruct pi as [|x pi]; [left; split; [done|]; split; [done|]; right; exists siz; split; [done|lia]|].
    right; right. eexists. apply (step_parent_read _ _ 1). unfold parent_read. cbn [parent pipe]. rewrite lenZ_cons. pose proof (lenZ_nonneg pi).
    rewrite (proj2 (Z.leb_le 1 siz)), (proj2 (Z.leb_le 1 _)) by lia. done.
  - right; right. eexists. by apply step_parent_wait.
Qed.

(** ** Every step brings the end nearer *)

Definition child_weight (c : cphase) : Z := match c with CSize => 2 * lenZ body + 10 | CName r => 2 * lenZ r + 1 | _ => 0 end.
Definition parent_weight (p : pphase) : Z := match p with PSize => 3 | PName _ => 2 | PWait _ => 1 | PDone _ => 0 end.
Definition weight (s : pipe_state) : Z := child_weight (child s) + lenZ (pipe s) + parent_weight (parent s).

Lemma weight_nonneg s : 0 <= weight s.
Proof.
  unfold weight, child_weight, parent_weight. pose proof (lenZ_nonneg (pipe s)). pose proof (lenZ_nonneg body).
  destruct (child s) as [|r| |], (parent s); try (pose proof (lenZ_nonneg r)); lia.
Qed.

Lemma step_weight s s' : pipe_step s s' -> weight s' < weight s.
Proof.
  destruct s as [c p pi ob]. unfold weight. intros [H|n H|H|H|n H|H|H|H]; cbn [child parent pipe outbuf] in *.
  - unfold child_size in H. cbn [child pipe parent outbuf] in H. destruct c; try done. destruct (_ <=? cap); [|done]. apply (inj Some) in H as <-. cbn [child parent pipe child_weight].
    rewrite lenZ_app, lenZ_le_bytes. lia.
  - unfold child_write in H. cbn in H. destruct c as [|r| |]; try done. destruct (Z.ltb_spec 0 n), (Z.leb_spec n (lenZ r)); try done. cbn [andb] in H.
    destruct (_ <=? cap); [|done]. injection H as <-. cbn [child parent pipe child_weight]. rewrite lenZ_app, lenZ_takeZ, lenZ_dropZ by lia. lia.
  - unfold child_end in H. cbn in H. destruct c as [|[|]| |]; try done. injection H as <-. cbn [child parent pipe child_weight].
    change (lenZ (@nil ascii)) with 0. lia.
  - unfold parent_size in H. cbn [parent pipe] in H. destruct p; try done. destruct pi as [|x pi]; [done|]. injection H as <-. cbn [child parent pipe].
    rewrite lenZ_dropZ by (rewrite lenZ_cons; pose proof (lenZ_nonneg pi); lia). rewrite lenZ_cons. pose proof (lenZ_nonneg pi).
    destruct (_ =? 0); [|destruct (_ >? _)]; cbn [parent_weight]; lia.
  - unfold parent_read in H. cbn in H. destruct p as [|siz| |]; try done.
    destruct (Z.ltb_spec 0 n), (Z.leb_spec n siz), (Z.leb_spec n (lenZ pi)); try done. injection H as <-. cbn [child parent pipe parent_weight].
    rewrite lenZ_dropZ by lia. lia.
  - unfold parent_end in H. cbn in H. destruct p as [|siz| |]; try done. destruct (siz =? 0); [|done]. injection H as <-. cbn [child parent pipe parent_weight]. lia.
  - unfold parent_wait in H. cbn in H. destruct p as [| |r|]; try done. destruct c; try done; injection H as <-; cbn [child parent pipe parent_weight]; lia.
  - unfold kill_child in H. cbn [child parent pipe outbuf] in H. pose proof (lenZ_nonneg body).
    destruct c as [|l| |]; try done; apply (inj Some) in H as <-; cbn [child parent pipe child_weight]; [|pose proof (lenZ_nonneg l)]; lia.
Qed.

Lemma steps_weight k s s' : nsteps pipe_step k s s' -> Z.of_nat k + weight s' <= weight s.
Proof. induction 1 as [|k x y z Hs Hn IH]; [lia|]. apply step_weight in Hs. lia. Qed.

(** ** The result *)

Lemma resolve_open : resolve_soname d soname =
  match open_soname d soname with Some p => if lenZ p + 1 >? PATH_MAX + 1 then (-1, []) else (0, p) | None => (0, []) end.
Proof. clear Hlen. induction soname as [|x l IH]; [done|]. cbn. by destruct (dlopen d x). Qed.

Lemma ended_result s r : (forall p, open_soname d soname = Some p -> NUL ∉ p) -> ended s r ->
  (r, default [] (cstr (outbuf s ++ [NUL]))) = resolve_soname d soname.
Proof.
  intros Hn He. rewrite resolve_open. unfold ended, body in He. destruct (open_soname d soname) as [p|].
  - rewrite lenZ_app in He. change (lenZ [NUL]) with 1 in He. specialize (Hn p eq_refl). destruct He as [(Hl & -> & -> & _)|(Hl & -> & -> & _)].
    + rewrite Z.gtb_ltb, (proj2 (Z.ltb_ge _ _)) by lia. rewrite <- app_assoc. cbn [app]. by rewrite cstr_app.
    + by rewrite Z.gtb_ltb, (proj2 (Z.ltb_lt _ _)) by lia.
  - destruct He as [(_ & -> & -> & _)|(Hl & _)]; [done|]. vm_compute in Hl. done.
Qed.

(** C24. Every interleaving of the two processes ends after a bounded number of steps.
    If the child is not killed, no state is stuck before the parent returns, and what it
    returns is the path that the sequential function finds. A path that is too long is
    refused; for this the pipe must hold it. If the child is killed, the parent returns as
    well, unless the pipe is empty and it has not read all: then it waits for ever. *)
Theorem resolve_soname_pipe : 8 <= cap -> (PATH_MAX + 1 < lenZ body -> lenZ body <= cap) ->
  (forall p, open_soname d soname = Some p -> NUL ∉ p) ->
  (forall k s, nsteps pipe_step k pipe0 s -> Z.of_nat k <= 2 * lenZ body + 13) /\
  (forall s, rtc pipe_step pipe0 s -> child s <> CKilled -> nf pipe_step s ->
     exists r, parent s = PDone r /\ (r, default [] (cstr (outbuf s ++ [NUL]))) = resolve_soname d soname) /\
  (forall s, rtc pipe_step pipe0 s -> child s = CKilled -> (nf pipe_step s <-> hangs s \/ exists r, parent s = PDone r)).
Proof.
  intros Hcap Hbig Hn. assert (Hok0 : pipe_ok pipe0) by (split; [done|right; apply pipe_inv0]). split_and!.
  - intros k s Hk. apply steps_weight in Hk. pose proof (weight_nonneg s). unfold weight, pipe0 in Hk. cbn [child parent pipe child_weight parent_weight] in Hk.
    change (lenZ (@nil ascii)) with 0 in Hk. unfold weight in H. lia.
  - intros s Hs Hc Hnf. destruct (pipe_ok_steps _ _ Hs Hok0) as [_ [?|Hi]]; [done|].
    destruct (parent s) as [| | |r] eqn:E; try (destruct Hnf; apply (pipe_progress s); [done|done|done|congruence]).
    exists r. split; [done|]. apply ended_result; [done|]. destruct Hi as [_ Hi]. rewrite E in Hi. apply Hi.
  - intros s Hs Hc. destruct (pipe_ok_steps _ _ Hs Hok0) as [Hsiz _]. split.
    + intros Hnf. destruct (killed_progress s Hc Hsiz) as [?|[?|?]]; auto. by destruct Hnf.
    + intros Hend [s' Hst]. destruct s as [c p pi ob]. unfold hangs in Hend. cbn in Hc, Hend. subst c. destruct Hst as [H|n H|H|H|n H|H|H|H]; try done.
      * unfold parent_size in H. cbn in H. destruct Hend as [(_ & -> & _)|[r ->]]; [by destruct p|done].
      * unfold parent_read in H. cbn in H. destruct Hend as [(_ & -> & _)|[r ->]]; [|done]. destruct p as [|siz| |]; try done.
        change (lenZ (@nil ascii)) with 0 in H. destruct (Z.ltb_spec 0 n), (Z.leb_spec n siz), (Z.leb_spec n 0); done || lia.
      * unfold parent_end in H. cbn in H. destruct Hend as [(_ & _ & [->|(siz & -> & Hz)])|[r ->]]; try done. by rewrite (proj2 (Z.eqb_neq _ _)) in H by lia.
      * unfold parent_wait in H. cbn in H. destruct Hend as [(_ & _ & [->|(siz & -> & Hz)])|[r ->]]; done.
Qed.

(** The parent can come to wait for ever: a child that is killed before it writes. *)
Theorem killed_child_hangs : exists s, rtc pipe_step pipe0 s /\ hangs s.
Proof.
  eexists. split; [apply rtc_once; by apply step_kill_child|]. split; [done|]. split; [done|]. by left.
Qed.
End Pipe.

(** ** Witnesses *)

Definition demo_dlopen : dlopen_calls :=
  {| getenv _ := None; regcomp _ := None; json_tokener_parse _ := None; json_object_get_string _ := ""%string;
     dlopen s := if bool_decide (s = "libz.so.1"%string) then Some #"/lib64/libz.so.1" else None |}.

Lemma resolve_soname_pipe_witness : resolve_soname demo_dlopen ["libx.so"; "libz.so.1"]%string = (0, #"/lib64/libz.so.1") /\ forall s, rtc (pipe_step demo_dlopen ["libx.so"; "libz.so.1"]%string 65536) pipe0 s -> child s <> CKilled ->
  nf (pipe_step demo_dlopen ["libx.so"; "libz.so.1"]%string 65536) s ->
  exists r, parent s = PDone r /\ (r, default [] (cstr (outbuf s ++ [NUL]))) = (0, #"/lib64/libz.so.1").
Proof.
  split; [vm_compute; reflexivity|].
  destruct (resolve_soname_pipe demo_dlopen ["libx.so"; "libz.so.1"]%string 65536) as (_ & H & _).
  - vm_compute. reflexivity.
  - lia.
  - intros _. vm_compute. discriminate.
  - intros p Hp. vm_compute in Hp. injection Hp as <-. apply (bool_decide_unpack _). vm_compute. exact I.
  - exact H.
Defined.
