(* ===== verification/PutMain.v ===== *)
(** initrd-put: which files are put into the image (enqueue_path and the loop of main
    over the queue in initrd-put.c).

    Every file that is taken out of the queue goes into the tree, and what it needs
    goes into the queue. The file system is a parameter and does not change. *)

From Stdlib Require Import ZArith Ascii String Lia.
From stdpp Require Import base list strings gmap sets tactics numbers.
From S2P Require Import Prelude CString PutQueue PutCanon PutDeps.

Open Scope Z_scope.
Open Scope cprog_scope.

Definition LINE_MAX : Z := 2048.
Definition EX_OSERR : Z := 71.

Inductive fts_info := FTS_OBJECT | FTS_DP | FTS_ERROR.
Record fts_entry := { fts_kind : fts_info; fts_path : string; fts_stat : stat }.

(** open and pread: the content, a file that may not be read, another failure. *)
Inductive open_result := Content (b : bytes) | Denied | Failed.
(** lstat of a path in the destination. *)
Inductive dest_result := Absent | Present (st : stat) | DestError.

Record host := {
  exclude : string -> bool;
  calls : path_calls;
  lstat : string -> option stat;
  fts : string -> option (list fts_entry);
  open_file : string -> open_result;
  access_x : string -> bool;
  elf_of : string -> option elf;
  ldd_of : string -> option (bytes * bool);
  dl : dlopen_calls;
  prefix : option string;
  destdir : string;
  force : bool;
  dest_lstat : string -> dest_result;
}.

Abbreviation pstate := (elf_cache * put)%type.

Definition fill_stat (st : stat) (f : file) : file :=
  {| prev := prev f; next := next f; f_stat := st; dst := dst f; symlink := symlink f;
     hardlink_target := hardlink_target f; recursive := recursive f; installed := installed f |}.
Definition set_symlink (t : string) (f : file) : file :=
  {| prev := prev f; next := next f; f_stat := f_stat f; dst := dst f; symlink := Some t;
     hardlink_target := hardlink_target f; recursive := recursive f; installed := installed f |}.
Definition set_dst (d : string) (f : file) : file :=
  {| prev := prev f; next := next f; f_stat := f_stat f; dst := d; symlink := symlink f;
     hardlink_target := hardlink_target f; recursive := recursive f; installed := installed f |}.

Definition is_type (t : Z) (st : stat) : bool := Z.land (st_mode st) S_IFMT =? t.

Section Put.
Variable h : host.

Definition enqueue_parent_directory (path : string) (q : put) : out put :=
  if bool_decide (prefix h = Some path) then Ret q else
  match strrchr "/" #path with
  | None => Ret q
  | Some (a, _) =>
      if decide (a = []) then Ret q
      else let! x := enqueue_item (exclude h) path (lenZ a) q in Ret (snd x)
  end.

Fixpoint fts_loop (l : list fts_entry) (q : put) : out put :=
  match l with
  | [] => Ret q
  | e :: l =>
      match fts_kind e with
      | FTS_ERROR | FTS_DP => fts_loop l q
      | FTS_OBJECT =>
          if is_path_added (fts_path e) q then fts_loop l q else
          let! x := enqueue_item (exclude h) (fts_path e) (-1) q in
          let! q := match fst x with Some f => update f (fill_stat (fts_stat e)) (snd x) | None => Ret (snd x) end in
          fts_loop l q
      end
  end.

Definition enqueue_directory (path : string) (q : put) : out put :=
  match fts h path with
  | None => Die EXIT_FAILURE "fts_open"
  | Some l => fts_loop l q
  end.

Definition enqueue_regular_file (filename : string) (s : pstate) : out (Z * pstate) :=
  match open_file h filename with
  | Denied => Ret (0, s)
  | Failed => Ret (-1, s)
  | Content b =>
      let buf := takeZ (LINE_MAX - 1) b in
      let! r := if access_x h filename && is_shebang buf
                then let! r := enqueue_shebang (exclude h) buf (snd s) in Ret (fst r, (fst s, snd r))
                else Ret (0, s) in
      if negb (fst r =? 0) then Ret r else
      let s := snd r in
      if is_elf_file buf then
        let! r := enqueue_libraries (exclude h) (dl h) filename (elf_of h filename) (ldd_of h filename) (fst s) (snd s) in
        Ret (fst (fst r), (snd (fst r), snd r))
      else Ret (0, s)
  end.

(** The status of the structure, from lstat when it is not known yet. *)
Definition get_stat (p : string) (q : put) : out (stat * put) :=
  let! f := load p q in
  if st_ino (f_stat f) =? 0 then
    match lstat h p with
    | None => Die EXIT_FAILURE "lstat"
    | Some sb => let! q := update p (fill_stat sb) q in Ret (sb, q)
    end
  else Ret (f_stat f, q).

Definition enqueue_path (p : string) (s : pstate) : out pstate :=
  if negb (is_path_added p (snd s)) then Ret s else
  let! x := get_stat p (snd s) in
  let '(st, q) := x in
  let! q := enqueue_parent_directory p q in
  if is_type S_IFDIR st then
    let! f := load p q in
    if recursive f then let! q := enqueue_directory p q in Ret (fst s, q) else Ret (fst s, q)
  else if is_type S_IFLNK st then
    let! q := match read_link (calls h) #p with
              | inl t => update p (set_symlink (str t)) q
              | inr _ => Ret q
              end in
    let! q := enqueue_canonicalized_path (exclude h) (calls h) #p false q in
    Ret (fst s, q)
  else if is_type S_IFREG st then
    let! r := enqueue_regular_file p (fst s, q) in
    if fst r <? 0 then Die EXIT_FAILURE "failed to read regular file" else Ret (snd r)
  else Ret (fst s, q).

(** The path in the image: without the prefix of -r. *)
Definition remove_prefix (path : bytes) : bytes :=
  match prefix h with
  | None => path
  | Some pre =>
      if decide (pre = ""%string) then path else
      match strip_prefix #pre path with
      | Some rest => match rest with [] => [] | c :: _ => if is_sep c then rest else path end
      | None => path
      end
  end.

(** A file that is in the destination already, and is no directory, is not needed. *)
Definition is_present (p : string) : bool :=
  negb (force h) && match dest_lstat h (str (#(destdir h) ++ remove_prefix #p)) with
                    | Present st => negb (is_type S_IFDIR st)
                    | _ => false
                    end.

(** One item of the queue. *)
Definition put_item (p : string) (s : pstate) : out pstate :=
  let d := remove_prefix #p in
  let! q := update p (set_dst (str d)) (snd s) in
  let! drop :=
    if force h then Ret false else
    if lenZ d >=? PATH_MAX + 1 - lenZ #(destdir h) then Die EXIT_FAILURE "destination path too long" else
    match dest_lstat h (str (#(destdir h) ++ d)) with
    | Absent => Ret false
    | DestError => Die EX_OSERR "unable to get access"
    | Present st => Ret (negb (is_type S_IFDIR st))
    end in
  if drop : bool then let! q := dequeue_item p q in Ret (fst s, free_file p q) else
  let '(added, q) := tree_add_file p q in
  if added : bool then let! s := enqueue_path p (fst s, q) in let! q := dequeue_item p (snd s) in Ret (fst s, q)
  else let! q := dequeue_item p q in Ret (fst s, free_file p q).

(** The two loops over the queue; [cur] is the item of the inner one, and the outer
    one starts again at the head. *)
Fixpoint collect (fuel : nat) (cur : option string) (s : pstate) : out pstate :=
  match fuel with
  | O => NoFuel
  | S fuel =>
      match cur with
      | None => match inqueue (snd s) with None => Ret s | Some p => collect fuel (Some p) s end
      | Some p =>
          let! f := load p (snd s) in
          let! s := put_item p s in
          collect fuel (next f) s
      end
  end.

Fixpoint enqueue_args (args : list bytes) (q : put) : out put :=
  match args with
  | [] => Ret q
  | a :: args => let! q := enqueue_canonicalized_path (exclude h) (calls h) a true q in enqueue_args args q
  end.

Definition collect_files (fuel : nat) (args : list bytes) : out pstate :=
  let! q := enqueue_args args put0 in collect fuel None (∅, q).
End Put.

(** ** What a file needs, and what can go wrong *)

Section Closure.
Variables (h : host) (cwd : list bytes).

Definition start (name : bytes) : list bytes := if is_absolute name then [] else cwd.

(** The symlinks on the way from a name, and the file that is reached. *)
Definition reached (name : bytes) (x : string) : Prop :=
  exists ls st, resolves (calls h) (start name) name ls st /\ (x ∈ str <$> ls \/ x = str (path_of st)).

(** The name can be resolved within the limits. *)
Definition resolvable (name : bytes) : Prop :=
  name <> [] /\ exists ls st, resolves (calls h) (start name) name ls st /\ lenZ ls <= MAXSYMLINKS.

Definition script (p : string) (buf : bytes) : Prop :=
  exists b, open_file h p = Content b /\ buf = takeZ (LINE_MAX - 1) b /\ access_x h p = true /\ is_shebang buf = true.

(** [p] needs [x]: its directory, the symlinks that it stands for and their target,
    its interpreter. *)
Inductive wants (p : string) : string -> Prop :=
  | wants_parent a b : prefix h <> Some p -> strrchr "/" #p = Some (a, b) -> a <> [] ->
      wants p (item_path p (lenZ a))
  | wants_target st x : lstat h p = Some st -> is_type S_IFDIR st = false -> is_type S_IFLNK st = true ->
      reached #p x -> wants p x
  | wants_interpreter st buf : lstat h p = Some st -> is_type S_IFDIR st = false -> is_type S_IFLNK st = false ->
      is_type S_IFREG st = true -> script p buf -> interpreter buf <> [] -> wants p (str (interpreter buf)).

(** The paths that can come up at all. *)
Record universe (args : list bytes) (U : gset string) : Prop := {
  u_args a x : a ∈ args -> reached a x -> x ∈ U;
  u_wants p x : p ∈ U -> wants p x -> x ∈ U;
  u_fts p l e : p ∈ U -> fts h p = Some l -> e ∈ l -> fts_path e ∈ U;
  u_ldd p x : p ∈ U -> ldd_paths (ldd_of h p) x -> x ∈ U;
  u_interp p e : p ∈ U -> elf_of h p = Some e -> str (interp_path e) ∈ U;
  u_dlopen s b : dlopen (dl h) s = Some b -> str b ∈ U;
}.

(** The reasons to exit. *)
Inductive flaw (args : list bytes) (U : gset string) : Prop :=
  | flaw_arg a : a ∈ args -> ~ resolvable a -> flaw args U
  | flaw_lstat p : p ∈ U -> lstat h p = None -> flaw args U
  | flaw_link p st : p ∈ U -> lstat h p = Some st -> is_type S_IFLNK st = true -> ~ resolvable #p -> flaw args U
  | flaw_fts p : p ∈ U -> fts h p = None -> flaw args U
  | flaw_open p : p ∈ U -> open_file h p = Failed -> flaw args U
  | flaw_ldd p e : p ∈ U -> elf_of h p = Some e ->
      (ldd_of h p = None \/ exists text, ldd_of h p = Some (text, false)) -> flaw args U
  | flaw_note p e : p ∈ U -> elf_of h p = Some e -> bad_note (dl h) e -> flaw args U
  | flaw_long p : p ∈ U -> PATH_MAX < lenZ #(destdir h) + lenZ (remove_prefix h #p) -> flaw args U
  | flaw_dest p : p ∈ U -> dest_lstat h (str (#(destdir h) ++ remove_prefix h #p)) = DestError -> flaw args U.

(** What readlink says of a path, and that the path is a link. *)
Definition link_text (p : string) : option string :=
  match read_link (calls h) #p with inl t => Some (str t) | inr _ => None end.
Definition is_link (p : string) : Prop := exists st, lstat h p = Some st /\ is_type S_IFLNK st = true.

(** The status of a structure, if it has one, is that of its path, and stays it; the target
    of a link is the one it has; nothing is installed yet, and where a file of the tree goes
    is not changed. *)
Definition known : structure_law.
Proof.
  refine {| sl_ok p f := (st_ino (f_stat f) = 0 \/ lstat h p = Some (f_stat f)) /\ installed f = false /\ hardlink_target f = None /\
              (symlink f = None \/ is_link p /\ symlink f = link_text p);
            sl_then p f g := dst g = dst f /\ (symlink f <> None -> symlink g <> None) /\
              (lstat h p = Some (f_stat f) -> lstat h p = Some (f_stat g)) |}.
  - intros p. split_and!; [by left|done|done|by left].
  - done.
  - intros p f g k (-> & H1 & H2) (-> & H3 & H4). auto.
Defined.

(** The structure of a file of the tree: it is known where it goes, what it is and, of a
    link, what it points to. *)
Definition put_done (p : string) (q : put) : Prop :=
  exists f, heap q !! p = Some f /\ dst f = str (remove_prefix h #p) /\ lstat h p = Some (f_stat f) /\
    (is_type S_IFLNK (f_stat f) = true -> (exists t, read_link (calls h) #p = inl t) -> symlink f <> None).

(** fts_read tells of a path what lstat does. *)
Hypothesis Hfts : forall p l e, fts h p = Some l -> e ∈ l -> fts_kind e = FTS_OBJECT -> lstat h (fts_path e) = Some (fts_stat e).
Hypothesis Hcwd : getcwd (calls h) = Some (path_of cwd) /\ lenZ (path_of cwd) <= RNAME_SIZE - 2 /\ Forall comp_ok cwd.
Variables (args : list bytes) (U : gset string).
Hypothesis HU : universe args U.

Abbreviation grow := (grows (exclude h) known (fun x => x ∈ U)).
Abbreviation settle := (settled (exclude h)).

Lemma put_done_mono p q q' : p ∈ files q -> stats_ok known q -> grow q q' -> put_done p q -> put_done p q'.
Proof.
  intros Hp HS G (f & Hf & Hd & Hst & Hl). destruct (g_data _ _ _ _ _ G p f Hp HS Hf) as (f' & Hf' & T1 & T2 & T3). cbn in *.
  exists f'. specialize (T3 Hst). split_and!; [done|congruence|done|]. assert (f_stat f' = f_stat f) as -> by congruence. auto.
Qed.

(** The call grows the queue within [U] and then [P] holds, or there is a flaw. *)
Definition does {A} (get : A -> put) (q : put) (o : out A) (P : A -> Prop) : Prop :=
  match o with
  | Ret x => grow q (get x) /\ (exists l, queue_ok (get x) l) /\ P x
  | NoFuel => False
  | _ => flaw args U
  end.

Lemma does_ret {A} (get : A -> put) q l x (P : A -> Prop) : queue_ok q l -> get x = q -> P x -> does get q (Ret x) P.
Proof. intros Q <- HP. split_and!; [apply grows_refl|by exists l|done]. Qed.

Lemma does_bind {A B} (get : A -> put) (get' : B -> put) q o k (P : A -> Prop) (P' : B -> Prop) :
  does get q o P ->
  (forall x l, queue_ok (get x) l -> grow q (get x) -> P x -> does get' (get x) (k x) (fun y => grow (get x) (get' y) -> P' y)) ->
  does get' q (obind o k) P'.
Proof.
  intros Ho Hk. destruct o as [x| | |]; cbn in *; try done. destruct Ho as (G & [l Q] & HP).
  specialize (Hk x l Q G HP). destruct (k x) as [y| | |]; cbn in *; try done. destruct Hk as (G' & Q' & HP').
  split_and!; [by eapply grows_trans|done|by apply HP'].
Qed.

Lemma does_weaken {A} (get : A -> put) q o (P P' : A -> Prop) :
  does get q o P -> (forall x l, queue_ok (get x) l -> grow q (get x) -> P x -> P' x) -> does get q o P'.
Proof. intros Ho HP. destruct o as [x| | |]; try done. destruct Ho as (G & [l Q] & HPx). split_and!; [done|by exists l|by eapply HP]. Qed.

Lemma does_item s len q l : queue_ok q l -> item_path s len ∈ U ->
  does snd q (enqueue_item (exclude h) s len q) (fun x => settle (item_path s len) (snd x) /\
    forall f, fst x = Some f -> f = item_path s len /\ f ∈ queued_files (snd x)).
Proof.
  intros Q HUp. destruct (enqueue_item_grows (exclude h) known s len q l Q) as (x & q' & -> & G & S & F). cbn. split_and!.
  - eapply grows_weaken; [|exact G]. by intros p <-.
  - destruct (g_queue _ _ _ _ _ G l Q) as [l' Q']. by eexists.
  - done.
  - exact F.
Qed.

(** An assignment to a structure that is in the queue or in the tree. *)
Lemma does_update p g q l : queue_ok q l -> is_Some (heap q !! p) ->
  (forall f, prev (g f) = prev f) -> (forall f, next (g f) = next f) ->
  (forall f, sl_ok known p (data f) -> sl_ok known p (data (g f)) /\ sl_then known p (data f) (data (g f))) ->
  does id q (update p g q) (fun q' => queued_files q' = queued_files q /\ files q' = files q /\ heap q' = alter g p (heap q)).
Proof.
  intros Q Hp H1 H2 H3. rewrite update_some by done. cbn. split_and!; [apply grows_update; auto| |done..].
  exists l. by apply queue_ok_update.
Qed.

Lemma queued_heap q l f : queue_ok q l -> f ∈ queued_files q -> is_Some (heap q !! f).
Proof. intros Q Hf. eapply queue_ok_heap; [done|]. by apply (qo_set _ _ Q). Qed.

Lemma does_all ls : forall q l, queue_ok q l -> (forall p, p ∈ ls -> str p ∈ U) ->
  does id q (enqueue_all (exclude h) ls q) (fun q' => forall p, p ∈ ls -> settle (str p) q').
Proof.
  induction ls as [|p ls IH]; intros q l Q Hls.
  { eapply does_ret; [done|done|]. intros p Hp. by apply not_elem_of_nil in Hp. }
  cbn [enqueue_all]. eapply does_bind.
  { eapply does_item; [done|]. apply Hls. by left. }
  intros x l1 Q1 G1 [S1 _]. eapply does_weaken; [eapply IH; [done|]; intros p' Hp'; apply Hls; by right|].
  intros q2 l2 Q2 G2 S2 _ p' [->|Hp']%elem_of_cons; [|by apply S2]. eapply settled_mono; [exact Q1|exact G2|exact S1].
Qed.

Lemma resolves_det fs st rest ls1 st1 : resolves fs st rest ls1 st1 -> forall ls2 st2, resolves fs st rest ls2 st2 -> ls2 = ls1 /\ st2 = st1.
Proof.
  intros H1. induction H1 as [st rest Hr|st sl e ls st' Hs He H IH|st sl e ls st' Hs He H IH|st sl c e t ls st' Hs He Hc Hl Ht Hf H IH|st sl c e n ls st' Hs He Hc Hl Hn Hp H IH];
    intros ls2 st2 H2.
  - rewrite <- (app_nil_r rest) in H2. rewrite (resolves_inv _ _ _ _ _ [] []) in H2 by (by rewrite skip_slashes). done.
  - rewrite (resolves_inv _ _ _ _ _ #"." e) in H2 by (apply split_name; try done; by apply (bool_decide_unpack _)). by apply IH.
  - rewrite (resolves_inv _ _ _ _ _ #".." e) in H2 by (apply split_name; try done; by apply (bool_decide_unpack _)). by apply IH.
  - destruct Hc as (H1' & H2' & H3' & H4'). rewrite (resolves_inv _ _ _ _ _ c e) in H2 by (by apply split_name).
    unfold resolves_next in H2. rewrite !decide_False in H2 by done. rewrite Ht in H2. destruct H2 as (_ & _ & ls' & -> & H2).
    by destruct (IH _ _ H2) as [-> ->].
  - destruct Hc as (H1' & H2' & H3' & H4'). rewrite (resolves_inv _ _ _ _ _ c e) in H2 by (by apply split_name).
    unfold resolves_next in H2. rewrite !decide_False in H2 by done. rewrite Hn in H2. destruct H2 as (_ & _ & H2). by apply IH.
Qed.

(** The canonical path of a name whose resolution stays in [U]. *)
Lemma does_canon name rec q l : queue_ok q l -> (forall x, reached name x -> x ∈ U) -> (~ resolvable name -> flaw args U) ->
  does id q (enqueue_canonicalized_path (exclude h) (calls h) name rec q) (fun q' => forall x, reached name x -> settle x q').
Proof.
  intros Q Hin Hflaw. destruct (decide (name = [])) as [->|Hn].
  { apply Hflaw. by intros [? _]. }
  destruct (enqueue_canonicalized_ok (exclude h) (calls h) name rec (start name) q l Hn Q)
    as [[(code & msg & ->) HR]|(ls & st & q1 & x & q2 & HR & Hls & _ & E1 & E2 & ->)].
  { unfold starts_at, start. by destruct (is_absolute name). }
  - apply Hflaw. intros (_ & ls & st & HR' & Hle). specialize (HR ls st HR'). lia.
  - assert (D1 : does id q (enqueue_all (exclude h) ls q) (fun q' => forall p, p ∈ ls -> settle (str p) q')).
    { eapply does_all; [done|]. intros p Hp. apply Hin. exists ls, st. split; [done|]. left. by apply list_elem_of_fmap_2. }
    rewrite E1 in D1. destruct D1 as (G1 & [l1 Q1] & S1). cbn [id] in *.
    assert (D2 := does_item (str (path_of st)) (-1) q1 l1 Q1). rewrite E2 in D2.
    destruct D2 as (G2 & [l2 Q2] & S2 & F2); [apply Hin; exists ls, st; split; [done|by right]|]. cbn [fst snd] in *.
    assert (D3 : does id q2 (match x with Some f => update f (set_recursive rec) q2 | None => Ret q2 end) (fun _ => True)).
    { destruct x as [f|]; [|by eapply does_ret]. eapply does_weaken; [eapply does_update; try done|done].
      destruct (F2 f eq_refl) as [_ Hf]. by eapply queued_heap. }
    destruct (match x with Some f => _ | None => _ end) as [q3| | |]; try done. destruct D3 as (G3 & [l3 Q3] & _). cbn [id] in *.
    split_and!; [by eapply grows_trans; [by eapply grows_trans|]|by exists l3|].
    intros y (ls' & st' & HR' & Hy). destruct (resolves_det _ _ _ _ _ HR _ _ HR') as [-> ->].
    destruct Hy as [(p & -> & Hp)%list_elem_of_fmap| ->].
    + eapply settled_mono; [exact Q2|exact G3|]. eapply settled_mono; [exact Q1|exact G2|]. by apply S1.
    + eapply settled_mono; [exact Q2|exact G3|exact S2].
Qed.

Lemma does_parent p q l : queue_ok q l -> p ∈ U -> does id q (enqueue_parent_directory h p q) (fun q' =>
  forall a b, prefix h <> Some p -> strrchr "/" #p = Some (a, b) -> a <> [] -> settle (item_path p (lenZ a)) q').
Proof.
  intros Q Hp. unfold enqueue_parent_directory. case_bool_decide as Hpre; [eapply does_ret; done|].
  destruct (strrchr "/" #p) as [[a b]|] eqn:Ea; [|eapply does_ret; done].
  destruct (decide (a = [])) as [->|Ha]; [eapply does_ret; [done|done|]; by intros a' b' _ [= <- <-] Hc|].
  eapply does_bind.
  { eapply does_item; [done|]. eapply (u_wants _ _ HU); [done|]. by eapply wants_parent. }
  intros x l1 Q1 G1 [S1 _]. eapply does_ret; [done|done|]. intros _ a' b' _ [= <- <-] _. exact S1.
Qed.

Lemma does_fts_loop es : forall q l, queue_ok q l ->
  (forall e, e ∈ es -> fts_path e ∈ U /\ (fts_kind e = FTS_OBJECT -> lstat h (fts_path e) = Some (fts_stat e))) ->
  does id q (fts_loop h es q) (fun _ => True).
Proof.
  induction es as [|e es IH]; intros q l Q He; [by eapply does_ret|]. cbn [fts_loop].
  assert (He' : forall e, e ∈ es -> fts_path e ∈ U /\ (fts_kind e = FTS_OBJECT -> lstat h (fts_path e) = Some (fts_stat e)))
    by (intros; apply He; by right).
  destruct (He e) as [HeU Hek]; [by left|]. destruct (fts_kind e); [|by eapply IH..].
  destruct (is_path_added (fts_path e) q); [by eapply IH|].
  eapply does_bind; [by eapply does_item|]. intros x l1 Q1 G1 [S1 F1].
  eapply (does_bind id _ _ _ _ (fun _ => True)).
  - destruct (fst x) as [f|] eqn:Ef; [|by eapply does_ret]. destruct (F1 f eq_refl) as [-> Hf].
    eapply does_weaken; [eapply does_update; try done; [by eapply queued_heap|]|done].
    intros f0 (_ & Hi & Hh & Hsy). cbn. split_and!; [right; by apply Hek|done..|intros _; by apply Hek].
  - intros q2 l2 Q2 G2 _. eapply does_weaken; [by eapply IH|done].
Qed.

Lemma does_directory p q l : queue_ok q l -> p ∈ U -> does id q (enqueue_directory h p q) (fun _ => True).
Proof.
  intros Q Hp. unfold enqueue_directory. destruct (fts h p) as [es|] eqn:Ef; [|by eapply flaw_fts].
  eapply does_fts_loop; [done|]. intros e He. split; [by eapply (u_fts _ _ HU)|]. by eapply Hfts.
Qed.

Lemma does_enqueues {A} (get : A -> put) q o :
  enqueues (exclude h) known (fun x => x ∈ U) (flaw args U) get q o -> does get q o (fun _ => True).
Proof. unfold enqueues, does. destruct o; naive_solver. Qed.

(** The cache holds paths that came up. *)
Definition cache_ok (c : elf_cache) : Prop := forall k p, c !! k = Some p -> p ∈ U.

Lemma does_libraries p c q l : queue_ok q l -> p ∈ U -> cache_ok c ->
  does out_put q (enqueue_libraries (exclude h) (dl h) p (elf_of h p) (ldd_of h p) c q)
    (fun r => cache_ok (out_cache r) /\ (fst (fst r) <> 0 -> flaw args U)).
Proof.
  intros Q Hp Hc.
  destruct (enqueues_libraries known (flaw args U) (exclude h) (dl h) p (elf_of h p) (ldd_of h p) c q l Q) as [D1 D2].
  { intros e He Hb. by eapply flaw_note. }
  assert (D : does out_put q (enqueue_libraries (exclude h) (dl h) p (elf_of h p) (ldd_of h p) c q) (fun _ => True)).
  { apply does_enqueues. unfold enqueues in *. destruct (enqueue_libraries _ _ _ _ _ _ _) as [r| | |]; try done. destruct D1 as [G Q'].
    split; [|done]. eapply grows_weaken; [|exact G]. intros x [Hx|[[k Hx]|[(e & He & ->)|(s & b & Hs & ->)]]].
    - by eapply (u_ldd _ _ HU).
    - by eapply Hc.
    - by eapply (u_interp _ _ HU).
    - by eapply (u_dlopen _ _ HU). }
  destruct (enqueue_libraries _ _ _ _ _ _ _) as [r| | |] eqn:E; try done. destruct D as (G & Q' & _). split_and!; [done|done| |].
  - intros k x Hx. destruct (D2 r k x eq_refl Hx) as [?|?]; [by eapply Hc|by eapply (u_ldd _ _ HU)].
  - intros Hr. destruct (libraries_ret _ _ _ _ _ _ _ _ E Hr) as [[e He] Hl]. by eapply flaw_ldd.
Qed.

Abbreviation sput := (fun s : pstate => snd s).

Lemma does_regular p c q l st : queue_ok q l -> p ∈ U -> cache_ok c ->
  lstat h p = Some st -> is_type S_IFDIR st = false -> is_type S_IFLNK st = false -> is_type S_IFREG st = true ->
  does (fun r : Z * pstate => snd (snd r)) q (enqueue_regular_file h p (c, q)) (fun r => cache_ok (fst (snd r)) /\
    (fst r <> 0 -> flaw args U) /\
    forall buf, script p buf -> interpreter buf <> [] -> settle (str (interpreter buf)) (snd (snd r))).
Proof.
  intros Q Hp Hc Hst H1 H2 H3. unfold enqueue_regular_file. destruct (open_file h p) as [b| |] eqn:Eo.
  2: { eapply does_ret; [done|done|]. split_and!; [done|by intros []|]. intros buf (b & Hb & _). congruence. }
  2: { eapply does_ret; [done|done|]. split_and!; [done|intros _; by eapply flaw_open|]. intros buf (b & Hb & _). congruence. }
  set (buf := takeZ (LINE_MAX - 1) b).
  eapply (does_bind (fun r : Z * pstate => snd (snd r)) _ _ _ _ (fun r => fst r = 0 /\ fst (snd r) = c /\
    (access_x h p && is_shebang buf = true -> interpreter buf <> [] -> settle (str (interpreter buf)) (snd (snd r))))).
  { destruct (access_x h p && is_shebang buf) eqn:Es; [|by eapply does_ret].
    eapply (does_bind snd _ _ _ _ (fun r => fst r = 0 /\ (interpreter buf <> [] -> settle (str (interpreter buf)) (snd r)))).
    - cbn [fst snd]. unfold enqueue_shebang. destruct (decide (interpreter buf = [])) as [Hi|Hi]; [by eapply does_ret|].
      destruct (is_path_added (str (interpreter buf)) q) eqn:Ea.
      { eapply does_ret; [done|done|]. split; [done|]. intros _. by apply is_path_added_settled. }
      eapply does_bind.
      { eapply does_item; [done|]. apply (u_wants _ _ HU p); [done|].
        apply (wants_interpreter p st buf); try done. exists b. apply andb_true_iff in Es as [? ?]. by split_and!. }
      intros x l1 Q1 G1 [S1 _]. eapply does_ret; [done|done|]. intros _. cbn. split; [done|]. intros _. exact S1.
    - intros [r q1] l1 Q1 G1 [Hr Hs]. cbn [fst snd] in *. eapply does_ret; [done|done|]. intros _. cbn. by split_and!. }
  intros [r [c1 q1]] l1 Q1 G1 (Hr & Hc1 & Hs). cbn in *. subst r c1. cbn.
  assert (Hscript : forall buf', script p buf' -> buf' = buf /\ access_x h p && is_shebang buf = true).
  { intros buf' (b' & Hb & -> & Hx & Hsb). rewrite Eo in Hb. injection Hb as <-. split; [done|]. by apply andb_true_iff. }
  destruct (is_elf_file buf).
  - eapply (does_bind out_put); [by eapply does_libraries|]. intros r l2 Q2 G2 [Hc2 Hr2].
    eapply does_ret; [done|done|]. intros _ _. cbn. split_and!; [done|done|].
    intros buf' Hsc Hi. destruct (Hscript buf' Hsc) as [-> Hb]. eapply settled_mono; [exact Q1|exact G2|by apply Hs].
  - eapply does_ret; [done|done|]. intros _. cbn. split_and!; [done|done|].
    intros buf' Hsc Hi. destruct (Hscript buf' Hsc) as [-> Hb]. by apply Hs.
Qed.

Lemma does_get_stat p q l : queue_ok q l -> p ∈ U -> is_Some (heap q !! p) -> stats_ok known q ->
  does snd q (get_stat h p q) (fun x => lstat h p = Some (fst x) /\ files (snd x) = files q /\
    exists f f', heap q !! p = Some f /\ heap (snd x) !! p = Some f' /\ f_stat f' = fst x /\ dst f' = dst f).
Proof.
  intros Q Hp [f Hf] HS. unfold get_stat. rewrite (load_some _ _ _ Hf). cbn [obind].
  destruct (st_ino (f_stat f) =? 0) eqn:E; unbool.
  - destruct (lstat h p) as [sb|] eqn:El; [|by eapply flaw_lstat].
    eapply (does_bind id); [eapply does_update; try done; intros f0 (_ & Hi & Hh & Hsy); cbn; split_and!; [by right|done..]|].
    intros q1 l1 Q1 G1 (_ & Hfi & Hhe). eapply does_ret; [done|done|]. intros _. cbn in *. split_and!; [done|done|].
    exists f, (fill_stat sb f). split_and!; try done. rewrite Hhe, lookup_alter_eq, Hf. done.
  - eapply does_ret; [done|done|]. cbn. destruct (HS p f Hf) as ([?|Hst] & _); [done|]. split_and!; [done|done|]. by exists f, f.
Qed.

Lemma dir_not_link st : is_type S_IFDIR st = true -> is_type S_IFLNK st = false.
Proof. unfold is_type. intros H%Z.eqb_eq. rewrite H. done. Qed.

Lemma grow_heap q q' l p : queue_ok q l -> p ∈ l -> grow q q' -> is_Some (heap q' !! p).
Proof. intros Q Hp G. destruct (g_queue _ _ _ _ _ G l Q) as [l' Q']. eapply queue_ok_heap; [done|]. set_solver. Qed.

Lemma does_path p c q l : queue_ok q l -> p ∈ l -> p ∈ U -> cache_ok c -> stats_ok known q -> p ∈ files q ->
  (exists f, heap q !! p = Some f /\ dst f = str (remove_prefix h #p)) ->
  does sput q (enqueue_path h p (c, q)) (fun s => cache_ok (fst s) /\ (forall x, wants p x -> settle x (snd s)) /\ put_done p (snd s)).
Proof.
  intros Q Hpl Hp Hc HS Hpf (f0 & Hf0 & Hd0). unfold enqueue_path. cbn [fst snd].
  assert (is_path_added p q = true) as ->.
  { unfold is_path_added, is_path_queued. apply orb_true_iff. right. apply bool_decide_eq_true. by apply (qo_set _ _ Q). }
  cbn [negb]. eapply (does_bind snd).
  { eapply does_get_stat; done. }
  intros [st q1] l1 Q1 G1 (Hst & Hf1 & fa & f1 & Hfa & Hh1 & Hs1 & Hd1). cbn [fst snd] in *.
  assert (dst f1 = str (remove_prefix h #p)) as Hd1' by congruence. clear fa Hfa Hd1 Hf0 Hd0 f0.
  eapply (does_bind id); [by eapply does_parent|]. intros q2 l2 Q2 G2 S2. cbn [id] in *.
  assert (G02 : grow q q2) by (by eapply grows_trans).
  pose proof (grow_heap _ _ _ _ Q Hpl G02) as [f Hf].
  assert (HS1 : stats_ok known q1) by (by apply (g_stats _ _ _ _ _ G1)).
  assert (HS2 : stats_ok known q2) by (by apply (g_stats _ _ _ _ _ G02)).
  assert (Hp2 : p ∈ files q2) by (by rewrite (g_files _ _ _ _ _ G02)).
  assert (Hdone : is_type S_IFLNK st = false -> put_done p q2).
  { intros Hl. apply (put_done_mono p q1); [by rewrite Hf1|done|done|]. exists f1. split_and!; [done|done|congruence|]. rewrite Hs1, Hl. done. }
  assert (Hother : forall q3, grow q2 q3 -> put_done p q3 -> (forall x st', lstat h p = Some st' -> is_type S_IFDIR st' = false -> is_type S_IFLNK st' = true ->
      reached #p x -> settle x q3) ->
      (forall st' buf, lstat h p = Some st' -> is_type S_IFDIR st' = false -> is_type S_IFLNK st' = false -> is_type S_IFREG st' = true ->
        script p buf -> interpreter buf <> [] -> settle (str (interpreter buf)) q3) -> (forall x, wants p x -> settle x q3) /\ put_done p q3).
  { intros q3 G3 D3 HL HR. split; [|done]. intros x Hx. destruct Hx as [a b Hpre Hab Ha|st' x Hst' H1 H2 H3|st' buf Hst' H1 H2 H3 H4 H5].
    - eapply settled_mono; [exact Q2|exact G3|]. by eapply S2.
    - by eapply HL.
    - by eapply HR. }
  destruct (is_type S_IFDIR st) eqn:Ed.
  - assert (Hl : is_type S_IFLNK st = false) by (by apply dir_not_link).
    rewrite (load_some _ _ _ Hf). cbn [obind].
    assert (Hdir : forall q3, grow q2 q3 -> (forall x, wants p x -> settle x q3) /\ put_done p q3).
    { intros q3 G3. apply Hother; [done|by apply (put_done_mono p q2); auto|congruence|congruence]. }
    destruct (recursive f).
    + eapply (does_bind id); [by eapply does_directory|]. intros q3 l3 Q3 G3 _. eapply does_ret; [done|done|].
      intros _ _ _. split; [done|]. by apply Hdir.
    + eapply does_ret; [done|done|]. intros _ _. split; [done|]. apply Hdir, grows_refl.
  - destruct (is_type S_IFLNK st) eqn:El.
    + eapply (does_bind id _ _ _ _ (fun q3 => grow q2 q3 /\ put_done p q3)).
      { destruct (g_data _ _ _ _ _ G2 p f1 ltac:(by rewrite Hf1) HS1 Hh1) as (f2 & Hh2 & T1 & _ & T3). cbn in T1, T3.
        specialize (T3 ltac:(congruence)). destruct (read_link (calls h) #p) as [t|e] eqn:Er.
        - eapply does_weaken; [eapply does_update; try done; try (by exists f); intros f0 (H1 & H2 & H3 & _); split; [split_and!; [done..|]; right; cbn; unfold link_text; rewrite Er; split; [by exists st|done]|done]|]. cbn [id]. intros q3 l3 Q3 G3 (_ & _ & Hh3). split; [done|].
          exists (set_symlink (str t) f2). rewrite Hh3, lookup_alter_eq, Hh2. split_and!; [done|cbn; congruence|done|done].
        - eapply does_ret; [done|done|]. split; [apply grows_refl|]. exists f2. split_and!; [done|congruence|done|]. intros _ [t Ht]. congruence. }
      intros q3 l3 Q3 _ [G3 D3]. cbn [id] in *. eapply (does_bind id).
      { eapply does_canon; [done| |].
        - intros x Hx. eapply (u_wants _ _ HU); [exact Hp|]. by eapply wants_target.
        - intros Hn. by eapply flaw_link. }
      intros q4 l4 Q4 G4 S4. cbn [id] in *. eapply does_ret; [done|done|]. intros _ _ _ _. split; [done|].
      apply Hother; [by eapply grows_trans| | |congruence]; [|intros x st' _ _ _ Hx; by apply S4].
      apply (put_done_mono p q3); [by rewrite (g_files _ _ _ _ _ G3)|by apply (g_stats _ _ _ _ _ G3)|done|done].
    + destruct (is_type S_IFREG st) eqn:Er.
      * eapply (does_bind (fun r : Z * pstate => snd (snd r))); [by eapply does_regular|].
        intros [r [c3 q3]] l3 Q3 G3 (Hc3 & Hr3 & S3). cbn [fst snd] in *.
        destruct (r <? 0) eqn:E; unbool; [apply Hr3; lia|].
        eapply does_ret; [done|done|]. intros _ _ _. split; [done|].
        apply Hother; [done|by apply (put_done_mono p q2); auto|congruence|]. intros st' buf _ _ _ _ Hs Hi. by apply S3.
      * eapply does_ret; [done|done|]. intros _ _. split; [done|].
        apply Hother; [apply grows_refl|auto|congruence|congruence].
Qed.

(** ** The loop over the queue *)

(** In the tree, on the way there, excluded or in the destination already. *)
Definition provided (x : string) (q : put) : Prop := settle x q \/ is_present h x = true.

(** The items [l1] were enqueued during this pass, [rest] is still to be looked at. *)
Record inv (l1 rest : list string) (s : pstate) : Prop := {
  iv_queue : queue_ok (snd s) (l1 ++ rest);
  iv_cache : cache_ok (fst s);
  iv_stats : stats_ok known (snd s);
  iv_univ p : p ∈ queued_files (snd s) -> p ∈ U /\ exclude h p = false /\ p ∉ files (snd s);
  iv_files p : p ∈ files (snd s) -> p ∈ U /\ exclude h p = false;
  iv_args a x : a ∈ args -> reached a x -> provided x (snd s);
  iv_closed p x : p ∈ files (snd s) -> wants p x -> provided x (snd s);
  iv_done p : p ∈ files (snd s) -> put_done p (snd s);
  iv_heap : heap_ok (snd s);
}.

Definition weight (s : pstate) (l : list string) : nat := (size (U ∖ files (snd s)) * (size U + 1) + length l)%nat.

Lemma queue_small l1 rest s : inv l1 rest s -> (length (l1 ++ rest) <= size U)%nat.
Proof.
  intros I. rewrite <- (size_list_to_set (C := gset string) (l1 ++ rest)) by apply (qo_nodup _ _ (iv_queue _ _ _ I)).
  apply subseteq_size. intros p Hp%elem_of_list_to_set. apply (iv_univ _ _ _ I). by apply (qo_set _ _ (iv_queue _ _ _ I)).
Qed.

Lemma inv_weight_none l s : inv l [] s -> inv [] l s.
Proof. intros [H1 H2 H3 H4 H5 H6 H7 H8 H9]. split; try done. by rewrite app_nil_r in H1. Qed.

Lemma data_eq q q' p f : (forall x, data <$> heap q' !! x = data <$> heap q !! x) -> heap q !! p = Some f ->
  exists f', heap q' !! p = Some f' /\ data f' = data f.
Proof.
  intros Hd Hf. specialize (Hd p). rewrite Hf in Hd. destruct (heap q' !! p) as [f'|]; [|done]. exists f'. split; [done|].
  change (Some (data f') = Some (data f)) in Hd. congruence.
Qed.

Lemma stats_ok_data q q' : (forall x, data <$> heap q' !! x = data <$> heap q !! x) -> stats_ok known q -> stats_ok known q'.
Proof. intros Hd HS p f' Hf'. destruct (data_eq q' q p f') as (f & Hf & <-); [done..|]. by apply (HS p f). Qed.

Lemma put_done_data q q' p : (forall x, data <$> heap q' !! x = data <$> heap q !! x) -> put_done p q -> put_done p q'.
Proof.
  intros Hd (f & Hf & H1 & H2 & H3). destruct (data_eq q q' p f Hd Hf) as (f' & Hf' & Ed). exists f'. split; [done|].
  change (dst f') with (dst (data f')). change (f_stat f') with (f_stat (data f')). change (symlink f') with (symlink (data f')). by rewrite Ed.
Qed.

(** The queue without [p], which went to the tree or is in the destination. *)
Lemma settled_dequeue q q' l1 p l2 x : queue_ok q (l1 ++ p :: l2) -> queue_ok q' (l1 ++ l2) -> files q ⊆ files q' ->
  settle x q -> settle x q' \/ x = p.
Proof.
  intros Q Q' Hf [?|[Hx|Hx]]; [by left; left| |left; right; right; set_solver].
  apply (qo_set _ _ Q) in Hx. destruct (decide (x = p)) as [->|Hn]; [by right|]. left. right. left. apply (qo_set _ _ Q'). set_solver.
Qed.

Lemma step_drop l1 p rest s : inv l1 (p :: rest) s -> is_present h p = true -> exists q',
  dequeue_item p (snd s) = Ret q' /\ inv l1 rest (fst s, free_file p q') /\ files (free_file p q') = files (snd s).
Proof.
  intros I Hpres. pose proof (iv_queue _ _ _ I) as Q.
  destruct (dequeue_item_ok _ _ _ _ Q) as (q' & E & Q' & Hf & Hd). exists q'. split; [done|]. split; [|done].
  pose proof (qo_nodup _ _ Q) as (_ & H1 & [H2 _]%list.NoDup_cons)%list.NoDup_app.
  assert (Hp : p ∉ l1 ++ rest). { intros [Hp|Hp]%elem_of_app; [|done]. apply (H1 p Hp). by left. }
  assert (Hpq : p ∈ queued_files (snd s)) by (apply (qo_set _ _ Q); set_solver).
  assert (Hprov : forall x, provided x (snd s) -> provided x (free_file p q')).
  { intros x [Hx|Hx]; [|by right]. destruct (settled_dequeue _ q' l1 p rest x Q Q') as [Hs| ->]; [by rewrite Hf|done| |by right].
    left. destruct Hs as [?|[?|?]]; [by left|right; by left|right; by right]. }
  split; cbn [fst snd].
  - apply queue_ok_free; [done|done|]. rewrite Hf. by apply (iv_univ _ _ _ I).
  - apply I.
  - intros x f Hx. cbn in Hx. apply lookup_delete_Some in Hx as [_ Hx]. eapply stats_ok_data; [exact Hd|apply I|done].
  - intros x Hx. change (queued_files (free_file p q')) with (queued_files q') in Hx. apply (qo_set _ _ Q') in Hx. change (files (free_file p q')) with (files q'). rewrite Hf.
    apply (iv_univ _ _ _ I). apply (qo_set _ _ Q). set_solver.
  - change (files (free_file p q')) with (files q'). rewrite Hf. apply I.
  - intros a x Ha Hx. apply Hprov. by eapply (iv_args _ _ _ I).
  - intros y x Hy Hx. apply Hprov. eapply (iv_closed _ _ _ I); [|done]. change (files (free_file p q')) with (files q') in Hy. by rewrite Hf in Hy.
  - intros y Hy. change (files (free_file p q')) with (files q') in Hy. rewrite Hf in Hy.
    destruct (put_done_data _ q' y Hd (iv_done _ _ _ I y Hy)) as (f & Hfy & Hrest). exists f. split; [|done]. cbn. rewrite lookup_delete_ne; [done|].
    intros <-. by apply (iv_univ _ _ _ I) in Hpq as (_ & _ & ?).
  - intros x [f Hx]. cbn in Hx. apply lookup_delete_Some in Hx as [Hn Hx]. destruct (data_eq q' (snd s) x f) as (f' & Hx' & _); [done..|].
    cbn [fst snd free_file with_heap files queued_files]. destruct (iv_heap _ _ _ I x) as [Hy|Hy]; [by rewrite Hx'| |right; by rewrite Hf]. left. apply (qo_set _ _ Q'). apply (qo_set _ _ Q) in Hy. set_solver.
Qed.

(** The item goes into the tree, and what it wants into the queue. *)
Lemma step_add l1 p rest s : inv l1 (p :: rest) s -> (exists f, heap (snd s) !! p = Some f /\ dst f = str (remove_prefix h #p)) ->
  let q1 := snd (tree_add_file p (snd s)) in
  fst (tree_add_file p (snd s)) = true /\
  match (let! s := enqueue_path h p (fst s, q1) in let! q := dequeue_item p (snd s) in Ret (fst s, q)) with
  | Ret s' => exists l', inv l' rest s' /\ files (snd s') = {[ p ]} ∪ files (snd s)
  | NoFuel => False
  | _ => flaw args U
  end.
Proof.
  intros I Hdst q1. pose proof (iv_queue _ _ _ I) as Q. pose proof (iv_univ _ _ _ I p) as (HpU & Hpe & Hpf).
  { apply (qo_set _ _ Q). apply elem_of_app. right. by left. }
  destruct (tree_add_ok _ _ p Q) as (q1' & Et & Q1 & Hf1 & Hh1 & Hq1); [apply elem_of_app; right; by left|done|].
  unfold q1. rewrite Et. cbn [fst snd]. split; [done|]. clear q1.
  assert (HS1 : stats_ok known q1') by (intros x f; rewrite Hh1; apply I).
  assert (Hpl : p ∈ l1 ++ p :: rest) by (apply elem_of_app; right; by left).
  pose proof (does_path p (fst s) q1' (l1 ++ p :: rest) Q1 Hpl HpU (iv_cache _ _ _ I) HS1 ltac:(rewrite Hf1; set_solver) ltac:(by rewrite Hh1)) as D.
  destruct (enqueue_path h p (fst s, q1')) as [s2| | |]; cbn [obind]; try exact D.
  destruct D as (G & _ & Hc2 & Hw & Hdone).
  destruct (g_queue _ _ _ _ _ G _ Q1) as [l' Q2]. rewrite app_assoc in Q2.
  destruct (dequeue_item_ok _ _ _ _ Q2) as (q3 & E3 & Q3 & Hf3 & Hd3). rewrite E3. cbn [obind].
  assert (Hfiles : files q3 = {[ p ]} ∪ files (snd s)) by (by rewrite Hf3, (g_files _ _ _ _ _ G), Hf1).
  exists (l' ++ l1). split; [|done].
  assert (Hset : forall x, settle x (snd s2) -> settle x q3).
  { intros x Hx. destruct (settled_dequeue _ q3 (l' ++ l1) p rest x Q2 Q3) as [?| ->]; [by rewrite Hf3|done|done|].
    right. right. rewrite Hfiles. set_solver. }
  assert (Hprov : forall x, provided x (snd s) -> provided x q3).
  { intros x [Hx|Hx]; [|by right]. left. apply Hset. eapply settled_mono; [exact Q1|exact G|].
    destruct Hx as [?|[?|?]]; [by left|right; left; by rewrite Hq1|right; right; rewrite Hf1; set_solver]. }
  pose proof (qo_nodup _ _ Q2) as (_ & N1 & [N2 _]%list.NoDup_cons)%list.NoDup_app.
  split; cbn [fst snd].
  - done.
  - done.
  - eapply stats_ok_data; [exact Hd3|]. by apply (g_stats _ _ _ _ _ G).
  - intros x Hx. assert (Hxp : x <> p).
    { intros ->. apply (qo_set _ _ Q3) in Hx as [Hx|Hx]%elem_of_app; [|done]. apply (N1 p Hx). by left. }
    assert (Hx2 : x ∈ queued_files (snd s2)) by (apply (qo_set _ _ Q2); apply (qo_set _ _ Q3) in Hx; set_solver).
    rewrite Hfiles. destruct (g_new _ _ _ _ _ G x Hx2) as [Hx1|(HxU & Hxe & Hxf)].
    + rewrite Hq1 in Hx1. destruct (iv_univ _ _ _ I x Hx1) as (? & ? & ?). split_and!; [done|done|set_solver].
    + rewrite Hf1 in Hxf. done.
  - intros x. rewrite Hfiles. intros [->%elem_of_singleton|Hx]%elem_of_union; [done|]. by apply I.
  - intros a x Ha Hx. apply Hprov. by eapply (iv_args _ _ _ I).
  - intros y x. rewrite Hfiles. intros [->%elem_of_singleton|Hy]%elem_of_union Hx.
    + left. apply Hset. by apply Hw.
    + apply Hprov. by eapply (iv_closed _ _ _ I).
  - intros x Hx. apply (put_done_data _ _ _ Hd3). rewrite Hfiles in Hx. apply elem_of_union in Hx as [->%elem_of_singleton|Hx]; [done|].
    apply (put_done_mono x q1'); [rewrite Hf1; set_solver|done|done|]. destruct (iv_done _ _ _ I x Hx) as (f & Hfx & Hrest). exists f. by rewrite Hh1.
  - intros x [f Hx]. destruct (data_eq q3 (snd s2) x f) as (f' & Hx' & _); [done..|].
    assert (Hh : heap_ok (snd s2)).
    { apply (g_heap _ _ _ _ _ G). intros y. rewrite Hh1, Hq1, Hf1. intros Hy. destruct (iv_heap _ _ _ I y Hy); [by left|right; set_solver]. }
    destruct (Hh x) as [Hy|Hy]; [by rewrite Hx'| |right; by rewrite Hf3].
    destruct (decide (x = p)) as [->|Hn]; [right; rewrite Hfiles; set_solver|]. left. apply (qo_set _ _ Q3). apply (qo_set _ _ Q2) in Hy. set_solver.
Qed.

Lemma inv_set_dst l1 p rest s d : inv l1 (p :: rest) s -> exists q', update p (set_dst d) (snd s) = Ret q' /\
  inv l1 (p :: rest) (fst s, q') /\ files q' = files (snd s) /\ exists f, heap q' !! p = Some f /\ dst f = d.
Proof.
  intros I. rewrite update_some.
  2: { eapply queue_ok_heap; [apply (iv_queue _ _ _ I)|]. set_solver. }
  assert (Hpf : p ∉ files (snd s)) by (apply (iv_univ _ _ _ I), (qo_set _ _ (iv_queue _ _ _ I)); set_solver).
  destruct (queue_ok_heap _ _ p (iv_queue _ _ _ I)) as [fp Hfp]; [set_solver|].
  eexists. split; [done|]. split; [|split; [done|]; exists (set_dst d fp); cbn; by rewrite lookup_alter_eq, Hfp].
  destruct I as [H1 H2 H3 H4 H5 H6 H7 H8 H9]. split; try done; cbn [fst snd].
  - by apply queue_ok_update.
  - intros x f Hx. cbn in Hx. destruct (decide (p = x)) as [->|Hn].
    + rewrite lookup_alter_eq in Hx. destruct (heap (snd s) !! x) as [f0|] eqn:Ef; [|done]. injection Hx as <-. by apply (H3 x f0).
    + rewrite lookup_alter_ne in Hx by done. by apply H3.
  - intros x Hx. destruct (H8 x Hx) as (f & Hf & Hrest). exists f. split; [|done]. cbn. rewrite lookup_alter_ne; [done|]. by intros <-.
  - intros x Hx. apply H9. cbn in Hx. by rewrite lookup_alter_is_Some in Hx.
Qed.

(** One item: the weight of the state goes down. *)
Lemma step_item l1 p rest s : inv l1 (p :: rest) s ->
  match put_item h p s with
  | Ret s' => exists l', inv l' rest s' /\ (weight s' (l' ++ rest) < weight s (l1 ++ p :: rest))%nat
  | NoFuel => False
  | _ => flaw args U
  end.
Proof.
  intros I. pose proof (iv_univ _ _ _ I p) as (HpU & Hpe & Hpf).
  { apply (qo_set _ _ (iv_queue _ _ _ I)). set_solver. }
  unfold put_item. destruct (inv_set_dst l1 p rest s (str (remove_prefix h #p)) I) as (q1 & -> & I1 & Hf1 & Hd1). cbn [obind].
  set (dest := if force h then _ else _).
  assert (Hdest : match dest with Ret b => b = is_present h p | NoFuel => False | _ => flaw args U end).
  { unfold dest, is_present. destruct (force h); [done|]. destruct (_ >=? _) eqn:E; [eapply flaw_long; [exact HpU|]; rewrite Z.geb_leb in E; zlia|].
    destruct (dest_lstat h _) eqn:Ed; [done|done|by eapply flaw_dest]. }
  destruct dest as [b| | |]; cbn [obind]; try done. subst b. destruct (is_present h p) eqn:Ep.
  - destruct (step_drop l1 p rest (fst s, q1) I1 Ep) as (q2 & E2 & I2 & Hf2). cbn [fst snd] in E2. rewrite E2.
    cbn [obind fst snd]. exists l1. split; [done|].
    unfold weight. cbn [snd]. rewrite Hf2. cbn [snd]. rewrite Hf1, !length_app. cbn. lia.
  - destruct (step_add l1 p rest (fst s, q1) I1 Hd1) as [Eadd D]. cbn [fst snd] in *.
    destruct (tree_add_file p q1) as [added q2]. cbn [fst snd] in *. subst added.
    destruct (let! s0 := enqueue_path h p (fst s, q2) in _) as [s3| | |]; try done.
    destruct D as (l' & I3 & Hf3). exists l'. split; [done|].
    pose proof (queue_small _ _ _ I3). rewrite Hf1 in Hf3. unfold weight. rewrite Hf3.
    assert (Hsz : (size (U ∖ ({[p]} ∪ files (snd s))) < size (U ∖ files (snd s)))%nat) by (apply subset_size; set_solver).
    nia.
Qed.

Lemma collect_ok fuel : forall cur l1 rest s, inv l1 rest s -> cur = head rest ->
  (2 * weight s (l1 ++ rest) + (if cur then 0 else 1) < fuel)%nat ->
  match collect h fuel cur s with
  | Ret s' => inv [] [] s'
  | NoFuel => False
  | _ => flaw args U
  end.
Proof.
  induction fuel as [|fuel IH]; intros cur l1 rest s I Hcur Hfuel; [lia|]. cbn [collect]. destruct rest as [|p rest]; cbn in Hcur; subst cur.
  - rewrite (qo_head _ _ (iv_queue _ _ _ I)). rewrite app_nil_r in *. destruct l1 as [|x l1]; cbn [head]; [by apply inv_weight_none|].
    apply (IH (Some x) [] (x :: l1)); [by apply inv_weight_none|done|]. cbn [app]. lia.
  - destruct (qo_link _ _ (iv_queue _ _ _ I) l1 p rest eq_refl) as (f & Hf & _ & Hn). rewrite (load_some _ _ _ Hf). cbn [obind].
    pose proof (step_item l1 p rest s I) as D. destruct (put_item h p s) as [s'| | |]; cbn [obind]; try done.
    destruct D as (l' & I' & Hw). eapply (IH _ l' rest); [done|done|]. destruct (next f); lia.
Qed.

Lemma does_args l : forall q ql, queue_ok q ql -> (forall a, a ∈ l -> a ∈ args) ->
  does id q (enqueue_args h l q) (fun q' => forall a x, a ∈ l -> reached a x -> settle x q').
Proof.
  induction l as [|a l IH]; intros q ql Q Hl; [eapply does_ret; [done|done|]; intros a x Ha; by apply not_elem_of_nil in Ha|].
  cbn [enqueue_args]. eapply (does_bind id).
  { eapply does_canon; [done| |].
    - intros x Hx. eapply (u_args _ _ HU); [|done]. apply Hl. by left.
    - intros Hn. eapply flaw_arg; [|done]. apply Hl. by left. }
  intros q1 l1 Q1 G1 S1. eapply does_weaken; [eapply IH; [done|]; intros; apply Hl; by right|].
  intros q2 l2 Q2 G2 S2 _ a' x [->|Ha]%elem_of_cons Hx; [|by eapply S2]. eapply settled_mono; [exact Q1|exact G2|]. by apply S1.
Qed.

(** Enough for every run. *)
Definition enough_fuel : nat := (2 * (size U * (size U + 1) + size U) + 2)%nat.

Lemma collect_files_ok fuel : (enough_fuel <= fuel)%nat ->
  match collect_files h fuel args with
  | Ret s' => inv [] [] s'
  | NoFuel => False
  | _ => flaw args U
  end.
Proof.
  intros Hfuel. unfold collect_files. pose proof (does_args args put0 [] queue_ok_empty ltac:(done)) as D.
  destruct (enqueue_args h args put0) as [q| | |]; cbn [obind]; try done. destruct D as (G & _ & S). cbn [id] in *.
  destruct (g_queue _ _ _ _ _ G [] queue_ok_empty) as [l Q].
  assert (I : inv l [] (∅, q)).
  { split; cbn [fst snd].
    - done.
    - intros k p Hk. by rewrite lookup_empty in Hk.
    - apply (g_stats _ _ _ _ _ G). intros p f Hf. done.
    - intros p Hp. destruct (g_new _ _ _ _ _ G p Hp) as [Hp0|(? & ? & ?)]; [set_solver|]. rewrite (g_files _ _ _ _ _ G). done.
    - intros p Hp. rewrite (g_files _ _ _ _ _ G) in Hp. set_solver.
    - intros a x Ha Hx. left. by eapply S.
    - intros p x Hp. rewrite (g_files _ _ _ _ _ G) in Hp. set_solver.
    - intros p Hp. rewrite (g_files _ _ _ _ _ G) in Hp. set_solver.
    - apply (g_heap _ _ _ _ _ G). intros p [f Hf]. done. }
  eapply collect_ok; [exact I|done|]. pose proof (queue_small _ _ _ I). unfold weight. cbn [snd].
  rewrite (g_files _ _ _ _ _ G). change (files put0) with (∅ : gset string). rewrite difference_empty_L. unfold enough_fuel in Hfuel. cbn. nia.
Qed.
End Closure.

(** C3. The loop over the queue ends, whatever the files need, within a number of
    steps that is quadratic in the number of paths that can come up. Then the queue
    is empty, no excluded path is in the tree and nothing outside of any set that
    contains the arguments and is closed under what files need. The symlinks and
    targets that the arguments stand for are in the tree, and with every file in it
    its directory, the symlinks and target that it stands for and its interpreter,
    unless they are excluded or in the destination already. The program exits early
    only for one of the reasons of [flaw]. *)
Theorem put_closure h cwd args U fuel :
  (forall p l e, fts h p = Some l -> e ∈ l -> fts_kind e = FTS_OBJECT -> lstat h (fts_path e) = Some (fts_stat e)) ->
  getcwd (calls h) = Some (path_of cwd) /\ lenZ (path_of cwd) <= RNAME_SIZE - 2 /\ Forall comp_ok cwd ->
  universe h cwd args U -> (enough_fuel U <= fuel)%nat ->
  let provided x q := exclude h x = true \/ x ∈ files q \/ is_present h x = true in
  (exists c q, collect_files h fuel args = Ret (c, q) /\ inqueue q = None /\
     (forall p, p ∈ files q -> p ∈ U /\ exclude h p = false) /\
     (forall a x, a ∈ args -> reached h cwd a x -> provided x q) /\
     (forall p x, p ∈ files q -> wants h cwd p x -> provided x q)) \/
  ((exists code msg, collect_files h fuel args = Die code msg) \/ collect_files h fuel args = Undef) /\ flaw h cwd args U.
Proof.
  intros Hfts Hcwd HU Hfuel provided'. pose proof (collect_files_ok h cwd Hfts Hcwd args U HU fuel Hfuel) as D.
  destruct (collect_files h fuel args) as [[c q]|code msg| |] eqn:E; [left|right..|done].
  - destruct D as [D1 D2 D3 D4 D5 D6 D7 _ _]. cbn [fst snd] in *. exists c, q. split_and!; try done.
    + apply (qo_head _ _ D1).
    + intros a x Ha Hx. destruct (D6 a x Ha Hx) as [[?|[Hq|?]]|?]; [by left| |by right; left|by right; right].
      apply (qo_set _ _ D1) in Hq. by apply not_elem_of_nil in Hq.
    + intros p x Hp Hx. destruct (D7 p x Hp Hx) as [[?|[Hq|?]]|?]; [by left| |by right; left|by right; right].
      apply (qo_set _ _ D1) in Hq. by apply not_elem_of_nil in Hq.
  - split; [left; by eexists _, _|done].
  - split; [by right|done].
Qed.

Definition mode_stat (mode ino : Z) : stat :=
  {| st_mode := mode; st_ino := ino; st_dev := 1; st_rdev := 0; st_nlink := 1; st_size := 0; st_uid := 0; st_gid := 0 |}.

(** A directory /d with a file /d/f, and a symlink /l to /d. *)
Definition small_host : host :=
  {| exclude := fun _ => false;
     calls := {| getcwd := Some #"/";
                 readlink := fun r => if bool_decide (r = #"/l") then inl #"d" else if bool_decide (r ∈ [ #"/d"; #"/d/f"]) then inr EINVAL else inr 2;
                 stat_ok := fun _ => true |};
     lstat := fun p => if bool_decide (p = "/l"%string) then Some (mode_stat S_IFLNK 2)
                       else if bool_decide (p = "/d"%string) then Some (mode_stat S_IFDIR 3)
                       else if bool_decide (p = "/d/f"%string) then Some (mode_stat S_IFREG 4) else None;
     fts := fun p => if bool_decide (p = "/d"%string)
       then Some [{| fts_kind := FTS_OBJECT; fts_path := "/d"; fts_stat := mode_stat S_IFDIR 3 |};
                  {| fts_kind := FTS_OBJECT; fts_path := "/d/f"; fts_stat := mode_stat S_IFREG 4 |};
                  {| fts_kind := FTS_DP; fts_path := "/d"; fts_stat := mode_stat S_IFDIR 3 |}]
       else Some [];
     open_file := fun _ => Content #"text"; access_x := fun _ => false; elf_of := fun _ => None; ldd_of := fun _ => None;
     dl := no_dlopen; prefix := None; destdir := "/out"; force := false; dest_lstat := fun _ => Absent |}.

Definition small_universe : gset string := {[ "/l"; "/d"; "/d/f" ]}%string.

Lemma small_resolves : resolves (calls small_host) [] #"/l" [ #"/l"] [ #"d"].
Proof.
  apply (res_link _ [] ["/"%char] #"l" [] #"d"); try done; try (by left); try (by apply (bool_decide_unpack _)); try (by vm_compute).
  apply (res_plain _ [] [] #"d" [] EINVAL); try done; try (by left); try (by apply (bool_decide_unpack _)); try (by vm_compute).
  apply res_done. by apply list.Forall_nil.
Qed.

Lemma small_is_universe : universe small_host [] [ #"/l"] small_universe.
Proof.
  assert (Hl : forall x, reached small_host [] #"/l" x -> x ∈ small_universe).
  { intros x (ls & st & HR & Hx). change (start [] #"/l") with (@nil bytes) in HR.
    destruct (resolves_det _ _ _ _ _ small_resolves _ _ HR) as [-> ->].
    destruct Hx as [Hx| ->]; [apply list_elem_of_singleton in Hx as ->|]; apply (bool_decide_unpack _); vm_compute; exact I. }
  split.
  - intros a x ->%list_elem_of_singleton. apply Hl.
  - intros p x Hp Hx. destruct Hx as [a b _ Ha Hne|st x Hst _ Hlnk Hx|st buf _ _ _ _ (b & _ & _ & Hacc & _) _]; [| |done].
    + assert (p = "/l" \/ p = "/d" \/ p = "/d/f")%string as [-> |[-> | ->]] by (unfold small_universe in Hp; set_solver);
        vm_compute in Ha; injection Ha as <- <-; [done|done|]. apply (bool_decide_unpack _). vm_compute. exact I.
    + assert (p = "/l" \/ p = "/d" \/ p = "/d/f")%string as [-> |[-> | ->]] by (unfold small_universe in Hp; set_solver);
        vm_compute in Hst; injection Hst as <-; [by apply Hl|done|done].
  - intros p l e Hp Hl' He. cbn in Hl'. case_bool_decide; injection Hl' as <-; [|by apply not_elem_of_nil in He].
    repeat (apply elem_of_cons in He as [->|He]; [apply (bool_decide_unpack _); vm_compute; exact I|]). by apply not_elem_of_nil in He.
  - intros p x Hp (text & closed & line & s & b & Hn & _). done.
  - done.
  - done.
Qed.

Lemma put_closure_witness :
  let provided x q := exclude small_host x = true \/ x ∈ files q \/ is_present small_host x = true in
  (exists c q, collect_files small_host 40 [ #"/l"] = Ret (c, q) /\ inqueue q = None /\
     (forall p, p ∈ files q -> p ∈ small_universe /\ exclude small_host p = false) /\
     (forall a x, a ∈ [ #"/l"] -> reached small_host [] a x -> provided x q) /\
     (forall p x, p ∈ files q -> wants small_host [] p x -> provided x q)) \/
  ((exists code msg, collect_files small_host 40 [ #"/l"] = Die code msg) \/ collect_files small_host 40 [ #"/l"] = Undef) /\
  flaw small_host [] [ #"/l"] small_universe.
Proof.
  apply (put_closure small_host [] [ #"/l"] small_universe 40).
  - intros p l e Hl He _. cbn in Hl. case_bool_decide; injection Hl as <-; [|by apply not_elem_of_nil in He].
    repeat (apply elem_of_cons in He as [->|He]; [reflexivity|]). by apply not_elem_of_nil in He.
  - split_and!; [reflexivity|discriminate|by apply list.Forall_nil].
  - apply small_is_universe.
  - vm_compute. lia.
Defined.

(** A directory that is given on the command line is copied with its contents,
    but not if a symlink to it follows: the symlink is looked at while the directory
    is still in the queue, and resolving it resets the mark that the directory is to
    be searched. *)
Theorem directory_contents_lost :
  (exists c q, collect_files small_host 100 [ #"/l"; #"/d"] = Ret (c, q) /\ elements (files q) ≡ₚ ["/l"; "/d"; "/d/f"]%string) /\
  (exists c q, collect_files small_host 100 [ #"/d"; #"/l"] = Ret (c, q) /\ elements (files q) ≡ₚ ["/l"; "/d"]%string).
Proof.
  split; eexists _, _; (split; [vm_compute; reflexivity|]); vm_compute; solve_Permutation.
Qed.
