(* ===== verification/Workers.v ===== *)
(** Threads that take their jobs from a shared array, as those of initrd-scanmod do: under
    a mutex a thread moves the index to its next job, and works on it outside of the
    mutex. The only thing that a job changes for the other threads is the output, and
    that under a mutex of its own; so a job is one step, and the threads interleave
    between these steps.

    The array, the search for the next job and the work on it are parameters. [each] is
    the loop over a list, which initrd-put has as well. *)

From Stdlib Require Import ZArith Lia.
From stdpp Require Import base list gmap sets tactics.
From S2P Require Import Prelude.

Open Scope Z_scope.
Open Scope cprog_scope.

Fixpoint each {J S : Type} (f : J -> S -> out S) (l : list J) (s : S) : out S :=
  match l with
  | [] => Ret s
  | p :: l => let! s := f p s in each f l s
  end.

(** The pool, with the job that each thread works on and the threads that returned. *)
Record worker_pool (J S : Type) := {
  next_idx : nat;
  held : gmap nat J;
  gone : gset nat;
  shared : S;
}.
Arguments next_idx {_ _}. Arguments held {_ _}. Arguments gone {_ _}. Arguments shared {_ _}.

Definition pool0 {J S : Type} (s : S) : worker_pool J S := {| next_idx := 0; held := ∅; gone := ∅; shared := s |}.

Section Workers.
Context {J S : Type}.
Variables (next_job : nat -> S -> out (option J * nat)) (job : J -> S -> out S) (n : nat).

Definition claim (w : nat) (x : worker_pool J S) : out (worker_pool J S) :=
  let! r := next_job (next_idx x) (shared x) in
  match r with
  | (Some p, i) => Ret {| next_idx := i; held := <[w := p]> (held x); gone := gone x; shared := shared x |}
  | (None, i) => Ret {| next_idx := i; held := held x; gone := {[ w ]} ∪ gone x; shared := shared x |}
  end.

Definition work (w : nat) (p : J) (x : worker_pool J S) : out (worker_pool J S) :=
  let! s := job p (shared x) in
  Ret {| next_idx := next_idx x; held := delete w (held x); gone := gone x; shared := s |}.

(** A step of one of [n] threads: it takes a job or returns, or does its job. *)
Inductive thread_step (x : worker_pool J S) : out (worker_pool J S) -> Prop :=
| step_claim w : (w < n)%nat -> held x !! w = None -> w ∉ gone x -> thread_step x (claim w x)
| step_work w p : held x !! w = Some p -> thread_step x (work w p x).

(** The steps up to the return of all threads, or up to the end of the program. *)
Inductive pool_runs : worker_pool J S -> out S -> Prop :=
| runs_join x : (forall w, (w < n)%nat -> w ∈ gone x) -> pool_runs x (Ret (shared x))
| runs_step x x' o : thread_step x (Ret x') -> pool_runs x' o -> pool_runs x o
| runs_exit x o : thread_step x o -> (forall x', o <> Ret x') -> pool_runs x (let! x := o in Ret (shared x)).

(** ** The outcome is that of one thread and some order *)

Variable l : list J.

(** The search for a job returns the next one of [l]; a job that it passes over would
    have changed nothing. *)
Definition takes_next : Prop := forall idx s,
  exists skipped, each job skipped s = Ret s /\
    match next_job idx s with
    | Ret (Some p, i) => exists rest, drop idx l = skipped ++ p :: rest /\ i = (idx + Datatypes.S (length skipped))%nat
    | Ret (None, i) => drop idx l = skipped /\ i = (idx + length skipped)%nat
    | Undef => exists p rest, drop idx l = skipped ++ p :: rest /\ job p s = Undef
    | _ => False
    end.

Hypothesis Hnext : takes_next.

Lemma each_app (f : J -> S -> out S) l1 l2 s : each f (l1 ++ l2) s = let! s := each f l1 s in each f l2 s.
Proof. revert s. induction l1 as [|p l1 IH]; intros s; [done|]. cbn. destruct (f p s); cbn [obind]; auto. Qed.

(** The jobs that were tried so far, in their order, and those to come. *)
Record pool_inv (s0 : S) (tried : list J) (x : worker_pool J S) : Prop := {
  pi_tried : each job tried s0 = Ret (shared x);
  pi_rest : tried ++ (map_to_list (held x)).*2 ++ drop (next_idx x) l ≡ₚ l;
  pi_gone w : w ∈ gone x -> held x !! w = None /\ (length l <= next_idx x)%nat;
  pi_held w : is_Some (held x !! w) -> (w < n)%nat;
}.

Lemma pool_inv0 s : pool_inv s [] (pool0 s).
Proof. split; cbn; [done|done|set_solver|]. intros w. rewrite lookup_empty. by intros []. Qed.

Lemma held_delete (m : gmap nat J) w p : m !! w = Some p -> (map_to_list m).*2 ≡ₚ p :: (map_to_list (delete w m)).*2.
Proof. intros Hw. by rewrite <- (map_to_list_delete m w p Hw). Qed.

(** A step keeps the invariant; one that ends the program is the end for an order. *)
Definition step_ok (s0 : S) (o : out (worker_pool J S)) : Prop :=
  (exists x' tried', o = Ret x' /\ pool_inv s0 tried' x') \/
  ((forall x', o <> Ret x') /\ exists order, order ≡ₚ l /\ each job order s0 = let! x := o in Ret (shared x)).

Lemma claim_ok s0 tried x w : pool_inv s0 tried x -> (w < n)%nat -> held x !! w = None -> w ∉ gone x -> step_ok s0 (claim w x).
Proof.
  intros [P1 P2 P3 P4] Hw Hh Hg. unfold claim. destruct (Hnext (next_idx x) (shared x)) as (sk & Hs & Hm).
  assert (Htr : each job (tried ++ sk) s0 = Ret (shared x)) by (rewrite each_app, P1; exact Hs).
  destruct (next_job _ _) as [[[p|] i]| | |]; cbn [obind]; try done.
  - destruct Hm as (r' & Hd & ->). left. eexists _, (tried ++ sk). split; [done|]. split; cbn; [exact Htr| | |].
    + rewrite map_to_list_insert by done. cbn. etrans; [|exact P2]. rewrite Hd.
      rewrite <- (drop_drop l), Hd. change (p :: r') with ([p] ++ r'). rewrite (app_assoc sk [p]), (drop_app_length' (sk ++ [p])).
      2: { rewrite length_app. cbn. lia. }
      solve_Permutation.
    + intros v Hv. destruct (P3 v Hv) as [? ?]. rewrite lookup_insert_ne by (intros ->; done). split; [done|lia].
    + intros v. destruct (decide (w = v)) as [->|Hne]; [done|]. rewrite lookup_insert_ne by done. apply P4.
  - destruct Hm as (Hd & ->). left. eexists _, (tried ++ sk). split; [done|].
    assert (Hlen : (length l <= next_idx x + length sk)%nat) by (rewrite <- Hd, length_drop; lia).
    split; cbn; [exact Htr| | |exact P4].
    + rewrite (drop_ge l) by lia. etrans; [|exact P2]. rewrite Hd. solve_Permutation.
    + intros v [->%elem_of_singleton|Hv]%elem_of_union; [done|]. destruct (P3 v Hv). split; [done|lia].
  - destruct Hm as (p & r' & Hd & Hu). right. split; [done|].
    exists ((tried ++ sk) ++ (p :: r') ++ (map_to_list (held x)).*2). split; [etrans; [|exact P2]; rewrite Hd; solve_Permutation|].
    rewrite each_app, Htr. cbn. by rewrite Hu.
Qed.

Lemma work_ok s0 tried x w p : pool_inv s0 tried x -> held x !! w = Some p -> step_ok s0 (work w p x).
Proof.
  intros [P1 P2 P3 P4] Hh. pose proof (held_delete _ _ _ Hh) as Hp.
  unfold work. destruct (job p (shared x)) as [s'|c m| |] eqn:Ei; cbn [obind].
  1: { left. eexists _, (tried ++ [p]). split; [done|]. split; cbn.
    - rewrite each_app, P1. cbn. by rewrite Ei.
    - etrans; [|exact P2]. rewrite Hp. solve_Permutation.
    - intros v Hv. destruct (P3 v Hv). split; [|done]. by rewrite lookup_delete_None; right.
    - intros v Hv. apply P4. by apply lookup_delete_is_Some in Hv as [_ ?]. }
  all: right; split; [done|]; exists (tried ++ (p :: (map_to_list (delete w (held x))).*2) ++ drop (next_idx x) l);
    split; [etrans; [|exact P2]; rewrite Hp; done|]; rewrite each_app, P1; cbn; by rewrite Ei.
Qed.

(** Every step brings the end nearer, and there is one until all threads returned. *)
Definition pool_left (x : worker_pool J S) : nat :=
  (2 * (length l - next_idx x) + size (held x) + size ((set_seq 0 n : gset nat) ∖ gone x))%nat.

Lemma pool_left_decreases x x' : thread_step x (Ret x') -> (pool_left x' < pool_left x)%nat.
Proof.
  unfold pool_left. intros Hs. remember (Ret x') as o eqn:Eo. destruct Hs as [w Hw Hh Hg|w p Hh].
  - unfold claim in Eo. destruct (Hnext (next_idx x) (shared x)) as (sk & _ & Hm).
    destruct (next_job _ _) as [[[p|] i]| | |]; cbn [obind] in Eo; try done; injection Eo as <-; cbn.
    + destruct Hm as (r' & Hd & ->). apply (f_equal length) in Hd. rewrite length_drop, length_app in Hd. cbn in Hd.
      rewrite map_size_insert_None by done. lia.
    + destruct Hm as (Hd & ->). assert ((set_seq 0 n : gset nat) ∖ ({[ w ]} ∪ gone x) ⊂ set_seq 0 n ∖ gone x) as Hsub%subset_size; [|lia].
      split; [set_solver|]. intros Hc. assert (Hin : w ∈ (set_seq 0 n : gset nat) ∖ gone x)
        by (apply elem_of_difference; split; [apply elem_of_set_seq; lia|done]).
      apply Hc in Hin. set_solver.
  - unfold work in Eo. destruct (job p (shared x)); cbn [obind] in Eo; try done. injection Eo as <-. cbn.
    rewrite map_size_delete_Some by done. assert (size (held x) <> 0)%nat; [|lia].
    intros Hz%map_size_empty_inv. rewrite Hz in Hh. by rewrite lookup_empty in Hh.
Qed.

Lemma pool_progress x : (forall w, (w < n)%nat -> w ∈ gone x) \/ exists o, thread_step x o.
Proof.
  destruct (decide (Forall (fun w => w ∈ gone x) (seq 0 n))) as [Hall|Hn].
  - left. intros w Hw. rewrite list.Forall_forall in Hall. apply Hall. apply elem_of_seq. lia.
  - right. apply not_Forall_Exists in Hn; [|apply _]. apply list.Exists_exists in Hn as (w & Hw%elem_of_seq & Hg).
    destruct (held x !! w) as [p|] eqn:Eh; [eexists; by apply (step_work _ w p)|].
    eexists. apply (step_claim _ w); [lia|done|done].
Qed.

Lemma pool_ends x : exists o, pool_runs x o.
Proof.
  induction x as [x IH] using (well_founded_induction (well_founded_ltof _ pool_left)).
  destruct (pool_progress x) as [Hall|[o Ho]]; [eexists; by apply runs_join|].
  destruct o as [x'| | |]; [|eexists; by eapply runs_exit..].
  destruct (IH x') as [o Hr]; [by apply pool_left_decreases|]. exists o. by eapply runs_step.
Qed.

Lemma pool_result s0 x o : pool_runs x o -> (0 < n)%nat -> forall tried, pool_inv s0 tried x ->
  exists order, order ≡ₚ l /\ each job order s0 = o.
Proof.
  intros Hr Hn. assert (Hstep : forall x o tried, pool_inv s0 tried x -> thread_step x o -> step_ok s0 o)
    by (intros y p tr P [w ? ? ?|w q ?]; [by eapply claim_ok|by eapply work_ok]).
  induction Hr as [x Hg|x x' o Hs Hr IH|x o Hs Hne]; intros tried P.
  - exists tried. split; [|apply P]. rewrite <- (pi_rest _ _ _ P). destruct (pi_gone _ _ _ P 0%nat (Hg 0%nat Hn)) as [_ Hlen].
    rewrite (drop_ge l) by done. replace (held x) with (∅ : gmap nat J); [by rewrite map_to_list_empty, !app_nil_r|].
    symmetry. apply map_empty. intros w. destruct (held x !! w) as [p|] eqn:Eh; [|done].
    destruct (pi_gone _ _ _ P w) as [E _]; [|congruence]. apply Hg, (pi_held _ _ _ P). by rewrite Eh.
  - destruct (Hstep x (Ret x') tried P Hs) as [(y & tr & E & P')|[Hne _]]; [|by specialize (Hne x')].
    injection E as <-. by apply (IH tr).
  - destruct (Hstep x o tried P Hs) as [(y & tr & E & P')|[_ Hord]]; [by specialize (Hne y)|done].
Qed.

Lemma pool_order s : (0 < n)%nat -> (exists o, pool_runs (pool0 s) o) /\
  forall o, pool_runs (pool0 s) o -> exists order, order ≡ₚ l /\ each job order s = o.
Proof.
  intros Hn. split; [apply pool_ends|]. intros o Hr. eapply pool_result; [exact Hr|exact Hn|apply pool_inv0].
Qed.
End Workers.
