(* ===== verification/PutInstall.v ===== *)
(** initrd-put: the files of the tree are created in the destination (install_file,
    install_hardlink, apply_permissions, the search of install_worker and the last part of
    main in initrd-put.c).

    The files that are no directories are installed by threads, which come to them in
    any order: [order] is a parameter of [install_round]. They are installed one after
    the other here. What two threads do that are in install_file at the same time is not
    modelled.

    The destination file system is a parameter: its calls return errno (0 for
    success) and the new state. The copy of the contents is modelled call by call,
    with the transfer counts of the kernel as a parameter. *)

From Stdlib Require Import ZArith Ascii String Lia Sorted.
From stdpp Require Import base list strings gmap sets tactics numbers.
From S2P Require Import Prelude CString PutQueue PutCanon PutDeps PutMain Workers.

Open Scope Z_scope.
Open Scope cprog_scope.

Definition ENOENT : Z := 2.
Definition EPERM : Z := 1.
Definition EACCES : Z := 13.
Definition EEXIST : Z := 17.
Definition EXDEV : Z := 18.
Definition EMLINK : Z := 31.
Definition ENOSYS : Z := 38.
Definition EOPNOTSUPP : Z := 95.
Definition EX_CANTCREAT : Z := 73.
Definition EX_NOINPUT : Z := 66.
Definition EX_IOERR : Z := 74.
Definition BUFSIZ : Z := 8192.
Definition SUN_PATH_SIZE : Z := 108.

(** ** The contents of a regular file *)

(** The result of a call that transfers bytes: how many, or errno. *)
Inductive transfer := Moved (n : Z) | Failure (errno : Z).

Inductive copied := Complete (moved : Z) | Unsupported.

(** The loop over copy_file_range or sendfile. [call k] is the result of the k-th
    call, [len] what is left of the size, [moved] what was written so far. *)
Fixpoint range_loop (fallback : Z -> bool) (call : nat -> transfer) (fuel k : nat) (len moved : Z) : out copied :=
  match fuel with
  | O => NoFuel
  | S fuel =>
      match call k with
      | Failure e => if fallback e then Ret Unsupported else Die EX_IOERR "copy"
      | Moved n =>
          if (len - n >? 0) && (n >? 0) then range_loop fallback call fuel (S k) (len - n) (moved + n)
          else Ret (Complete (moved + n))
      end
  end.

Definition copy_range_fallback (e : Z) : bool := (e =? EXDEV) || (e =? ENOSYS) || (e =? EOPNOTSUPP) || (e =? EINVAL).
Definition sendfile_fallback (e : Z) : bool := (e =? EINVAL) || (e =? ENOSYS) || (e =? EOPNOTSUPP).

(** The loop that writes a buffer of [n] bytes; [k] counts the calls of write. *)
Fixpoint write_loop (write : nat -> transfer) (fuel k : nat) (written n : Z) : out nat :=
  match fuel with
  | O => NoFuel
  | S fuel =>
      if written <? n then
        match write k with
        | Failure _ => Die EX_IOERR "write"
        | Moved w => if w =? 0 then Die EX_IOERR "write: unexpected end of stream"
                     else write_loop write fuel (S k) (written + w) n
        end
      else Ret k
  end.

(** The loop over read and write. *)
Fixpoint readwrite_loop (read write : nat -> transfer) (fuel k kw : nat) (len moved : Z) : out Z :=
  match fuel with
  | O => NoFuel
  | S fuel =>
      match read k with
      | Failure _ => Die EX_IOERR "read"
      | Moved n =>
          if n =? 0 then Ret moved else
          let! kw := write_loop write (S (Z.to_nat n)) kw 0 n in
          if len - n >? 0 then readwrite_loop read write fuel (S k) kw (len - n) (moved + n) else Ret (moved + n)
      end
  end.

(** The calls for one file. *)
Record copy_calls := {
  copy_file_range : nat -> transfer;
  sendfile : nat -> transfer;
  read : nat -> transfer;
  write : nat -> transfer;
}.

(** The number of bytes in the new file, and which calls are still used. *)
Definition copy_contents (c : copy_calls) (size : Z) (use_copy_file_range use_sendfile : bool) : out (Z * bool * bool) :=
  let fuel := S (S (Z.to_nat size)) in
  let! r := if use_copy_file_range then range_loop copy_range_fallback (copy_file_range c) fuel 0 size 0 else Ret Unsupported in
  match r with
  | Complete n => Ret (n, use_copy_file_range, use_sendfile)
  | Unsupported =>
      let! r := if use_sendfile then range_loop sendfile_fallback (sendfile c) fuel 0 size 0 else Ret Unsupported in
      match r with
      | Complete n => Ret (n, false, use_sendfile)
      | Unsupported =>
          let! n := readwrite_loop (read c) (write c) fuel 0 0 size 0 in
          Ret (n, false, false)
      end
  end.

(** ** The destination *)

Class Dest (fs : Type) := {
  mkdir : string -> Z -> fs -> Z * fs;
  mknod : string -> Z -> Z -> fs -> Z * fs;
  make_symlink : string -> string -> fs -> Z * fs;
  mkfifo : string -> Z -> fs -> Z * fs;
  (** socket and bind. *)
  bind : string -> fs -> Z * fs;
  creat : string -> Z -> fs -> Z * fs;
  (** The first bytes of the source are now the contents. *)
  fill : string -> string -> Z -> fs -> fs;
  link : string -> string -> fs -> Z * fs;
  remove : string -> fs -> Z * fs;
  access : string -> fs -> bool;
  lchown : string -> Z -> Z -> fs -> Z * fs;
  chmod : string -> Z -> fs -> Z * fs;
}.

(** The sources: whether one can be opened, and how its bytes are transferred. *)
Record sources := { open_src : string -> bool; transfers : string -> copy_calls }.

Record ist (fs : Type) := {
  dfs : fs;
  tab : gmap string file;
  installed_nr : Z;
  use_copy_file_range : bool;
  use_sendfile : bool;
}.
Arguments dfs {_}. Arguments tab {_}. Arguments installed_nr {_}. Arguments use_copy_file_range {_}. Arguments use_sendfile {_}.

Section Install.
Context {fs : Type} `{Dest fs}.
Variables (h : host) (src : sources).

Definition with_fs (d : fs) (s : ist fs) : ist fs :=
  {| dfs := d; tab := tab s; installed_nr := installed_nr s; use_copy_file_range := use_copy_file_range s; use_sendfile := use_sendfile s |}.

Definition set_installed (f : file) : file :=
  {| prev := prev f; next := next f; f_stat := f_stat f; dst := dst f; symlink := symlink f;
     hardlink_target := hardlink_target f; recursive := recursive f; installed := true |}.

(** The address of a socket has room for 108 bytes with the NUL. *)
Definition mksock (path : string) (d : fs) : Z * fs :=
  if lenZ #path <? SUN_PATH_SIZE then bind path d else (EINVAL, d).

(** The label end. *)
Definition done_file (p : string) (s : ist fs) : ist fs :=
  {| dfs := dfs s; tab := alter set_installed p (tab s); installed_nr := u64 (installed_nr s + 1);
     use_copy_file_range := use_copy_file_range s; use_sendfile := use_sendfile s |}.

Definition load_file (p : string) (s : ist fs) : out file := match tab s !! p with Some f => Ret f | None => Undef end.

Definition install_path (f : file) : out string :=
  if lenZ #(dst f) >=? PATH_MAX + 1 - lenZ #(destdir h) then Die EXIT_FAILURE "destination path too long"
  else Ret (str (#(destdir h) ++ #(dst f))).

Definition force_remove (path : string) (s : ist fs) : out (ist fs) :=
  let '(e, d) := remove path (dfs s) in
  if negb (e =? 0) && negb (e =? ENOENT) then Die EXIT_FAILURE "remove" else Ret (with_fs d s).

(** What follows a call that creates [p]: an existing file is left alone, and a
    directory that is missing is waited for. *)
Definition created (p : string) (r : Z * fs) (s : ist fs) : out (ist fs) :=
  let '(e, d) := r in
  if (e =? 0) || (e =? EEXIST) then Ret (done_file p (with_fs d s))
  else if e =? ENOENT then Ret (with_fs d s)
  else Die EX_CANTCREAT "create".

Definition is_special (st : stat) : bool := is_type S_IFBLK st || is_type S_IFCHR st.

(** The prefix is removed from the target of a symlink too. *)
Definition link_target (t : string) : string :=
  let t' := remove_prefix h #t in
  if decide (t' = []) then (if decide (t = ""%string) then t else "/"%string) else str t'.

Definition install_regular (p path : string) (f : file) (s : ist fs) : out (ist fs) :=
  if access path (dfs s) then Ret (done_file p s)
  else if negb (open_src src p) then Die EX_NOINPUT "open"
  else
    let '(e, d) := creat path (st_mode (f_stat f)) (dfs s) in
    if e =? ENOENT then Ret (with_fs d s)
    else if negb (e =? 0) then Die EX_CANTCREAT "creat"
    else
      let! r := copy_contents (transfers src p) (st_size (f_stat f)) (use_copy_file_range s) (use_sendfile s) in
      let '(n, c, sf) := r in
      Ret (done_file p {| dfs := fill path p n d; tab := tab s; installed_nr := installed_nr s;
                          use_copy_file_range := c; use_sendfile := sf |}).

Definition install_file (p : string) (s : ist fs) : out (ist fs) :=
  let! f := load_file p s in
  if installed f then Ret s else
  let st := f_stat f in
  let! path := install_path f in
  let! s := if force h && negb (is_type S_IFDIR st) then force_remove path s else Ret s in
  if is_type S_IFDIR st then created p (mkdir path 493 (dfs s)) s
  else if is_special st then created p (mknod path (st_mode st) (st_dev st) (dfs s)) s
  else if is_type S_IFLNK st then
    match symlink f with
    | None => Ret s
    | Some t => created p (make_symlink (link_target t) path (dfs s)) s
    end
  else if is_type S_IFIFO st then created p (mkfifo path (st_mode st) (dfs s)) s
  else if is_type S_IFSOCK st then created p (mksock path (dfs s)) s
  else if negb (is_type S_IFREG st) then Die EXIT_FAILURE "not implemented"
  else install_regular p path f s.

Definition link_fallback (e : Z) : bool :=
  (e =? EXDEV) || (e =? EPERM) || (e =? EACCES) || (e =? EOPNOTSUPP) || (e =? EMLINK).

Definition install_hardlink (p : string) (s : ist fs) : out (ist fs) :=
  let! f := load_file p s in
  if installed f then Ret s else
  match hardlink_target f with
  | None => install_file p s
  | Some t =>
      let! g := load_file t s in
      if negb (installed g) then install_file p s else
      let! path := install_path f in
      let! target := install_path g in
      if decide (path = target) then Ret (done_file p s) else
      let! s := if force h then force_remove path s else Ret s in
      let '(e, d) := link target path (dfs s) in
      if (e =? 0) || (e =? EEXIST) then Ret (done_file p (with_fs d s))
      else if link_fallback e then install_file p (with_fs d s)
      else Die EX_CANTCREAT "link"
  end.

Definition apply_permissions (p : string) (s : ist fs) : out (ist fs) :=
  let! f := load_file p s in
  if negb (installed f) then Ret s else
  let! path := install_path f in
  let '(e, d) := lchown path (st_uid (f_stat f)) (st_gid (f_stat f)) (dfs s) in
  if negb (e =? 0) && negb (e =? EPERM) then Die EXIT_FAILURE "unable to change owner and group" else
  let s := with_fs d s in
  if is_type S_IFLNK (f_stat f) then Ret s else
  let '(e, d) := chmod path (st_mode (f_stat f)) (dfs s) in
  if negb (e =? 0) then Die EXIT_FAILURE "change file mode" else Ret (with_fs d s).

(** ** The order *)

Record collector := { dirs : list string; non_dirs : list string; hardlinks : list string; seen : gmap (Z * Z) string }.

(** The first file of an inode is copied, the others are linked to it. *)
Definition classify_file (p : string) (x : collector * gmap string file) : out (collector * gmap string file) :=
  let '(c, t) := x in
  match t !! p with
  | None => Undef
  | Some f =>
      let st := f_stat f in
      if is_type S_IFDIR st then
        Ret ({| dirs := dirs c ++ [p]; non_dirs := non_dirs c; hardlinks := hardlinks c; seen := seen c |}, t)
      else if is_type S_IFREG st && (st_nlink st >? 1) then
        match seen c !! (st_dev st, st_ino st) with
        | Some orig =>
            Ret ({| dirs := dirs c; non_dirs := non_dirs c; hardlinks := hardlinks c ++ [p]; seen := seen c |},
                 <[p := {| prev := prev f; next := next f; f_stat := f_stat f; dst := dst f; symlink := symlink f;
                           hardlink_target := Some orig; recursive := recursive f; installed := installed f |}]> t)
        | None =>
            Ret ({| dirs := dirs c; non_dirs := non_dirs c ++ [p]; hardlinks := hardlinks c;
                    seen := <[(st_dev st, st_ino st) := p]> (seen c) |}, t)
        end
      else Ret ({| dirs := dirs c; non_dirs := non_dirs c ++ [p]; hardlinks := hardlinks c; seen := seen c |}, t)
  end.

Definition dst_of (t : gmap string file) (p : string) : string := match t !! p with Some f => dst f | None => "" end.

(** Parents, which are shorter, first. *)
Definition compare_dir_order (t : gmap string file) (a b : string) : bool :=
  let la := lenZ #(dst_of t a) in let lb := lenZ #(dst_of t b) in
  if la =? lb then strcmp_le #(dst_of t a) #(dst_of t b) else la <? lb.

Fixpoint insert_dir (t : gmap string file) (x : string) (l : list string) : list string :=
  match l with
  | [] => [x]
  | y :: l' => if compare_dir_order t x y then x :: l else y :: insert_dir t x l'
  end.
Definition sort_dirs (t : gmap string file) (l : list string) : list string := foldr (insert_dir t) [] l.

(** *** The threads *)

(** The loop of install_worker under the mutex: the next file that is not installed. *)
Fixpoint next_candidate (rest : list string) (idx : nat) (s : ist fs) : out (option string * nat) :=
  match rest with
  | [] => Ret (None, idx)
  | p :: rest =>
      let! f := load_file p s in
      if installed f then next_candidate rest (S idx) s else Ret (Some p, S idx)
  end.

(** One pass; [order] is the order in which the threads come to the files. A file that
    [next_candidate] passes over is installed, and another attempt does nothing. *)
Definition install_round (c : collector) (order : list string -> list string) (s : ist fs) : out (ist fs) :=
  let! s := each install_file (dirs c) s in
  let! s := each install_file (order (non_dirs c)) s in
  each install_hardlink (hardlinks c) s.

Fixpoint install_loop (fuel : nat) (c : collector) (order : nat -> list string -> list string) (s : ist fs) : out (ist fs) :=
  match fuel with
  | O => NoFuel
  | S fuel =>
      let! s' := install_round c (order fuel) s in
      if installed_nr s' =? installed_nr s then Ret s' else install_loop fuel c order s'
  end.

(** The passes over the files, which are sorted by what they are. *)
Definition install_files (fuel : nat) (order : nat -> list string -> list string) (q : put) (d : fs) : out (collector * ist fs) :=
  let! x := walk_tree classify_file (tree_order q) ({| dirs := []; non_dirs := []; hardlinks := []; seen := ∅ |}, heap q) in
  let '(c, t) := x in
  let c := {| dirs := sort_dirs t (dirs c); non_dirs := non_dirs c; hardlinks := hardlinks c; seen := seen c |} in
  let! s := install_loop fuel c order {| dfs := d; tab := t; installed_nr := 0; use_copy_file_range := true; use_sendfile := true |} in
  Ret (c, s).

(** All that follows the collection of the files. *)
Definition install_all (fuel : nat) (order : nat -> list string -> list string) (q : put) (d : fs) : out (ist fs) :=
  let! (c, s) := install_files fuel order q d in
  if tree_files_nr q >? installed_nr s then Die EXIT_FAILURE "unable to create the files listed above" else
  let! s := each apply_permissions (non_dirs c) s in
  let! s := each apply_permissions (hardlinks c) s in
  each apply_permissions (rev (dirs c)) s.
End Install.

(** ** The copy is complete *)

Definition count (t : transfer) : Z := match t with Moved n => n | Failure _ => 0 end.

Fixpoint total (call : nat -> transfer) (k : nat) : Z :=
  match k with O => 0 | S k => total call k + count (call k) end.

(** Calls on a file of [size] bytes: they transfer at most what is left, and nothing
    only at the end. *)
Definition honest (call : nat -> transfer) (size : Z) : Prop :=
  forall k, match call k with
            | Moved n => 0 <= n <= size - total call k /\ (n = 0 -> total call k = size)
            | Failure _ => True
            end.

(** The loop ends, and when it does all bytes were transferred or a call failed. *)
Lemma range_loop_ok fallback call size fuel : honest call size -> forall k,
  0 <= total call k <= size -> size - total call k < Z.of_nat fuel - 1 ->
  match range_loop fallback call fuel k (size - total call k) (total call k) with
  | Ret (Complete n) => n = size
  | Ret Unsupported => exists j e, call j = Failure e /\ fallback e = true
  | Die _ _ => exists j e, call j = Failure e /\ fallback e = false
  | _ => False
  end.
Proof.
  intros Hc. induction fuel as [|fuel IH]; intros k Hk Hf; [lia|]. cbn [range_loop]. pose proof (Hc k) as Hck.
  destruct (call k) as [n|e] eqn:Ek.
  - destruct Hck as [Hn H0]. assert (Ht : total call (S k) = total call k + n) by (cbn; by rewrite Ek).
    destruct ((size - total call k - n >? 0) && (n >? 0)) eqn:E.
    + rewrite !Z.gtb_ltb in E. replace (size - total call k - n) with (size - total call (S k)) by lia. rewrite <- Ht.
      apply IH; zlia.
    + rewrite !Z.gtb_ltb in E. destruct (decide (n = 0)) as [->|]; [specialize (H0 eq_refl); lia|]. zlia.
  - destruct (fallback e) eqn:Ef; by exists k, e.
Qed.

Lemma range_loop_die fallback call fuel : forall k len moved c m,
  range_loop fallback call fuel k len moved = Die c m -> c = EX_IOERR.
Proof.
  induction fuel as [|f IH]; intros k l m0 c m E; [done|]. cbn in E. destruct (call k) as [n|e].
  - destruct (_ && _) in E; [by eapply IH|done].
  - destruct (fallback e) in E; [done|by injection E as <- <-].
Qed.

Lemma write_loop_ok write n : (forall k, match write k with Moved w => 0 <= w | Failure _ => True end) -> forall fuel k written,
  0 <= written -> n - written < Z.of_nat fuel -> 0 < Z.of_nat fuel ->
  match write_loop write fuel k written n with Ret _ => True | Die c _ => c = EX_IOERR | _ => False end.
Proof.
  intros Hw. induction fuel as [|fuel IH]; intros k written H0 Hf Hp; [lia|]. cbn [write_loop].
  destruct (written <? n) eqn:E; unbool; [|done]. specialize (Hw k). destruct (write k) as [w|]; [|done].
  destruct (w =? 0) eqn:E0; unbool; [done|]. apply IH; lia.
Qed.

Lemma readwrite_loop_ok read write size fuel : honest read size ->
  (forall k, match write k with Moved w => 0 <= w | Failure _ => True end) -> forall k kw,
  0 <= total read k <= size -> size - total read k < Z.of_nat fuel - 1 ->
  match readwrite_loop read write fuel k kw (size - total read k) (total read k) with
  | Ret n => n = size
  | Die c _ => c = EX_IOERR
  | _ => False
  end.
Proof.
  intros Hr Hw. induction fuel as [|fuel IH]; intros k kw Hk Hf; [lia|]. cbn [readwrite_loop]. pose proof (Hr k) as Hck.
  destruct (read k) as [n|e] eqn:Ek; [|done]. destruct Hck as [Hn H0].
  assert (Ht : total read (S k) = total read k + n) by (cbn; by rewrite Ek).
  destruct (n =? 0) eqn:E; unbool; [by apply H0|].
  pose proof (write_loop_ok write n Hw (S (Z.to_nat n)) kw 0 ltac:(lia) ltac:(lia) ltac:(lia)) as Hwl.
  destruct (write_loop _ _ _ _ _) as [kw'| | |]; cbn [obind]; try done.
  destruct (size - total read k - n >? 0) eqn:E1; rewrite Z.gtb_ltb in E1; unbool; [|lia].
  replace (size - total read k - n) with (size - total read (S k)) by lia. rewrite <- Ht. apply IH; lia.
Qed.

(** However the kernel splits the transfers, and whichever of copy_file_range,
    sendfile and read with write it supports, the copy of a file ends, and all its
    bytes have been written when the program goes on; it exits only with EX_IOERR. *)
Theorem copy_complete c size cfr sf :
  0 <= size -> honest (copy_file_range c) size -> honest (sendfile c) size -> honest (read c) size ->
  (forall k, match write c k with Moved w => 0 <= w | Failure _ => True end) ->
  match copy_contents c size cfr sf with
  | Ret (n, _, _) => n = size
  | Die code _ => code = EX_IOERR
  | _ => False
  end.
Proof.
  intros Hs H1 H2 H3 H4. unfold copy_contents. set (fuel := S (S (Z.to_nat size))).
  assert (Hfuel : size - 0 < Z.of_nat fuel - 1) by (unfold fuel; lia). assert (H0 : 0 <= 0 <= size) by lia.
  pose proof (range_loop_ok copy_range_fallback _ size fuel H1 0 H0 Hfuel) as R1.
  pose proof (range_loop_ok sendfile_fallback _ size fuel H2 0 H0 Hfuel) as R2.
  pose proof (readwrite_loop_ok _ _ size fuel H3 H4 0 0 H0 Hfuel) as R3.
  cbn [total] in *. rewrite Z.sub_0_r in *.
  assert (R3' : match (let! n := readwrite_loop (read c) (write c) fuel 0 0 size 0 in Ret (n, false, false)) with
    | Ret (n, _, _) => n = size | Die code _ => code = EX_IOERR | _ => False end) by (by destruct (readwrite_loop _ _ _ _ _ _ _)).
  assert (R2' : match (let! r := if sf then range_loop sendfile_fallback (sendfile c) fuel 0 size 0 else Ret Unsupported in
      match r with Complete n => Ret (n, false, sf) | Unsupported =>
        let! n := readwrite_loop (read c) (write c) fuel 0 0 size 0 in Ret (n, false, false) end) with
    | Ret (n, _, _) => n = size | Die code _ => code = EX_IOERR | _ => False end).
  { destruct sf; [|done]. destruct (range_loop sendfile_fallback _ _ _ _ _) as [[n|]| | |] eqn:E; cbn [obind]; try done.
    by eapply range_loop_die. }
  destruct cfr; [|done]. destruct (range_loop copy_range_fallback _ _ _ _ _) as [[n|]| | |] eqn:E; cbn [obind]; try done.
  by eapply range_loop_die.
Qed.

(** copy_file_range is not supported, sendfile transfers at most three bytes a call. *)
Definition example_copy : copy_calls :=
  {| copy_file_range := fun _ => Failure ENOSYS;
     sendfile := fun k => match k with 0 | 1 | 2 => Moved 3 | 3 => Moved 1 | _ => Moved 0 end%nat;
     read := fun k => match k with O => Moved 10 | _ => Moved 0 end; write := fun _ => Moved 1 |}.

Lemma copy_complete_witness : match copy_contents example_copy 10 true true with
  | Ret (n, _, _) => n = 10 | Die code _ => code = EX_IOERR | _ => False end.
Proof.
  assert (Hend : forall k, total (sendfile example_copy) (4 + k) = 10).
  { induction k as [|k IH]; [reflexivity|]. rewrite Nat.add_succ_r. cbn [total]. rewrite IH. reflexivity. }
  assert (Hend' : forall k, total (read example_copy) (1 + k) = 10).
  { induction k as [|k IH]; [reflexivity|]. rewrite Nat.add_succ_r. cbn [total]. rewrite IH. reflexivity. }
  apply (copy_complete example_copy 10 true true).
  - lia.
  - intros k. exact I.
  - intros k. destruct (decide (k < 4)%nat) as [Hk|Hk].
    + destruct k as [|[|[|[|k]]]]; [vm_compute; split; [split; discriminate|discriminate]..|lia].
    + replace k with (4 + (k - 4))%nat by lia. rewrite Hend. cbn. split; [lia|reflexivity].
  - intros k. destruct k as [|k]; [vm_compute; split; [split; discriminate|discriminate]|].
    change (S k) with (1 + k)%nat. rewrite Hend'. cbn. split; [lia|done].
  - intros k. cbn. lia.
Defined.

(** ** Everything is installed *)

Definition parent (path : string) : string := match strrchr "/" #path with Some (a, _) => str a | None => "" end.

(** A destination whose calls fail only because the file exists or its directory does
    not. [ex] are the paths that exist, with the directory they are in. *)
Class DestLaws (fs : Type) `{Dest fs} := {
  ex : string -> fs -> Prop;
  creates (p : string) (d : fs) (r : Z * fs) : Prop :=
    (forall x, ex x d -> ex x r.2) /\
    ((r.1 = 0 \/ r.1 = EEXIST) /\ ex p r.2 \/ r.1 = ENOENT /\ ~ ex (parent p) d);
  mkdir_creates p m d : creates p d (mkdir p m d);
  mknod_creates p m n d : creates p d (mknod p m n d);
  symlink_creates t p d : creates p d (make_symlink t p d);
  mkfifo_creates p m d : creates p d (mkfifo p m d);
  creat_creates p m d : (creat p m d).1 <> EEXIST /\ creates p d (creat p m d);
  fill_ex p x n d y : ex y d -> ex y (fill p x n d);
  access_ex p d : access p d = true -> ex p d;
  link_ex t p d : (forall x, ex x d -> ex x (link t p d).2) /\
    (((link t p d).1 = 0 \/ (link t p d).1 = EEXIST) /\ ex p (link t p d).2 \/
     link_fallback (link t p d).1 = true \/
     (link t p d).1 = ENOENT /\ (~ ex t d \/ ~ ex (parent p) d));
}.

(** A file of a known type that can be read, and whose path fits. Sockets are left
    out: bind does not say EEXIST of a path that exists. *)
Definition installable (h : host) (src : sources) (p : string) (f : file) : Prop :=
  installed f = false /\ lenZ #(dst f) < PATH_MAX + 1 - lenZ #(destdir h) /\
  (is_type S_IFLNK (f_stat f) = true -> symlink f <> None) /\
  is_type S_IFSOCK (f_stat f) = false /\
  (is_type S_IFDIR (f_stat f) || is_special (f_stat f) || is_type S_IFLNK (f_stat f) || is_type S_IFIFO (f_stat f) = false ->
     is_type S_IFREG (f_stat f) = true /\ open_src src p = true /\
     forall cfr sf, exists r, copy_contents (transfers src p) (st_size (f_stat f)) cfr sf = Ret r).

Section Complete.
Context {fs : Type} `{DestLaws fs}.
Variables (h : host) (src : sources) (c : collector) (order : nat -> list string -> list string) (t0 : gmap string file) (d0 : fs).

Definition all : list string := dirs c ++ non_dirs c ++ hardlinks c.
Definition path_in (p : string) : string := str (#(destdir h) ++ #(dst_of t0 p)).

Definition targets_in (f : file) : Prop := match hardlink_target f with Some t => t ∈ all | None => True end.
Record setting : Prop := {
  se_force : force h = false;
  se_destdir : exists r, #(destdir h) = "/"%char :: r;
  se_order n l : order n l ≡ₚ l;
  se_files p : p ∈ all -> exists f, t0 !! p = Some f /\ installable h src p f /\ targets_in f;
  se_parent p : p ∈ all -> ex (parent (path_in p)) d0 \/ exists p', p' ∈ dirs c /\ path_in p' = parent (path_in p);
  se_sorted l1 p l2 p' : dirs c = l1 ++ p :: l2 -> p' ∈ dirs c -> lenZ #(dst_of t0 p') < lenZ #(dst_of t0 p) -> p' ∈ l1;
}.

Hypothesis Hset : setting.

(** The files of [I] are installed. *)
Record at_set (I : gset string) (s : ist fs) : Prop := {
  at_tab p : tab s !! p = (fun f => if decide (p ∈ I) then set_installed f else f) <$> t0 !! p;
  at_nr : installed_nr s = u64 (Z.of_nat (size I));
  at_all p : p ∈ I -> p ∈ all;
  at_ex p : p ∈ I -> ex (path_in p) (dfs s);
  at_mono x : ex x d0 -> ex x (dfs s);
}.

(** An attempt to install [p]: it succeeds, or its directory is missing. *)
Definition attempt (I : gset string) (p : string) (s : ist fs) (o : out (ist fs)) : Prop :=
  exists s', o = Ret s' /\ (forall x, ex x (dfs s) -> ex x (dfs s')) /\
    (at_set ({[ p ]} ∪ I) s' \/ at_set I s' /\ ~ ex (parent (path_in p)) (dfs s)).

Lemma at_load I s p : at_set I s -> p ∈ all -> exists f0, t0 !! p = Some f0 /\ installable h src p f0 /\ targets_in f0 /\ dst_of t0 p = dst f0 /\
  load_file p s = Ret (if decide (p ∈ I) then set_installed f0 else f0).
Proof.
  intros A Hp. destruct (se_files Hset p Hp) as (f0 & Hf & Hi & Ht). exists f0. split_and!; [done|done|done| |].
  - unfold dst_of. by rewrite Hf.
  - unfold load_file. rewrite (at_tab _ _ A), Hf. done.
Qed.

Lemma at_step I s d : at_set I s -> (forall x, ex x (dfs s) -> ex x d) -> at_set I (with_fs d s).
Proof. intros [A1 A2 A3 A4 A5] Hm. split; cbn; auto. Qed.

Lemma at_done I s p : at_set I s -> p ∈ all -> p ∉ I -> ex (path_in p) (dfs s) -> at_set ({[ p ]} ∪ I) (done_file p s).
Proof.
  intros [A1 A2 A3 A4 A5] Hp Hn He. split; cbn.
  - intros x. destruct (decide (p = x)) as [->|Hx].
    + rewrite lookup_alter_eq, A1. destruct (t0 !! x); [|done]. cbn. rewrite decide_False by done.
      rewrite decide_True by set_solver. done.
    + rewrite lookup_alter_ne, A1 by done. destruct (t0 !! x); [|done]. cbn.
      destruct (decide (x ∈ I)); [rewrite decide_True by set_solver; done|rewrite decide_False by set_solver; done].
  - rewrite A2, u64_add. f_equal. rewrite size_union by set_solver. rewrite size_singleton. lia.
  - intros x [->%elem_of_singleton|Hx]%elem_of_union; auto.
  - intros x [->%elem_of_singleton|Hx]%elem_of_union; auto.
  - done.
Qed.

Lemma attempt_created I s p r : at_set I s -> p ∈ all -> p ∉ I -> creates (path_in p) (dfs s) r -> attempt I p s (created p r s).
Proof.
  intros A Hp Hn [Hm Hr]. unfold created. destruct r as [e d]. cbn [fst snd] in *. destruct Hr as [[He Hex]|[-> Hno]].
  - replace ((e =? 0) || (e =? EEXIST)) with true by (symmetry; apply orb_true_iff; rewrite !Z.eqb_eq; done).
    eexists. split; [done|]. split; [done|]. left. apply at_done; try done. by apply at_step.
  - cbn. eexists. split; [done|]. split; [done|]. right. split; [|done]. by apply at_step.
Qed.

Lemma attempt_already I s p : at_set I s -> p ∈ I -> attempt I p s (Ret s).
Proof.
  intros A Hp. exists s. split; [done|]. split; [done|]. left. replace ({[ p ]} ∪ I) with I by set_solver. done.
Qed.

Lemma attempt_regular I s p f : at_set I s -> p ∈ all -> p ∉ I -> open_src src p = true ->
  (forall cfr sf, exists r, copy_contents (transfers src p) (st_size (f_stat f)) cfr sf = Ret r) ->
  attempt I p s (install_regular src p (path_in p) f s).
Proof.
  intros A Hp Hn Ho Hc. unfold install_regular. destruct (access (path_in p) (dfs s)) eqn:Ea.
  { eexists. split; [done|]. split; [done|]. left. apply at_done; try done. by apply access_ex. }
  rewrite Ho. cbn [negb]. destruct (creat_creates (path_in p) (st_mode (f_stat f)) (dfs s)) as [Hne [Hm Hr]].
  destruct (creat (path_in p) (st_mode (f_stat f)) (dfs s)) as [e d]. cbn [fst snd] in *.
  destruct Hr as [[[->|He] Hex]|[-> Hno]]; [|done|].
  - cbn. destruct (Hc (use_copy_file_range s) (use_sendfile s)) as [[[n cf] sf] ->]. cbn [obind].
    eexists. split; [done|]. split; [intros x Hx; by apply fill_ex, Hm|]. left.
    apply at_done; try done; [|by apply fill_ex]. destruct A as [A1 A2 A3 A4 A5]. split; cbn; try done; intros x Hx; by apply fill_ex, Hm; auto.
  - cbn. eexists. split; [done|]. split; [done|]. right. split; [|done]. by apply at_step.
Qed.

Lemma attempt_file I s p : at_set I s -> p ∈ all -> attempt I p s (install_file h src p s).
Proof.
  intros A Hp. destruct (at_load I s p A Hp) as (f & Hf & (Hi & Hlen & Hsl & Hsock & Hty) & _ & Hdst & Hload).
  unfold install_file. rewrite Hload. cbn [obind].
  destruct (decide (p ∈ I)) as [HpI|HpI]; [by apply attempt_already|]. rewrite Hi.
  unfold install_path. rewrite Z.geb_leb, (proj2 (Z.leb_gt _ _)) by done. rewrite <- Hdst. fold (path_in p). cbn [obind].
  rewrite (se_force Hset). cbn [andb obind].
  destruct (is_type S_IFDIR (f_stat f)); [apply attempt_created; try done; apply mkdir_creates|].
  destruct (is_special (f_stat f)); [apply attempt_created; try done; apply mknod_creates|].
  destruct (is_type S_IFLNK (f_stat f)).
  { destruct (symlink f) as [t|]; [|by specialize (Hsl eq_refl)]. apply attempt_created; try done. apply symlink_creates. }
  destruct (is_type S_IFIFO (f_stat f)); [apply attempt_created; try done; apply mkfifo_creates|].
  rewrite Hsock.
  destruct (Hty eq_refl) as (Hr & Ho & Hc). rewrite Hr. cbn [negb]. by apply attempt_regular.
Qed.

(** link waits for nothing: the directory has to be there. *)
Lemma install_hardlink_ok I s p : at_set I s -> p ∈ all -> ex (parent (path_in p)) (dfs s) ->
  attempt I p s (install_hardlink h src p s).
Proof.
  intros A Hp Hpar. pose proof (attempt_file I s p A Hp) as Hfile.
  destruct (at_load I s p A Hp) as (f & Hf & (Hi & Hlen & _) & Ht & Hdst & Hload).
  unfold install_hardlink. rewrite Hload. cbn [obind].
  destruct (decide (p ∈ I)) as [HpI|HpI]; [by apply attempt_already|]. rewrite Hi.
  unfold targets_in in Ht. destruct (hardlink_target f) as [t|]; [|done].
  destruct (at_load I s t A Ht) as (g & Hg & (Hgi & Hglen & _) & _ & Hgdst & ->). cbn [obind].
  destruct (decide (t ∈ I)) as [HtI|HtI]; cbn [set_installed installed negb]; [|rewrite Hgi; done].
  unfold install_path. cbn [set_installed dst]. rewrite !Z.geb_leb, !(proj2 (Z.leb_gt _ _)) by done. rewrite <- Hdst, <- Hgdst.
  fold (path_in p) (path_in t). cbn [obind]. destruct (decide (path_in p = path_in t)) as [Heq|Hne].
  { eexists. split; [done|]. split; [done|]. left. apply at_done; try done. rewrite Heq. by apply (at_ex _ _ A). }
  rewrite (se_force Hset). cbn [obind]. destruct (link_ex (path_in t) (path_in p) (dfs s)) as [Hm Hr].
  destruct (link (path_in t) (path_in p) (dfs s)) as [e d]. cbn [fst snd] in *.
  destruct Hr as [[He Hex]|[Hfb|[_ [Hno|Hno]]]]; [| |exfalso; apply Hno; by apply (at_ex _ _ A)|done].
  - replace ((e =? 0) || (e =? EEXIST)) with true by (symmetry; apply orb_true_iff; rewrite !Z.eqb_eq; done).
    eexists. split; [done|]. split; [done|]. left. apply at_done; try done. by apply at_step.
  - destruct ((e =? 0) || (e =? EEXIST)) eqn:Ee; [unbool; subst e; done|]. rewrite Hfb.
    destruct (attempt_file I (with_fs d s) p (at_step I s d A Hm) Hp) as (s' & E & Hm' & Hs'). exists s'. split; [done|].
    split; [intros x Hx; apply Hm'; by apply Hm|]. destruct Hs' as [?|[? Hno]]; [by left|]. right. split; [done|].
    intros Hx. apply Hno. cbn. by apply Hm.
Qed.

Lemma parent_shorter p : (length #(parent (path_in p)) < length #(path_in p))%nat.
Proof.
  destruct (se_destdir Hset) as [r Hr]. unfold parent.
  destruct (strrchr "/" #(path_in p)) as [[a b]|] eqn:E.
  - unfold strrchr in E. destruct (strchr "/" (rev #(path_in p))) as [[x y]|] eqn:Es; [|done]. injection E as <- <-.
    rewrite list_str. assert (Hlen : length (rev #(path_in p)) = (length x + S (length y))%nat).
    { clear -Es. revert x y Es. induction (rev #(path_in p)) as [|ch l IH]; intros x y Es; cbn in Es; [done|].
      destruct (decide _); [by injection Es as <- <-|]. destruct (strchr "/" l) as [[u v]|]; [|done]. injection Es as <- <-.
      cbn. by rewrite (IH u v eq_refl). }
    rewrite length_rev in *. lia.
  - unfold path_in. rewrite list_str, Hr. cbn. lia.
Qed.

(** The directory of [p] is there once the directories of the tree in front of it are. *)
Lemma parent_there I s p : at_set I s -> p ∈ all -> (forall p', p' ∈ dirs c -> lenZ #(dst_of t0 p') < lenZ #(dst_of t0 p) -> p' ∈ I) ->
  ex (parent (path_in p)) (dfs s).
Proof.
  intros A Hp Hdirs. destruct (se_parent Hset p Hp) as [Hex|(p' & Hp' & Heq)]; [by apply (at_mono _ _ A)|].
  rewrite <- Heq. apply (at_ex _ _ A), Hdirs; [done|]. pose proof (parent_shorter p) as Hlen. rewrite <- Heq in Hlen.
  unfold path_in in Hlen. rewrite !list_str, !length_app in Hlen. unfold lenZ. lia.
Qed.

(** All files of a list are installed if the directory of each is there in its turn. *)
Lemma each_ok f l : (forall I s p, at_set I s -> p ∈ all -> ex (parent (path_in p)) (dfs s) -> attempt I p s (f p s)) ->
  forall I s, at_set I s -> (forall p, p ∈ l -> p ∈ all) ->
  (forall l1 p l2, l = l1 ++ p :: l2 -> forall p', p' ∈ dirs c -> lenZ #(dst_of t0 p') < lenZ #(dst_of t0 p) -> p' ∈ I \/ p' ∈ l1) ->
  exists I' s', each f l s = Ret s' /\ at_set I' s' /\ I ⊆ I' /\ forall p, p ∈ l -> p ∈ I'.
Proof.
  intros Hf. induction l as [|p l IH]; intros I s A Hl Hpar.
  { exists I, s. split_and!; try done. intros p Hp. by apply not_elem_of_nil in Hp. }
  assert (Hp : p ∈ all) by (apply Hl; by left).
  assert (Hex : ex (parent (path_in p)) (dfs s)).
  { apply (parent_there I); [done|done|]. intros p' Hp' Hlt.
    destruct (Hpar [] p l eq_refl p' Hp' Hlt) as [|Hn]; [done|by apply not_elem_of_nil in Hn]. }
  destruct (Hf I s p A Hp Hex) as (s1 & E1 & Hm1 & [A1|[_ Hno]]); [|done]. cbn. rewrite E1. cbn [obind].
  destruct (IH ({[ p ]} ∪ I) s1 A1) as (I2 & s2 & E2 & A2 & Hsub & Hin).
  - intros x Hx. apply Hl. by right.
  - intros l1 x l2 -> p' Hp' Hlt. destruct (Hpar (p :: l1) x l2 eq_refl p' Hp' Hlt) as [?|[->|?]%elem_of_cons]; set_solver.
  - exists I2, s2. split_and!; [done|done|set_solver|]. intros x [->|Hx]%elem_of_cons; [set_solver|by apply Hin].
Qed.

(** One pass installs everything. *)
Lemma round_ok n I s : at_set I s -> exists s', install_round h src c (order n) s = Ret s' /\ at_set (list_to_set all) s'.
Proof.
  intros A. unfold install_round.
  assert (Hord : forall p, p ∈ order n (non_dirs c) <-> p ∈ non_dirs c) by (intros p; by rewrite (se_order Hset)).
  destruct (each_ok (install_file h src) (dirs c)) with (I := I) (s := s) as (I1 & s1 & -> & A1 & S1 & N1).
  { intros J u p HJ Hp _. by apply attempt_file. } { done. } { intros p Hp. apply elem_of_app. by left. }
  { intros l1 p l2 E p' Hp' Hlt. right. by eapply (se_sorted Hset). }
  destruct (each_ok (install_file h src) (order n (non_dirs c))) with (I := I1) (s := s1) as (I2 & s2 & E2 & A2 & S2 & N2).
  { intros J u p HJ Hp _. by apply attempt_file. } { done. } { intros p Hp. apply Hord in Hp. unfold all. rewrite !elem_of_app. tauto. }
  { intros l1 p l2 _ p' Hp' _. left. by apply N1. }
  destruct (each_ok (install_hardlink h src) (hardlinks c)) with (I := I2) (s := s2) as (I3 & s3 & E3 & A3 & S3 & N3).
  { intros J u p HJ Hp Hex. by apply install_hardlink_ok. } { done. } { intros p Hp. unfold all. rewrite !elem_of_app. tauto. }
  { intros l1 p l2 _ p' Hp' _. left. by apply S2, N1. }
  exists s3. cbn [obind]. rewrite E2. cbn [obind]. split; [done|]. replace (list_to_set all) with I3; [done|].
  apply set_eq. intros p. rewrite elem_of_list_to_set. split; [apply (at_all _ _ A3)|].
  unfold all. rewrite !elem_of_app. intros [Hp|[Hp|Hp]]; [by apply S3, S2, N1|by apply S3, N2, Hord|by apply N3].
Qed.

(** The second pass finds nothing to do. *)
Lemma loop_ok fuel I s : at_set I s -> (1 < fuel)%nat ->
  exists s', install_loop h src fuel c order s = Ret s' /\ at_set (list_to_set all) s'.
Proof.
  intros A Hfuel. destruct fuel as [|[|fuel]]; [lia|lia|]. cbn [install_loop].
  destruct (round_ok (S fuel) I s A) as (s1 & -> & A1). cbn [obind]. destruct (_ =? _); [by exists s1|].
  destruct (round_ok fuel _ s1 A1) as (s2 & -> & A2). cbn [obind].
  rewrite (at_nr _ _ A2), (at_nr _ _ A1), Z.eqb_refl. by exists s2.
Qed.
End Complete.

(** ** The files of the tree are sorted into the three lists *)

(** The same structure but for the target of a hard link. *)
Definition same_file (f g : file) : Prop :=
  f_stat g = f_stat f /\ dst g = dst f /\ symlink g = symlink f /\ installed g = installed f.

Record classified (l : list string) (t : gmap string file) (x : collector * gmap string file) : Prop := {
  cl_perm : all x.1 ≡ₚ l;
  cl_same p f : t !! p = Some f -> exists g, x.2 !! p = Some g /\ same_file f g;
  cl_target p g t' : x.2 !! p = Some g -> hardlink_target g = Some t' ->
    t' ∈ l \/ exists f, t !! p = Some f /\ hardlink_target f = Some t';
  cl_seen k p : seen x.1 !! k = Some p -> p ∈ l;
  cl_dirs p f : p ∈ l -> t !! p = Some f -> is_type S_IFDIR (f_stat f) = true -> p ∈ dirs x.1;
}.

Lemma classify_one t l x p : classified l t x -> is_Some (t !! p) ->
  exists x', classify_file p x = Ret x' /\ classified (l ++ [p]) t x'.
Proof.
  intros [C1 C2 C3 C4 C5] [f Hf]. destruct x as [c t']. cbn [fst snd] in *. destruct (C2 p f Hf) as (g & Hg & Hs).
  unfold classify_file. rewrite Hg. unfold all in C1.
  assert (Hdirs : forall l' : list string, (is_type S_IFDIR (f_stat g) = true -> p ∈ l') -> (forall y, y ∈ dirs c -> y ∈ l') ->
    forall y f', y ∈ l ++ [p] -> t !! y = Some f' -> is_type S_IFDIR (f_stat f') = true -> y ∈ l').
  { intros l' Hl1 Hl2 y f' [Hy|Hy%list_elem_of_singleton]%elem_of_app Hyf Hd; [apply Hl2; by eapply C5|]. subst y. apply Hl1.
    assert (f' = f) as -> by congruence. destruct Hs as [-> _]. done. }
  assert (Hrest : forall c' : collector, all c' ≡ₚ l ++ [p] -> (forall k y, seen c' !! k = Some y -> y ∈ l ++ [p]) ->
    (is_type S_IFDIR (f_stat g) = true -> p ∈ dirs c') -> (forall y, y ∈ dirs c -> y ∈ dirs c') -> classified (l ++ [p]) t (c', t')).
  { intros c' Hp Hseen Hd1 Hd2. split; cbn [fst snd]; try done; [|by apply Hdirs]. intros y g' t1 Hy Ht1. destruct (C3 y g' t1 Hy Ht1) as [?|?]; [left; set_solver|by right]. }
  destruct (is_type S_IFDIR (f_stat g)).
  { eexists. split; [done|]. apply Hrest; [|intros k y Hy; apply elem_of_app; left; by eapply C4|cbn; set_solver|cbn; set_solver].
    unfold all. cbn. rewrite <- C1. solve_Permutation. }
  destruct (is_type S_IFREG (f_stat g) && (st_nlink (f_stat g) >? 1)).
  2: { eexists. split; [done|]. apply Hrest; [|intros k y Hy; apply elem_of_app; left; by eapply C4|done|done].
    unfold all. cbn. rewrite <- C1. solve_Permutation. }
  destruct (seen c !! (st_dev (f_stat g), st_ino (f_stat g))) as [orig|] eqn:Eo.
  - eexists. split; [done|]. split; cbn [fst snd seen].
    + unfold all. cbn. rewrite <- C1. solve_Permutation.
    + intros y f' Hy. destruct (decide (p = y)) as [->|Hne].
      * rewrite lookup_insert_eq. eexists. split; [done|]. assert (f' = f) as -> by congruence. exact Hs.
      * rewrite lookup_insert_ne by done. by apply C2.
    + intros y g' t1 Hy Ht1. destruct (decide (p = y)) as [->|Hne].
      * rewrite lookup_insert_eq in Hy. injection Hy as <-. cbn in Ht1. injection Ht1 as <-. left. apply elem_of_app. left. by eapply C4.
      * rewrite lookup_insert_ne in Hy by done. destruct (C3 y g' t1 Hy Ht1) as [?|?]; [left; set_solver|by right].
    + intros k y Hy. apply elem_of_app. left. by eapply C4.
    + by apply Hdirs.
  - eexists. split; [done|]. apply Hrest; [| |done|done].
    + unfold all. cbn. rewrite <- C1. solve_Permutation.
    + cbn. intros k y Hy. destruct (decide ((st_dev (f_stat g), st_ino (f_stat g)) = k)) as [<-|Hne].
      * rewrite lookup_insert_eq in Hy. injection Hy as <-. set_solver.
      * rewrite lookup_insert_ne in Hy by done. apply elem_of_app. left. by eapply C4.
Qed.

Lemma classify_all t l : forall done_l x, classified done_l t x -> (forall p, p ∈ l -> is_Some (t !! p)) ->
  exists x', walk_tree classify_file l x = Ret x' /\ classified (done_l ++ l) t x'.
Proof.
  induction l as [|p l IH]; intros dl x C Hl; [exists x; by rewrite app_nil_r|]. cbn.
  destruct (classify_one t dl x p C) as (x1 & -> & C1); [apply Hl; by left|]. cbn [obind].
  destruct (IH (dl ++ [p]) x1 C1) as (x2 & -> & C2); [intros; apply Hl; by right|]. exists x2. split; [done|].
  by rewrite <- app_assoc in C2.
Qed.

Lemma insert_dir_perm t x l : insert_dir t x l ≡ₚ x :: l.
Proof.
  induction l as [|y l IH]; [done|]. cbn. destruct (compare_dir_order t x y); [done|]. rewrite IH. apply Permutation_swap.
Qed.

Lemma sort_dirs_perm t l : sort_dirs t l ≡ₚ l.
Proof. induction l as [|x l IH]; [done|]. unfold sort_dirs in *. cbn. by rewrite insert_dir_perm, IH. Qed.

Lemma compare_dir_order_le t x y : if compare_dir_order t x y then lenZ #(dst_of t x) <= lenZ #(dst_of t y) else lenZ #(dst_of t y) <= lenZ #(dst_of t x).
Proof.
  unfold compare_dir_order. destruct (_ =? _) eqn:E; unbool; [destruct (strcmp_le _ _); lia|]. destruct (_ <? _) eqn:F; unbool; lia.
Qed.

Definition shorter (t : gmap string file) (x y : string) : Prop := lenZ #(dst_of t x) <= lenZ #(dst_of t y).

Lemma insert_dir_sorted t x l : StronglySorted (shorter t) l -> StronglySorted (shorter t) (insert_dir t x l).
Proof.
  induction 1 as [|y l Hs IH Hy]; cbn; [repeat constructor|]. pose proof (compare_dir_order_le t x y) as Hxy.
  destruct (compare_dir_order t x y).
  - constructor; [by constructor|]. constructor; [done|]. eapply list.Forall_impl; [exact Hy|]. unfold shorter. intros z Hz. lia.
  - constructor; [done|]. rewrite insert_dir_perm. by constructor.
Qed.

Lemma sort_dirs_sorted t l : StronglySorted (shorter t) (sort_dirs t l).
Proof. induction l as [|x l IH]; [constructor|]. by apply insert_dir_sorted. Qed.

(** A directory with a shorter path comes first. *)
Lemma sort_dirs_first t l l1 p l2 p' : sort_dirs t l = l1 ++ p :: l2 -> p' ∈ sort_dirs t l ->
  lenZ #(dst_of t p') < lenZ #(dst_of t p) -> p' ∈ l1.
Proof.
  intros E Hp' Hlt. pose proof (sort_dirs_sorted t l) as Hs. rewrite E in Hs, Hp'.
  apply elem_of_app in Hp' as [?|[->|Hp']%elem_of_cons]; [done|lia|]. exfalso. clear E.
  induction l1 as [|y l1 IH]; cbn in Hs; apply StronglySorted_inv in Hs as [Hs Hy]; [|by apply IH].
  rewrite list.Forall_forall in Hy. specialize (Hy p' Hp'). unfold shorter in Hy. lia.
Qed.

Lemma insert_sorted_perm x l : insert_sorted x l ≡ₚ x :: l.
Proof.
  induction l as [|y l IH]; [done|]. cbn. destruct (strcmp_le #x #y); [done|]. rewrite IH. apply Permutation_swap.
Qed.

Lemma tree_order_perm q : tree_order q ≡ₚ elements (files q).
Proof. unfold tree_order. induction (elements (files q)) as [|x l IH]; [done|]. cbn. by rewrite insert_sorted_perm, IH. Qed.

(** Every file of the tree is created, in whatever order the threads come to
    them, if none is a socket, its directory is in the destination or a directory of
    the tree, and the calls fail only because a directory is missing or the file
    exists: the first pass creates all of them, directories in front of what they
    contain, the second one finds nothing to do and the program goes on to the
    permissions without the report of files that could not be created. *)
Theorem install_complete {fs} `{DestLaws fs} h src order q (d : fs) fuel :
  force h = false -> (exists r, #(destdir h) = "/"%char :: r) -> (forall n l, order n l ≡ₚ l) ->
  (forall p, p ∈ files q -> exists f, heap q !! p = Some f /\ installable h src p f /\ hardlink_target f = None) ->
  (forall p, p ∈ files q -> ex (parent (path_in h (heap q) p)) d \/
     exists p' f', p' ∈ files q /\ heap q !! p' = Some f' /\ is_type S_IFDIR (f_stat f') = true /\
       path_in h (heap q) p' = parent (path_in h (heap q) p)) ->
  tree_files_nr q = u64 (Z.of_nat (size (files q))) -> (1 < fuel)%nat ->
  exists c s, all c ≡ₚ elements (files q) /\
    (forall p, p ∈ files q -> ex (path_in h (heap q) p) (dfs s) /\ exists f, tab s !! p = Some f /\ installed f = true /\
       forall f0, heap q !! p = Some f0 -> f_stat f = f_stat f0 /\ dst f = dst f0 /\ symlink f = symlink f0) /\
    (forall x, ex x d -> ex x (dfs s)) /\
    install_all h src fuel order q d =
      let! s := each (apply_permissions h) (non_dirs c) s in
      let! s := each (apply_permissions h) (hardlinks c) s in
      each (apply_permissions h) (rev (dirs c)) s.
Proof.
  intros Hforce Hdest Hord Hfiles Hpar Hnr Hfuel. unfold install_all, install_files.
  assert (Hin : forall p, p ∈ tree_order q <-> p ∈ files q) by (intros p; by rewrite tree_order_perm, elem_of_elements).
  destruct (classify_all (heap q) (tree_order q) [] ({| dirs := []; non_dirs := []; hardlinks := []; seen := ∅ |}, heap q))
    as ([c t] & -> & [C1 C2 C3 _ C5]).
  { split; cbn; try done.
    - intros p f Hf. by exists f.
    - intros p g t' Hg Ht. right. by exists g. }
  { intros p Hp. apply Hin in Hp. destruct (Hfiles p Hp) as (f & -> & _). done. }
  cbn [obind fst snd app] in *.
  set (c' := {| dirs := sort_dirs t (dirs c); non_dirs := non_dirs c; hardlinks := hardlinks c; seen := seen c |}).
  assert (Hall : all c' ≡ₚ elements (files q)).
  { rewrite <- tree_order_perm, <- C1. unfold all, c'. cbn. by rewrite sort_dirs_perm. }
  assert (Hmem : forall p, p ∈ all c' <-> p ∈ files q) by (intros p; by rewrite Hall, elem_of_elements).
  assert (Hdst : forall p, p ∈ files q -> path_in h t p = path_in h (heap q) p).
  { intros p Hp. destruct (Hfiles p Hp) as (f & Hf & _). destruct (C2 p f Hf) as (g & Hg & _ & Hd & _).
    unfold path_in, dst_of. by rewrite Hf, Hg, Hd. }
  assert (Hsetting : setting h src c' order t d).
  { split; try done.
    - intros p Hp. apply Hmem in Hp. destruct (Hfiles p Hp) as (f & Hf & (I1 & I2 & I3 & I4) & Ht).
      destruct (C2 p f Hf) as (g & Hg & S1 & S2 & S3 & S4). exists g. split; [done|]. split.
      + unfold installable. rewrite S1, S2, S3, S4. done.
      + unfold targets_in. destruct (hardlink_target g) as [t'|] eqn:Eg; [|done]. apply Hmem.
        destruct (C3 p g t' Hg Eg) as [Ht'|(f' & Hf' & Ht')]; [by apply Hin|congruence].
    - intros p Hp. apply Hmem in Hp. rewrite Hdst by done. destruct (Hpar p Hp) as [?|(p' & f' & Hp' & Hf' & Hd & Heq)]; [by left|]. right.
      exists p'. split; [|by rewrite Hdst]. cbn. rewrite sort_dirs_perm. eapply C5; [by apply Hin|done|done].
    - intros l1 p l2 p'. apply sort_dirs_first. }
  destruct (loop_ok h src c' order t d Hsetting fuel ∅ {| dfs := d; tab := t; installed_nr := 0; use_copy_file_range := true; use_sendfile := true |})
    as (s & E & A); [|done|].
  { split; cbn; try done.
    - intros p. destruct (t !! p); cbn; [by rewrite decide_False by set_solver|done]. }
  exists c', s. split; [done|]. rewrite E. cbn [obind]. split; [|split; [apply (at_mono _ _ _ _ _ _ A)|]].
  - intros p Hp. assert (HpI : p ∈ (list_to_set (all c') : gset string)) by (by apply elem_of_list_to_set, Hmem). rewrite <- Hdst by done. split; [by apply (at_ex _ _ _ _ _ _ A)|].
    destruct (Hfiles p Hp) as (f & Hf & _). destruct (C2 p f Hf) as (g & Hg & S1 & S2 & S3 & _).
    exists (set_installed g). rewrite (at_tab _ _ _ _ _ _ A), Hg. cbn. rewrite decide_True by done. split_and!; [done|done|].
    intros f0 Hf0. assert (f0 = f) as -> by congruence. done.
  - assert (list_to_set (all c') = files q) as HIq by (apply set_eq; intros p; by rewrite elem_of_list_to_set).
    rewrite (at_nr _ _ _ _ _ _ A), HIq, Hnr. rewrite Z.gtb_ltb, Z.ltb_irrefl. done.
Qed.

(** ** The search of a thread *)

Section Search.
Context {fs : Type} `{Dest fs}.
Variables (h : host) (src : sources).

(** What next_candidate passes over is installed, so that another attempt does nothing. *)
Lemma next_candidate_spec rest idx (s : ist fs) :
  exists skipped, each (install_file h src) skipped s = Ret s /\
    match next_candidate rest idx s with
    | Ret (Some p, i) => exists rest', rest = skipped ++ p :: rest' /\ i = (idx + S (length skipped))%nat
    | Ret (None, i) => rest = skipped /\ i = (idx + length skipped)%nat
    | o => exists p rest', rest = skipped ++ p :: rest' /\ load_file p s = Undef /\ o = Undef
    end.
Proof.
  revert idx. induction rest as [|p rest IH]; intros idx; [exists []; cbn; split; [done|]; split; [done|lia]|]. cbn.
  destruct (load_file p s) as [f| | |] eqn:El; cbn [obind]; try (unfold load_file in El; by destruct (tab s !! p)).
  2: { exists []. split; [done|]. by eexists p, rest. }
  destruct (installed f) eqn:Ei; [|exists []; split; [done|]; exists rest; split; [done|cbn; lia]].
  destruct (IH (S idx)) as (sk & Hs & Hm). exists (p :: sk). split.
  { cbn. unfold install_file at 1. rewrite El. cbn [obind]. by rewrite Ei. }
  destruct (next_candidate rest (S idx) s) as [[[q|] i]| | |].
  - destruct Hm as (r' & -> & ->). exists r'. split; [done|cbn; lia].
  - destruct Hm as (-> & ->). split; [done|cbn; lia].
  - destruct Hm as (q & r' & -> & ? & ?). by eexists q, r'.
  - destruct Hm as (q & r' & -> & ? & ?). by eexists q, r'.
  - destruct Hm as (q & r' & -> & ? & ?). by eexists q, r'.
Qed.

End Search.

(** *** A destination that is a set of paths *)

Definition create_in (p : string) (d : gset string) : Z * gset string :=
  if bool_decide (p ∈ d) then (EEXIST, d) else if bool_decide (parent p ∈ d) then (0, {[ p ]} ∪ d) else (ENOENT, d).

#[local] Instance set_dest : Dest (gset string) := {
  mkdir p _ := create_in p; mknod p _ _ := create_in p; make_symlink _ p := create_in p; mkfifo p _ := create_in p;
  bind := create_in;
  creat p _ d := if bool_decide (p ∈ d) then (0, d) else create_in p d;
  fill _ _ _ d := d; link _ _ d := (EXDEV, d); remove p d := (0, d ∖ {[ p ]});
  access p d := bool_decide (p ∈ d); lchown _ _ _ d := (0, d); chmod _ _ d := (0, d);
}.

Lemma create_in_ok p d : (forall x : string, x ∈ d -> x ∈ (create_in p d).2) /\
  (((create_in p d).1 = 0 \/ (create_in p d).1 = EEXIST) /\ p ∈ (create_in p d).2 \/ (create_in p d).1 = ENOENT /\ ~ parent p ∈ d).
Proof.
  unfold create_in. repeat case_bool_decide; cbn; split; auto; [set_solver|]. left. split; [by left|set_solver].
Qed.

#[local] Instance set_dest_laws : DestLaws (gset string).
Proof.
  refine {| ex p d := p ∈ d |}; try (intros; apply create_in_ok).
  - intros p m d. cbn. destruct (bool_decide (p ∈ d)) eqn:E; unbool; [split; [done|]; cbn; split; [done|left; split; [by left|done]]|].
    split; [|apply create_in_ok]. unfold create_in. rewrite bool_decide_eq_false_2 by done. by destruct (bool_decide _).
  - done.
  - intros p d. cbn. apply bool_decide_eq_true.
  - intros t p d. cbn. split; [done|by right; left].
Defined.

Definition three_bytes : copy_calls :=
  {| copy_file_range := fun _ => Moved 3; sendfile := fun _ => Moved 3; read := fun _ => Moved 3; write := fun _ => Moved 2 |}.

Definition example_file (mode : Z) (d : string) : file :=
  {| prev := None; next := None; dst := d; symlink := None; hardlink_target := None; recursive := false; installed := false;
     f_stat := {| st_mode := mode; st_ino := 1; st_dev := 1; st_rdev := 0; st_nlink := 1; st_size := 3; st_uid := 0; st_gid := 0 |} |}.

Definition example_put : put :=
  {| heap := <["/d"%string := example_file S_IFDIR "/d"]> {[ "/d/f"%string := example_file S_IFREG "/d/f" ]};
     inqueue := None; queued_files := ∅; queue_nr := 0; files := {[ "/d"; "/d/f" ]}%string; tree_files_nr := 2 |}.

Definition example_sources : sources := {| open_src := fun _ => true; transfers := fun _ => three_bytes |}.

Lemma install_complete_witness : exists c s, all c ≡ₚ elements (files example_put) /\
    (forall p, p ∈ files example_put -> path_in small_host (heap example_put) p ∈ dfs s /\
       exists f, tab s !! p = Some f /\ installed f = true /\
         forall f0, heap example_put !! p = Some f0 -> f_stat f = f_stat f0 /\ dst f = dst f0 /\ symlink f = symlink f0) /\
    (forall x, x ∈ ({[ "/out" ]} : gset string)%string -> x ∈ dfs s) /\
    install_all small_host example_sources 2 (fun _ => @rev string) example_put ({[ "/out" ]} : gset string)%string =
      let! s := each (apply_permissions small_host) (non_dirs c) s in
      let! s := each (apply_permissions small_host) (hardlinks c) s in
      each (apply_permissions small_host) (rev (dirs c)) s.
Proof.
  destruct (install_complete small_host example_sources (fun _ => @rev string) example_put ({[ "/out" ]} : gset string)%string 2)
    as (c & s & H1 & H2 & H3 & H4).
  - reflexivity.
  - by eexists.
  - intros n l. symmetry. apply Permutation_rev.
  - intros p Hp. assert (p = "/d" \/ p = "/d/f")%string as [-> | ->] by (cbn in Hp; set_solver).
    + exists (example_file S_IFDIR "/d"). split; [reflexivity|]. split; [|reflexivity]. split_and!; [reflexivity|vm_compute; reflexivity|discriminate|reflexivity|discriminate].
    + exists (example_file S_IFREG "/d/f"). split; [reflexivity|]. split; [|reflexivity]. split_and!; [reflexivity|vm_compute; reflexivity|discriminate|reflexivity|].
      intros _. split_and!; [reflexivity|reflexivity|]. intros [] []; eexists; vm_compute; reflexivity.
  - intros p Hp. assert (p = "/d" \/ p = "/d/f")%string as [-> | ->] by (cbn in Hp; set_solver).
    + left. cbn. apply (bool_decide_unpack _). vm_compute. exact I.
    + right. exists "/d"%string, (example_file S_IFDIR "/d"). split_and!; [cbn; set_solver|reflexivity|reflexivity|vm_compute; reflexivity].
  - vm_compute. reflexivity.
  - lia.
  - exists c, s. split; [exact H1|]. split; [exact H2|]. split; [exact H3|exact H4].
Defined.
