(* ===== verification/PutCli.v ===== *)
(** initrd-put: the command line, the log and main (initrd-put.c).

    The modules before this one are put together in the order of main: options,
    destination, arguments, the loop over the queue, the files, the log, and the
    structures are freed. getopt_long is given by the options it returns; realpath,
    regcomp and fopen of the log are parameters. *)

From Stdlib Require Import ZArith Ascii String Lia.
From stdpp Require Import base list strings gmap sets tactics numbers.
From S2P Require Import Prelude CString PutQueue PutCanon PutDeps PutMain Workers PutInstall.

Open Scope Z_scope.
Open Scope cprog_scope.

Definition EX_USAGE : Z := 64.

(** ** Options *)

Inductive put_opt :=
  | OptE (re : bytes) | OptF | OptJ (n : bytes) | OptL (f : string) | OptN | OptR (p : bytes)
  | OptVerbose | OptVersion | OptHelp | OptUnknown.

Record cli := {
  exclude_match : list (string -> bool);
  o_force : bool;
  jobs : Z;
  logfile : option string;
  dry_run : bool;
  o_prefix : option string;
  verbose : Z;
}.

Definition cli0 : cli :=
  {| exclude_match := []; o_force := false; jobs := 0; logfile := None; dry_run := false; o_prefix := None; verbose := 0 |}.

(** The slashes at the end of the prefix are cut off; one byte stays. *)
Fixpoint strip_rev (r : bytes) : bytes :=
  match r with
  | "/"%char :: ((_ :: _) as r') => strip_rev r'
  | _ => r
  end.
Definition strip_slashes (p : bytes) : bytes := rev (strip_rev (rev p)).

Section Options.
Context (realpath : bytes -> option bytes) (regcomp : bytes -> option (string -> bool)).

Definition put_option (o : put_opt) (c : cli) : out cli :=
  match o with
  | OptE re =>
      if decide (re = []) then Ret c else
      match regcomp re with
      | None => Die EX_USAGE "bad regexp"
      | Some m => Ret {| exclude_match := exclude_match c ++ [m]; o_force := o_force c; jobs := jobs c; logfile := logfile c;
                         dry_run := dry_run c; o_prefix := o_prefix c; verbose := verbose c |}
      end
  | OptF => Ret {| exclude_match := exclude_match c; o_force := true; jobs := jobs c; logfile := logfile c;
                   dry_run := dry_run c; o_prefix := o_prefix c; verbose := verbose c |}
  | OptJ n =>
      if atoi n <? 1 then Die EX_USAGE "invalid number of jobs" else
      Ret {| exclude_match := exclude_match c; o_force := o_force c; jobs := atoi n; logfile := logfile c;
             dry_run := dry_run c; o_prefix := o_prefix c; verbose := verbose c |}
  | OptL f => Ret {| exclude_match := exclude_match c; o_force := o_force c; jobs := jobs c; logfile := Some f;
                     dry_run := dry_run c; o_prefix := o_prefix c; verbose := verbose c |}
  | OptN => Ret {| exclude_match := exclude_match c; o_force := o_force c; jobs := jobs c; logfile := logfile c;
                   dry_run := true; o_prefix := o_prefix c; verbose := verbose c |}
  | OptR p =>
      Ret {| exclude_match := exclude_match c; o_force := o_force c; jobs := jobs c; logfile := logfile c; dry_run := dry_run c;
             o_prefix := Some (str (strip_slashes (default p (realpath p)))); verbose := verbose c |}
  | OptVerbose => Ret {| exclude_match := exclude_match c; o_force := o_force c; jobs := jobs c; logfile := logfile c;
                         dry_run := dry_run c; o_prefix := o_prefix c; verbose := i32 (verbose c + 1) |}
  | OptVersion => Die EXIT_SUCCESS "version"
  | OptHelp => Die EXIT_SUCCESS "help"
  | OptUnknown => Die EX_USAGE "Try --help for more information."
  end.

Fixpoint put_options (os : list put_opt) (c : cli) : out cli :=
  match os with [] => Ret c | o :: os => let! c := put_option o c in put_options os c end.
End Options.

(** ** The log *)

Definition TAB : ascii := "009"%char.
Definition NL : ascii := "010"%char.

Definition type_char (st : stat) : ascii :=
  if is_type S_IFBLK st then "b" else if is_type S_IFCHR st then "c" else if is_type S_IFDIR st then "d"
  else if is_type S_IFIFO st then "p" else if is_type S_IFLNK st then "l" else if is_type S_IFREG st then "f"
  else if is_type S_IFSOCK st then "s" else "?".

Definition print_file (destdir : string) (t : gmap string file) (p : string) (acc : bytes) : out bytes :=
  match t !! p with
  | None => Undef
  | Some f =>
      Ret (acc ++ [type_char (f_stat f); TAB] ++ #p ++ [TAB] ++ #destdir ++ #(dst f) ++ [TAB]
             ++ match symlink f with Some l => #l | None => [] end ++ [NL])
  end.

Definition print_uninstalled_file (destdir : string) (t : gmap string file) (p : string) (acc : bytes) : out bytes :=
  match t !! p with
  | None => Undef
  | Some f => if negb (installed f) then print_file destdir t p acc else Ret acc
  end.

(** The fields of a line. *)
Definition log_entry (destdir : string) (p : string) (f : file) : list bytes :=
  [[type_char (f_stat f)]; #p; #destdir ++ #(dst f); match symlink f with Some l => #l | None => [] end].

Definition log_line (e : list bytes) : bytes :=
  match e with [a; b; c; d] => a ++ [TAB] ++ b ++ [TAB] ++ c ++ [TAB] ++ d ++ [NL] | _ => [] end.

(** ** main *)

Record outcome (fs : Type) := {
  o_stdout : bytes;
  (** What was appended to the log. *)
  o_log : option bytes;
  o_dest : fs;
  (** The structures that are left. *)
  o_left : gmap string file;
}.
Arguments o_stdout {_}. Arguments o_log {_}. Arguments o_dest {_}. Arguments o_left {_}.

Section Main.
Context {fs : Type} `{Dest fs}.
Context (realpath : bytes -> option bytes) (regcomp : bytes -> option (string -> bool)) (fopen_ok : string -> bool).
(** The file system around the program; what the options say is filled in. *)
Context (sys : host) (src : sources).

Definition host_of (c : cli) (dest : bytes) : host :=
  {| exclude := fun s => existsb (fun m => m s) (exclude_match c); calls := calls sys; lstat := lstat sys; fts := fts sys;
     open_file := open_file sys; access_x := access_x sys; elf_of := elf_of sys; ldd_of := ldd_of sys; dl := dl sys;
     prefix := o_prefix c; destdir := str dest; force := o_force c; dest_lstat := dest_lstat sys |}.

(** What is done with the files of the tree: they are listed, or installed. When some
    could not be, these are what main prints before it exits. *)
Definition put_files (fuel : nat) (order : nat -> list string -> list string) (c : cli) (h : host) (q : put) (d : fs)
  : out (bytes * gmap string file * fs) :=
  if dry_run c then
    let! text := walk_tree (print_file (destdir h) (heap q)) (tree_order q) [] in
    Ret (text, heap q, d)
  else
    let! s := install_all h src fuel order q d in
    Ret ([], tab s, dfs s).

Definition put_report (fuel : nat) (order : nat -> list string -> list string) (h : host) (q : put) (d : fs) : out (option bytes) :=
  let! (_, s) := install_files h src fuel order q d in
  if tree_files_nr q >? installed_nr s then
    let! text := walk_tree (print_uninstalled_file (destdir h) (tab s)) (tree_order q) [] in Ret (Some text)
  else Ret None.

Definition put_log (c : cli) (h : host) (q : put) (t : gmap string file) : out (option bytes) :=
  match logfile c with
  | None => Ret None
  | Some f =>
      if negb (fopen_ok f) then Die EX_CANTCREAT "open" else
      let! text := walk_tree (print_file (destdir h) t) (tree_order q) [] in Ret (Some text)
  end.

Definition put_main (fuel : nat) (order : nat -> list string -> list string) (opts : list put_opt) (argv : list bytes) (d : fs)
  : out (outcome fs) :=
  let! c := put_options realpath regcomp opts cli0 in
  match argv with
  | [] => Die EX_USAGE "more arguments required"
  | dest :: args =>
      match realpath dest with
      | None => Die EX_USAGE "bad destination directory"
      | Some dest =>
          if decide (args = []) then Die EX_USAGE "more arguments required" else
          let h := host_of c dest in
          let! q := enqueue_args h args put0 in
          if lenZ dest >=? PATH_MAX + 1 then Die EXIT_FAILURE "destination path too long" else
          let! (_, q) := collect h fuel None (∅, q) in
          let! (text, t, d) := put_files fuel order c h q d in
          let! l := put_log c h q t in
          let! q := tree_destroy q in
          let! q := queue_destroy q in
          Ret {| o_stdout := text; o_log := l; o_dest := d; o_left := heap q |}
      end
  end.
End Main.

(** The file that the last -l names. *)
Definition last_log (opts : list put_opt) : option string :=
  foldl (fun f o => match o with OptL g => Some g | _ => f end) None opts.

Lemma put_options_log realpath regcomp opts c c' : put_options realpath regcomp opts c = Ret c' ->
  logfile c' = foldl (fun f o => match o with OptL g => Some g | _ => f end) (logfile c) opts.
Proof.
  revert c. induction opts as [|o opts IH]; intros c; cbn; [by intros [= ->]|].
  destruct (put_option realpath regcomp o c) as [c1| | |] eqn:E; cbn; try done. intros H. rewrite (IH _ H). f_equal.
  destruct o; cbn in E; repeat case_match; by simplify_eq.
Qed.

Definition file_at (t : gmap string file) (p : string) : file := default file0 (t !! p).

Lemma walk_print dd t l : forall acc text, walk_tree (print_file dd t) l acc = Ret text ->
  text = acc ++ concat (map (fun p => log_line (log_entry dd p (file_at t p))) l) /\ forall p, p ∈ l -> is_Some (t !! p).
Proof.
  induction l as [|p l IH]; intros acc text E; cbn in E; [simplify_eq; cbn; rewrite app_nil_r; split; [done|]; intros p Hp; by apply not_elem_of_nil in Hp|].
  unfold print_file at 1 in E. destruct (t !! p) as [f|] eqn:Ef; cbn [obind] in E; [|done]. apply IH in E as [-> Hl]. split.
  - cbn [map concat]. unfold file_at at 2. rewrite Ef. cbn [default]. rewrite <- app_assoc. f_equal. cbn. by rewrite <- !app_assoc.
  - intros x [->|Hx]%elem_of_cons; [by rewrite Ef|by apply Hl].
Qed.

(** ** The structures are freed once *)

Lemma free_all_ok l : forall q, NoDup l -> (forall p, p ∈ l -> is_Some (heap q !! p)) -> exists q', free_all l q = Ret q' /\
  inqueue q' = inqueue q /\ queued_files q' = queued_files q /\ files q' = files q /\
  forall p, heap q' !! p = if decide (p ∈ l) then None else heap q !! p.
Proof.
  induction l as [|p l IH]; intros q Hn Hl; [exists q; by split_and!|].
  apply list.NoDup_cons in Hn as [Hp Hn]. destruct (Hl p) as [f Hf]; [by left|]. cbn. rewrite (load_some _ _ _ Hf). cbn.
  destruct (IH (free_file p q) Hn) as (q' & E & H1 & H2 & H3 & H4).
  { intros x Hx. cbn. rewrite lookup_delete_ne by (by intros ->). apply Hl. by right. }
  exists q'. split_and!; [done..|]. intros x. rewrite H4. cbn. destruct (decide (x = p)) as [->|Hx].
  - rewrite (decide_True (P := p ∈ p :: l)) by (by left). case_decide; [done|apply lookup_delete_eq].
  - rewrite lookup_delete_ne by done. destruct (decide (x ∈ l)); [rewrite decide_True by (by right)|rewrite decide_False; [|rewrite elem_of_cons; tauto]]; done.
Qed.

Lemma sorted_perm (X : gset string) : foldr insert_sorted [] (elements X) ≡ₚ elements X.
Proof. induction (elements X) as [|x l IH]; [done|]. cbn. by rewrite insert_sorted_perm, IH. Qed.

(** With the queue empty, everything is freed. *)
Lemma destroy_ok q : queue_ok q [] -> heap_ok q -> exists q', (let! q := tree_destroy q in queue_destroy q) = Ret q' /\ heap q' = ∅.
Proof.
  intros Q Hh. unfold tree_destroy. assert (Hq : queued_files q = ∅).
  { apply set_eq. intros p. rewrite (qo_set _ _ Q). set_solver. }
  destruct (free_all_ok (tree_order q) q) as (q1 & -> & H1 & H2 & H3 & H4).
  { rewrite tree_order_perm. apply NoDup_elements. }
  { intros p Hp. rewrite tree_order_perm in Hp. apply (qo_tree _ _ Q). by apply elem_of_elements. }
  cbn [obind]. unfold queue_destroy. cbn [queued_files]. rewrite H2, Hq, elements_empty. cbn. eexists. split; [done|]. cbn.
  apply map_eq. intros p. rewrite H4, lookup_empty. case_decide as Hp; [done|]. rewrite tree_order_perm in Hp.
  destruct (heap q !! p) as [f|] eqn:E; [|done]. destruct (Hh p) as [Hx|Hx]; [by rewrite E|set_solver|]. by rewrite elem_of_elements in Hp.
Qed.

(** ** Everything that is needed is installed *)

Lemma walk_tree_ret {A} (g : string -> A -> out A) l : (forall p a, p ∈ l -> exists b, g p a = Ret b) -> forall a, exists b, walk_tree g l a = Ret b.
Proof.
  intros Hg. induction l as [|p l IH]; intros a; [by exists a|]. cbn. destruct (Hg p a) as [b ->]; [by left|]. cbn. apply IH. intros; apply Hg. by right.
Qed.

Section Complete.
Context {fs : Type} `{DestLaws fs}.
Context (h : host) (src : sources) (cwd : list bytes) (args : list bytes) (U : gset string) (d : fs).

Definition dest_path (p : string) : string := str (#(destdir h) ++ remove_prefix h #p).

(** The fields of the log for a path: the type of the file, the path, the path in the
    destination and, of a link, what it points to. *)
Definition link_field (p : string) : option string :=
  match lstat h p with Some st => if is_type S_IFLNK st then link_text h p else None | None => None end.
Definition log_fields (p : string) : list bytes :=
  [[match lstat h p with Some st => type_char st | None => "?"%char end]; #p; #(dest_path p);
   match link_field p with Some l => #l | None => [] end].

(** What must be in the image: what the arguments stand for, and what a file that is
    neither excluded nor in the destination needs. *)
Inductive needed : string -> Prop :=
  | needed_arg a x : a ∈ args -> reached h cwd a x -> needed x
  | needed_wants p x : needed p -> exclude h p = false -> is_present h p = false -> wants h cwd p x -> needed x.

(** The files can be read, links too; a directory that is missing in the destination is
    one of the files; the owner and the mode can be set. *)
Record ready : Prop := {
  rd_fts p l e : fts h p = Some l -> e ∈ l -> fts_kind e = FTS_OBJECT -> lstat h (fts_path e) = Some (fts_stat e);
  rd_cwd : getcwd (calls h) = Some (path_of cwd) /\ lenZ (path_of cwd) <= RNAME_SIZE - 2 /\ Forall comp_ok cwd;
  rd_universe : universe h cwd args U;
  rd_fine : ~ flaw h cwd args U;
  rd_source p st : p ∈ U -> lstat h p = Some st -> is_type S_IFSOCK st = false /\
    (is_type S_IFLNK st = true -> exists t, read_link (calls h) #p = inl t) /\
    (is_type S_IFDIR st || is_special st || is_type S_IFLNK st || is_type S_IFIFO st = false ->
       is_type S_IFREG st = true /\ open_src src p = true /\ forall cfr sf, exists r, copy_contents (transfers src p) (st_size st) cfr sf = Ret r);
  rd_parent p : p ∈ U -> exclude h p = false -> ex (parent (dest_path p)) d \/
    exists a b st, strrchr "/" #p = Some (a, b) /\ a <> [] /\ prefix h <> Some p /\ exclude h (item_path p (lenZ a)) = false /\
      dest_path (item_path p (lenZ a)) = parent (dest_path p) /\ lstat h (item_path p (lenZ a)) = Some st /\ is_type S_IFDIR st = true;
  rd_present p : is_present h p = true -> ex (dest_path p) d;
  rd_owner p u g (d : fs) : ((lchown p u g d).1 = 0 \/ (lchown p u g d).1 = EPERM) /\ forall x, ex x d -> ex x (lchown p u g d).2;
  rd_mode p m (d : fs) : (chmod p m d).1 = 0 /\ forall x, ex x d -> ex x (chmod p m d).2;
}.

Hypothesis Hr : ready.

Lemma dest_fits p : p ∈ U -> lenZ (remove_prefix h #p) < PATH_MAX + 1 - lenZ #(destdir h).
Proof.
  intros Hp. destruct (Z.lt_ge_cases PATH_MAX (lenZ #(destdir h) + lenZ (remove_prefix h #p))) as [Hl|Hl]; [|lia].
  exfalso. apply (rd_fine Hr). by eapply flaw_long.
Qed.
Context (c : elf_cache) (q : put).
Hypothesis Hi : inv h cwd args U [] [] (c, q).

Lemma tree_structure p : p ∈ files q -> exists f st, heap q !! p = Some f /\ f_stat f = st /\ lstat h p = Some st /\
  dst f = str (remove_prefix h #p) /\ installable h src p f /\ hardlink_target f = None /\ symlink f = link_field p.
Proof.
  intros Hp. destruct (iv_done _ _ _ _ _ _ _ Hi p Hp) as (f & Hf & Hd & Hst & Hl). destruct (iv_files _ _ _ _ _ _ _ Hi p Hp) as [HpU _].
  destruct (iv_stats _ _ _ _ _ _ _ Hi p f Hf) as (_ & Hin & Hh & Hsy). destruct (rd_source Hr p _ HpU Hst) as (R1 & R2 & R3). cbn in Hin, Hh, Hsy.
  exists f, (f_stat f). split_and!; try done.
  - unfold installable. rewrite Hd, list_str. split_and!; try done; [by apply dest_fits|]. intros Hk. by apply Hl, R2.
  - unfold link_field. rewrite Hst. destruct (is_type S_IFLNK (f_stat f)) eqn:El.
    + destruct Hsy as [Hsy|[_ ->]]; [|done]. exfalso. by apply Hl; [|apply R2|].
    + destruct Hsy as [->|[(st & Hst' & Hk) _]]; [done|]. congruence.
Qed.

Lemma path_in_dest p : p ∈ files q -> path_in h (heap q) p = dest_path p.
Proof.
  intros Hp. destruct (tree_structure p Hp) as (f & st & Hf & _ & _ & Hd & _). unfold path_in, dest_path, dst_of. by rewrite Hf, Hd, list_str.
Qed.

Lemma provided_files x : provided h x q -> exclude h x = true \/ x ∈ files q \/ is_present h x = true.
Proof.
  intros [[?|[Hq|?]]|?]; auto. apply (qo_set _ _ (iv_queue _ _ _ _ _ _ _ Hi)) in Hq. by apply not_elem_of_nil in Hq.
Qed.

Lemma needed_provided x : needed x -> exclude h x = true \/ x ∈ files q \/ is_present h x = true.
Proof.
  induction 1 as [a x Ha Hx|p x Hp IH He Hn Hx]; apply provided_files.
  - by eapply (iv_args _ _ _ _ _ _ _ Hi).
  - destruct IH as [?|[Hf|?]]; [congruence| |congruence]. by eapply (iv_closed _ _ _ _ _ _ _ Hi).
Qed.

Lemma tree_parents p : p ∈ files q -> ex (parent (path_in h (heap q) p)) d \/
  exists p' f', p' ∈ files q /\ heap q !! p' = Some f' /\ is_type S_IFDIR (f_stat f') = true /\ path_in h (heap q) p' = parent (path_in h (heap q) p).
Proof.
  intros Hp. rewrite path_in_dest by done. destruct (iv_files _ _ _ _ _ _ _ Hi p Hp) as [HpU He].
  destruct (rd_parent Hr p HpU He) as [?|(a & b & st & Ha & Hne & Hpre & Hex & Hdp & Hst & Hdir)]; [by left|].
  destruct (provided_files (item_path p (lenZ a))) as [?|[Hf|Hpres]]; [|congruence| |].
  - eapply (iv_closed _ _ _ _ _ _ _ Hi); [exact Hp|]. by eapply wants_parent.
  - right. destruct (tree_structure _ Hf) as (f' & st' & Hf' & Hs' & Hl' & _). exists (item_path p (lenZ a)), f'.
    split_and!; [done|done|congruence|]. by rewrite path_in_dest.
  - left. rewrite <- Hdp. by apply (rd_present Hr).
Qed.

Lemma permissions_ok l : forall s : ist fs, (forall p, p ∈ l -> exists f, tab s !! p = Some f /\ lenZ #(dst f) < PATH_MAX + 1 - lenZ #(destdir h)) ->
  exists s', each (apply_permissions h) l s = Ret s' /\ tab s' = tab s /\ forall x, ex x (dfs s) -> ex x (dfs s').
Proof.
  induction l as [|p l IH]; intros s Hl; [exists s; by split_and!|]. cbn [each].
  assert (exists s1, apply_permissions h p s = Ret s1 /\ tab s1 = tab s /\ forall x, ex x (dfs s) -> ex x (dfs s1)) as (s1 & -> & Ht & Hx).
  { destruct (Hl p) as (f & Hf & Hlen); [by left|]. unfold apply_permissions, load_file, install_path. rewrite Hf. cbn [obind].
    destruct (negb (installed f)); [by exists s|]. rewrite Z.geb_leb, (proj2 (Z.leb_gt _ _)) by lia. cbn [obind].
    set (path := str (#(destdir h) ++ #(dst f))).
    destruct (rd_owner Hr path (st_uid (f_stat f)) (st_gid (f_stat f)) (dfs s)) as [Ho Hox]. destruct (lchown path _ _ _) as [e d1]. cbn [fst snd] in *.
    assert (negb (e =? 0) && negb (e =? EPERM) = false) as -> by (destruct Ho as [-> | ->]; done).
    destruct (is_type S_IFLNK (f_stat f)); [eexists; split; [done|]; by split|]. cbn [dfs with_fs].
    destruct (rd_mode Hr path (st_mode (f_stat f)) d1) as [Hm Hmx]. destruct (chmod path _ d1) as [e2 d2]. cbn [fst snd] in *. subst e2.
    cbn [Z.eqb negb]. eexists. split; [done|]. split; [done|]. cbn. auto. }
  cbn [obind]. destruct (IH s1) as (s2 & -> & Ht2 & Hx2); [rewrite Ht; intros; apply Hl; by right|]. exists s2. split_and!; [done|congruence|auto].
Qed.

Lemma install_all_ok fuel order : force h = false -> (exists r, #(destdir h) = "/"%char :: r) -> (forall n l, order n l ≡ₚ l) -> (1 < fuel)%nat ->
  exists s, install_all h src fuel order q d = Ret s /\
    (forall p, p ∈ files q -> ex (dest_path p) (dfs s) /\ exists f, tab s !! p = Some f /\ log_entry (destdir h) p f = log_fields p) /\
    forall x, needed x -> exclude h x = true \/ ex (dest_path x) (dfs s).
Proof.
  intros Hforce Hdest Hord Hfuel.
  destruct (install_complete h src order q d fuel Hforce Hdest Hord) as (co & s & Hall & Hf & Hmono & ->); [| |apply (iv_queue _ _ _ _ _ _ _ Hi)|done|].
  { intros p Hp. destruct (tree_structure p Hp) as (f & st & Hf & _ & _ & _ & Hi1 & Hh & _). by exists f. }
  { apply tree_parents. }
  assert (Hok : forall p, p ∈ files q -> exists f, tab s !! p = Some f /\ lenZ #(dst f) < PATH_MAX + 1 - lenZ #(destdir h)).
  { intros p Hp. destruct (Hf p Hp) as (_ & f & Ht & _ & Hsame). destruct (tree_structure p Hp) as (f0 & st & Hf0 & _ & _ & Hd & _).
    destruct (Hsame f0 Hf0) as (_ & Hd' & _). exists f. split; [done|]. rewrite Hd', Hd, list_str. apply dest_fits. by apply (iv_files _ _ _ _ _ _ _ Hi). }
  assert (Hin : forall p, p ∈ non_dirs co \/ p ∈ hardlinks co \/ p ∈ rev (dirs co) -> p ∈ files q).
  { intros p Hp. apply elem_of_elements. rewrite <- Hall. unfold all. rewrite !elem_of_app. rewrite <- (Permutation_rev (dirs co)) in Hp. tauto. }
  destruct (permissions_ok (non_dirs co) s) as (s1 & -> & Ht1 & Hx1); [intros; apply Hok, Hin; tauto|]. cbn [obind].
  destruct (permissions_ok (hardlinks co) s1) as (s2 & -> & Ht2 & Hx2); [rewrite Ht1; intros; apply Hok, Hin; tauto|]. cbn [obind].
  destruct (permissions_ok (rev (dirs co)) s2) as (s3 & -> & Ht3 & Hx3); [rewrite Ht2, Ht1; intros; apply Hok, Hin; tauto|].
  exists s3. split; [done|]. split.
  - intros p Hp. rewrite Ht3, Ht2, Ht1. destruct (Hf p Hp) as (Hex & f & Ht & _ & Hsame). rewrite path_in_dest in Hex by done.
    split; [by apply Hx3, Hx2, Hx1|]. exists f. split; [done|].
    destruct (tree_structure p Hp) as (f0 & st & Hf0 & Hst0 & Hst & Hd & _ & _ & Hsy). destruct (Hsame f0 Hf0) as (E1 & E2 & E3).
    unfold log_entry, log_fields, dest_path. rewrite Hst, E1, E2, E3, Hst0, Hd, Hsy, !list_str. done.
  - intros x [?|[Hx|Hx]]%needed_provided; [by left|right..].
    + rewrite <- path_in_dest by done. apply Hx3, Hx2, Hx1. by apply Hf.
    + apply Hx3, Hx2, Hx1, Hmono. by apply (rd_present Hr).
Qed.
End Complete.

(** The log, when the structures of the tree say what they are. *)
Lemma put_log_ok h fopen_ok c q t :
  (forall f, logfile c = Some f -> fopen_ok f = true) ->
  (forall p, p ∈ files q -> exists f, t !! p = Some f /\ log_entry (destdir h) p f = log_fields h p) ->
  put_log fopen_ok c h q t = Ret (match logfile c with
    | Some _ => Some (concat (map (fun p => log_line (log_fields h p)) (tree_order q)))
    | None => None
    end).
Proof.
  intros Hlog Ht. assert (Hin : forall p, p ∈ tree_order q -> exists f, t !! p = Some f /\ log_entry (destdir h) p f = log_fields h p).
  { intros p Hp. rewrite tree_order_perm in Hp. by apply Ht, elem_of_elements. }
  unfold put_log. destruct (logfile c) as [f|]; [|done]. rewrite Hlog by done. cbn [negb].
  destruct (walk_tree_ret (print_file (destdir h) t) (tree_order q)) with (a := @nil ascii) as [text E].
  { intros p a Hp. unfold print_file. destruct (Hin p Hp) as (fp & -> & _). by eexists. }
  rewrite E. cbn [obind]. apply walk_print in E as [-> _]. cbn [app]. do 2 f_equal.
  f_equal. apply map_ext_in. intros p Hp%list_elem_of_In. destruct (Hin p Hp) as (fp & Hf & <-). unfold file_at. by rewrite Hf.
Qed.

(** C2. initrd-put from the command line to the image. Let the options parse, with
    neither -n nor -f, let the files around be [ready], and let the log be writable.
    Then main returns successfully, in whatever order the threads come to the files.
    Every path that the arguments stand for, and every directory, link target and
    interpreter that a copied file needs, is in the destination afterwards unless it is
    excluded. The log that the last -l names, and only with -l, gets one line for every
    file of the image: its type, its path, its path in the destination and, of a link, what
    it points to; what was needed and is not in the log was excluded or in the destination
    before. Every structure has been freed exactly once. *)
Theorem initrd_put_complete {fs} `{DestLaws fs} realpath regcomp fopen_ok sys src cwd U order opts c arg r args fuel (d : fs) :
  put_options realpath regcomp opts cli0 = Ret c -> dry_run c = false -> o_force c = false ->
  realpath arg = Some ("/"%char :: r) -> lenZ ("/"%char :: r) <= PATH_MAX -> args <> [] ->
  (forall f, last_log opts = Some f -> fopen_ok f = true) -> (forall n l, order n l ≡ₚ l) ->
  let h := host_of sys c ("/"%char :: r) in
  ready h src cwd args U d -> (enough_fuel U <= fuel)%nat ->
  exists o tree, put_main realpath regcomp fopen_ok sys src fuel order opts (arg :: args) d = Ret o /\ o_left o = ∅ /\
    (forall x, needed h cwd args x -> exclude h x = true \/ ex (dest_path h x) (o_dest o)) /\
    NoDup tree /\ (forall p, p ∈ tree -> exclude h p = false /\ ex (dest_path h p) (o_dest o)) /\
    (forall x, needed h cwd args x -> exclude h x = true \/ is_present h x = true \/ x ∈ tree) /\
    o_log o = match last_log opts with
              | Some _ => Some (concat (map (fun p => log_line (log_fields h p)) tree))
              | None => None
              end.
Proof.
  intros Hopt Hdry Hforce Hreal Hlen Hargs Hlog Hord h Hr Hfuel. unfold put_main. rewrite Hopt. cbn [obind]. rewrite Hreal, decide_False by done. fold h.
  pose proof (collect_files_ok h cwd (rd_fts _ _ _ _ _ _ Hr) (rd_cwd _ _ _ _ _ _ Hr) args U (rd_universe _ _ _ _ _ _ Hr) fuel Hfuel) as D. unfold collect_files in D.
  destruct (enqueue_args h args put0) as [q0| | |]; cbn [obind] in *; try (exfalso; by apply (rd_fine _ _ _ _ _ _ Hr)).
  rewrite Z.geb_leb, (proj2 (Z.leb_gt _ _)) by lia.
  destruct (collect h fuel None (∅, q0)) as [[ca q]| | |]; cbn [obind] in *; try (exfalso; by apply (rd_fine _ _ _ _ _ _ Hr)).
  destruct (install_all_ok h src cwd args U d Hr ca q D fuel order) as (s & Es & Ht & Hx); try done.
  { cbn. rewrite list_str. by exists r. }
  { unfold enough_fuel in Hfuel. lia. }
  apply put_options_log in Hopt. change (logfile c = last_log opts) in Hopt.
  unfold put_files. rewrite Hdry, Es. cbn [obind]. rewrite (put_log_ok h fopen_ok c q (tab s)), Hopt; [|by rewrite Hopt|by intros p Hp; apply Ht].
  cbn [obind]. destruct (destroy_ok q (iv_queue _ _ _ _ _ _ _ D) (iv_heap _ _ _ _ _ _ _ D)) as (q' & E & Hq').
  destruct (tree_destroy q) as [q1| | |]; cbn [obind] in *; try done. rewrite E. cbn [obind]. eexists _, (tree_order q). split; [done|].
  cbn [o_left o_dest o_log]. split_and!; [done|exact Hx|rewrite tree_order_perm; apply NoDup_elements| | |done].
  - intros p Hp. rewrite tree_order_perm in Hp. apply elem_of_elements in Hp. split; [|by apply Ht]. by apply (iv_files _ _ _ _ _ _ _ D p Hp).
  - intros x Hn. destruct (needed_provided _ _ _ _ _ _ D x Hn) as [?|[Hf|?]]; [by left|right; right|by right; left].
    rewrite tree_order_perm. by apply elem_of_elements.
Qed.

(** *** The link of [small_host] and what it leads to *)

Definition no_regcomp (re : bytes) : option (string -> bool) := None.
Definition small_dest : gset string := {[ "/out" ]}%string.

Lemma small_paths p : p ∈ small_universe -> (p = "/l" \/ p = "/d" \/ p = "/d/f")%string.
Proof. unfold small_universe. set_solver. Qed.

Lemma small_fine : ~ flaw small_host [] [ #"/l"] small_universe.
Proof.
  assert (Hl : resolvable small_host [] #"/l") by (split; [done|]; exists [ #"/l"], [ #"d"]; split; [exact small_resolves|done]).
  intros Hf. destruct Hf as [a Ha Hn|p Hp Hn|p st Hp Hst Hlnk Hn|p Hp Hn|p Hp Hn|p e Hp He _|p e Hp He _|p Hp Hn|p Hp Hn].
  - apply list_elem_of_singleton in Ha as ->. done.
  - by apply small_paths in Hp as [-> |[-> | ->]].
  - apply small_paths in Hp as [-> |[-> | ->]]; [done|..]; vm_compute in Hst; injection Hst as <-; done.
  - cbn in Hn. by case_bool_decide.
  - done.
  - done.
  - done.
  - apply small_paths in Hp as [-> |[-> | ->]]; vm_compute in Hn; done.
  - done.
Qed.

Lemma small_ready : @ready (gset string) set_dest set_dest_laws small_host example_sources [] [ #"/l"] small_universe small_dest.
Proof.
  split.
  - intros p l e Hl He _. cbn in Hl. case_bool_decide; injection Hl as <-; [|by apply not_elem_of_nil in He].
    repeat (apply elem_of_cons in He as [->|He]; [reflexivity|]). by apply not_elem_of_nil in He.
  - split_and!; [reflexivity|discriminate|by apply list.Forall_nil].
  - apply small_is_universe.
  - apply small_fine.
  - intros p st Hp Hst. apply small_paths in Hp as [-> |[-> | ->]]; vm_compute in Hst; injection Hst as <-; (split; [reflexivity|]).
    + split; [|done]. intros _. eexists. vm_compute. reflexivity.
    + split; done.
    + split; [done|]. intros _. split_and!; [done|done|]. intros [] []; eexists; vm_compute; reflexivity.
  - intros p Hp _. apply small_paths in Hp as [-> |[-> | ->]]; [left|left|right].
    + cbn. apply (bool_decide_unpack _). vm_compute. exact I.
    + cbn. apply (bool_decide_unpack _). vm_compute. exact I.
    + exists #"/d", #"f", (mode_stat S_IFDIR 3). split_and!; done.
  - intros p Hp. done.
  - intros p u g d. split; [by left|done].
  - intros p m d. split; done.
Qed.

Lemma initrd_put_complete_witness :
  exists o, @put_main (gset string) set_dest Some no_regcomp (fun _ => true) small_host example_sources 60 (fun _ => @rev string) [OptL "old"; OptVerbose; OptL "log"] [ #"/out"; #"/l"] small_dest = Ret o
    /\ o_left o = ∅ /\ "/out/d"%string ∈ o_dest o /\ exists t, o_log o = Some t.
Proof.
  destruct (@initrd_put_complete (gset string) set_dest set_dest_laws Some no_regcomp (fun _ => true) small_host example_sources [] small_universe (fun _ => @rev string)
    [OptL "old"; OptVerbose; OptL "log"]
    {| exclude_match := []; o_force := false; jobs := 0; logfile := Some "log"%string; dry_run := false; o_prefix := None; verbose := 1 |}
    #"/out" #"out" [ #"/l"] 60 small_dest) as (o & tree & E & Hl & Hx & _ & _ & _ & Hlog).
  - reflexivity.
  - reflexivity.
  - reflexivity.
  - reflexivity.
  - vm_compute. discriminate.
  - discriminate.
  - done.
  - intros n l. symmetry. apply Permutation_rev.
  - exact small_ready.
  - vm_compute. lia.
  - exists o. split; [exact E|]. split; [exact Hl|]. split; [|eexists; exact Hlog].
    destruct (Hx "/d"%string) as [He|He]; [|discriminate He|exact He].
    apply (needed_arg _ _ _ #"/l"); [by left|]. exists [ #"/l"], [ #"d"]. split; [exact small_resolves|by right].
Defined.

(** ** The log can be read back *)

Fixpoint split_on (c : ascii) (s : bytes) : list bytes :=
  match s with
  | [] => [[]]
  | x :: s => if decide (x = c) then [] :: split_on c s else match split_on c s with [] => [[x]] | w :: ws => (x :: w) :: ws end
  end.

Lemma split_on_end c a : c ∉ a -> split_on c a = [a].
Proof. induction a as [|x a IH]; [done|]. rewrite not_elem_of_cons. intros [Hx Ha]. cbn. by rewrite decide_False, IH by done. Qed.

Lemma split_on_app c a b : c ∉ a -> split_on c (a ++ c :: b) = a :: split_on c b.
Proof.
  induction a as [|x a IH]; [cbn; by rewrite decide_True|]. rewrite not_elem_of_cons. intros [Hx Ha]. cbn. by rewrite decide_False, IH by done.
Qed.

Definition clean (s : bytes) : Prop := TAB ∉ s /\ NL ∉ s.

Lemma clean_app a b : clean a -> clean b -> clean (a ++ b).
Proof. unfold clean. rewrite !elem_of_app. tauto. Qed.

Lemma type_char_clean st : clean [type_char st].
Proof. unfold type_char. repeat case_match; split; apply (bool_decide_unpack _); vm_compute; exact I. Qed.

Lemma log_line_fields a b c d : Forall clean [a; b; c; d] ->
  exists line, log_line [a; b; c; d] = line ++ [NL] /\ NL ∉ line /\ split_on TAB line = [a; b; c; d].
Proof.
  rewrite !list.Forall_cons. intros ([Ha Ha'] & [Hb Hb'] & [Hc Hc'] & [Hd Hd'] & _). exists (a ++ TAB :: b ++ TAB :: c ++ TAB :: d). split_and!.
  - cbn. by rewrite <- !app_assoc; cbn; rewrite <- !app_assoc; cbn; rewrite <- !app_assoc.
  - rewrite !elem_of_app, !elem_of_cons, !elem_of_app, !elem_of_cons, !elem_of_app, !elem_of_cons. intuition done.
  - by rewrite !split_on_app, split_on_end.
Qed.

Definition clean_file (destdir : string) (p : string) (f : file) : Prop :=
  clean #p /\ clean #destdir /\ clean #(dst f) /\ match symlink f with Some l => clean #l | None => True end.

Lemma log_entry_fields dd p f : clean_file dd p f ->
  exists line, log_line (log_entry dd p f) = line ++ [NL] /\ NL ∉ line /\ split_on TAB line = log_entry dd p f.
Proof.
  intros (H1 & H2 & H3 & H4). apply log_line_fields. rewrite !list.Forall_cons.
  split_and!; [apply type_char_clean|done|by apply clean_app| |by apply list.Forall_nil]. destruct (symlink f); [done|split; apply not_elem_of_nil].
Qed.

Lemma read_lines_back dd t l : (forall p, p ∈ l -> clean_file dd p (file_at t p)) ->
  map (split_on TAB) (split_on NL (concat (map (fun p => log_line (log_entry dd p (file_at t p))) l))) =
  map (fun p => log_entry dd p (file_at t p)) l ++ [[[]]].
Proof.
  induction l as [|p l IH]; intros Hl; [done|]. cbn [map concat].
  destruct (log_entry_fields dd p (file_at t p)) as (line & -> & Hn & Hs); [apply Hl; by left|].
  rewrite <- app_assoc. cbn [app]. rewrite split_on_app by done. cbn [map]. rewrite Hs, IH by (intros; apply Hl; by right). done.
Qed.

(** The log of -l. It has one line for every file of the tree, in the order of their
    paths; when no name has a tab or a newline, the lines and their four fields can be
    read back: the type, the path, the path in the image and the target of a link. *)
Theorem log_read_back fopen_ok c h q t text :
  put_log fopen_ok c h q t = Ret (Some text) ->
  (forall p f, p ∈ files q -> t !! p = Some f -> clean_file (destdir h) p f) ->
  tree_order q ≡ₚ elements (files q) /\
  map (split_on TAB) (split_on NL text) = map (fun p => log_entry (destdir h) p (file_at t p)) (tree_order q) ++ [[[]]].
Proof.
  intros E Hc. split; [apply tree_order_perm|]. unfold put_log in E. destruct (logfile c); [|done]. destruct (negb _); [done|].
  destruct (walk_tree _ _ _) as [text'| | |] eqn:Ew; cbn [obind] in E; try done. injection E as <-.
  apply walk_print in Ew as [-> Hl]. apply read_lines_back. intros p Hp. destruct (Hl p Hp) as [f Hf]. unfold file_at. rewrite Hf. cbn.
  apply (Hc p f); [|done]. rewrite tree_order_perm in Hp. by apply elem_of_elements.
Qed.

Lemma log_read_back_witness :
  let c := {| exclude_match := []; o_force := false; jobs := 0; logfile := Some "log"%string; dry_run := false; o_prefix := None; verbose := 0 |} in
  exists text, put_log (fun _ => true) c small_host example_put (heap example_put) = Ret (Some text) /\
  map (split_on TAB) (split_on NL text) = [[ #"d"; #"/d"; #"/out/d"; []]; [ #"f"; #"/d/f"; #"/out/d/f"; []]; [[]]].
Proof.
  intros c. eexists. split; [vm_compute; reflexivity|].
  edestruct (log_read_back (fun _ => true) c small_host example_put (heap example_put)) as [_ H].
  - vm_compute. reflexivity.
  - intros p f Hp Hf. assert (p = "/d" \/ p = "/d/f")%string as [-> | ->] by (cbn in Hp; set_solver); vm_compute in Hf; injection Hf as <-;
      (split_and!; [split; apply (bool_decide_unpack _); vm_compute; exact I..|exact I]).
  - etrans; [exact H|]. vm_compute. reflexivity.
Defined.

Lemma strip_rev_spec r : exists n, r = replicate n "/"%char ++ strip_rev r /\ (forall x y r', strip_rev r = x :: y :: r' -> x <> "/"%char) /\ (r <> [] -> strip_rev r <> []).
Proof.
  induction r as [|x r IH]; [by exists 0%nat|]. destruct IH as (n & E & H1 & H2). destruct (decide (x = "/"%char)) as [->|Hx].
  - destruct r as [|y r]; [exists 0%nat; by split_and!|]. exists (S n). change (strip_rev ("/"%char :: y :: r)) with (strip_rev (y :: r)).
    split_and!; [cbn; f_equal; exact E|done|]. intros _. by apply H2.
  - exists 0%nat. assert (strip_rev (x :: r) = x :: r) as -> by (destruct x as [[] [] [] [] [] [] [] []]; by destruct r). split_and!; [done| |done].
    by intros ? ? ? [= -> ->].
Qed.

(** The prefix of -r. What is cut off at its end are slashes, and a slash is left there
    only when it is the whole prefix. *)
Theorem prefix_stripped p : exists n, p = strip_slashes p ++ replicate n "/"%char /\ (p <> [] -> strip_slashes p <> []) /\
  forall a, strip_slashes p = a ++ #"/" -> a = [].
Proof.
  destruct (strip_rev_spec (rev p)) as (n & E & H1 & H2). exists n. unfold strip_slashes. split_and!.
  - apply (f_equal (@rev ascii)) in E. rewrite rev_involutive, rev_app_distr in E. rewrite E at 1. f_equal.
    clear. induction n as [|n IH]; [done|]. cbn. rewrite IH. symmetry. apply (replicate_S_end n).
  - intros Hp Hs. apply (f_equal (@rev ascii)) in Hs. rewrite rev_involutive in Hs. cbn in Hs. apply H2; [|done].
    intros Hr. apply Hp. rewrite <- (rev_involutive p), Hr. done.
  - intros a Ha. apply (f_equal (@rev ascii)) in Ha. rewrite rev_involutive, rev_app_distr in Ha. cbn in Ha.
    destruct (rev a) as [|y r] eqn:Er; [|by destruct (H1 _ _ _ Ha)]. rewrite <- (rev_involutive a), Er. done.
Qed.
