(* ===== verification/Scanmod.v ===== *)
(** initrd-scanmod: the kernel modules that match a set of rules.

    - initrd-scanmod-rules.c reads the rules: [parse_line], [parse_ruleset], [parse_rules];
    - initrd-scanmod-walk.c searches the modules and matches them, in several threads:
      [module_data], [process_module_ruleset], [process_module], [queue_pop],
      [collect_modules] and [find_modules];
    - initrd-scanmod.c is [scanmod_main].

    The regular expressions of the C library and libkmod are parameters ([Regex] and
    [Kmod]); so is what fts_read returns. The outcome of the threads is that of the
    pool in Workers.v. *)

From Stdlib Require Import ZArith Ascii Lia.
From stdpp Require Import base list gmap sets strings tactics.
From S2P Require Import Prelude CString Workers.

Open Scope Z_scope.
Open Scope cprog_scope.

(** ** Rules *)

Inductive rule_t := RULE_MATCH | RULE_NOT_MATCH.

Inductive keyword_t :=
  KW_ALIAS | KW_AUTHOR | KW_DEPENDS | KW_DESCRIPTION | KW_FILENAME | KW_FIRMWARE | KW_LICENSE | KW_NAME | KW_SYMBOL
  | KW_UNKNOWN_KEYWORD.

#[export] Instance keyword_eq : EqDecision keyword_t.
Proof. solve_decision. Defined.

Definition keywords : list (keyword_t * bytes) :=
  [(KW_ALIAS, #"alias"); (KW_AUTHOR, #"author"); (KW_DEPENDS, #"depends"); (KW_DESCRIPTION, #"description");
   (KW_FILENAME, #"filename"); (KW_FIRMWARE, #"firmware"); (KW_LICENSE, #"license"); (KW_NAME, #"name"); (KW_SYMBOL, #"symbol")].

(** [keywords[kw]] *)
Definition keyword_name (kw : keyword_t) : bytes :=
  match list_find (fun e => e.1 = kw) keywords with Some (_, (_, s)) => s | None => [] end.

Definition get_keyword (value : bytes) : keyword_t :=
  match list_find (fun e => e.2 = value) keywords with Some (_, (kw, _)) => kw | None => KW_UNKNOWN_KEYWORD end.

(** [value] is the expression that was compiled. *)
Record rule_pair := { type : rule_t; keyword : keyword_t; value : bytes }.

Definition RULESET_HAS_INFO : Z := 1.
Definition RULESET_HAS_SYMBOLS : Z := 2.
Definition RULESET_HAS_PATHS : Z := 4.

Record ruleset := { filename : bytes; flags : Z; info : list rule_pair; symbols : list rule_pair; paths : list rule_pair }.

(** The C library: whether regcomp accepts an expression and whether regexec finds it
    in a string. *)
Class Regex := { regcomp : bytes -> bool; regexec : bytes -> bytes -> bool }.

(** libkmod: [inr e] is a result of [-e]. *)
Class Kmod := {
  kmod_module : Type;
  new_from_path : bytes -> kmod_module + Z;
  get_name : kmod_module -> option bytes;
  get_info : kmod_module -> list (option bytes * option bytes) + Z;
  get_symbols : kmod_module -> list (option bytes) + Z;
  get_dependency_symbols : kmod_module -> list (option bytes) + Z;
}.

(** [sscanf(p, "%ms %m[^\n]")] with two conversions, for a string without newline. *)
Definition scan_two (p : bytes) : option (bytes * bytes) :=
  let '(kw, r) := span (fun c => negb (isspace c)) (skip_while isspace p) in
  let v := skip_while isspace r in
  if decide (kw = []) then None else if decide (v = []) then None else Some (kw, v).

Definition scan_rule (p : bytes) : option (rule_t * bytes * bytes) :=
  match (match strip_prefix #"not-" p with Some q => scan_two q | None => None end) with
  | Some (kw, v) => Some (RULE_NOT_MATCH, kw, v)
  | None => match scan_two p with Some (kw, v) => Some (RULE_MATCH, kw, v) | None => None end
  end.

(** The line up to a NUL byte, and without the blanks and carriage returns at its end. *)
Definition before_nul (s : bytes) : bytes := fst (span (fun c => negb (bool_decide (c = NUL))) s).
Definition strip_end (s : bytes) : bytes :=
  rev (skip_while (fun c => bool_decide (c = "013"%char) || isblank c) (rev s)).

(** The lines that memchr finds: a newline at the end of the file starts no line. *)
Fixpoint map_lines (fuel : nat) (s : bytes) : list bytes :=
  match fuel, s with
  | S fuel, _ :: _ =>
      match strchr "010"%char s with
      | Some (line, rest) => line :: map_lines fuel rest
      | None => [s]
      end
  | _, _ => []
  end.

Section Scanmod.
Context {RX : Regex} {KM : Kmod}.

(** One line of a rules file: [Ret None] is a comment or an empty line. *)
Definition parse_line (line : bytes) : out (option rule_pair) :=
  match skip_while isblank (before_nul line) with
  | [] => Ret None
  | c :: p =>
      if decide (c = "#"%char) then Ret None else
      match scan_rule (strip_end (c :: p)) with
      | None => Die EXIT_FAILURE "bad line format"
      | Some (t, kw, v) =>
          if decide (get_keyword kw = KW_UNKNOWN_KEYWORD) then Die EXIT_FAILURE "unknown keyword"
          else if regcomp v then Ret (Some {| type := t; keyword := get_keyword kw; value := v |})
          else Die EXIT_FAILURE "is not a regular expression"
      end
  end.

Definition add_rule (r : rule_pair) (set : ruleset) : ruleset :=
  match keyword r with
  | KW_SYMBOL => {| filename := filename set; flags := Z.lor (flags set) RULESET_HAS_SYMBOLS; info := info set;
                    symbols := symbols set ++ [r]; paths := paths set |}
  | KW_FILENAME => {| filename := filename set; flags := Z.lor (flags set) RULESET_HAS_PATHS; info := info set;
                      symbols := symbols set; paths := paths set ++ [r] |}
  | KW_UNKNOWN_KEYWORD => set
  | _ => {| filename := filename set; flags := Z.lor (flags set) RULESET_HAS_INFO; info := info set ++ [r];
            symbols := symbols set; paths := paths set |}
  end.

Fixpoint parse_lines (lines : list bytes) (set : ruleset) : out ruleset :=
  match lines with
  | [] => Ret set
  | line :: lines =>
      let! r := parse_line line in
      parse_lines lines (match r with Some r => add_rule r set | None => set end)
  end.

(** open_map with what the file holds, if it can be read. *)
Definition parse_ruleset (files : bytes -> option bytes) (rulesfile : bytes) : out ruleset :=
  match files rulesfile with
  | None => Die EXIT_FAILURE "open"
  | Some s => parse_lines (map_lines (length s) s) {| filename := rulesfile; flags := 0; info := []; symbols := []; paths := [] |}
  end.

Definition filename_in_ruleset (rules : list ruleset) (f : bytes) : bool :=
  existsb (fun set => bool_decide (filename set = f)) rules.

Fixpoint parse_rules (files : bytes -> option bytes) (names : list bytes) (filter_rules : list ruleset) : out (list ruleset) :=
  match names with
  | [] => Ret filter_rules
  | f :: names =>
      if filename_in_ruleset filter_rules f then parse_rules files names filter_rules
      else let! set := parse_ruleset files f in parse_rules files names (filter_rules ++ [set])
  end.

(** ** Matching *)

(** The switch on the type of a rule that all three loops share. *)
Definition rule_ok (r : rule_pair) (is_match : bool) : bool :=
  match type r with RULE_MATCH => is_match | RULE_NOT_MATCH => negb is_match end.

Fixpoint match_filename (f : bytes) (filters : list rule_pair) : bool :=
  match filters with
  | [] => true
  | r :: filters => if rule_ok r (regexec (value r) f) then match_filename f filters else false
  end.

(** kmod_list_foreach of match *)
Fixpoint has_info_match (r : rule_pair) (l : list (option bytes * option bytes)) : bool :=
  match l with
  | [] => false
  | (key, val) :: l =>
      match key with
      | None => has_info_match r l
      | Some k =>
          if decide (keyword_name (keyword r) = k)
          then match val with
               | None => has_info_match r l
               | Some v => if regexec (value r) v then true else has_info_match r l
               end
          else has_info_match r l
      end
  end.

Fixpoint match_info (symlist : list (option bytes * option bytes)) (filters : list rule_pair) : bool :=
  match filters with
  | [] => true
  | r :: filters => if rule_ok r (has_info_match r symlist) then match_info symlist filters else false
  end.

Fixpoint has_symbol_match (l : list (option bytes)) (preg : bytes) : bool :=
  match l with
  | [] => false
  | None :: l => has_symbol_match l preg
  | Some v :: l => if regexec preg v then true else has_symbol_match l preg
  end.

Fixpoint match_symbols (provided required : list (option bytes)) (filters : list rule_pair) : bool :=
  match filters with
  | [] => true
  | r :: filters =>
      if rule_ok r (has_symbol_match provided (value r) || has_symbol_match required (value r))
      then match_symbols provided required filters else false
  end.

(** What was asked of libkmod about a module so far: a state of 0 is "not yet" and
    one of -1 a failure. *)
Record module_data := {
  kmod_mod : option kmod_module;
  infolist : list (option bytes * option bytes);
  info_state : Z;
  provided : list (option bytes);
  required : list (option bytes);
  symbols_state : Z;
}.

Definition mdata0 : module_data :=
  {| kmod_mod := None; infolist := []; info_state := 0; provided := []; required := []; symbols_state := 0 |}.

Definition set_mod (m : kmod_module) (d : module_data) : module_data :=
  {| kmod_mod := Some m; infolist := infolist d; info_state := info_state d; provided := provided d; required := required d;
     symbols_state := symbols_state d |}.
Definition set_info (l : list (option bytes * option bytes)) (st : Z) (d : module_data) : module_data :=
  {| kmod_mod := kmod_mod d; infolist := l; info_state := st; provided := provided d; required := required d;
     symbols_state := symbols_state d |}.
Definition set_symbols (p q : list (option bytes)) (st : Z) (d : module_data) : module_data :=
  {| kmod_mod := kmod_mod d; infolist := infolist d; info_state := info_state d; provided := p; required := q;
     symbols_state := st |}.

(** [None] is a result below 0. *)
Definition init_module_mod (f : bytes) (d : module_data) : option kmod_module * module_data :=
  match kmod_mod d with
  | Some m => (Some m, d)
  | None =>
      match new_from_path f with
      | inr _ => (None, d)
      | inl m => (match get_name m with Some _ => Some m | None => None end, set_mod m d)
      end
  end.

Definition load_info (m : kmod_module) (d : module_data) : bool * module_data :=
  if info_state d =? 0 then
    match get_info m with
    | inl l => (true, set_info l 1 d)
    | inr _ => (false, set_info (infolist d) (-1) d)
    end
  else (negb (info_state d <? 0), d).

Definition ENOENT : Z := 2.
Definition ENODATA : Z := 61.

(** A list of symbols, empty if there is no such section; [None] is another error. *)
Definition symbols_or_none (r : list (option bytes) + Z) : option (list (option bytes)) :=
  match r with
  | inl l => Some l
  | inr e => if (e =? ENOENT) || (e =? ENODATA) then Some [] else None
  end.

Definition load_symbols (m : kmod_module) (d : module_data) : bool * module_data :=
  if symbols_state d =? 0 then
    match symbols_or_none (get_symbols m) with
    | None => (false, set_symbols (provided d) (required d) (-1) d)
    | Some p =>
        match symbols_or_none (get_dependency_symbols m) with
        | None => (false, set_symbols p (required d) (-1) d)
        | Some q => (true, set_symbols p q 1 d)
        end
    end
  else (negb (symbols_state d <? 0), d).

(** The tests of process_module_ruleset: the new [is_match], unless it returned 0. *)
Definition test_paths (f : bytes) (set : ruleset) (is_match : Z) : option Z :=
  if Z.land (flags set) RULESET_HAS_PATHS =? 0 then Some is_match
  else if match_filename f (paths set) then Some (Z.lor is_match RULESET_HAS_PATHS) else None.

Definition test_info (f : bytes) (set : ruleset) (is_match : Z) (d : module_data) : option Z * module_data :=
  if Z.land (flags set) RULESET_HAS_INFO =? 0 then (Some is_match, d)
  else match init_module_mod f d with
       | (None, d) => (None, d)
       | (Some m, d) =>
           let '(ok, d) := load_info m d in
           if ok then (if match_info (infolist d) (info set) then Some (Z.lor is_match RULESET_HAS_INFO) else None, d)
           else (None, d)
       end.

Definition test_symbols (f : bytes) (set : ruleset) (is_match : Z) (d : module_data) : option Z * module_data :=
  if Z.land (flags set) RULESET_HAS_SYMBOLS =? 0 then (Some is_match, d)
  else match init_module_mod f d with
       | (None, d) => (None, d)
       | (Some m, d) =>
           let '(ok, d) := load_symbols m d in
           if ok then (if match_symbols (provided d) (required d) (symbols set) then Some (Z.lor is_match RULESET_HAS_SYMBOLS) else None, d)
           else (None, d)
       end.

(** The result, and the lines that were printed. *)
Definition process_module_ruleset (f : bytes) (d : module_data) (set : ruleset) : bool * module_data * list bytes :=
  if flags set =? 0 then (false, d, []) else
  match test_paths f set 0 with
  | None => (false, d, [])
  | Some is_match =>
      if flags set =? is_match then (true, d, [f]) else
      match test_info f set is_match d with
      | (None, d) => (false, d, [])
      | (Some is_match, d) =>
          match test_symbols f set is_match d with
          | (None, d) => (false, d, [])
          | (Some is_match, d) => if flags set =? is_match then (true, d, [f]) else (false, d, [])
          end
      end
  end.

Fixpoint process_rulesets (f : bytes) (d : module_data) (rules : list ruleset) : list bytes :=
  match rules with
  | [] => []
  | set :: rules =>
      let '(found, d, o) := process_module_ruleset f d set in
      if found then o else o ++ process_rulesets f d rules
  end.

Definition process_module (rules : list ruleset) (f : bytes) : list bytes := process_rulesets f mdata0 rules.

(** ** The search *)

Definition exts : list bytes := [ #".ko"; #".ko.zst"; #".ko.xz"; #".ko.gz"; #".ko.bz2"].

Definition is_kernel_modname (f : bytes) : bool :=
  existsb (fun e => (length e <=? length f)%nat && bool_decide (drop (length f - length e) f = e)) exts.

(** What fts_read returns: the kind, fts_accpath and fts_path. *)
Inductive fts_info := FTS_F | FTS_SL | FTS_DNR | FTS_ERR | FTS_NS | FTS_D | FTS_DC | FTS_DP | FTS_SLNONE | FTS_DEFAULT.
Record ftsent := { fts_kind : fts_info; fts_accpath : bytes; fts_path : bytes }.

Fixpoint collect_modules (entries : list ftsent) : out (list bytes) :=
  match entries with
  | [] => Ret []
  | p :: entries =>
      match fts_kind p with
      | FTS_F | FTS_SL =>
          let! l := collect_modules entries in
          Ret (if is_kernel_modname (fts_accpath p) then fts_path p :: l else l)
      | FTS_DNR | FTS_ERR | FTS_NS => Die EXIT_FAILURE "fts_read"
      | _ => collect_modules entries
      end
  end.

(** queue_pop; the index is [current]. *)
Definition queue_pop (q : list bytes) (current : nat) (printed : list bytes) : out (option bytes * nat) :=
  Ret (match q !! current with Some path => (Some path, S current) | None => (None, current) end).

(** The body of worker_func for one path. *)
Definition worker_job (rules : list ruleset) (path : bytes) (printed : list bytes) : out (list bytes) :=
  Ret (printed ++ process_module rules path).

(** [jobs] of 0 takes the number of processors; no more threads than modules. *)
Definition n_workers (jobs nprocs count : Z) : Z :=
  let n := if jobs <=? 0 then (if nprocs >? 0 then i32 nprocs else 1) else jobs in
  if u64 n >? count then i32 count else n.

(** The threads that exist: the program's own if one is enough, and otherwise as many
    as pthread_create gives. *)
Definition threads (jobs nprocs count created : Z) : nat :=
  if n_workers jobs nprocs count <=? 1 then 1 else Z.to_nat (Z.min created (n_workers jobs nprocs count)).

Record host := { nprocs : Z; created : Z; fts_errno : Z; ctx_ok : bool }.

(** A run ends with what was printed; the order depends on the threads. *)
Inductive find_modules (rules : list ruleset) (jobs : Z) (h : host) (entries : list ftsent) : out (list bytes) -> Prop :=
| find_stops c m : collect_modules entries = Die c m -> find_modules rules jobs h entries (Die c m)
| find_errno q : collect_modules entries = Ret q -> fts_errno h <> 0 ->
    find_modules rules jobs h entries (Die EXIT_FAILURE "fts_read")
| find_empty : collect_modules entries = Ret [] -> fts_errno h = 0 -> find_modules rules jobs h entries (Ret [])
| find_no_ctx q : collect_modules entries = Ret q -> fts_errno h = 0 -> q <> [] -> ctx_ok h = false ->
    threads jobs (nprocs h) (lenZ q) (created h) <> O ->
    find_modules rules jobs h entries (Die EXIT_FAILURE "kmod_new")
| find_runs q o : collect_modules entries = Ret q -> fts_errno h = 0 -> q <> [] ->
    (ctx_ok h = true \/ threads jobs (nprocs h) (lenZ q) (created h) = O) ->
    pool_runs (queue_pop q) (worker_job rules) (threads jobs (nprocs h) (lenZ q) (created h)) (pool0 []) o ->
    find_modules rules jobs h entries o.

(** ** main *)

Inductive scan_opt := O_k (v : bytes) | O_b (v : bytes) | O_j (v : bytes) | O_v | O_h | O_V | O_unknown.

Record scan_args := { kversion : option bytes; basedir : option bytes; jobs : Z }.

Fixpoint scan_options (opts : list scan_opt) (a : scan_args) : out scan_args :=
  match opts with
  | [] => Ret a
  | o :: opts =>
      match o with
      | O_k v => scan_options opts {| kversion := Some v; basedir := basedir a; jobs := jobs a |}
      | O_b v => scan_options opts {| kversion := kversion a; basedir := Some v; jobs := jobs a |}
      | O_j v =>
          if atoi v <? 1 then Die EXIT_FAILURE "invalid number of jobs"
          else scan_options opts {| kversion := kversion a; basedir := basedir a; jobs := atoi v |}
      | O_v => scan_options opts a
      | O_h | O_V => Die EXIT_SUCCESS ""
      | O_unknown => Die EXIT_FAILURE "usage"
      end
  end.

Definition kerneldir (release : bytes) (a : scan_args) : bytes :=
  default [] (basedir a) ++ #"/lib/modules/" ++ default release (kversion a).

(** [walk] gives the entries below a directory; [release] is that of uname. *)
Inductive scanmod_main (files : bytes -> option bytes) (walk : bytes -> list ftsent) (h : host) (release : bytes)
    (opts : list scan_opt) (names : list bytes) : out (list bytes) -> Prop :=
| main_bad_option c m : scan_options opts {| kversion := None; basedir := None; jobs := 0 |} = Die c m ->
    scanmod_main files walk h release opts names (Die c m)
| main_no_rules a : scan_options opts {| kversion := None; basedir := None; jobs := 0 |} = Ret a -> names = [] ->
    scanmod_main files walk h release opts names (Die EXIT_FAILURE "rules file required")
| main_bad_rules a c m : scan_options opts {| kversion := None; basedir := None; jobs := 0 |} = Ret a -> names <> [] ->
    parse_rules files names [] = Die c m -> scanmod_main files walk h release opts names (Die c m)
| main_finds a rules o : scan_options opts {| kversion := None; basedir := None; jobs := 0 |} = Ret a -> names <> [] ->
    parse_rules files names [] = Ret rules -> find_modules rules (jobs a) h (walk (kerneldir release a)) o ->
    scanmod_main files walk h release opts names o.

(** ** What is to be printed *)

(** The information and the symbols of the module in a file, if libkmod gives them. *)
Definition module_of (f : bytes) : option kmod_module := match new_from_path f with inl m => Some m | inr _ => None end.
Definition info_of (f : bytes) : option (list (option bytes * option bytes)) :=
  m ← module_of f; match get_info m with inl l => Some l | inr _ => None end.
Definition symbols_of (f : bytes) : option (list (option bytes)) :=
  m ← module_of f; p ← symbols_or_none (get_symbols m); q ← symbols_or_none (get_dependency_symbols m); Some (p ++ q).

(** A rule holds if the sought value is there, or with "not-" if it is not. *)
Definition rule_holds (r : rule_pair) (P : Prop) : Prop :=
  match type r with RULE_MATCH => P | RULE_NOT_MATCH => ~ P end.

(** A file matches a rules file if all of the rules hold, and there are any. *)
Definition selected (f : bytes) (set : ruleset) : Prop :=
  (paths set <> [] \/ info set <> [] \/ symbols set <> []) /\
  (forall r, r ∈ paths set -> rule_holds r (regexec (value r) f = true)) /\
  (info set <> [] -> exists l, info_of f = Some l /\
     forall r, r ∈ info set -> rule_holds r (exists v, (Some (keyword_name (keyword r)), Some v) ∈ l /\ regexec (value r) v = true)) /\
  (symbols set <> [] -> exists l, symbols_of f = Some l /\
     forall r, r ∈ symbols set -> rule_holds r (exists v, Some v ∈ l /\ regexec (value r) v = true)).

(** The files of a walk that are modules. *)
Definition module_files (entries : list ftsent) : list bytes :=
  fts_path <$> filter (fun p => (match fts_kind p with FTS_F | FTS_SL => true | _ => false end) && is_kernel_modname (fts_accpath p) = true) entries.
End Scanmod.

(** ** Matching one module *)

Section Matching.
Context {RX : Regex} {KM : Kmod}.

Lemma rule_ok_holds r b (P : Prop) : (b = true <-> P) -> rule_ok r b = true <-> rule_holds r P.
Proof. unfold rule_ok, rule_holds. destruct (type r), b; cbn; naive_solver. Qed.

(** The three loops over rules are one: all of the rules hold. *)
Lemma all_rules_hold (go : list rule_pair -> bool) (b : rule_pair -> bool) (P : rule_pair -> Prop) :
  go [] = true -> (forall r l, go (r :: l) = if rule_ok r (b r) then go l else false) ->
  (forall r, b r = true <-> P r) -> forall l, go l = true <-> forall r, r ∈ l -> rule_holds r (P r).
Proof.
  intros H0 H1 HP l. induction l as [|r l IH]; [rewrite H0; split; [intros _ r Hr; by apply not_elem_of_nil in Hr|done]|].
  rewrite H1. pose proof (rule_ok_holds r (b r) (P r) (HP r)) as Hr.
  destruct (rule_ok r (b r)); [rewrite IH|]; setoid_rewrite elem_of_cons; naive_solver.
Qed.

Lemma match_filename_spec f l : match_filename f l = true <-> forall r, r ∈ l -> rule_holds r (regexec (value r) f = true).
Proof. by apply (all_rules_hold _ (fun r => regexec (value r) f)). Qed.

(** A search in a list finds an element with the property, head or tail. *)
Ltac exists_cons :=
  setoid_rewrite elem_of_cons;
  (split; [intros Hx; first [by eauto | destruct Hx as (x & ? & ?); eauto]|intros (x & [Hx|Hx] & ?); [try congruence|eauto]]).

Lemma has_info_match_spec r l :
  has_info_match r l = true <-> exists v, (Some (keyword_name (keyword r)), Some v) ∈ l /\ regexec (value r) v = true.
Proof.
  induction l as [|[[k|] [v|]] l IH]; cbn; [split; [done|intros (v & H%not_elem_of_nil & _); done]|..];
    repeat case_decide; subst; try (destruct (regexec (value r) v) eqn:E); try rewrite IH; exists_cons.
Qed.

Lemma match_info_spec il l : match_info il l = true <->
  forall r, r ∈ l -> rule_holds r (exists v, (Some (keyword_name (keyword r)), Some v) ∈ il /\ regexec (value r) v = true).
Proof. apply (all_rules_hold _ (fun r => has_info_match r il)); [done|done|]. intros r. apply has_info_match_spec. Qed.

Lemma has_symbol_match_spec e l : has_symbol_match l e = true <-> exists v, Some v ∈ l /\ regexec e v = true.
Proof.
  induction l as [|[v|] l IH]; cbn; [split; [done|intros (v & H%not_elem_of_nil & _); done]|..];
    try (destruct (regexec e v) eqn:E); try rewrite IH; exists_cons.
Qed.

Lemma match_symbols_spec p q l : match_symbols p q l = true <->
  forall r, r ∈ l -> rule_holds r (exists v, Some v ∈ p ++ q /\ regexec (value r) v = true).
Proof.
  apply (all_rules_hold _ (fun r => has_symbol_match p (value r) || has_symbol_match q (value r))); [done|done|].
  intros r. rewrite orb_true_iff, !has_symbol_match_spec. setoid_rewrite elem_of_app. naive_solver.
Qed.

(** libkmod documents that a module has a name. *)
Definition modules_named : Prop := forall m, get_name m <> None.
Hypothesis Hnamed : modules_named.

(** What module_data remembers is what libkmod says of the module. *)
Record mdata_ok (f : bytes) (d : module_data) : Prop := {
  mk_mod m : kmod_mod d = Some m -> new_from_path f = inl m;
  mk_info : (info_state d = 0) \/ (info_state d = 1 /\ info_of f = Some (infolist d)) \/ (info_state d = -1 /\ info_of f = None);
  mk_symbols : (symbols_state d = 0) \/ (symbols_state d = 1 /\ symbols_of f = Some (provided d ++ required d)) \/
               (symbols_state d = -1 /\ symbols_of f = None);
}.

Lemma mdata0_ok f : mdata_ok f mdata0.
Proof. split; cbn; auto. done. Qed.

Lemma init_module_mod_ok f d : mdata_ok f d ->
  mdata_ok f (init_module_mod f d).2 /\ (init_module_mod f d).1 = module_of f.
Proof.
  intros [H1 H2 H3]. unfold init_module_mod, module_of. destruct (kmod_mod d) as [m|] eqn:Em.
  - rewrite (H1 m eq_refl). split; [split; cbn; [by rewrite Em|done..]|done].
  - destruct (new_from_path f) as [m|e] eqn:En; cbn.
    + destruct (get_name m) eqn:Eg; [|by destruct (Hnamed m)]. split; [|done]. split; cbn; [by intros ? [= <-]|done..].
    + split; [split; cbn; [by rewrite Em|done..]|done].
Qed.

Lemma load_info_ok f d m : mdata_ok f d -> module_of f = Some m ->
  mdata_ok f (load_info m d).2 /\ (if (load_info m d).1 then info_of f = Some (infolist (load_info m d).2) else info_of f = None).
Proof.
  intros [H1 H2 H3] Hm. unfold load_info. destruct H2 as [E|[[E Hi]|[E Hi]]]; rewrite E; cbn.
  - assert (Hi : info_of f = match get_info m with inl l => Some l | inr _ => None end) by (unfold info_of; by rewrite Hm).
    destruct (get_info m) eqn:Eg; cbn; (split; [split; cbn|]); auto.
  - split; [split|]; auto.
  - split; [split|]; auto.
Qed.

Lemma load_symbols_ok f d m : mdata_ok f d -> module_of f = Some m ->
  mdata_ok f (load_symbols m d).2 /\
  (if (load_symbols m d).1 then symbols_of f = Some (provided (load_symbols m d).2 ++ required (load_symbols m d).2) else symbols_of f = None).
Proof.
  intros [H1 H2 H3] Hm. unfold load_symbols. destruct H3 as [E|[[E Hi]|[E Hi]]]; rewrite E; cbn.
  - assert (Hi : symbols_of f = p ← symbols_or_none (get_symbols m); q ← symbols_or_none (get_dependency_symbols m); Some (p ++ q))
      by (unfold symbols_of; by rewrite Hm).
    destruct (symbols_or_none (get_symbols m)); cbn in *; [destruct (symbols_or_none (get_dependency_symbols m)); cbn in *|];
      (split; [split; cbn|]); auto.
  - split; [split|]; auto.
  - split; [split|]; auto.
Qed.

(** parse_ruleset sets a flag exactly for the lists that are not empty. *)
Definition bit_of {A} (l : list A) (b : Z) : Z := match l with [] => 0 | _ => b end.
Definition ruleset_ok (set : ruleset) : Prop :=
  flags set = Z.lor (Z.lor (bit_of (paths set) RULESET_HAS_PATHS) (bit_of (info set) RULESET_HAS_INFO)) (bit_of (symbols set) RULESET_HAS_SYMBOLS).

(** A test adds its bit to [is_match] if [P] holds and ends the function otherwise. *)
Definition test_spec {A} (l : list A) (bit i : Z) (P : Prop) (o : option Z) : Prop :=
  (o = Some (Z.lor i (bit_of l bit)) /\ P) \/ (o = None /\ ~ P).

Lemma test_spec_skip {A} (l : list A) bit i P : l = [] -> test_spec l bit i (l <> [] -> P) (Some i).
Proof. intros ->. left. cbn. by rewrite Z.lor_0_r. Qed.

Lemma test_spec_done {A} (l : list A) bit i P b : l <> [] -> (b = true <-> P) ->
  test_spec l bit i (l <> [] -> P) (if b then Some (Z.lor i bit) else None).
Proof. intros Hl Hb. unfold test_spec. destruct l, b; naive_solver. Qed.

Lemma ruleset_bits set : ruleset_ok set ->
  (Z.land (flags set) RULESET_HAS_PATHS =? 0) = bool_decide (paths set = []) /\
  (Z.land (flags set) RULESET_HAS_INFO =? 0) = bool_decide (info set = []) /\
  (Z.land (flags set) RULESET_HAS_SYMBOLS =? 0) = bool_decide (symbols set = []).
Proof. unfold ruleset_ok. intros ->. by destruct (paths set), (info set), (symbols set). Qed.

Lemma test_paths_ok f set : ruleset_ok set ->
  test_spec (paths set) RULESET_HAS_PATHS 0 (forall r, r ∈ paths set -> rule_holds r (regexec (value r) f = true)) (test_paths f set 0).
Proof.
  intros Hs. unfold test_paths. destruct (ruleset_bits set Hs) as (-> & _). case_bool_decide as E.
  - rewrite E. left. split; [done|]. intros r Hr. by apply not_elem_of_nil in Hr.
  - destruct (test_spec_done (paths set) RULESET_HAS_PATHS 0 _ _ E (match_filename_spec f (paths set))) as [[-> ?]|[-> ?]];
      [left|right]; naive_solver.
Qed.

Lemma test_info_ok f set i d : ruleset_ok set -> mdata_ok f d ->
  mdata_ok f (test_info f set i d).2 /\
  test_spec (info set) RULESET_HAS_INFO i (info set <> [] -> exists l, info_of f = Some l /\
     forall r, r ∈ info set -> rule_holds r (exists v, (Some (keyword_name (keyword r)), Some v) ∈ l /\ regexec (value r) v = true))
    (test_info f set i d).1.
Proof.
  intros Hs Hd. unfold test_info. destruct (ruleset_bits set Hs) as (_ & -> & _).
  case_bool_decide as E; [split; [done|by apply test_spec_skip]|].
  destruct (init_module_mod_ok f d Hd) as [Hd' Hm]. destruct (init_module_mod f d) as [[m|] d'] eqn:Ei; cbn [fst snd] in *.
  - destruct (load_info_ok f d' m Hd' (eq_sym Hm)) as [Hd'' Hl].
    destruct (load_info m d') as [[] d'']; cbn [fst snd] in *; (split; [done|]); [|right; naive_solver].
    apply test_spec_done; [done|]. rewrite match_info_spec, Hl. naive_solver.
  - split; [done|]. right. unfold info_of. rewrite <- Hm. naive_solver.
Qed.

Lemma test_symbols_ok f set i d : ruleset_ok set -> mdata_ok f d ->
  mdata_ok f (test_symbols f set i d).2 /\
  test_spec (symbols set) RULESET_HAS_SYMBOLS i (symbols set <> [] -> exists l, symbols_of f = Some l /\
     forall r, r ∈ symbols set -> rule_holds r (exists v, Some v ∈ l /\ regexec (value r) v = true))
    (test_symbols f set i d).1.
Proof.
  intros Hs Hd. unfold test_symbols. destruct (ruleset_bits set Hs) as (_ & _ & ->).
  case_bool_decide as E; [split; [done|by apply test_spec_skip]|].
  destruct (init_module_mod_ok f d Hd) as [Hd' Hm]. destruct (init_module_mod f d) as [[m|] d'] eqn:Ei; cbn [fst snd] in *.
  - destruct (load_symbols_ok f d' m Hd' (eq_sym Hm)) as [Hd'' Hl].
    destruct (load_symbols m d') as [[] d'']; cbn [fst snd] in *; (split; [done|]); [|right; naive_solver].
    apply test_spec_done; [done|]. rewrite match_symbols_spec, Hl. naive_solver.
  - split; [done|]. right. unfold symbols_of. rewrite <- Hm. naive_solver.
Qed.

Definition ruleset_result (f : bytes) (P : Prop) (r : bool * module_data * list bytes) : Prop :=
  mdata_ok f r.1.2 /\ ((r.1.1 = true /\ r.2 = [f] /\ P) \/ (r.1.1 = false /\ r.2 = [] /\ ~ P)).

Lemma process_module_ruleset_ok f set d : ruleset_ok set -> mdata_ok f d ->
  ruleset_result f (selected f set) (process_module_ruleset f d set).
Proof.
  intros Hs Hd. unfold process_module_ruleset, selected.
  pose proof (test_info_ok f set (bit_of (paths set) RULESET_HAS_PATHS) d Hs Hd) as [Hd1 Hi].
  destruct (test_paths_ok f set Hs) as [[-> Hp]|[-> Hp]].
  2: { case_match; (split; [done|]); right; naive_solver. }
  destruct (Z.eqb_spec (flags set) 0) as [E0|E0]; [|rewrite Z.lor_0_l; destruct (Z.eqb_spec (flags set) (bit_of (paths set) RULESET_HAS_PATHS)) as [Ep|Ep]].
  - split; [done|]. right. rewrite Hs in E0. destruct (paths set), (info set), (symbols set); naive_solver.
  - split; [done|]. left. rewrite Hs in E0, Ep. destruct (paths set), (info set), (symbols set); naive_solver.
  - assert (Hany : paths set <> [] \/ info set <> [] \/ symbols set <> [])
      by (rewrite Hs in E0; destruct (paths set), (info set), (symbols set); naive_solver).
    destruct (test_info f set _ d) as [o d1]; cbn [fst snd] in *.
    destruct Hi as [[-> Hi]|[-> Hi]]; [|split; [done|]; right; naive_solver].
    pose proof (test_symbols_ok f set (Z.lor (bit_of (paths set) RULESET_HAS_PATHS) (bit_of (info set) RULESET_HAS_INFO)) d1 Hs Hd1) as [Hd2 Hy].
    destruct (test_symbols f set _ d1) as [o d2]; cbn [fst snd] in *.
    destruct Hy as [[-> Hy]|[-> Hy]]; [|split; [done|]; right; naive_solver].
    rewrite <- Hs, Z.eqb_refl. split; [done|]. left. naive_solver.
Qed.

Lemma process_rulesets_ok f rules d : Forall ruleset_ok rules -> mdata_ok f d ->
  (process_rulesets f d rules = [f] /\ Exists (selected f) rules) \/ (process_rulesets f d rules = [] /\ ~ Exists (selected f) rules).
Proof.
  intros Hr. revert d. induction Hr as [|set rules Hs Hr IH]; intros d Hd; cbn.
  - right. split; [done|]. by intros H%Exists_nil.
  - destruct (process_module_ruleset_ok f set d Hs Hd) as [Hd' H].
    destruct (process_module_ruleset f d set) as [[found d'] o]; cbn [fst snd] in *.
    destruct H as [(-> & -> & H)|(-> & -> & H)]; [left; split; [done|by constructor]|].
    destruct (IH d' Hd') as [[-> H']|[-> H']]; [left; split; [done|by constructor 2]|right; split; [done|]].
    intros Hx. inversion Hx; naive_solver.
Qed.

Lemma process_module_ok f rules : Forall ruleset_ok rules ->
  (process_module rules f = [f] /\ Exists (selected f) rules) \/ (process_module rules f = [] /\ ~ Exists (selected f) rules).
Proof. intros Hr. apply process_rulesets_ok; [done|apply mdata0_ok]. Qed.
End Matching.

(** ** The rules that are read *)

Section Parsing.
Context {RX : Regex}.

Lemma lor_bit_of {A} (l : list A) r b : Z.lor (bit_of l b) b = bit_of (l ++ [r]) b.
Proof. destruct l; cbn; [done|apply Z.lor_diag]. Qed.

Lemma add_rule_ok r set : ruleset_ok set -> ruleset_ok (add_rule r set).
Proof.
  unfold ruleset_ok, add_rule. intros Hs.
  destruct (keyword r); cbn; try (by rewrite Hs); rewrite <- lor_bit_of, Hs; clear; apply Z.bits_inj'; intros n _; rewrite !Z.lor_spec;
    generalize (Z.testbit (bit_of (paths set) RULESET_HAS_PATHS) n), (Z.testbit (bit_of (info set) RULESET_HAS_INFO) n),
      (Z.testbit (bit_of (symbols set) RULESET_HAS_SYMBOLS) n); intros [] [] []; cbn; try done; by destruct (Z.testbit _ n).
Qed.

Lemma parse_lines_ok lines set set' : parse_lines lines set = Ret set' -> ruleset_ok set -> ruleset_ok set'.
Proof.
  revert set. induction lines as [|l lines IH]; intros set; cbn; [by intros [= <-]|].
  destruct (parse_line l) as [[r|]| | |]; cbn [obind]; try done; intros H Hs; eapply IH; eauto using add_rule_ok.
Qed.

Lemma parse_rules_ok files names rules rules' : parse_rules files names rules = Ret rules' -> Forall ruleset_ok rules -> Forall ruleset_ok rules'.
Proof.
  revert rules. induction names as [|f names IH]; intros rules; cbn; [by intros [= <-]|].
  destruct (filename_in_ruleset rules f); [apply IH|].
  unfold parse_ruleset. destruct (files f) as [s|]; cbn [obind]; [|done].
  destruct (parse_lines _ _) as [set| | |] eqn:E; cbn [obind]; try done. intros H Hr.
  eapply IH; [exact H|]. apply Forall_app; split; [done|]. constructor; [|done]. by eapply parse_lines_ok.
Qed.

(** *** Printing and reading back *)

Definition print_rule (r : rule_pair) : bytes :=
  (match type r with RULE_MATCH => [] | RULE_NOT_MATCH => #"not-" end) ++ keyword_name (keyword r) ++ #" " ++ value r.
Definition print_rules (l : list rule_pair) : bytes := concat (map (fun r => print_rule r ++ ["010"%char]) l).

(** An expression that a line can hold. *)
Record value_ok (v : bytes) : Prop := {
  vo_regex : regcomp v = true;
  vo_first : exists c v', v = c :: v' /\ isspace c = false;
  vo_last : exists v' c, v = v' ++ [c] /\ c <> "013"%char /\ isblank c = false;
  vo_line : NUL ∉ v /\ "010"%char ∉ v;
}.
Definition rule_printable (r : rule_pair) : Prop := keyword r <> KW_UNKNOWN_KEYWORD /\ value_ok (value r).

Definition set_of (f : bytes) (l : list rule_pair) : ruleset :=
  foldl (fun set r => add_rule r set) {| filename := f; flags := 0; info := []; symbols := []; paths := [] |} l.

Lemma span_app f s t c : Forall (fun x => f x = true) s -> f c = false -> span f (s ++ c :: t) = (s, c :: t).
Proof. induction 1 as [|x s Hx Hs IH]; intros Hc; cbn; [by rewrite Hc|]. by rewrite Hx, (IH Hc). Qed.

Lemma before_nul_id s : NUL ∉ s -> before_nul s = s.
Proof.
  unfold before_nul. induction s as [|c s IH]; [done|]. rewrite not_elem_of_cons. intros [Hc Hs]. cbn.
  rewrite bool_decide_eq_false_2 by done. cbn. by rewrite (IH Hs).
Qed.

Lemma strip_end_id s c : c <> "013"%char -> isblank c = false -> strip_end (s ++ [c]) = s ++ [c].
Proof.
  intros Hc Hb. unfold strip_end. rewrite rev_app_distr. cbn. rewrite bool_decide_eq_false_2, Hb by done. cbn.
  by rewrite rev_involutive.
Qed.

(** The names of the keywords have no blanks, and none starts like "not-" or "#". *)
Definition keyword_plain (kw : keyword_t) : Prop :=
  get_keyword (keyword_name kw) = kw /\ Forall (fun c => negb (isspace c) = true) (keyword_name kw) /\
  Forall (fun c => isblank c = false) (take 1 (keyword_name kw)) /\ NUL ∉ keyword_name kw /\ "010"%char ∉ keyword_name kw /\
  exists c k, keyword_name kw = c :: k /\ c <> "#"%char /\
  forall t, strip_prefix #"not-" (keyword_name kw ++ " "%char :: t) = None.

Lemma keyword_plain_all kw : kw <> KW_UNKNOWN_KEYWORD -> keyword_plain kw.
Proof.
  intros H. destruct kw; try done; unfold keyword_plain; (split_and!;
    [reflexivity|apply (bool_decide_unpack _); vm_compute; exact I|apply (bool_decide_unpack _); vm_compute; exact I
    |apply (bool_decide_unpack _); vm_compute; exact I|apply (bool_decide_unpack _); vm_compute; exact I|]);
    eexists _, _; (split; [reflexivity|]); split; done.
Qed.

Lemma scan_two_kw kw v : kw <> KW_UNKNOWN_KEYWORD -> value_ok v -> scan_two (keyword_name kw ++ #" " ++ v) = Some (keyword_name kw, v).
Proof.
  intros Hk Hv. destruct (keyword_plain_all kw Hk) as (_ & Hs & _ & _ & _ & c & k & E & _ & _).
  destruct (vo_first v Hv) as (x & v' & -> & Hx). unfold scan_two.
  assert (Hskip : skip_while isspace (keyword_name kw ++ #" " ++ x :: v') = keyword_name kw ++ #" " ++ x :: v').
  { rewrite E in Hs |- *. cbn. apply list.Forall_cons in Hs as [Hc _]. apply negb_true_iff in Hc. by rewrite Hc. }
  rewrite Hskip. change (#" " ++ x :: v') with (" "%char :: x :: v'). rewrite span_app by done. cbn.
  rewrite Hx. rewrite decide_False by (by rewrite E). done.
Qed.

Lemma scan_rule_print r : rule_printable r -> scan_rule (print_rule r) = Some (type r, keyword_name (keyword r), value r).
Proof.
  intros [Hk Hv]. unfold scan_rule, print_rule. destruct (type r).
  - rewrite (app_nil_l (keyword_name _ ++ _)). destruct (keyword_plain_all _ Hk) as (_ & _ & _ & _ & _ & c & k & E & _ & Hn).
    change (#" " ++ value r) with (" "%char :: value r). rewrite Hn.
    pose proof (scan_two_kw (keyword r) (value r) Hk Hv) as H2. change (#" " ++ value r) with (" "%char :: value r) in H2. by rewrite H2.
  - pose proof (scan_two_kw (keyword r) (value r) Hk Hv) as H2.
    change (strip_prefix _ _) with (Some (keyword_name (keyword r) ++ #" " ++ value r)). cbv beta iota. by rewrite H2.
Qed.

Lemma print_rule_line r : rule_printable r -> NUL ∉ print_rule r /\ "010"%char ∉ print_rule r.
Proof.
  intros [Hk Hv]. destruct (keyword_plain_all _ Hk) as (_ & _ & _ & H1 & H2 & _). destruct (vo_line _ Hv) as [H3 H4].
  unfold print_rule. rewrite !not_elem_of_app.
  assert (NUL ∉ #" " /\ "010"%char ∉ #" ") as [? ?] by (split; apply (bool_decide_unpack _); vm_compute; exact I).
  assert (NUL ∉ #"not-" /\ "010"%char ∉ #"not-") as [? ?] by (split; apply (bool_decide_unpack _); vm_compute; exact I).
  destruct (type r); split_and!; try done; apply not_elem_of_nil.
Qed.

Lemma print_rule_start r : rule_printable r -> exists c s, print_rule r = c :: s /\ isblank c = false /\ c <> "#"%char.
Proof.
  intros [Hk Hv]. destruct (keyword_plain_all _ Hk) as (_ & _ & H1 & _ & _ & c & k & E & Hc & _).
  unfold print_rule. rewrite E in H1 |- *. cbn in H1. apply list.Forall_cons in H1 as [H1 _].
  destruct (type r); cbn; [by eauto 6|]. eexists _, _. split; [reflexivity|]. done.
Qed.

Lemma parse_line_print r : rule_printable r -> parse_line (print_rule r) = Ret (Some r).
Proof.
  intros Hr. destruct (print_rule_line r Hr) as [Hn _]. destruct (print_rule_start r Hr) as (c & s & E & Hb & Hc).
  unfold parse_line. rewrite before_nul_id by done.
  assert (Hskip : skip_while isblank (print_rule r) = c :: s) by (rewrite E; cbn; by rewrite Hb).
  assert (Hend : strip_end (c :: s) = print_rule r).
  { rewrite <- E. destruct Hr as [_ Hv]. destruct (vo_last _ Hv) as (v' & x & Ev & ? & ?). unfold print_rule. rewrite Ev, !app_assoc.
    by apply strip_end_id. }
  pose proof (scan_rule_print r Hr) as Hscan. destruct Hr as [Hk Hv]. destruct (keyword_plain_all _ Hk) as (Hg & _).
  rewrite Hskip, decide_False, Hend, Hscan, Hg, decide_False, (vo_regex _ Hv) by done. by destruct r.
Qed.

Lemma map_lines_print l f : (length (print_rules l) <= f)%nat -> Forall rule_printable l -> map_lines f (print_rules l) = map print_rule l.
Proof.
  intros Hf Hl. revert f Hf. induction Hl as [|r l Hr Hl IH]; intros f Hf; [by destruct f|].
  change (print_rules (r :: l)) with ((print_rule r ++ ["010"%char]) ++ print_rules l) in *.
  rewrite !length_app in Hf. cbn in Hf. rewrite <- app_assoc. cbn [app]. destruct f as [|f]; [lia|].
  destruct (print_rule_start r Hr) as (c & s & E & _). destruct (print_rule_line r Hr) as [_ Hn].
  assert (Hm : map_lines (S f) (print_rule r ++ "010"%char :: print_rules l) =
     match strchr "010"%char (print_rule r ++ "010"%char :: print_rules l) with
     | Some (line, rest) => line :: map_lines f rest | None => [print_rule r ++ "010"%char :: print_rules l] end) by (rewrite E; done).
  rewrite Hm, strchr_app by done. cbn. f_equal. apply IH. lia.
Qed.

Lemma parse_lines_print l set : Forall rule_printable l ->
  parse_lines (map print_rule l) set = Ret (foldl (fun set r => add_rule r set) set l).
Proof.
  intros Hl. revert set. induction Hl as [|r l Hr Hl IH]; intros set; cbn; [done|].
  rewrite parse_line_print by done. cbn [obind]. apply IH.
Qed.

Lemma set_of_lists f l : Forall (fun r => keyword r <> KW_UNKNOWN_KEYWORD) l ->
  symbols (set_of f l) = filter (fun r => keyword r = KW_SYMBOL) l /\ paths (set_of f l) = filter (fun r => keyword r = KW_FILENAME) l /\
  info (set_of f l) = filter (fun r => keyword r <> KW_SYMBOL /\ keyword r <> KW_FILENAME) l.
Proof.
  unfold set_of. induction l as [|r l IH] using rev_ind; [done|]. rewrite Forall_app, list.Forall_singleton. intros [Hl Hr].
  rewrite foldl_app, !list.filter_app. cbn [foldl]. destruct (IH Hl) as (<- & <- & <-). unfold add_rule.
  rewrite !list.filter_cons, !list.filter_nil. destruct (keyword r) eqn:E; cbn; rewrite ?app_nil_r; done.
Qed.

(** A rules file that lists rules line by line is read as these rules: every rule
    comes into the list of its keyword, in the order of the file, with the type that
    "not-" gives it, and the flags name the lists that are not empty. *)
Theorem rules_roundtrip files f l : files f = Some (print_rules l) -> Forall rule_printable l ->
  exists set, parse_ruleset files f = Ret set /\ filename set = f /\ ruleset_ok set /\
    symbols set = filter (fun r => keyword r = KW_SYMBOL) l /\ paths set = filter (fun r => keyword r = KW_FILENAME) l /\
    info set = filter (fun r => keyword r <> KW_SYMBOL /\ keyword r <> KW_FILENAME) l.
Proof.
  intros Hf Hl. assert (Hp : parse_ruleset files f = Ret (set_of f l)).
  { unfold parse_ruleset. rewrite Hf, map_lines_print by done. by apply parse_lines_print. }
  eexists. split; [exact Hp|]. split; [|split; [unfold parse_ruleset in Hp; rewrite Hf in Hp; by eapply parse_lines_ok|]].
  - clear. unfold set_of. induction l as [|r l IH] using rev_ind; [done|]. rewrite foldl_app. cbn. unfold add_rule. by destruct (keyword r).
  - apply set_of_lists. eapply (list.Forall_impl _ _ _ Hl). by intros r [? _].
Qed.
End Parsing.

(** ** The search with several threads *)

Section Search.
Context {RX : Regex} {KM : Kmod}.

Lemma queue_pop_takes q rules : takes_next (queue_pop q) (worker_job rules) q.
Proof.
  intros idx s. exists []. split; [done|]. unfold queue_pop. destruct (q !! idx) as [p|] eqn:E.
  - exists (drop (S idx) q). rewrite (drop_S q p idx E). cbn. split; [done|lia].
  - cbn. rewrite drop_ge by (by apply lookup_ge_None). split; [done|lia].
Qed.

Lemma each_prints rules l s : each (worker_job rules) l s = Ret (s ++ concat (map (process_module rules) l)).
Proof. revert s. induction l as [|f l IH]; intros s; cbn; [by rewrite app_nil_r|]. by rewrite IH, <- app_assoc. Qed.

Lemma concat_permutation {A B} (g : A -> list B) l l' : l ≡ₚ l' -> concat (map g l) ≡ₚ concat (map g l').
Proof. induction 1; cbn; [done|by f_equiv|solve_Permutation|by etrans]. Qed.

Lemma collect_modules_ok entries : Forall (fun p => fts_kind p <> FTS_DNR /\ fts_kind p <> FTS_ERR /\ fts_kind p <> FTS_NS) entries ->
  collect_modules entries = Ret (module_files entries).
Proof.
  induction 1 as [|p l Hp Hl IH]; [done|]. unfold module_files in *. cbn [collect_modules]. rewrite list.filter_cons, IH.
  destruct Hp as (? & ? & ?). destruct (fts_kind p); cbn [andb obind]; try done;
    try (rewrite decide_False by done; done); by destruct (is_kernel_modname (fts_accpath p)).
Qed.

Lemma process_modules_filter rules l : modules_named -> Forall ruleset_ok rules ->
  exists keep : bytes -> bool, (forall f, keep f = true <-> Exists (selected f) rules) /\
    concat (map (process_module rules) l) = filter (fun f => keep f = true) l.
Proof.
  intros Hn Hr. exists (fun f => bool_decide (process_module rules f = [f])). split.
  - intros f. rewrite bool_decide_eq_true. destruct (process_module_ok Hn f rules Hr) as [[-> ?]|[-> ?]]; naive_solver.
  - induction l as [|f l IH]; [done|]. rewrite list.filter_cons. cbn [map concat]. rewrite IH.
    destruct (process_module_ok Hn f rules Hr) as [[-> ?]|[-> ?]];
      [rewrite decide_True by (by apply bool_decide_eq_true)|rewrite decide_False by (by rewrite bool_decide_eq_true)]; done.
Qed.

Lemma threads_pos jobs np count created : 0 < created -> 0 < count -> (0 < threads jobs np count created)%nat.
Proof. intros H1 H2. unfold threads. destruct (Z.leb_spec (n_workers jobs np count) 1); lia. Qed.

(** C9. initrd-scanmod prints exactly the modules that match one of the rules files,
    each once, for every number of threads and every order of their steps; the run
    always ends. What it remembers of a module from one rules file to the next does
    not change the result. *)
Theorem scan_prints_selected files walk h release opts names a rules :
  modules_named -> scan_options opts {| kversion := None; basedir := None; jobs := 0 |} = Ret a -> names <> [] ->
  parse_rules files names [] = Ret rules ->
  Forall (fun p => fts_kind p <> FTS_DNR /\ fts_kind p <> FTS_ERR /\ fts_kind p <> FTS_NS) (walk (kerneldir release a)) ->
  fts_errno h = 0 -> ctx_ok h = true -> 0 < created h ->
  (exists o, scanmod_main files walk h release opts names o) /\
  forall o, scanmod_main files walk h release opts names o ->
    exists printed keep, o = Ret printed /\ (forall f, keep f = true <-> Exists (selected f) rules) /\
      printed ≡ₚ filter (fun f => keep f = true) (module_files (walk (kerneldir release a))).
Proof.
  intros Hn Ha Hne Hr Hw He Hc Hcr. pose proof (collect_modules_ok _ Hw) as Hq. set (q := module_files _) in *.
  assert (Hok : Forall ruleset_ok rules) by (eapply parse_rules_ok; [exact Hr|done]).
  assert (Hpos : q <> [] -> (0 < threads (jobs a) (nprocs h) (lenZ q) (created h))%nat)
    by (intros Hq0; apply threads_pos; [done|]; destruct q; [done|]; rewrite lenZ_cons; pose proof (lenZ_nonneg q); lia).
  pose proof (fun Hq0 => pool_order _ _ _ q (queue_pop_takes q rules) [] (Hpos Hq0)) as Hpool.
  destruct (process_modules_filter rules q Hn Hok) as (keep & Hkeep & Hcat). split.
  - destruct (decide (q = [])) as [Hq0|Hq0].
    + exists (Ret []). eapply main_finds; [exact Ha|done|exact Hr|]. apply find_empty; [by rewrite Hq, Hq0|done].
    + destruct (Hpool Hq0) as [[o Ho] _]. exists o. eapply main_finds; [exact Ha|done|exact Hr|].
      eapply find_runs; [exact Hq|done|done|by left|exact Ho].
  - intros o Ho. destruct Ho as [c m E|a' E E'|a' c m E _ E'|a' rules' o E _ E' Hf]; try congruence.
    rewrite Ha in E. injection E as <-. rewrite Hr in E'. injection E' as <-.
    destruct Hf as [c m E|q' E E'|E|q' E _ _ E'|q' o E _ Hq0 _ Ho]; rewrite Hq in E; try congruence.
    + injection E as E. exists [], keep. rewrite E. done.
    + injection E as <-. destruct (Hpool Hq0) as [_ Hord]. destruct (Hord o Ho) as (order & Hperm & <-).
      exists (concat (map (process_module rules) order)), keep. rewrite each_prints. split; [done|]. split; [done|].
      rewrite <- Hcat. by apply concat_permutation.
Qed.

(** If no thread can be created the program prints nothing and reports success,
    whatever matches. *)
Lemma no_thread_no_output rules jobs h entries q :
  collect_modules entries = Ret q -> 1 < n_workers jobs (nprocs h) (lenZ q) -> fts_errno h = 0 -> created h = 0 -> q <> [] ->
  find_modules rules jobs h entries (Ret []).
Proof.
  intros Hq Hn He Hc Hq0. assert (Ht : threads jobs (nprocs h) (lenZ q) (created h) = O).
  { unfold threads. rewrite (proj2 (Z.leb_gt _ _)) by lia. rewrite Hc. lia. }
  eapply find_runs; [exact Hq|done|done|by right|]. rewrite Ht.
  apply (runs_join _ _ _ (pool0 [])). intros w Hw. lia.
Qed.
End Search.

(** ** Examples *)

(** Expressions that are plain text, and a libkmod with two modules. *)
#[local] Instance plain_regex : Regex :=
  {| regcomp := fun e => bool_decide (e <> []); regexec := fun e s => match strstr s e with Some _ => true | None => false end |}.

#[local] Instance two_modules : Kmod := {|
  kmod_module := bool;
  new_from_path := fun f => if decide (f = #"/lib/modules/6/a.ko") then inl true else if decide (f = #"/lib/modules/6/b.ko.xz") then inl false else inr 2;
  get_name := fun m => Some (if m then #"a" else #"b");
  get_info := fun m => inl [(Some #"license", Some (if m then #"GPL" else #"MIT")); (Some #"depends", None)];
  get_symbols := fun m => if m then inl [Some #"usb_register"] else inr ENOENT;
  get_dependency_symbols := fun m => inl [Some #"printk"];
|}.

Definition example_walk (dir : bytes) : list ftsent :=
  [{| fts_kind := FTS_D; fts_accpath := dir; fts_path := dir |};
   {| fts_kind := FTS_F; fts_accpath := #"a.ko"; fts_path := dir ++ #"/a.ko" |};
   {| fts_kind := FTS_SL; fts_accpath := #"b.ko.xz"; fts_path := dir ++ #"/b.ko.xz" |};
   {| fts_kind := FTS_F; fts_accpath := #"modules.dep"; fts_path := dir ++ #"/modules.dep" |}].

Definition example_rules : list rule_pair :=
  [{| type := RULE_MATCH; keyword := KW_SYMBOL; value := #"printk" |};
   {| type := RULE_NOT_MATCH; keyword := KW_LICENSE; value := #"MIT" |};
   {| type := RULE_MATCH; keyword := KW_FILENAME; value := #".ko" |}].

Definition example_files (f : bytes) : option bytes := if decide (f = #"r") then Some (print_rules example_rules) else None.

Lemma example_printable : Forall rule_printable example_rules.
Proof.
  repeat (apply list.Forall_cons; split; [split; [done|]|]); [..|apply list.Forall_nil; exact I]; split; try reflexivity.
  all: try (split; apply (bool_decide_unpack _); vm_compute; exact I).
  all: try (eexists _, _; split; [reflexivity|reflexivity]).
  - exists #"print", "k"%char. done.
  - exists #"MI", "T"%char. done.
  - exists #".k", "o"%char. done.
Qed.

Lemma rules_roundtrip_witness : exists set, parse_ruleset example_files #"r" = Ret set /\ length (info set) = 1%nat /\ flags set = 7.
Proof.
  destruct (rules_roundtrip example_files #"r" example_rules) as (set & H & _ & Hok & H1 & H2 & H3); [reflexivity|exact example_printable|].
  exists set. split; [exact H|]. split; [rewrite H3; vm_compute; reflexivity|]. unfold ruleset_ok in Hok. rewrite Hok, H1, H2, H3.
  vm_compute. reflexivity.
Defined.

Lemma scan_prints_selected_witness :
  exists rules, parse_rules example_files [ #"r"; #"r"] [] = Ret rules /\
  let h := {| nprocs := 4; created := 2; fts_errno := 0; ctx_ok := true |} in
  forall o, scanmod_main example_files example_walk h #"6" [O_j #"2"] [ #"r"; #"r"] o ->
    exists printed keep, o = Ret printed /\ (forall f, keep f = true <-> Exists (selected f) rules) /\
      printed ≡ₚ filter (fun f => keep f = true) [ #"/lib/modules/6/a.ko"; #"/lib/modules/6/b.ko.xz"].
Proof.
  eexists. split; [vm_compute; reflexivity|]. intros h.
  assert (Hn : modules_named) by (intros m; discriminate).
  destruct (scan_prints_selected example_files example_walk h #"6" [O_j #"2"] [ #"r"; #"r"]
     {| kversion := None; basedir := None; jobs := 2 |} _ Hn ltac:(reflexivity) ltac:(done) ltac:(vm_compute; reflexivity)) as [_ H];
    [|reflexivity|reflexivity|reflexivity|exact H].
  repeat (apply list.Forall_cons; split; [done|]). by apply list.Forall_nil.
Defined.

(** The two modules of the example are told apart by their licence. *)
Lemma scan_example_output : exists rules, parse_rules example_files [ #"r"] [] = Ret rules /\
  process_module rules #"/lib/modules/6/a.ko" = [ #"/lib/modules/6/a.ko"] /\ process_module rules #"/lib/modules/6/b.ko.xz" = [].
Proof. eexists. split; [vm_compute; reflexivity|]. split; vm_compute; reflexivity. Qed.
