(* ===== verification/ScanmodRes.v ===== *)
(** The resources of initrd-scanmod: the mapping of a rules file (initrd-scanmod-file.c,
    [open_map] and [close_map]) and the release of the rules (initrd-scanmod-rules.c,
    [free_ruleset] and [free_rules]). What the system calls return is a parameter;
    [Undef] is an access to memory that is not allocated. *)

From Stdlib Require Import ZArith Ascii String Lia.
From stdpp Require Import base gmap list strings fin_maps tactics.
From S2P Require Import Prelude.

Open Scope Z_scope.
Open Scope cprog_scope.

Notation loc := positive.

(** ** Mappings *)

Record mapfile := { mf_fd : Z; mf_size : Z; mf_filename : option bytes; mf_map : option Z }.
Definition mapfile0 : mapfile := {| mf_fd := 0; mf_size := 0; mf_filename := None; mf_map := None |}.

(** The descriptors, and the mappings with their sizes. *)
Record resources := { r_fds : gset Z; r_maps : gmap Z Z }.

Record map_calls := {
  mc_open : Z;
  mc_fstat : option Z;
  mc_mmap : option Z;
  mc_munmap : Z;
}.

Section Calls.
Context (c : map_calls).

Definition take_fd (fd : Z) (r : resources) : resources := {| r_fds := {[ fd ]} ∪ r_fds r; r_maps := r_maps r |}.
Definition drop_fd (fd : Z) (r : resources) : resources := {| r_fds := r_fds r ∖ {[ fd ]}; r_maps := r_maps r |}.

(** After a failure of mmap the field map, which holds MAP_FAILED, is [None]: the caller
    exits. *)
Definition open_map (filename : bytes) (f : mapfile) (r : resources) : Z * mapfile * resources :=
  if mc_open c <? 0 then
    (-1, {| mf_fd := mc_open c; mf_size := mf_size f; mf_filename := mf_filename f; mf_map := mf_map f |}, r) else
  let r := take_fd (mc_open c) r in
  match mc_fstat c with
  | None => (-1, {| mf_fd := -1; mf_size := mf_size f; mf_filename := mf_filename f; mf_map := mf_map f |}, drop_fd (mc_open c) r)
  | Some size =>
      if size =? 0 then
        (0, {| mf_fd := -1; mf_size := 0; mf_filename := mf_filename f; mf_map := mf_map f |}, drop_fd (mc_open c) r)
      else
        match mc_mmap c with
        | None => (-1, {| mf_fd := -1; mf_size := size; mf_filename := mf_filename f; mf_map := None |}, drop_fd (mc_open c) r)
        | Some a =>
            (0, {| mf_fd := mc_open c; mf_size := size; mf_filename := Some filename; mf_map := Some a |},
             {| r_fds := r_fds r; r_maps := <[a := size]> (r_maps r) |})
        end
  end.

(** munmap of a mapping that is not there is [Undef]. *)
Definition close_map (f : mapfile) (r : resources) : out (mapfile * resources) :=
  match mf_filename f with
  | None => Ret (f, r)
  | Some _ =>
      match mf_map f with
      | None => Undef
      | Some a =>
          if decide (r_maps r !! a = Some (mf_size f)) then
            if mc_munmap c <? 0 then Die EXIT_FAILURE "munmap" else
            Ret ({| mf_fd := mf_fd f; mf_size := mf_size f; mf_filename := None; mf_map := mf_map f |},
                 drop_fd (mf_fd f) {| r_fds := r_fds r; r_maps := delete a (r_maps r) |})
          else Undef
      end
  end.

End Calls.

(** ** The rules in memory *)

(** A rule_pair with its regular expression, the arrays that end with NULL, and a ruleset
    with its arrays info, paths and symbols. *)
Record rmem := {
  pairs : gmap loc loc;
  regs : gset loc;
  arrays : gmap loc (list (option loc));
  sets : gmap loc (option loc * option loc * option loc);
}.

(** regfree(r->value); xfree(r->value); xfree(r); *)
Definition free_pair (r : loc) (m : rmem) : out rmem :=
  match pairs m !! r with
  | None => Undef
  | Some v =>
      if decide (v ∈ regs m) then
        Ret {| pairs := delete r (pairs m); regs := regs m ∖ {[ v ]}; arrays := arrays m; sets := sets m |}
      else Undef
  end.

Definition free_array (a : loc) (m : rmem) : out rmem :=
  match arrays m !! a with
  | None => Undef
  | Some _ => Ret {| pairs := pairs m; regs := regs m; arrays := delete a (arrays m); sets := sets m |}
  end.

Fixpoint pairs_loop (filters : list (option loc)) (m : rmem) : out rmem :=
  match filters with
  | [] => Undef
  | None :: _ => Ret m
  | Some r :: filters => let! m := free_pair r m in pairs_loop filters m
  end.

Definition free_ruleset (filters : option loc) (m : rmem) : out rmem :=
  match filters with
  | None => Ret m
  | Some a =>
      match arrays m !! a with
      | None => Undef
      | Some l => let! m := pairs_loop l m in free_array a m
      end
  end.

Definition free_set (s : loc) (m : rmem) : out rmem :=
  match sets m !! s with
  | None => Undef
  | Some (info, paths, symbols) =>
      let! m := free_ruleset info m in
      let! m := free_ruleset paths m in
      let! m := free_ruleset symbols m in
      match sets m !! s with
      | None => Undef
      | Some _ => Ret {| pairs := pairs m; regs := regs m; arrays := arrays m; sets := delete s (sets m) |}
      end
  end.

Fixpoint sets_loop (rules : list (option loc)) (m : rmem) : out rmem :=
  match rules with
  | [] => Undef
  | None :: _ => Ret m
  | Some s :: rules => let! m := free_set s m in sets_loop rules m
  end.

Definition free_rules (filter_rules : option loc) (m : rmem) : out rmem :=
  match filter_rules with
  | None => Ret m
  | Some a =>
      match arrays m !! a with
      | None => Undef
      | Some l => let! m := sets_loop l m in free_array a m
      end
  end.

(** ** What the memory holds *)

Definition add_pair (r v : loc) (m : rmem) : rmem :=
  {| pairs := <[r := v]> (pairs m); regs := {[ v ]} ∪ regs m; arrays := arrays m; sets := sets m |}.
Definition add_array (a : loc) (l : list (option loc)) (m : rmem) : rmem :=
  {| pairs := pairs m; regs := regs m; arrays := <[a := l]> (arrays m); sets := sets m |}.
Definition add_set (s : loc) (v : option loc * option loc * option loc) (m : rmem) : rmem :=
  {| pairs := pairs m; regs := regs m; arrays := arrays m; sets := <[s := v]> (sets m) |}.

(** [m] is [base] with the pairs [rs]. *)
Inductive has_pairs (base : rmem) : list loc -> rmem -> Prop :=
  | pairs_none : has_pairs base [] base
  | pairs_one r v rs m : has_pairs base rs m -> pairs m !! r = None -> v ∉ regs m -> has_pairs base (r :: rs) (add_pair r v m).

Definition ends (rs : list loc) : list (option loc) := map Some rs ++ [None].

(** [m] is [base] with the array [a] and its pairs. *)
Inductive has_array (base : rmem) : option loc -> rmem -> Prop :=
  | array_null : has_array base None base
  | array_some a rs m : arrays base !! a = None -> has_pairs (add_array a (ends rs) base) rs m -> has_array base (Some a) m.

Inductive has_sets (base : rmem) : list loc -> rmem -> Prop :=
  | sets_none : has_sets base [] base
  | sets_one s ss m info paths symbols m1 m2 m3 : has_sets base ss m -> sets m !! s = None ->
      has_array (add_set s (info, paths, symbols) m) symbols m1 -> has_array m1 paths m2 -> has_array m2 info m3 ->
      has_sets base (s :: ss) m3.

(** What parse_rules leaves. *)
Inductive has_rules (base : rmem) : option loc -> rmem -> Prop :=
  | rules_null : has_rules base None base
  | rules_some a ss m : arrays base !! a = None -> has_sets (add_array a (ends ss) base) ss m -> has_rules base (Some a) m.

(** ** Lemmas *)

Lemma rmem_eq p p' r r' a a' s s' : p = p' -> r = r' -> a = a' -> s = s' ->
  {| pairs := p; regs := r; arrays := a; sets := s |} = {| pairs := p'; regs := r'; arrays := a'; sets := s' |}.
Proof. by intros -> -> -> ->. Qed.

Lemma pairs_loop_ok base rs m : has_pairs base rs m -> pairs_loop (ends rs) m = Ret base.
Proof.
  induction 1 as [|r v rs m Hp IH Hr Hv]; [done|]. cbn. unfold free_pair. cbn. rewrite lookup_insert_eq, decide_True by set_solver. cbn.
  rewrite <- IH. f_equal. destruct m. cbn in *. apply rmem_eq; [by apply delete_insert_id|set_solver|done..].
Qed.

Lemma has_pairs_keep base rs m : has_pairs base rs m -> arrays m = arrays base /\ sets m = sets base.
Proof. induction 1; done. Qed.

Lemma free_array_ok a l base : arrays base !! a = None -> free_array a (add_array a l base) = Ret base.
Proof. intros Ha. unfold free_array. cbn. rewrite lookup_insert_eq. destruct base. cbn in *. by rewrite delete_insert_id. Qed.

Lemma free_ruleset_ok base f m : has_array base f m -> free_ruleset f m = Ret base.
Proof.
  intros [|a rs m' Ha Hp]; [done|]. unfold free_ruleset. rewrite (proj1 (has_pairs_keep _ _ _ Hp)). cbn. rewrite lookup_insert_eq.
  rewrite (pairs_loop_ok _ _ _ Hp). cbn. by apply free_array_ok.
Qed.

Lemma has_array_sets base f m : has_array base f m -> sets m = sets base.
Proof. intros [|a rs m' Ha Hp]; [done|]. by rewrite (proj2 (has_pairs_keep _ _ _ Hp)). Qed.

Lemma has_array_arrays base f m a l : has_array base f m -> arrays base !! a = Some l -> arrays m !! a = Some l.
Proof.
  intros [|b rs m' Hb Hp] Ha; [done|]. rewrite (proj1 (has_pairs_keep _ _ _ Hp)). cbn. rewrite lookup_insert_ne; [done|]. intros ->. congruence.
Qed.

Lemma has_sets_arrays base ss m a l : has_sets base ss m -> arrays base !! a = Some l -> arrays m !! a = Some l.
Proof. induction 1; intros Ha; [done|]. eauto 8 using has_array_arrays. Qed.

Lemma sets_loop_ok base ss m : has_sets base ss m -> sets_loop (ends ss) m = Ret base.
Proof.
  induction 1 as [|s ss m info paths symbols m1 m2 m3 Hs IH Hn H1 H2 H3]; [done|]. cbn [ends map app sets_loop]. unfold free_set.
  rewrite (has_array_sets _ _ _ H3), (has_array_sets _ _ _ H2), (has_array_sets _ _ _ H1). cbn [add_set sets]. rewrite lookup_insert_eq.
  rewrite (free_ruleset_ok _ _ _ H3). cbn [obind]. rewrite (free_ruleset_ok _ _ _ H2). cbn [obind]. rewrite (free_ruleset_ok _ _ _ H1). cbn [obind].
  cbn [add_set sets pairs regs arrays]. rewrite lookup_insert_eq. cbn [obind]. unfold ends in IH. rewrite <- IH. f_equal. destruct m. cbn in *.
  by rewrite delete_insert_id.
Qed.

(** ** Properties *)

(** Whatever fails, a rules file that was mapped or could not be mapped leaves no
    descriptor and no mapping behind, and while it is read its whole contents are mapped. *)
Theorem map_balanced c filename r :
  mc_open c ∉ r_fds r -> (forall a, mc_mmap c = Some a -> r_maps r !! a = None) -> 0 <= mc_munmap c ->
  match open_map c filename mapfile0 r with
  | (ret, f, r') =>
      (ret < 0 /\ r' = r) \/
      (ret = 0 /\ (exists f', close_map c f r' = Ret (f', r)) /\
       (mf_map f = None /\ mc_fstat c = Some 0 \/ exists a, mf_map f = Some a /\ r_maps r' !! a = Some (mf_size f) /\ mc_fstat c = Some (mf_size f)))
  end.
Proof.
  intros Ho Hm Hu. unfold open_map. destruct r as [fds maps]. cbn in *.
  assert (Hf : ({[mc_open c]} ∪ fds) ∖ {[mc_open c]} = fds) by set_solver.
  destruct (mc_open c <? 0); [left; split; [lia|done]|]. unfold take_fd, drop_fd. cbn.
  destruct (mc_fstat c) as [size|]; [|left; split; [lia|by rewrite Hf]].
  destruct (size =? 0) eqn:E; [right; apply Z.eqb_eq in E as ->; split_and!; [done|exists {| mf_fd := -1; mf_size := 0; mf_filename := None; mf_map := None |}; unfold close_map; cbn; by rewrite Hf|by left]|].
  destruct (mc_mmap c) as [a|]; [|left; split; [lia|by rewrite Hf]].
  right. split; [done|]. split; [|right; exists a; cbn; by rewrite lookup_insert_eq].
  eexists. unfold close_map. cbn. rewrite lookup_insert_eq, decide_True by done. rewrite (proj2 (Z.ltb_ge _ _)) by lia.
  unfold drop_fd. cbn. by rewrite Hf, delete_insert_id by (by apply Hm).
Qed.

(** free_rules frees every rule, regular expression, array and ruleset that parse_rules has
    allocated, each exactly once, and nothing else. *)
Theorem rules_released base fr m : has_rules base fr m -> free_rules fr m = Ret base.
Proof.
  intros [|a ss m' Ha Hs]; [done|]. unfold free_rules. rewrite (has_sets_arrays _ _ _ a (ends ss) Hs) by (cbn; by rewrite lookup_insert_eq).
  rewrite (sets_loop_ok _ _ _ Hs). cbn. by apply free_array_ok.
Qed.
