(* ===== verification/Environ.v ===== *)
(** environ (features/runtime/src/environ/environ.c): prints the environment, reads it
    from a file and runs a program with it.

    init saves the environment of the kernel with [environ -q -u _,PWD,SHLVL] and
    rc.sysexec restores it with [environ -cf] for the init of the real system.

    The environment is the array [environ] without its NULL; [None] is the null pointer
    that clearenv leaves. A file that is mapped is followed by zero bytes up to the end
    of its last page, and reading behind that is [Undef]. *)

From Stdlib Require Import ZArith Ascii Lia.
From stdpp Require Import base list strings tactics.
From S2P Require Import Prelude CString.

Open Scope Z_scope.
Open Scope cprog_scope.

Definition QUOTE : ascii := "034"%char.
Definition BACKSLASH : ascii := "\"%char.
Definition NEWLINE : ascii := "010"%char.
Definition PAGE_SIZE : Z := 4096.

(** ** The C library *)

(** Whether an entry is one of the variable [name]. *)
Definition is_var (name e : bytes) : bool :=
  match strip_prefix (name ++ #"=") e with Some _ => true | None => false end.

Definition bad_name (name : bytes) : bool := bool_decide (name = []) || bool_decide ("="%char ∈ name).

Definition unsetenv (name : bytes) (env : list bytes) : list bytes :=
  if bad_name name then env else filter (fun e => is_var name e = false) env.

(** [setenv(name, value, 1)] *)
Fixpoint set_var (name value : bytes) (env : list bytes) : list bytes :=
  match env with
  | [] => [name ++ #"=" ++ value]
  | e :: env => if is_var name e then (name ++ #"=" ++ value) :: env else e :: set_var name value env
  end.
Definition setenv (name value : bytes) (env : option (list bytes)) : option (list bytes) :=
  if bad_name name then env else Some (set_var name value (default [] env)).

(** ** Printing *)

Definition special (c : ascii) : bool := bool_decide (c ∈ #"$`" ++ [QUOTE; BACKSLASH]).

Fixpoint escape (value : bytes) : bytes :=
  match value with
  | [] => []
  | c :: v => if special c then BACKSLASH :: c :: escape v else c :: escape v
  end.

Definition shell_name (name : bytes) : bool := forallb (fun c => bool_decide (c = "_"%char) || isalnum c) name.

Record options := { prefix : bytes; quote : bytes; shell : bool }.

Fixpoint show_environ (o : options) (env : list bytes) : out bytes :=
  match env with
  | [] => Ret []
  | e :: env =>
      match strchr "="%char e with
      | None => Undef
      | Some (name, value) =>
          let! rest := show_environ o env in
          Ret ((if shell o && negb (shell_name name) then []
                else prefix o ++ name ++ #"=" ++ quote o ++ (if decide (quote o = []) then value else escape value) ++ quote o ++ [NEWLINE])
               ++ rest)
      end
  end.

(** ** Reading a file *)

(** The bytes from the start of the mapping to the end of its last page. *)
Definition mapped (file : bytes) : bytes := file ++ replicate (Z.to_nat ((- lenZ file) mod PAGE_SIZE)) NUL.

Fixpoint skip_space (a : bytes) : out bytes :=
  match a with
  | [] => Undef
  | c :: a' => if isspace c then skip_space a' else Ret a
  end.

Fixpoint read_name (a : bytes) : out (bytes * bytes) :=
  match a with
  | [] => Undef
  | c :: a =>
      if decide (c = "="%char) then Ret ([], a)
      else if decide (c = NUL) then Die EXIT_FAILURE "expect '=' character"
      else let! r := read_name a in Ret (c :: r.1, r.2)
  end.

Fixpoint read_value (is_quote : bool) (a : bytes) : out (bytes * bytes) :=
  match a with
  | [] => Undef
  | c :: a' =>
      if decide (c = NUL) then Ret ([], a)
      else if is_quote then let! r := read_value false a' in Ret (c :: r.1, r.2)
      else if decide (c = QUOTE) then Ret ([], a)
      else if decide (c = BACKSLASH) then read_value true a'
      else let! r := read_value false a' in Ret (c :: r.1, r.2)
  end.

(** The quote that has to be there. *)
Definition expect_quote (a : bytes) (msg : string) : out bytes :=
  match a with
  | [] => Undef
  | c :: a => if decide (c = QUOTE) then Ret a else Die EXIT_FAILURE msg
  end.

Fixpoint set_loop (fuel : nat) (a : bytes) (env : option (list bytes)) : out (option (list bytes)) :=
  match fuel with
  | O => NoFuel
  | S fuel =>
      match a with
      | [] => Undef
      | c :: _ =>
          if decide (c = NUL) then Ret env else
          let! a := skip_space a in
          if decide (head a = Some NUL) then Ret env else
          let! n := read_name a in
          let! a := expect_quote n.2 "expect opening quote" in
          let! v := read_value false a in
          let! a := expect_quote v.2 "expect closing quote" in
          set_loop fuel a (setenv n.1 v.1 env)
      end
  end.

Definition set_environ (file : option bytes) (env : option (list bytes)) : out (option (list bytes)) :=
  match file with
  | None => Die EXIT_FAILURE "open"
  | Some [] => Ret env
  | Some s => set_loop (S (length (mapped s))) (mapped s) env
  end.

(** ** Removing variables *)

(** The length of the name, as envname holds it: 0 if there is no [=]. *)
Definition name_len (e : bytes) : Z := match strchr "="%char e with Some (n, _) => lenZ n | None => 0 end.

(** The pass for one pattern: a match makes the length negative. *)
Definition mark_pattern (env : list bytes) (marks : list Z) (pattern : bytes) : list Z :=
  zip_with (fun e j => if (j >? 0) && fnmatch_escape pattern (takeZ j e) then - j else j) env marks.

(** The last pass, from the end of the array down; [i] is the index above the next. *)
Fixpoint unset_loop (invert : bool) (marks : list Z) (i : nat) (env : list bytes) : list bytes :=
  match i with
  | O => env
  | S i =>
      unset_loop invert marks i
        (match env !! i, marks !! i with
         | Some e, Some m =>
             let j := if invert then (if m >? 0 then m else 0) else (if m <? 0 then - m else 0) in
             if j >? 0 then unsetenv (takeZ j e) env else env
         | _, _ => env
         end)
  end.

(** Without environment the loop reads through the null pointer. *)
Definition unset_environ (env : option (list bytes)) (patterns : bytes) (invert : bool) : out (option (list bytes)) :=
  match env with
  | None => Undef
  | Some env => Ret (Some (unset_loop invert (foldl (mark_pattern env) (name_len <$> env) (split_on ","%char patterns)) (length env) env))
  end.

(** ** main *)

Inductive opt := O_c | O_f (fname : bytes) | O_p (p : bytes) | O_q | O_s | O_i (p : bytes) | O_u (p : bytes) | O_h | O_unknown.

(** The program that is executed with the environment, or what is printed. *)
Inductive result := Exec (command : bytes) (env : list bytes) | Printed (text : bytes).

Section Main.
Context (files : bytes -> option bytes).

Fixpoint run_options (opts : list opt) (o : options) (env : option (list bytes)) : out (options * option (list bytes)) :=
  match opts with
  | [] => Ret (o, env)
  | x :: opts =>
      match x with
      | O_c => run_options opts o None
      | O_f fname => let! env := set_environ (files fname) env in run_options opts o env
      | O_p p => run_options opts {| prefix := p; quote := quote o; shell := shell o |} env
      | O_q => run_options opts {| prefix := prefix o; quote := [QUOTE]; shell := shell o |} env
      | O_s => run_options opts {| prefix := prefix o; quote := quote o; shell := true |} env
      | O_i p => let! env := unset_environ env p true in run_options opts o env
      | O_u p => let! env := unset_environ env p false in run_options opts o env
      | O_h => Die EXIT_SUCCESS ""
      | O_unknown => Die EXIT_FAILURE "usage"
      end
  end.

Definition environ_main (opts : list opt) (command : option bytes) (env : list bytes) : out result :=
  let! r := run_options opts {| prefix := []; quote := []; shell := false |} (Some env) in
  match command with
  | Some c => Ret (Exec c (default [] r.2))
  | None => let! t := show_environ r.1 (default [] r.2) in Ret (Printed t)
  end.
End Main.

(** ** Variables *)

Definition var := (bytes * bytes)%type.
Definition entry (v : var) : bytes := v.1 ++ #"=" ++ v.2.

(** What the kernel passes: no NUL, a name that does not start with a space. *)
Record var_ok (v : var) : Prop := {
  ok_eq : "="%char ∉ v.1;
  ok_nul : NUL ∉ v.1 /\ NUL ∉ v.2;
  ok_first : exists c n, v.1 = c :: n /\ isspace c = false;
}.

(** The variables that [-u patterns] leaves. *)
Definition kept (patterns : bytes) (invert : bool) (v : var) : bool :=
  eqb invert (existsb (fun p => fnmatch_escape p v.1) (split_on ","%char patterns)).

(** ** Lemmas on variables *)

Lemma strchr_entry v : var_ok v -> strchr "="%char (entry v) = Some v.
Proof. intros H. unfold entry. change (#"=" ++ v.2) with ("="%char :: v.2). rewrite strchr_app by apply H. by destruct v. Qed.

Lemma is_var_entry n v : "="%char ∉ n -> var_ok v -> is_var n (entry v) = bool_decide (n = v.1).
Proof.
  intros Hn Hv. unfold is_var. destruct (strip_prefix (n ++ #"=") (entry v)) as [t|] eqn:E.
  - apply strip_prefix_Some in E. symmetry. apply bool_decide_eq_true_2.
    pose proof (strchr_entry v Hv) as H. rewrite E, <- app_assoc in H. change (#"=" ++ t) with ("="%char :: t) in H.
    rewrite strchr_app in H by done. by injection H as <-.
  - symmetry. apply bool_decide_eq_false_2. intros ->.
    assert (strip_prefix (v.1 ++ #"=") (entry v) = Some v.2) by (apply strip_prefix_Some; unfold entry; by rewrite <- app_assoc). congruence.
Qed.

Lemma name_good v : var_ok v -> bad_name v.1 = false.
Proof.
  intros H. destruct (ok_first v H) as (c & n & E & _). unfold bad_name.
  rewrite (bool_decide_eq_false_2 (v.1 = [])) by (by rewrite E). rewrite bool_decide_eq_false_2 by apply H. done.
Qed.

Lemma set_var_new v vs : var_ok v -> Forall var_ok vs -> v.1 ∉ vs.*1 -> set_var v.1 v.2 (map entry vs) = map entry (vs ++ [v]).
Proof.
  intros Hv Hvs Hn. induction Hvs as [|w vs Hw Hvs IH]; cbn; [done|].
  rewrite fmap_cons, not_elem_of_cons in Hn. destruct Hn as [Hn1 Hn2].
  rewrite is_var_entry, bool_decide_eq_false_2 by (apply Hv || done). by rewrite IH.
Qed.

Lemma unsetenv_one pre v suf : Forall var_ok (pre ++ v :: suf) -> NoDup (pre ++ v :: suf).*1 ->
  unsetenv v.1 (map entry pre ++ entry v :: map entry suf) = map entry pre ++ map entry suf.
Proof.
  rewrite list.Forall_app, list.Forall_cons. intros (Hp & Hv & Hs) Hnd.
  rewrite fmap_app, fmap_cons, list.NoDup_app, list.NoDup_cons in Hnd. destruct Hnd as (_ & Hd & Hd2 & _).
  assert (Hkeep : forall l, Forall var_ok l -> v.1 ∉ l.*1 -> filter (fun e => is_var v.1 e = false) (map entry l) = map entry l).
  { intros l Hl Hx. induction Hl as [|w l Hw Hl IH]; [done|]. rewrite fmap_cons, not_elem_of_cons in Hx. destruct Hx as [Hx Hx2].
    cbn [map]. rewrite list.filter_cons, decide_True, IH; [done|done|].
    rewrite is_var_entry by (apply Hv || done). by apply bool_decide_eq_false_2. }
  unfold unsetenv. rewrite name_good by done. rewrite list.filter_app, list.filter_cons, decide_False, !Hkeep; [done|done|done|done| |].
  - intros Hx. apply (Hd v.1 Hx). apply elem_of_cons. by left.
  - rewrite is_var_entry by (apply Hv || done). by rewrite bool_decide_eq_true_2.
Qed.

(** ** Removing *)

Lemma name_len_entry v : var_ok v -> name_len (entry v) = lenZ v.1 /\ 0 < lenZ v.1 /\ takeZ (lenZ v.1) (entry v) = v.1.
Proof.
  intros Hv. unfold name_len. rewrite strchr_entry by done. split; [by destruct v|]. split.
  - destruct (ok_first v Hv) as (c & n & -> & _). rewrite lenZ_cons. pose proof (lenZ_nonneg n). lia.
  - by apply takeZ_app.
Qed.

(** The mark of a variable after the patterns. *)
Definition mark (ps : list bytes) (v : var) : Z := if existsb (fun p => fnmatch_escape p v.1) ps then - lenZ v.1 else lenZ v.1.

Lemma mark_all ps vs : Forall var_ok vs ->
  foldl (mark_pattern (map entry vs)) (name_len <$> map entry vs) ps = mark ps <$> vs.
Proof.
  intros Hvs. induction ps as [|p ps IH] using rev_ind.
  - cbn. rewrite <- list_fmap_compose. apply list_fmap_ext. intros i v Hi. cbn.
    eapply list.Forall_lookup_1 in Hvs; [|exact Hi]. by apply name_len_entry.
  - rewrite foldl_app, IH. cbn. unfold mark_pattern. clear IH. induction Hvs as [|v vs Hv Hvs IH]; [done|]. cbn. f_equal; [|exact IH].
    destruct (name_len_entry v Hv) as (_ & Hpos & Ht). unfold mark. rewrite existsb_app. cbn. rewrite orb_false_r.
    rewrite Z.gtb_ltb. destruct (existsb _ ps); cbn [orb].
    + destruct (Z.ltb_spec 0 (- lenZ v.1)); [lia|done].
    + destruct (Z.ltb_spec 0 (lenZ v.1)); [|lia]. cbn. by rewrite Ht.
Qed.

Lemma unset_loop_filter patterns invert pre suf marks : Forall var_ok (pre ++ suf) -> NoDup (pre ++ suf).*1 ->
  marks = mark (split_on ","%char patterns) <$> pre ++ suf ->
  unset_loop invert marks (length pre) (map entry pre ++ map entry (filter (fun v => kept patterns invert v = true) suf)) =
  map entry (filter (fun v => kept patterns invert v = true) (pre ++ suf)).
Proof.
  intros Hok Hnd Hm. revert suf Hok Hnd Hm. induction pre as [|v pre IH] using rev_ind; intros suf Hok Hnd Hm; [done|].
  rewrite <- app_assoc in Hok, Hnd, Hm |- *. cbn [app] in Hok, Hnd, Hm |- *. rewrite length_app, Nat.add_comm. cbn [Nat.add length unset_loop].
  assert (Hv : var_ok v) by (apply list.Forall_app in Hok as [_ [Hv _]%list.Forall_cons]; exact Hv).
  assert (He : (map entry (pre ++ [v]) ++ map entry (filter (fun v => kept patterns invert v = true) suf)) !! length pre = Some (entry v)).
  { rewrite map_app, <- app_assoc. rewrite lookup_app_r by (by rewrite length_map). by rewrite length_map, Nat.sub_diag. }
  assert (Hmk : marks !! length pre = Some (mark (split_on ","%char patterns) v))
    by (rewrite Hm, list_lookup_fmap, lookup_app_r, Nat.sub_diag; done).
  rewrite He, Hmk. destruct (name_len_entry v Hv) as (_ & Hpos & Ht).
  assert (Hj : forall env, (let j := if invert then (if mark (split_on ","%char patterns) v >? 0 then mark (split_on ","%char patterns) v else 0)
       else (if mark (split_on ","%char patterns) v <? 0 then - mark (split_on ","%char patterns) v else 0) in
      if j >? 0 then unsetenv (takeZ j (entry v)) env else env) = if kept patterns invert v then env else unsetenv v.1 env).
  { intros env. unfold mark, kept. cbv zeta. rewrite !Z.gtb_ltb.
    assert ((0 <? lenZ v.1) = true /\ (0 <? - lenZ v.1) = false /\ (lenZ v.1 <? 0) = false /\ (- lenZ v.1 <? 0) = true)
      as (E1 & E2 & E3 & E4) by (split_and!; zlia).
    destruct (existsb _ _), invert; cbn [eqb]; rewrite ?E1, ?E2, ?E3, ?E4, ?Z.opp_involutive, ?E1, ?Ht; done. }
  rewrite Hj. specialize (IH (v :: suf) Hok Hnd Hm). rewrite list.filter_cons in IH. rewrite map_app, <- app_assoc. cbn [map app].
  destruct (kept patterns invert v) eqn:Ek.
  - rewrite decide_True in IH by done. exact IH.
  - rewrite decide_False in IH by done. rewrite unsetenv_one; [exact IH| |].
    + apply list.Forall_app in Hok as [? [? ?]%list.Forall_cons]. apply list.Forall_app; split; [done|]. apply list.Forall_cons; split; [done|].
      apply list.Forall_forall. intros w [_ Hw]%list_elem_of_filter. by eapply list.Forall_forall.
    + eapply sublist_NoDup; [exact Hnd|]. apply fmap_sublist, sublist_app; [done|]. apply sublist_skip, sublist_filter.
Qed.

Lemma unset_environ_filter patterns invert vs : Forall var_ok vs -> NoDup vs.*1 ->
  unset_environ (Some (map entry vs)) patterns invert = Ret (Some (map entry (filter (fun v => kept patterns invert v = true) vs))).
Proof.
  intros Hok Hnd. unfold unset_environ. rewrite mark_all by done. do 2 f_equal.
  pose proof (unset_loop_filter patterns invert vs [] _ ltac:(by rewrite app_nil_r) ltac:(by rewrite app_nil_r) eq_refl) as H.
  cbn [filter map] in H. rewrite !app_nil_r in H. rewrite length_map. exact H.
Qed.

(** *** Printing and reading back *)

Definition line (v : var) : bytes := v.1 ++ #"=" ++ [QUOTE] ++ escape v.2 ++ [QUOTE; NEWLINE].
Definition text (vs : list var) : bytes := concat (map line vs).

Lemma show_quoted vs : Forall var_ok vs -> show_environ {| prefix := []; quote := [QUOTE]; shell := false |} (map entry vs) = Ret (text vs).
Proof.
  induction 1 as [|v vs Hv Hvs IH]; [done|]. cbn [map show_environ]. rewrite strchr_entry by done. destruct v as [n x]. rewrite IH. cbn.
  unfold text. cbn. unfold line. cbn. by rewrite <- !app_assoc.
Qed.

Lemma read_name_line n t : "="%char ∉ n -> NUL ∉ n -> read_name (n ++ "="%char :: t) = Ret (n, t).
Proof.
  induction n as [|c n IH]; [done|]. rewrite !not_elem_of_cons. intros [H1 H2] [H3 H4]. cbn.
  rewrite !decide_False by (intros ->; done). by rewrite IH.
Qed.

Lemma read_value_escape v t : NUL ∉ v -> read_value false (escape v ++ QUOTE :: t) = Ret (v, QUOTE :: t).
Proof.
  induction v as [|c v IH]; [done|]. rewrite not_elem_of_cons. intros [H1 H2]. cbn. unfold special. case_bool_decide as E; cbn.
  - rewrite (decide_False (P := BACKSLASH = NUL)), (decide_False (P := BACKSLASH = QUOTE)), (decide_True (P := BACKSLASH = BACKSLASH)),
      decide_False by (done || congruence). by rewrite IH.
  - rewrite !decide_False, IH; [done|done|..]; intros ->; try done; apply E; apply (bool_decide_unpack _); vm_compute; exact I.
Qed.

(** One variable is read, whatever follows. *)
Lemma set_loop_line f v a t env : var_ok v -> (a = [] \/ a = [NEWLINE]) ->
  set_loop (S f) (a ++ v.1 ++ #"=" ++ [QUOTE] ++ escape v.2 ++ QUOTE :: t) env = set_loop f t (setenv v.1 v.2 env).
Proof.
  intros Hv Ha. destruct (ok_first v Hv) as (c & n & E & Hc). destruct (ok_nul v Hv) as [H1 H2].
  assert (HcN : c <> NUL) by (intros ->; apply H1; rewrite E; apply elem_of_cons; by left).
  set (r := v.1 ++ #"=" ++ [QUOTE] ++ escape v.2 ++ QUOTE :: t).
  assert (Hr : exists r', r = c :: r') by (unfold r; rewrite E; by eexists). destruct Hr as [r' Hr].
  assert (Hn : read_name r = Ret (v.1, QUOTE :: escape v.2 ++ QUOTE :: t)) by (unfold r; apply read_name_line; apply Hv || done).
  assert (Hskip : skip_space (a ++ r) = Ret r) by (rewrite Hr; destruct Ha as [->| ->]; cbn; by rewrite Hc).
  destruct (a ++ r) as [|x y] eqn:Ear; [rewrite Hr in Ear; destruct Ha as [->| ->]; done|].
  assert (Hx : x <> NUL) by (rewrite Hr in Ear; destruct Ha as [->| ->]; cbn in Ear; by injection Ear as <- _).
  cbn [set_loop]. rewrite decide_False by done. rewrite Hskip. cbn [obind]. rewrite decide_False by (rewrite Hr; cbn; congruence).
  rewrite Hn. cbn [obind fst snd expect_quote]. rewrite decide_True by done. cbn [obind]. rewrite read_value_escape by done.
  cbn [obind fst snd expect_quote]. by rewrite decide_True.
Qed.

(** All of them, up to the zero bytes or to the end of the mapping. *)
Lemma set_loop_text f a vs ws t env : Forall var_ok (ws ++ vs) -> NoDup (ws ++ vs).*1 -> (a = [] \/ a = [NEWLINE]) ->
  default [] env = map entry ws ->
  exists env', default [] env' = map entry (ws ++ vs) /\
    set_loop (length vs + f) (a ++ text vs ++ t) env = set_loop f (match vs with [] => a | _ => [NEWLINE] end ++ t) env'.
Proof.
  revert f a ws env. induction vs as [|v vs IH]; intros f a ws env Hok Hnd Ha He.
  - exists env. rewrite app_nil_r. done.
  - replace (ws ++ v :: vs) with ((ws ++ [v]) ++ vs) in * by (by rewrite <- app_assoc).
    assert (Hws : Forall var_ok ws /\ var_ok v) by (apply list.Forall_app in Hok as [[Hw Hv]%list.Forall_app _]; split; [exact Hw|by apply list.Forall_singleton]).
    assert (Hn : v.1 ∉ ws.*1).
    { rewrite !fmap_app, list.NoDup_app in Hnd. destruct Hnd as ((_ & Hd & _)%list.NoDup_app & _). intros Hx. apply (Hd _ Hx).
      cbn. by apply list_elem_of_singleton. }
    assert (He' : default [] (setenv v.1 v.2 env) = map entry (ws ++ [v]))
      by (unfold setenv; rewrite name_good by apply Hws; cbn; rewrite He; apply set_var_new; apply Hws || done).
    destruct (IH f [NEWLINE] (ws ++ [v]) _ Hok Hnd ltac:(by right) He') as (env' & E1 & E2).
    exists env'. split; [done|]. cbn [length Nat.add].
    assert (Et : text (v :: vs) ++ t = v.1 ++ #"=" ++ [QUOTE] ++ escape v.2 ++ QUOTE :: [NEWLINE] ++ text vs ++ t)
      by (unfold text; cbn [map concat]; unfold line; rewrite <- !app_assoc; done).
    rewrite Et, set_loop_line by (apply Hws || done). rewrite E2. by destruct vs.
Qed.

Lemma text_nonempty vs : Forall var_ok vs -> vs <> [] -> text vs <> [].
Proof. intros [|v ws Hv _] H; [done|]. destruct (ok_first v Hv) as (c & n & E & _). unfold text. cbn. unfold line. by rewrite E. Qed.

Lemma set_environ_text vs env : Forall var_ok vs -> NoDup vs.*1 -> default [] env = [] ->
  (lenZ (text vs) mod PAGE_SIZE <> 0 \/ vs = [] -> exists env', set_environ (Some (text vs)) env = Ret env' /\ default [] env' = map entry vs) /\
  (lenZ (text vs) mod PAGE_SIZE = 0 -> vs <> [] -> set_environ (Some (text vs)) env = Undef).
Proof.
  intros Hok Hnd He. destruct (decide (vs = [])) as [->|Hne]; [split; [exists env; done|done]|].
  assert (Hs : set_environ (Some (text vs)) env = set_loop (S (length (mapped (text vs)))) (mapped (text vs)) env)
    by (unfold set_environ; pose proof (text_nonempty vs Hok Hne); by destruct (text vs)).
  assert (Hl : (length vs <= length (text vs))%nat).
  { clear. induction vs as [|v vs IH]; [done|]. unfold text in *. cbn [map concat length]. rewrite length_app.
    assert (1 <= length (line v))%nat; [|lia]. unfold line. rewrite !length_app. cbn [length]. lia. }
  rewrite Hs. unfold mapped. set (k := Z.to_nat _). set (N := S (length _)).
  assert (HN : exists f, N = (length vs + S f)%nat /\ (k <> 0%nat -> (0 < f)%nat)).
  { unfold N. exists (length (text vs) + k - length vs)%nat. rewrite length_app, length_replicate. lia. }
  destruct HN as (f & -> & Hf).
  destruct (set_loop_text (S f) [] vs [] (replicate k NUL) env Hok Hnd ltac:(by left) He) as (env' & E1 & E2).
  change ([] ++ ?x) with x in E2. rewrite E2. replace (match vs with [] => [] | _ => [NEWLINE] end) with [NEWLINE] by (by destruct vs). split.
  - intros [Hm|Hm]; [|done]. assert (Hk : k <> 0%nat).
    { unfold k, PAGE_SIZE in *. pose proof (Z.mod_pos_bound (- lenZ (text vs)) 4096). rewrite Z.mod_opp_l_nz in * by lia.
      pose proof (Z.mod_pos_bound (lenZ (text vs)) 4096). lia. }
    exists env'. split; [|done]. destruct k as [|k]; [done|]. done.
  - intros Hm _. unfold k. rewrite Z.mod_opp_l_z by (done || lia). done.
Qed.

(** ** Theorems *)

(** [environ -u patterns] removes exactly the variables whose name matches one of
    the patterns, and [-i patterns] exactly the others, although the array moves while
    it is read. *)
Theorem unset_environ_spec patterns invert vs : Forall var_ok vs -> NoDup vs.*1 ->
  unset_environ (Some (map entry vs)) patterns invert =
  Ret (Some (map entry (filter (fun v => invert = existsb (fun p => fnmatch_escape p v.1) (split_on ","%char patterns)) vs))).
Proof.
  intros Hok Hnd. rewrite unset_environ_filter by done. do 3 f_equal. apply list_filter_iff. intros v. unfold kept. by rewrite eqb_true_iff.
Qed.

(** C14. What [environ -q -u patterns] prints, [environ -cf] reads back: the program is
    run with exactly the variables that were printed, in their order and with their
    values, whatever characters they have. This needs a file whose size is not a
    multiple of the page size. *)
Theorem environ_restored files files' patterns vs env k command : Forall var_ok vs -> NoDup vs.*1 ->
  let saved := filter (fun v => existsb (fun p => fnmatch_escape p v.1) (split_on ","%char patterns) = false) vs in
  exists t, environ_main files [O_q; O_u patterns] None (map entry vs) = Ret (Printed t) /\
    (files' k = Some t -> lenZ t mod PAGE_SIZE <> 0 \/ t = [] ->
     environ_main files' [O_c; O_f k] (Some command) env = Ret (Exec command (map entry saved))).
Proof.
  intros Hok Hnd saved. assert (Hs : Forall var_ok saved) by (apply list.Forall_forall; intros w [_ Hw]%list_elem_of_filter; by eapply list.Forall_forall).
  assert (Hsn : NoDup saved.*1) by (eapply sublist_NoDup; [exact Hnd|apply fmap_sublist, sublist_filter]).
  exists (text saved). split.
  - unfold environ_main, run_options. rewrite unset_environ_filter by done. cbn [obind fst snd default from_option id prefix shell quote].
    replace (filter _ vs) with saved; [by rewrite show_quoted|].
    apply list_filter_iff. intros v. unfold kept. by destruct (existsb _ _).
  - intros Hk Ht. unfold environ_main, run_options. rewrite Hk.
    destruct (proj1 (set_environ_text saved None Hs Hsn eq_refl)) as (env' & E1 & E2).
    + destruct Ht as [Ht|Ht]; [by left|right]. destruct (decide (saved = [])); [done|]. by apply text_nonempty in Ht.
    + rewrite E1. cbn [obind fst snd]. by rewrite E2.
Qed.

(** If the size of the saved environment is a multiple of the page size, there is
    no zero byte behind it, and reading it back runs over the end of the mapping. *)
Theorem environ_page_overrun files files' vs env k command t : Forall var_ok vs -> NoDup vs.*1 -> vs <> [] ->
  environ_main files [O_q] None (map entry vs) = Ret (Printed t) -> lenZ t mod PAGE_SIZE = 0 -> files' k = Some t ->
  environ_main files' [O_c; O_f k] command env = Undef.
Proof.
  intros Hok Hnd Hne Ht Hm Hk. unfold environ_main, run_options in Ht |- *. cbn [obind fst snd default from_option id prefix shell quote] in Ht.
  rewrite show_quoted in Ht by done. injection Ht as <-. rewrite Hk.
  rewrite (proj2 (set_environ_text vs None Hok Hnd eq_refl)) by done. done.
Qed.

(** After [-c] there is no array, and [-u] reads through the null pointer. *)
Lemma clear_then_unset files patterns opts command env : environ_main files (O_c :: O_u patterns :: opts) command env = Undef.
Proof. done. Qed.

(** ** Examples *)

Definition example_env : list var := [(#"HOME", #"/"); (#"_", #"/init"); (#"msg", #"a $b `c` " ++ [QUOTE; BACKSLASH; NEWLINE; "="%char]); (#"PWD", [])].

Lemma example_env_ok : Forall var_ok example_env /\ NoDup example_env.*1.
Proof.
  split; [|apply (bool_decide_unpack _); vm_compute; exact I].
  repeat (apply list.Forall_cons; split; [split; [apply (bool_decide_unpack _); vm_compute; exact I
    |split; apply (bool_decide_unpack _); vm_compute; exact I|eexists _, _; split; reflexivity]|]). by apply list.Forall_nil.
Qed.

Lemma unset_environ_spec_witness :
  unset_environ (Some (map entry example_env)) #"_,PWD,SHLVL" false = Ret (Some (map entry [(#"HOME", #"/"); (#"msg", #"a $b `c` " ++ [QUOTE; BACKSLASH; NEWLINE; "="%char])])).
Proof. rewrite (unset_environ_spec #"_,PWD,SHLVL" false example_env (proj1 example_env_ok) (proj2 example_env_ok)). vm_compute. reflexivity. Defined.

Lemma environ_restored_witness : exists t,
  environ_main (fun _ => None) [O_q; O_u #"_,PWD,SHLVL"] None (map entry example_env) = Ret (Printed t) /\
  environ_main (fun _ => Some t) [O_c; O_f #"kernenv"] (Some #"/sbin/init") [] =
    Ret (Exec #"/sbin/init" (map entry [(#"HOME", #"/"); (#"msg", #"a $b `c` " ++ [QUOTE; BACKSLASH; NEWLINE; "="%char])])).
Proof.
  destruct (environ_restored (fun _ => None) (fun _ => Some (line (#"HOME", #"/") ++ line (#"msg", #"a $b `c` " ++ [QUOTE; BACKSLASH; NEWLINE; "="%char])))
    #"_,PWD,SHLVL" example_env [] #"kernenv" #"/sbin/init" (proj1 example_env_ok) (proj2 example_env_ok)) as (t & H1 & H2).
  vm_compute in H1. injection H1 as <-. eexists. split; [vm_compute; reflexivity|].
  etrans; [|apply H2; [reflexivity|left; vm_compute; discriminate]]. reflexivity.
Defined.

Lemma environ_page_overrun_witness :
  environ_main (fun _ => Some (line (#"A", replicate 4091 "x"%char))) [O_c; O_f #"kernenv"] None [] = Undef.
Proof.
  apply (environ_page_overrun (fun _ => None) (fun _ => Some (line (#"A", replicate 4091 "x"%char))) [(#"A", replicate 4091 "x"%char)] [] #"kernenv" None
    (line (#"A", replicate 4091 "x"%char))).
  - apply list.Forall_singleton. split; [apply (bool_decide_unpack _); vm_compute; exact I
      |split; apply (bool_decide_unpack _); vm_compute; exact I|eexists _, _; split; reflexivity].
  - apply (bool_decide_unpack _). vm_compute. exact I.
  - discriminate.
  - vm_compute. reflexivity.
  - vm_compute. reflexivity.
  - reflexivity.
Defined.
