(* ===== verification/NfsRpc.v ===== *)
(** The remote procedure calls of nfsmount (features/runtime/src/nfsmount):

    - sunrpc.c, the calls over TCP and UDP: [rpc_header], [rpc_do_reply],
      [rpc_call_tcp], [rpc_call_udp], [bindanyprivport], [tcp_client], [udp_client];
    - portmap.c, the question for the port of a program: [portmap];
    - dummypmap.c, a stand-in for the portmapper that the kernel asks: [get_auth],
      [check_unix_cred], [dummy_packet].

    A message is the bytes of its struct in memory, with the fragment header in front
    that only TCP sends. Reading a field outside of them is [Undef]. What the network
    answers is a parameter. *)

From Stdlib Require Import ZArith Ascii Lia.
From stdpp Require Import base list strings tactics.
From S2P Require Import Prelude.

Open Scope Z_scope.
Open Scope cprog_scope.

(** ** Words in network order *)

Definition byte_of (z : Z) : ascii := ascii_of_nat (Z.to_nat (z mod 256)).
Definition be32 (z : Z) : bytes := [byte_of (z / 2 ^ 24); byte_of (z / 2 ^ 16); byte_of (z / 2 ^ 8); byte_of z].

(** [ntohl] of the word at an offset. *)
Definition rd32 (p : bytes) (off : Z) : out Z :=
  if off <? 0 then Undef else
  match dropZ off p with
  | a :: b :: c :: d :: _ => Ret (((ord a * 256 + ord b) * 256 + ord c) * 256 + ord d)
  | _ => Undef
  end.

Definition words (l : list Z) : bytes := concat (map be32 l).

(** ** sunrpc.h *)

Definition RPC_CALL : Z := 0.
Definition RPC_REPLY : Z := 1.
Definition RPC_PMAP_PROGRAM : Z := 100000.
Definition RPC_PMAP_VERSION : Z := 2.
Definition RPC_PMAP_PORT : Z := 111.
Definition PMAP_PROC_NULL : Z := 0.
Definition PMAP_PROC_SET : Z := 1.
Definition PMAP_PROC_UNSET : Z := 2.
Definition PMAP_PROC_GETPORT : Z := 3.
Definition PMAP_PROC_DUMP : Z := 4.
Definition LAST_FRAG : Z := 2 ^ 31.
Definition REPLY_OK : Z := 0.
Definition REPLY_DENIED : Z := 1.
Definition PROG_UNAVAIL : Z := 1.
Definition PROG_MISMATCH : Z := 2.
Definition PROC_UNAVAIL : Z := 3.
Definition SYSTEM_ERR : Z := 5.
Definition AUTH_NULL : Z := 0.
Definition AUTH_UNIX : Z := 1.
Definition CLI_RESVPORT : Z := 1.
Definition IPPROTO_TCP : Z := 6.
Definition IPPROTO_UDP : Z := 17.

(** The size of struct rpc_reply, and the offset of the part that UDP sends. *)
Definition RPC_REPLY_SIZE : Z := 28.
Definition UDP_HDR_OFF : Z := 4.

(** rpc_header: the message with its first four words filled in; [body] is the rest of
    the struct behind rpc_vers. *)
Definition rpc_header (call_len xid : Z) (body : bytes) : bytes :=
  words [Z.lor LAST_FRAG (call_len - 4); xid; RPC_CALL; 2] ++ body.

(** ** The reply *)

(** The buffer of the caller and rpc->reply_len. *)
Record reply := { rbuf : bytes; reply_len : Z }.

(** What read returns: [None] is -1. *)
Definition read_result := option bytes.

(** The bytes that arrive overwrite the buffer from [off] on. *)
Definition store (buf : bytes) (off : Z) (d : bytes) : bytes := takeZ off buf ++ d ++ dropZ (off + lenZ d) buf.

(** [true] is a result of 0. *)
Definition rpc_do_reply (xid : Z) (r : reply) (off : Z) (rd : read_result) : out (bool * reply) :=
  match rd with
  | None => Ret (false, r)
  | Some d =>
      let d := takeZ (reply_len r - off) d in
      let buf := store (rbuf r) off d in
      if lenZ d <? RPC_REPLY_SIZE - off then Ret (false, {| rbuf := buf; reply_len := reply_len r |})
      else
        let r := {| rbuf := buf; reply_len := lenZ d + off |} in
        let! frag := rd32 buf 0 in
        let! rxid := rd32 buf 4 in
        let! msg_type := rd32 buf 8 in
        let! state := rd32 buf 24 in
        if ((off =? 0) && (Z.land frag LAST_FRAG =? 0)) || negb (rxid =? xid) || negb (msg_type =? RPC_REPLY) then Ret (false, r)
        else Ret (state =? REPLY_OK, r)
  end.

(** ** Calls *)

(** How one call goes on the network: what write returns at each try (-1 is an error),
    what poll finds at each try, and what TCP reads. *)
Inductive poll_result := PollError | PollTimeout | PollReady (rd : read_result).
Record peer := { p_write : nat -> Z; p_poll : nat -> poll_result; p_read : read_result }.

Definition rpc_call_tcp (w : peer) (xid : Z) (call : bytes) (r : reply) : out (bool * reply) :=
  if p_write w 0 =? -1 then Ret (false, r)
  else if p_write w 0 <? lenZ call then Ret (false, r)
  else rpc_do_reply xid r 0 (p_read w).

Definition MAX_TRIES : nat := 100.

(** Both loops, which share their counter: [n] tries are left, and the message is sent
    again after a timeout but not after a bad reply. The third result counts the
    messages that were sent. *)
Fixpoint udp_tries (n : nat) (w : peer) (xid len : Z) (send : bool) (r : reply) : out (bool * reply * nat) :=
  match n with
  | O => Ret (false, r, 0%nat)
  | S n =>
      let i := (MAX_TRIES - S n)%nat in
      if send && ((p_write w i =? -1) || (p_write w i <? len)) then Ret (false, r, 0%nat)
      else
        let sent := if send then 1%nat else 0%nat in
        match p_poll w i with
        | PollError => Ret (false, r, sent)
        | PollTimeout => let! x := udp_tries n w xid len true r in Ret (x.1.1, x.1.2, (sent + x.2)%nat)
        | PollReady rd =>
            let! y := rpc_do_reply xid r UDP_HDR_OFF rd in
            if y.1 then Ret (true, y.2, sent)
            else let! x := udp_tries n w xid len false y.2 in Ret (x.1.1, x.1.2, (sent + x.2)%nat)
        end
  end.

Definition rpc_call_udp (w : peer) (xid : Z) (call : bytes) (r : reply) : out (bool * reply * nat) :=
  udp_tries MAX_TRIES w xid (lenZ call - UDP_HDR_OFF) true r.

(** ** Clients *)

Definition EADDRINUSE : Z := 98.
Definition LOWPORT : Z := 512.
Definition ENDPORT : Z := 1023.

(** [bind] gives the errno for a port, 0 for success; the port that was bound. *)
Fixpoint bind_from (n : nat) (bind : Z -> Z) (port : Z) : option Z :=
  match n with
  | O => None
  | S n =>
      if port <=? ENDPORT then
        if bind port =? 0 then Some port
        else if bind port =? EADDRINUSE then bind_from n bind (port + 1) else None
      else None
  end.
Definition bindanyprivport (bind : Z -> Z) : option Z := bind_from (Z.to_nat (ENDPORT - LOWPORT + 1)) bind LOWPORT.

Inductive transport := TCP | UDP.

(** The network, call by call: whether socket and connect succeed, bind, the number of
    lrand48 and how the peer answers a message. *)
Record network := {
  n_socket : nat -> bool;
  n_bind : nat -> Z -> Z;
  n_connect : nat -> transport -> Z -> bool;
  n_xid : nat -> Z;
  n_peer : nat -> transport -> Z -> bytes -> peer;
}.

(** tcp_client and udp_client: whether there is a client; [t] is the time, the number
    of clients so far. *)
Definition make_client (net : network) (t : nat) (tr : transport) (port flags : Z) : bool :=
  n_socket net t &&
  (if Z.land flags CLI_RESVPORT =? 0 then true else match bindanyprivport (n_bind net t) with Some _ => true | None => false end) &&
  n_connect net t tr port.
Definition tcp_client (net : network) (t : nat) (port flags : Z) : bool := make_client net t TCP port flags.
Definition udp_client (net : network) (t : nat) (port flags : Z) : bool := make_client net t UDP port flags.

(** rpc_call through the stub of the client; [body] is the message behind rpc_vers. *)
Definition rpc_call (net : network) (t : nat) (tr : transport) (port : Z) (body : bytes) (r : reply) : out (bool * reply) :=
  let xid := n_xid net t in
  let call := rpc_header (lenZ body + 16) xid body in
  match tr with
  | TCP => rpc_call_tcp (n_peer net t TCP port call) xid call r
  | UDP => let! x := rpc_call_udp (n_peer net t UDP port (dropZ UDP_HDR_OFF call)) xid call r in Ret x.1
  end.

(** ** portmap.c *)

(** struct portmap_call behind rpc_vers. *)
Definition portmap_body (program version proto : Z) : bytes :=
  words [RPC_PMAP_PROGRAM; RPC_PMAP_VERSION; PMAP_PROC_GETPORT; 0; 0; 0; 0; program; version; proto; 0].
Definition PORTMAP_REPLY_SIZE : Z := 32.

(** The port, 0 if there is none, and the time. *)
Definition portmap (net : network) (t : nat) (program version proto : Z) : out (Z * nat) :=
  let ask (tr : transport) (t : nat) :=
    let! x := rpc_call net t tr RPC_PMAP_PORT (portmap_body program version proto)
                {| rbuf := replicate 32 NUL; reply_len := PORTMAP_REPLY_SIZE |} in
    if x.1 then
      if reply_len x.2 <? PORTMAP_REPLY_SIZE then Ret (0, S t)
      else let! port := rd32 (rbuf x.2) 28 in Ret (port, S t)
    else Ret (0, S t) in
  if tcp_client net t RPC_PMAP_PORT 0 then ask TCP t
  else if udp_client net (S t) RPC_PMAP_PORT 0 then ask UDP (S t)
  else Ret (0, S (S t)).

(** ** dummypmap.c

    The packet is what recvfrom stores from [hdr.udp] on, so an offset in the packet is
    4 less than the offset in struct rpc_call. *)

Definition get_auth (p : bytes) (auth : Z) : out (option Z) :=
  let! flavor := rd32 p auth in
  if (flavor =? AUTH_NULL) || (flavor =? AUTH_UNIX)
  then let! len := rd32 p (auth + 4) in Ret (Some (auth + 8 + len))
  else Ret None.

(** [true] is a result of 0. *)
Definition check_unix_cred (p : bytes) (cred : Z) : out bool :=
  let! len := rd32 p (cred + 4) in
  let quad_len := Z.shiftr (u32 (len + 3)) 2 in
  if quad_len <? 6 then Ret false else
  let base := cred + 8 in
  let! node_name_len := rd32 p (base + 4) in
  let quad_name_len := Z.shiftr (u32 (node_name_len + 3)) 2 in
  let pos := base + 8 in
  if pos + 4 * (quad_name_len + 3) >? base + 4 * quad_len then Ret false else
  let pos := pos + 4 * quad_name_len in
  let! uid := rd32 p pos in
  if negb (uid =? 0) then Ret false else
  let! gid := rd32 p (pos + 4) in
  Ret (gid =? 0).

Definition check_cred (p : bytes) (cred : Z) : out bool :=
  let! flavor := rd32 p cred in
  if flavor =? AUTH_NULL then Ret true
  else if flavor =? AUTH_UNIX then check_unix_cred p cred
  else Ret false.

Definition check_vrf (p : bytes) (vrf : Z) : out bool := let! flavor := rd32 p vrf in Ret (flavor =? AUTH_NULL).

Definition protoname (proto : Z) : bytes := if proto =? IPPROTO_TCP then #"tcp" else #"udp".

(** The size of struct portmap_call, and of struct portmap_args. *)
Definition PORTMAP_CALL_SIZE : Z := 60.
Definition ARGS_SIZE : Z := 16.

(** The four tests on the credentials: where the arguments are, if they can be used. *)
Definition call_args (p : bytes) : out (option Z) :=
  let cred := 24 in
  let! v := get_auth p cred in
  match v with
  | None => Ret None
  | Some vrf =>
      if vrf >? lenZ p - 8 - ARGS_SIZE then Ret None else
      let! a := get_auth p vrf in
      match a with
      | None => Ret None
      | Some args =>
          if args >? lenZ p - ARGS_SIZE then Ret None else
          let! c := check_cred p cred in
          if negb c then Ret None else
          let! w := check_vrf p vrf in
          Ret (if w then Some args else None)
      end
  end.

(** The line that a successful PMAP_PROC_SET leaves in the file. *)
Definition set_line (program version proto port : Z) : bytes :=
  fmt_u 0 program ++ #" " ++ fmt_u 0 version ++ #" " ++ protoname proto ++ #" " ++ fmt_u 0 port ++ ["010"%char].

(** The reply to a call that is understood: reply_state, port and the new line. *)
Definition portmap_proc (p : bytes) (args proc : Z) : out (Z * Z * bytes) :=
  if proc =? PMAP_PROC_SET then
    let! proto := rd32 p (args + 8) in
    if (proto =? IPPROTO_TCP) || (proto =? IPPROTO_UDP) then
      let! program := rd32 p args in
      let! version := rd32 p (args + 4) in
      let! port := rd32 p (args + 12) in
      Ret (0, 1, set_line program version proto port)
    else Ret (0, 0, [])
  else if proc =? PMAP_PROC_UNSET then Ret (0, 1, [])
  else if (proc =? PMAP_PROC_NULL) || (proc =? PMAP_PROC_GETPORT) || (proc =? PMAP_PROC_DUMP) then Ret (0, 0, [])
  else Ret (PROC_UNAVAIL, 0, []).

(** One round of the loop of dummy_portmap: the packet that is sent back, if any, and
    what is added to the file. *)
Definition dummy_packet (p : bytes) : out (option bytes * bytes) :=
  if lenZ p + 4 <? PORTMAP_CALL_SIZE then Ret (None, []) else
  let! msg_type := rd32 p 4 in
  if negb (msg_type =? RPC_CALL) then Ret (None, []) else
  let! xid := rd32 p 0 in
  let send (r : Z * Z * bytes) := Ret (Some (words [xid; RPC_REPLY; r.1.1; 0; 0; 0; r.1.2]), r.2) in
  let! rpc_vers := rd32 p 8 in
  if negb (rpc_vers =? 2) then send (REPLY_DENIED, 0, []) else
  let! program := rd32 p 12 in
  if negb (program =? RPC_PMAP_PROGRAM) then send (PROG_UNAVAIL, 0, []) else
  let! prog_vers := rd32 p 16 in
  if negb (prog_vers =? 2) then send (PROG_MISMATCH, 0, []) else
  let! a := call_args p in
  match a with
  | None => send (SYSTEM_ERR, 0, [])
  | Some args =>
      let! proc := rd32 p 20 in
      let! r := portmap_proc p args proc in
      send r
  end.

(** The loop, up to the first error of recvfrom: the packets sent and the file. *)
Inductive recv := RecvError | RecvInterrupted | Recv (p : bytes).
Fixpoint dummy_portmap (l : list recv) (file : bytes) : out (list bytes * bytes) :=
  match l with
  | [] | RecvError :: _ => Ret ([], file)
  | RecvInterrupted :: l => dummy_portmap l file
  | Recv p :: l =>
      let! r := dummy_packet p in
      let! x := dummy_portmap l (file ++ r.2) in
      Ret (match r.1 with Some q => q :: x.1 | None => x.1 end, x.2)
  end.

(** start_dummy_portmap: [Some true] is a child that answers, [Some false] that it is
    not needed, [None] an error. *)
Definition EINVAL : Z := 22.
Definition start_dummy_portmap (fopen_ok : bool) (bind_errno : Z) (fork_ok : bool) : option bool :=
  if negb fopen_ok then None
  else if negb (bind_errno =? 0) then (if (bind_errno =? EINVAL) || (bind_errno =? EADDRINUSE) then Some false else None)
  else if fork_ok then Some true else None.

(** ** Reading words *)

Lemma ord_range c : 0 <= ord c < 256.
Proof. unfold ord. pose proof (nat_ascii_bounded c). lia. Qed.

Lemma rd32_in p off : 0 <= off -> off + 4 <= lenZ p -> exists z, rd32 p off = Ret z /\ 0 <= z < 2 ^ 32.
Proof.
  intros H1 H2. unfold rd32. rewrite (proj2 (Z.ltb_ge _ _)) by lia. pose proof (lenZ_dropZ off p ltac:(lia)) as Hl.
  destruct (dropZ off p) as [|a [|b [|c [|d t]]]]; rewrite ?lenZ_cons, ?lenZ_nil in Hl; try lia.
  eexists. split; [done|]. pose proof (ord_range a). pose proof (ord_range b). pose proof (ord_range c). pose proof (ord_range d). lia.
Qed.

Lemma ord_byte_of z : ord (byte_of z) = z mod 256.
Proof.
  unfold ord, byte_of. pose proof (Z.mod_pos_bound z 256 ltac:(lia)). rewrite nat_ascii_embedding by lia. lia.
Qed.

Lemma rd32_at a z b : 0 <= z < 2 ^ 32 -> rd32 (a ++ be32 z ++ b) (lenZ a) = Ret z.
Proof.
  intros Hz. unfold rd32. pose proof (lenZ_nonneg a). rewrite (proj2 (Z.ltb_ge _ _)) by lia. rewrite dropZ_app. unfold be32. cbn.
  rewrite !ord_byte_of. f_equal. Z.div_mod_to_equations. lia.
Qed.

Lemma lenZ_words l : lenZ (words l) = 4 * lenZ l.
Proof. unfold words. induction l as [|z l IH]; [done|]. cbn [map concat]. rewrite lenZ_app, IH, lenZ_cons. change (lenZ (be32 z)) with 4. lia. Qed.

(** A word of a message that starts with words, behind [a]. *)
Lemma rd32_words a l k z t off : l !! k = Some z -> 0 <= z < 2 ^ 32 -> off = lenZ a + 4 * Z.of_nat k -> rd32 (a ++ words l ++ t) off = Ret z.
Proof.
  intros Hk Hz ->. apply list_elem_of_split_length in Hk as (l1 & l2 & -> & ->).
  replace (a ++ words (l1 ++ z :: l2) ++ t) with ((a ++ words l1) ++ be32 z ++ words l2 ++ t).
  - replace (lenZ a + _) with (lenZ (a ++ words l1)); [by apply rd32_at|]. rewrite lenZ_app, lenZ_words. unfold lenZ. lia.
  - unfold words. rewrite map_app, concat_app. cbn [map concat]. by rewrite <- !app_assoc.
Qed.

(** A read at an offset that the context bounds. *)
Ltac read_word :=
  match goal with
  | |- context [rd32 ?p ?off] =>
      let z := fresh "z" in let E := fresh "E" in let R := fresh "R" in
      destruct (rd32_in p off) as (z & E & R); [lia|lia|rewrite E; cbn [obind]]
  end.

(** ** The stand-in for the portmapper *)

Lemma get_auth_in p auth : 0 <= auth -> auth + 8 <= lenZ p ->
  exists r, get_auth p auth = Ret r /\ (forall x, r = Some x -> auth + 8 <= x /\ rd32 p (auth + 4) = Ret (x - auth - 8)).
Proof.
  intros H1 H2. unfold get_auth. read_word. destruct (_ || _); [|by eexists].
  read_word. eexists. split; [done|]. intros x [= <-]. split; [lia|]. f_equal. lia.
Qed.

(** What the tests on the credentials leave: arguments inside of the packet. *)
Lemma check_unix_cred_in p cred len : 0 <= cred -> rd32 p (cred + 4) = Ret len -> 0 <= len -> cred + 8 + len + 3 <= lenZ p ->
  lenZ p < 2 ^ 31 -> exists b, check_unix_cred p cred = Ret b.
Proof.
  intros H1 H2 H3 H4 H5. unfold check_unix_cred. rewrite H2. cbn [obind]. rewrite Z.shiftr_div_pow2 by lia.
  rewrite (u32_small (len + 3)) by lia. change (2 ^ 2) with 4. destruct (Z.ltb_spec ((len + 3) / 4) 6); [by eexists|].
  assert (24 <= len + 3 /\ 4 * ((len + 3) / 4) <= len + 3) as [H6 H7] by (Z.div_mod_to_equations; lia).
  read_word. rewrite Z.shiftr_div_pow2 by lia. change (2 ^ 2) with 4. set (q := u32 (z + 3) / 4).
  assert (0 <= q) by (unfold q; pose proof (u32_range (z + 3)); Z.div_mod_to_equations; lia).
  rewrite Z.gtb_ltb. destruct (Z.ltb_spec (cred + 8 + 4 * ((len + 3) / 4)) (cred + 8 + 8 + 4 * (q + 3))); [by eexists|].
  read_word. destruct (negb _); [by eexists|]. read_word. by eexists.
Qed.

Lemma call_args_in p : 56 <= lenZ p < 2 ^ 31 -> exists r, call_args p = Ret r /\ (forall a, r = Some a -> 0 <= a /\ a + 16 <= lenZ p).
Proof.
  intros Hp. unfold call_args. destruct (get_auth_in p 24) as (v & -> & Hv); [lia|lia|]. cbn [obind].
  destruct v as [vrf|]; [|by eexists]. destruct (Hv vrf eq_refl) as [Hv1 Hv2]. rewrite Z.gtb_ltb. unfold ARGS_SIZE in *.
  destruct (Z.ltb_spec (lenZ p - 8 - 16) vrf); [by eexists|].
  destruct (get_auth_in p vrf) as (a & -> & Ha); [lia|lia|]. cbn [obind]. destruct a as [args|]; [|by eexists].
  destruct (Ha args eq_refl) as [Ha1 _]. rewrite Z.gtb_ltb. destruct (Z.ltb_spec (lenZ p - 16) args); [by eexists|].
  assert (Hc : exists b, check_cred p 24 = Ret b).
  { unfold check_cred. read_word. repeat case_match; try (by eexists).
    eapply check_unix_cred_in; [lia|exact Hv2|lia|lia|lia]. }
  destruct Hc as [c ->]. cbn [obind]. destruct (negb c); [by eexists|]. unfold check_vrf. read_word.
  eexists. split; [done|]. intros x. case_match; [|done]. intros [= <-]. lia.
Qed.

Lemma portmap_proc_in p args proc : 0 <= args -> args + 16 <= lenZ p -> exists r, portmap_proc p args proc = Ret r.
Proof.
  intros H1 H2. unfold portmap_proc. destruct (proc =? PMAP_PROC_SET); [|repeat case_match; by eexists].
  read_word. destruct (_ || _); [|by eexists]. do 3 read_word. by eexists.
Qed.

Lemma dummy_packet_in p : lenZ p <= 65536 -> exists r, dummy_packet p = Ret r /\
  (forall q, r.1 = Some q -> exists xid state ok, rd32 p 0 = Ret xid /\ q = words [xid; RPC_REPLY; state; 0; 0; 0; ok]).
Proof.
  intros Hp. unfold dummy_packet, PORTMAP_CALL_SIZE. destruct (Z.ltb_spec (lenZ p + 4) 60); [by eexists|].
  read_word. destruct (negb _); [by eexists|]. read_word.
  assert (Hsend : forall x : Z * Z * bytes, exists r, Ret (Some (words [z0; RPC_REPLY; x.1.1; 0; 0; 0; x.1.2]), x.2) = Ret r /\
    (forall q, r.1 = Some q -> exists xid state ok, Ret z0 = Ret xid /\ q = words [xid; RPC_REPLY; state; 0; 0; 0; ok]))
    by (intros x; eexists; split; [done|]; intros q [= <-]; by eexists _, _, _).
  do 3 (read_word; destruct (negb _); [exact (Hsend _)|]).
  destruct (call_args_in p) as (a & -> & Ha); [lia|]. cbn [obind]. destruct a as [args|]; [|exact (Hsend _)].
  destruct (Ha args eq_refl). read_word. destruct (portmap_proc_in p args z4) as [r ->]; [lia|lia|]. exact (Hsend r).
Qed.

Lemma dummy_portmap_in l file : Forall (fun r => match r with Recv p => lenZ p <= 65536 | _ => True end) l ->
  exists sent file', dummy_portmap l file = Ret (sent, file') /\ (length sent <= length l)%nat.
Proof.
  intros Hl. revert file. induction Hl as [|r l Hr Hl IH]; intros file; [by eexists _, _|].
  destruct r as [| |p]; cbn [dummy_portmap length].
  - eexists _, _. split; [done|]. cbn. lia.
  - destruct (IH file) as (s & f & -> & ?). eexists _, _. split; [done|]. lia.
  - destruct (dummy_packet_in p Hr) as (x & -> & _). cbn [obind]. destruct (IH (file ++ x.2)) as (s & f & -> & ?). cbn [obind fst snd].
    eexists _, _. split; [done|]. destruct x.1; cbn; lia.
Qed.

(** *** Calls of the kernel *)

(** Credentials with a body: none, or those of root on some machine. *)
Definition root_cred (flavor : Z) (body : bytes) : Prop :=
  flavor = AUTH_NULL \/
  (flavor = AUTH_UNIX /\ exists stamp name nlen gids, body = words [stamp; nlen] ++ name ++ words (0 :: 0 :: lenZ gids :: gids) /\
     0 <= nlen < 2 ^ 31 /\ lenZ name = 4 * ((nlen + 3) / 4) /\ (0 < nlen \/ gids <> [])).

Definition pmap_call (xid proc flavor : Z) (body : bytes) (program version proto port : Z) : bytes :=
  words [xid; RPC_CALL; 2; RPC_PMAP_PROGRAM; 2; proc; flavor; lenZ body] ++ body ++ words [AUTH_NULL; 0; program; version; proto; port].

Section PmapCall.
Variables (xid proc flavor : Z) (body : bytes) (program version proto port : Z).
Hypothesis Hbody : lenZ body < 2 ^ 31.
Let p := pmap_call xid proc flavor body program version proto port.

Lemma pmap_call_len : lenZ p = 56 + lenZ body.
Proof. unfold p, pmap_call. rewrite !lenZ_app, !lenZ_words. autorewrite with lenz. lia. Qed.

Lemma pmap_call_head k z off : [xid; RPC_CALL; 2; RPC_PMAP_PROGRAM; 2; proc; flavor; lenZ body] !! k = Some z -> 0 <= z < 2 ^ 32 ->
  off = 4 * Z.of_nat k -> rd32 p off = Ret z.
Proof. intros Hk Hz ->. by apply (rd32_words [] _ k). Qed.

Lemma pmap_call_tail k z off : [AUTH_NULL; 0; program; version; proto; port] !! k = Some z -> 0 <= z < 2 ^ 32 ->
  off = 32 + lenZ body + 4 * Z.of_nat k -> rd32 p off = Ret z.
Proof.
  intros Hk Hz ->. unfold p, pmap_call. rewrite app_assoc, <- (app_nil_r (words [AUTH_NULL; _; _; _; _; _])).
  apply (rd32_words _ _ k); [done|done|]. rewrite lenZ_app, lenZ_words. autorewrite with lenz. lia.
Qed.

(** A word of the body. *)
Lemma pmap_call_body a l t k z off : body = a ++ words l ++ t -> l !! k = Some z -> 0 <= z < 2 ^ 32 ->
  off = 32 + lenZ a + 4 * Z.of_nat k -> rd32 p off = Ret z.
Proof.
  intros Hb Hk Hz ->. unfold p, pmap_call. rewrite Hb at 2. rewrite <- !app_assoc, (app_assoc (words _) a).
  apply (rd32_words _ _ k); [done|done|]. rewrite lenZ_app, lenZ_words. autorewrite with lenz. lia.
Qed.

Hypothesis Hcred : root_cred flavor body.

Lemma flavor_range : 0 <= flavor < 2 ^ 32.
Proof. unfold root_cred, AUTH_NULL, AUTH_UNIX in Hcred. lia. Qed.

Lemma pmap_check_unix_cred stamp name nlen gids : body = words [stamp; nlen] ++ name ++ words (0 :: 0 :: lenZ gids :: gids) ->
  0 <= nlen < 2 ^ 31 -> lenZ name = 4 * ((nlen + 3) / 4) -> (0 < nlen \/ gids <> []) -> check_unix_cred p 24 = Ret true.
Proof.
  intros Hb Hn Hname Hne. pose proof (lenZ_nonneg body) as Hl0. pose proof (lenZ_nonneg gids) as Hg.
  assert (Hl : lenZ body = 8 + lenZ name + 4 * (3 + lenZ gids))
    by (rewrite Hb, !lenZ_app, !lenZ_words; autorewrite with lenz; lia).
  assert (Hq : 6 <= 5 + (nlen + 3) / 4 + lenZ gids).
  { destruct Hne as [H|H]; [Z.div_mod_to_equations; lia|]. destruct gids; [done|]. rewrite lenZ_cons in *. pose proof (lenZ_nonneg gids).
    Z.div_mod_to_equations; lia. }
  unfold check_unix_cred. rewrite (pmap_call_head 7 (lenZ body)) by (done || lia). cbn [obind].
  rewrite !Z.shiftr_div_pow2 by lia. change (2 ^ 2) with 4. rewrite (u32_small (lenZ body + 3)) by lia.
  assert (E : (lenZ body + 3) / 4 = 5 + (nlen + 3) / 4 + lenZ gids) by (Z.div_mod_to_equations; lia). rewrite E.
  rewrite (proj2 (Z.ltb_ge _ _)) by lia.
  rewrite (pmap_call_body [] [stamp; nlen] (name ++ words (0 :: 0 :: lenZ gids :: gids)) 1 nlen) by (done || lia). cbn [obind].
  rewrite !Z.shiftr_div_pow2 by lia. change (2 ^ 2) with 4. rewrite (u32_small (nlen + 3)) by lia. rewrite Z.gtb_ltb, (proj2 (Z.ltb_ge _ _)) by lia.
  assert (Hw : forall k off, (k < 2)%nat -> off = 40 + lenZ name + 4 * Z.of_nat k -> rd32 p off = Ret 0).
  { intros k off Hk Ho. eapply (pmap_call_body (words [stamp; nlen] ++ name) (0 :: 0 :: lenZ gids :: gids) [] k).
    - by rewrite app_nil_r, <- app_assoc.
    - by destruct k as [|[|]]; [..|lia].
    - lia.
    - rewrite lenZ_app, lenZ_words. autorewrite with lenz. lia. }
  rewrite (Hw 0%nat) by lia. cbn [obind]. rewrite (Hw 1%nat) by lia. done.
Qed.

Lemma pmap_call_args : call_args p = Ret (Some (40 + lenZ body)).
Proof.
  pose proof flavor_range as Hf. pose proof (lenZ_nonneg body) as Hl.
  assert (Ha : get_auth p 24 = Ret (Some (32 + lenZ body))).
  { unfold get_auth. rewrite (pmap_call_head 6 flavor) by (done || lia). cbn [obind].
    assert (E : (flavor =? AUTH_NULL) || (flavor =? AUTH_UNIX) = true) by (destruct Hcred as [E|[E _]]; rewrite E; done). rewrite E.
    rewrite (pmap_call_head 7 (lenZ body)) by (done || lia). done. }
  assert (Hc : check_cred p 24 = Ret true).
  { unfold check_cred. rewrite (pmap_call_head 6 flavor) by (done || lia). cbn [obind].
    destruct Hcred as [E|(E & st & name & nlen & gids & ? & ? & ? & ?)]; rewrite E; [done|]. by eapply pmap_check_unix_cred. }
  unfold call_args, ARGS_SIZE. rewrite Ha. cbn [obind]. rewrite pmap_call_len, Z.gtb_ltb, (proj2 (Z.ltb_ge _ _)) by lia.
  unfold get_auth. rewrite (pmap_call_tail 0 AUTH_NULL) by (done || lia). cbn [obind].
  change ((AUTH_NULL =? AUTH_NULL) || (AUTH_NULL =? AUTH_UNIX)) with true. cbv iota. rewrite (pmap_call_tail 1 0) by (done || lia). cbn [obind]. rewrite Z.gtb_ltb, (proj2 (Z.ltb_ge _ _)) by lia.
  rewrite Hc. cbn [obind negb]. unfold check_vrf. rewrite (pmap_call_tail 0 AUTH_NULL) by (done || lia). cbn [obind].
  change (AUTH_NULL =? AUTH_NULL) with true. cbv iota. do 2 f_equal. lia.
Qed.

Lemma pmap_call_answer : 0 <= xid < 2 ^ 32 -> 0 <= proc < 2 ^ 32 ->
  dummy_packet p = let! r := portmap_proc p (40 + lenZ body) proc in Ret (Some (words [xid; RPC_REPLY; r.1.1; 0; 0; 0; r.1.2]), r.2).
Proof.
  intros Hx Hp. pose proof (lenZ_nonneg body) as Hl. unfold dummy_packet, PORTMAP_CALL_SIZE. rewrite pmap_call_len, (proj2 (Z.ltb_ge _ _)) by lia.
  rewrite (pmap_call_head 1 RPC_CALL) by (done || lia). cbn [obind]. cbn [Z.eqb negb RPC_CALL]. change (negb (RPC_CALL =? RPC_CALL)) with false. cbv iota.
  rewrite (pmap_call_head 0 xid) by (done || lia). cbn [obind].
  rewrite (pmap_call_head 2 2) by (done || lia). cbn [obind]. change (negb (2 =? 2)) with false. cbv iota.
  rewrite (pmap_call_head 3 RPC_PMAP_PROGRAM) by (done || lia). cbn [obind]. change (negb (RPC_PMAP_PROGRAM =? RPC_PMAP_PROGRAM)) with false. cbv iota.
  rewrite (pmap_call_head 4 2) by (done || lia). cbn [obind]. change (negb (2 =? 2)) with false. cbv iota.
  rewrite pmap_call_args. cbn [obind]. rewrite (pmap_call_head 5 proc) by (done || lia). done.
Qed.
End PmapCall.

(** ** Replies *)

Lemma lenZ_store buf off d : 0 <= off -> off + lenZ d <= lenZ buf -> lenZ (store buf off d) = lenZ buf.
Proof.
  intros H1 H2. pose proof (lenZ_nonneg d). unfold store. rewrite !lenZ_app, lenZ_takeZ, lenZ_dropZ by lia. lia.
Qed.

Lemma takeZ_store buf d : 4 <= lenZ buf -> takeZ 4 (store buf 4 d) = takeZ 4 buf.
Proof. intros H. unfold store. apply takeZ_app. rewrite lenZ_takeZ; lia. Qed.

Lemma rd32_store buf d k off : 4 <= lenZ buf -> 0 <= k -> k + 4 <= lenZ d -> off = 4 + k -> rd32 (store buf 4 d) off = rd32 d k.
Proof.
  intros H1 H2 H3 ->. unfold rd32, store. rewrite !(proj2 (Z.ltb_ge _ _)) by lia.
  replace (4 + k) with (lenZ (takeZ 4 buf) + k) by (rewrite lenZ_takeZ; lia). rewrite dropZ_app_ge by lia.
  rewrite dropZ_app_le by lia. pose proof (lenZ_dropZ k d ltac:(lia)) as Hl.
  destruct (dropZ k d) as [|a [|b [|c [|e t]]]]; rewrite ?lenZ_cons, ?lenZ_nil in Hl; try lia. done.
Qed.

Lemma lenZ_takeZ_min {A} n (l : list A) : 0 <= n -> lenZ (takeZ n l) = Z.min n (lenZ l).
Proof. intros H. unfold takeZ. destruct (Z.leb_spec n (lenZ l)); unfold lenZ in *; [rewrite length_take|]; lia. Qed.

(** The buffer always has room for the fields that are tested. *)
Definition reply_fits (r : reply) : Prop := RPC_REPLY_SIZE <= reply_len r <= lenZ (rbuf r).

Lemma rpc_do_reply_in xid r off rd : reply_fits r -> off = 0 \/ off = 4 ->
  exists b r', rpc_do_reply xid r off rd = Ret (b, r') /\ reply_fits r' /\ lenZ (rbuf r') = lenZ (rbuf r) /\ reply_len r' <= reply_len r.
Proof.
  unfold reply_fits, RPC_REPLY_SIZE. intros Hr Ho. destruct rd as [d|]; cbn [rpc_do_reply]; [|exists false, r; split; [done|lia]].
  set (d' := takeZ (reply_len r - off) d).
  assert (Hd : lenZ d' <= reply_len r - off).
  { unfold d'. rewrite lenZ_takeZ_min; lia. }
  pose proof (lenZ_nonneg d'). assert (Hs : lenZ (store (rbuf r) off d') = lenZ (rbuf r)) by (apply lenZ_store; lia).
  unfold RPC_REPLY_SIZE. destruct (Z.ltb_spec (lenZ d') (28 - off)).
  - eexists false, _. split; [done|]. cbn. lia.
  - do 4 (match goal with |- context [rd32 ?p ?o] => destruct (rd32_in p o) as (? & -> & _); [lia|lia|cbn [obind]] end).
    destruct (_ || _ || _); eexists _, _; (split; [done|]); cbn; lia.
Qed.

Lemma udp_tries_in n w xid len send r : reply_fits r ->
  exists b r' k, udp_tries n w xid len send r = Ret (b, r', k) /\ reply_fits r' /\ lenZ (rbuf r') = lenZ (rbuf r) /\ (k <= n)%nat.
Proof.
  revert send r. induction n as [|n IH]; intros send r Hr; [by exists false, r, 0%nat|]. cbn [udp_tries].
  destruct (send && _); [exists false, r, 0%nat; split_and!; try done; lia|].
  destruct (p_poll w (MAX_TRIES - S n)) as [| |rd].
  - eexists false, r, _. split; [done|]. split_and!; try done. destruct send; lia.
  - destruct (IH true r Hr) as (b & r' & k & -> & Hr' & Hl & Hk). eexists _, _, _. split; [done|]. cbn. split_and!; try done. destruct send; lia.
  - destruct (rpc_do_reply_in xid r UDP_HDR_OFF rd Hr ltac:(by right)) as (b & r1 & -> & Hr1 & Hl1 & _). cbn [obind fst snd].
    destruct b; [eexists true, r1, _; split; [done|]; split_and!; try done; destruct send; lia|].
    destruct (IH false r1 Hr1) as (b & r' & k & -> & Hr' & Hl & Hk). eexists _, _, _. split; [done|]. cbn. split_and!; try done; [lia|destruct send; lia].
Qed.

(** A datagram that answers the call. *)
Definition answers (xid : Z) (d : bytes) : Prop :=
  24 <= lenZ d /\ rd32 d 0 = Ret xid /\ rd32 d 4 = Ret RPC_REPLY /\ rd32 d 20 = Ret REPLY_OK.

Lemma rd32_takeZ d n k : 0 <= k -> k + 4 <= n <= lenZ d -> rd32 (takeZ n d) k = rd32 d k.
Proof.
  intros H1 H2. rewrite <- (takeZ_dropZ n d) at 2 by lia. unfold rd32. rewrite (proj2 (Z.ltb_ge _ _)) by lia.
  rewrite dropZ_app_le by (rewrite lenZ_takeZ; lia). pose proof (lenZ_dropZ k (takeZ n d)) as Hl. rewrite lenZ_takeZ in Hl by lia. specialize (Hl ltac:(lia)).
  destruct (dropZ k (takeZ n d)) as [|a [|b [|c [|e t]]]]; rewrite ?lenZ_cons, ?lenZ_nil in Hl; try lia. done.
Qed.

(** What is kept of a datagram: as much as reply_len says. *)
Definition kept (r : reply) (d : bytes) : bytes := takeZ (reply_len r - 4) d.

Lemma kept_len r d : 4 <= reply_len r -> lenZ (kept r d) = Z.min (reply_len r - 4) (lenZ d).
Proof. intros H. unfold kept. rewrite lenZ_takeZ_min by lia. lia. Qed.

Lemma kept_answers xid r d : reply_fits r -> answers xid d -> answers xid (kept r d).
Proof.
  unfold reply_fits, RPC_REPLY_SIZE. intros Hr (H1 & H2 & H3 & H4). destruct (decide (lenZ d <= reply_len r - 4)).
  - replace (kept r d) with d; [done|]. unfold kept, takeZ. destruct (Z.leb_spec (reply_len r - 4) (lenZ d)); [|done]. rewrite take_ge; [done|]. unfold lenZ in *. lia.
  - unfold answers. rewrite kept_len by lia. unfold kept. rewrite !rd32_takeZ by lia. split; [lia|done].
Qed.

Lemma do_reply_udp xid r d : reply_fits r ->
  (answers xid d -> rpc_do_reply xid r UDP_HDR_OFF (Some d) = Ret (true, {| rbuf := store (rbuf r) 4 (kept r d); reply_len := lenZ (kept r d) + 4 |})) /\
  (~ answers xid (kept r d) -> rpc_do_reply xid r UDP_HDR_OFF (Some d) = Ret (false,
     {| rbuf := store (rbuf r) 4 (kept r d); reply_len := if lenZ (kept r d) <? 24 then reply_len r else lenZ (kept r d) + 4 |})).
Proof.
  intros Hr. pose proof (kept_answers xid r d Hr) as Hka. unfold reply_fits, RPC_REPLY_SIZE in Hr. cbn [rpc_do_reply]. unfold UDP_HDR_OFF, RPC_REPLY_SIZE.
  change (takeZ (reply_len r - 4) d) with (kept r d). change (28 - 4) with 24. pose proof (kept_len r d ltac:(lia)) as Hk.
  destruct (Z.ltb_spec (lenZ (kept r d)) 24) as [Hs|Hs]; [split; [intros Ha%Hka; destruct Ha; lia|done]|].
  destruct (rd32_in (store (rbuf r) 4 (kept r d)) 0) as (f & -> & _); [lia|rewrite lenZ_store; lia|]. cbn [obind].
  rewrite (rd32_store (rbuf r) (kept r d) 0 4), (rd32_store (rbuf r) (kept r d) 4 8), (rd32_store (rbuf r) (kept r d) 20 24) by lia.
  unfold answers in *.
  destruct (rd32_in (kept r d) 0) as (x & E0 & _); [lia|lia|]. destruct (rd32_in (kept r d) 4) as (y & E1 & _); [lia|lia|].
  destruct (rd32_in (kept r d) 20) as (z & E2 & _); [lia|lia|]. rewrite E0, E1, E2 in *. cbn [obind]. change (4 =? 0) with false. cbn [andb orb]. split.
  - intros Ha%Hka. destruct Ha as (_ & [= ->] & [= ->] & [= ->]). rewrite !Z.eqb_refl. done.
  - intros Ha. destruct (Z.eqb_spec x xid) as [->|]; [|done]. destruct (Z.eqb_spec y RPC_REPLY) as [->|]; [|done].
    destruct (Z.eqb_spec z REPLY_OK) as [->|]; [|done]. by destruct Ha.
Qed.

(** What may come before the answer: timeouts, failed reads and datagrams that do not
    answer. *)
Definition ignored (xid : Z) (e : poll_result) : Prop :=
  match e with
  | PollError => False
  | PollReady (Some d) => ~ answers xid d
  | _ => True
  end.

(** The room for the answer after [k] tries: every datagram of 24 bytes or more that does
    not answer leaves its own length. *)
Fixpoint room (w : peer) (k : nat) (L : Z) : Z :=
  match k with
  | O => L
  | S k => match p_poll w k with
           | PollReady (Some d) => if lenZ d <? 24 then room w k L else Z.min (room w k L) (lenZ d + 4)
           | _ => room w k L
           end
  end.

Lemma room_ge w k L : 28 <= L -> 28 <= room w k L.
Proof. intros HL. induction k as [|k IH]; [done|]. cbn [room]. destruct (p_poll w k) as [| |[d|]]; try done. destruct (Z.ltb_spec (lenZ d) 24); lia. Qed.

(** Only the first 24 bytes of a datagram are looked at. *)
Lemma answers_kept xid r d : reply_fits r -> answers xid (kept r d) -> answers xid d.
Proof.
  unfold reply_fits, RPC_REPLY_SIZE. intros Hr (H1 & H2 & H3 & H4). rewrite kept_len in H1 by lia. unfold kept in *.
  destruct (decide (lenZ d <= reply_len r - 4)) as [Hd|Hd]; [by rewrite takeZ_ge in H2, H3, H4 by lia; split; [lia|]|].
  rewrite rd32_takeZ in H2, H3, H4 by lia. split; [lia|done].
Qed.

Lemma udp_tries_answered w xid len L d k : RPC_REPLY_SIZE <= L -> (k < MAX_TRIES)%nat ->
  (forall i, (i <= k)%nat -> len <= p_write w i) -> 0 <= len ->
  (forall i, (i < k)%nat -> ignored xid (p_poll w i)) -> p_poll w k = PollReady (Some d) -> answers xid d ->
  forall m i send r, (i + m = k)%nat -> reply_len r = room w i L -> lenZ (rbuf r) = L -> room w i L <= L ->
  exists s buf, lenZ buf = L /\ takeZ 4 buf = takeZ 4 (rbuf r) /\ udp_tries (MAX_TRIES - i) w xid len send r =
    Ret (true, {| rbuf := store buf 4 (takeZ (room w k L - 4) d); reply_len := lenZ (takeZ (room w k L - 4) d) + 4 |}, s).
Proof.
  intros HL Hk Hw Hlen Hh Hp Ha m. unfold RPC_REPLY_SIZE in HL. induction m as [|m IH]; intros i send r Hi Hr Hb HLi; pose proof (room_ge w i L HL) as Hroom.
  - assert (i = k) as -> by lia. replace (MAX_TRIES - k)%nat with (S (MAX_TRIES - S k)) by lia. cbn [udp_tries].
    replace (MAX_TRIES - S (MAX_TRIES - S k))%nat with k by lia.
    pose proof (Hw k ltac:(lia)) as Hwk. replace (send && _) with false by (destruct send; cbn; zlia). rewrite Hp.
    rewrite (proj1 (do_reply_udp xid r d ltac:(unfold reply_fits, RPC_REPLY_SIZE; lia)) Ha). cbn [obind fst snd].
    unfold kept. rewrite Hr. by eexists _, (rbuf r).
  - replace (MAX_TRIES - i)%nat with (S (MAX_TRIES - S i)) by lia. cbn [udp_tries]. replace (MAX_TRIES - S (MAX_TRIES - S i))%nat with i by lia.
    pose proof (Hw i ltac:(lia)) as Hwi. replace (send && _) with false by (destruct send; cbn; zlia).
    pose proof (Hh i ltac:(lia)) as Hi'. assert (Hrs : room w (S i) L = match p_poll w i with
           | PollReady (Some d) => if lenZ d <? 24 then room w i L else Z.min (room w i L) (lenZ d + 4) | _ => room w i L end) by done.
    destruct (p_poll w i) as [| |[e|]]; cbn [ignored] in Hi'; [done| | |].
    + destruct (IH (S i) true r) as (s & buf & E1 & E2 & ->); [lia|by rewrite Hrs|done|by rewrite Hrs|]. cbn [obind fst snd]. by eexists _, buf.
    + assert (Hfit : reply_fits r) by (unfold reply_fits, RPC_REPLY_SIZE; lia). pose proof (kept_len r e ltac:(lia)) as Hkl.
      rewrite (proj2 (do_reply_udp xid r e Hfit)) by (intros Hx; by eapply Hi', answers_kept). cbn [obind fst snd].
      match goal with |- context [udp_tries _ _ _ _ false ?r1] => destruct (IH (S i) false r1) as (s & buf & E1 & E2 & ->) end; [lia| | | |].
      * cbn [reply_len]. rewrite Hrs. destruct (Z.ltb_spec (lenZ (kept r e)) 24), (Z.ltb_spec (lenZ e) 24); lia.
      * cbn. rewrite lenZ_store; lia.
      * rewrite Hrs. destruct (lenZ e <? 24); lia.
      * cbn [obind fst snd]. exists (s + if send then 1 else 0)%nat, buf. split; [done|]. split; [rewrite E2; cbn; apply takeZ_store; lia|].
        do 2 f_equal. destruct send; lia.
    + cbn [rpc_do_reply obind fst snd]. destruct (IH (S i) false r) as (s & buf & E1 & E2 & ->); [lia|by rewrite Hrs|done|by rewrite Hrs|].
      cbn [obind fst snd]. by eexists _, buf.
Qed.

Lemma dropZ_all {A} n (l : list A) : lenZ l <= n -> dropZ n l = [].
Proof. intros H. unfold dropZ. destruct (Z.ltb_spec n (lenZ l)); [lia|]. by rewrite andb_false_r. Qed.

Lemma store_full buf d : 4 <= lenZ buf -> 4 + lenZ d = lenZ buf -> store buf 4 d = takeZ 4 buf ++ d.
Proof. intros H1 H2. unfold store. by rewrite dropZ_all, app_nil_r by lia. Qed.

Lemma udp_answered w xid call r d k : RPC_REPLY_SIZE <= reply_len r -> lenZ (rbuf r) = reply_len r -> UDP_HDR_OFF <= lenZ call ->
  (k < MAX_TRIES)%nat -> (forall i, (i <= k)%nat -> lenZ call - UDP_HDR_OFF <= p_write w i) ->
  (forall i, (i < k)%nat -> ignored xid (p_poll w i)) -> p_poll w k = PollReady (Some d) -> answers xid d ->
  let got := takeZ (room w k (reply_len r) - 4) d in
  exists r' sent, rpc_call_udp w xid call r = Ret (true, r', sent) /\ reply_len r' = 4 + lenZ got /\
    takeZ (reply_len r') (rbuf r') = takeZ 4 (rbuf r) ++ got /\ lenZ (rbuf r') = reply_len r.
Proof.
  intros H1 H2 H3 H4 H5 H6 H7 H8 got. unfold rpc_call_udp. unfold RPC_REPLY_SIZE, UDP_HDR_OFF in *.
  destruct (udp_tries_answered w xid (lenZ call - 4) (reply_len r) d k H1 H4 H5 ltac:(lia) H6 H7 H8 k 0%nat true r ltac:(lia) eq_refl H2 ltac:(cbn; lia))
    as (s & buf & E1 & E2 & E3).
  change (MAX_TRIES - 0)%nat with MAX_TRIES in E3. rewrite E3. fold got. eexists _, s. split; [done|]. cbn [reply_len rbuf]. split; [lia|].
  assert (Hgot : lenZ got <= reply_len r - 4).
  { assert (Hle : room w k (reply_len r) <= reply_len r).
    { clear. induction k as [|k IH]; cbn [room]; [lia|]. destruct (p_poll w k) as [| |[d|]]; try done. destruct (lenZ d <? 24); lia. }
    pose proof (room_ge w k (reply_len r) H1). unfold got. rewrite lenZ_takeZ_min by lia. lia. }
  split; [|rewrite lenZ_store; lia]. unfold store. rewrite E2, app_assoc. apply takeZ_app. rewrite lenZ_app, lenZ_takeZ by lia. lia.
Qed.

(** ** Theorems on the calls *)

(** C33. A call over UDP ends after at most 100 messages, whatever arrives, and never
    reads outside of its buffer. If the server answers one of the tries, and only timeouts,
    failed reads and datagrams that do not answer the call came before, the call
    succeeds with the answer, cut to the room that is left: the size of the buffer, or the
    length of the shortest of the other datagrams if one of at least 24 bytes came
    before. *)
Theorem rpc_call_udp_spec w xid call r : RPC_REPLY_SIZE <= reply_len r -> lenZ (rbuf r) = reply_len r -> UDP_HDR_OFF <= lenZ call ->
  (exists b r' sent, rpc_call_udp w xid call r = Ret (b, r', sent) /\ (sent <= MAX_TRIES)%nat) /\
  forall d k, (k < MAX_TRIES)%nat -> (forall i, (i <= k)%nat -> lenZ call - UDP_HDR_OFF <= p_write w i) ->
    (forall i, (i < k)%nat -> ignored xid (p_poll w i)) -> p_poll w k = PollReady (Some d) -> answers xid d ->
    let got := takeZ (room w k (reply_len r) - 4) d in
    exists r' sent, rpc_call_udp w xid call r = Ret (true, r', sent) /\ reply_len r' = 4 + lenZ got /\
      takeZ (reply_len r') (rbuf r') = takeZ 4 (rbuf r) ++ got.
Proof.
  intros H1 H2 H3. split.
  - destruct (udp_tries_in MAX_TRIES w xid (lenZ call - UDP_HDR_OFF) true r) as (b & r' & k & E & _ & _ & Hk);
      [unfold reply_fits; lia|]. by exists b, r', k.
  - intros d k Hk Hw Hi Hp Ha got. destruct (udp_answered w xid call r d k H1 H2 H3 Hk Hw Hi Hp Ha) as (r' & sent & E1 & E2 & E3 & _). by exists r', sent.
Qed.

(** The answers to a question for a port. *)
Definition port_reply (xid state vrf_flavor vrf_len port : Z) : bytes := words [xid; RPC_REPLY; state; vrf_flavor; vrf_len; REPLY_OK; port].

Lemma port_reply_answers xid st vf vl port : 0 <= xid < 2 ^ 32 -> answers xid (port_reply xid st vf vl port).
Proof.
  intros Hx. unfold answers, port_reply. rewrite lenZ_words. split; [autorewrite with lenz; lia|].
  rewrite <- (app_nil_r (words _)). split_and!; [apply (rd32_words [] _ 0)|apply (rd32_words [] _ 1)|apply (rd32_words [] _ 5)]; try done; unfold RPC_REPLY, REPLY_OK; lia.
Qed.

(** The message to the portmapper is the call that the stand-in understands. *)
Lemma portmap_message xid program version proto : 0 <= xid < 2 ^ 32 ->
  dropZ UDP_HDR_OFF (rpc_header (lenZ (portmap_body program version proto) + 16) xid (portmap_body program version proto)) =
  pmap_call xid PMAP_PROC_GETPORT AUTH_NULL [] program version proto 0.
Proof. intros _. reflexivity. Qed.

Lemma portmap_udp net t program version proto w :
  tcp_client net t RPC_PMAP_PORT 0 = false -> udp_client net (S t) RPC_PMAP_PORT 0 = true -> 0 <= n_xid net (S t) < 2 ^ 32 ->
  n_peer net (S t) UDP RPC_PMAP_PORT (pmap_call (n_xid net (S t)) PMAP_PROC_GETPORT AUTH_NULL [] program version proto 0) = w ->
  portmap net t program version proto =
    let! x := rpc_call_udp w (n_xid net (S t)) (rpc_header 60 (n_xid net (S t)) (portmap_body program version proto))
                {| rbuf := replicate 32 NUL; reply_len := PORTMAP_REPLY_SIZE |} in
    if x.1.1 then
      if reply_len x.1.2 <? PORTMAP_REPLY_SIZE then Ret (0, S (S t))
      else let! port := rd32 (rbuf x.1.2) 28 in Ret (port, S (S t))
    else Ret (0, S (S t)).
Proof.
  intros H1 H2 Hx Hw. unfold portmap. rewrite H1, H2. unfold rpc_call. cbv zeta. rewrite portmap_message, Hw by done.
  change (lenZ (portmap_body program version proto) + 16) with 60. by destruct (rpc_call_udp _ _ _ _) as [[[b r] s]| | |].
Qed.

(** The port of a program, over UDP and after timeouts. *)
Lemma portmap_port net t program version proto w k st vf vl port :
  tcp_client net t RPC_PMAP_PORT 0 = false -> udp_client net (S t) RPC_PMAP_PORT 0 = true -> 0 <= n_xid net (S t) < 2 ^ 32 ->
  n_peer net (S t) UDP RPC_PMAP_PORT (pmap_call (n_xid net (S t)) PMAP_PROC_GETPORT AUTH_NULL [] program version proto 0) = w ->
  (k < MAX_TRIES)%nat -> (forall i, 56 <= p_write w i) -> (forall i, (i < k)%nat -> ignored (n_xid net (S t)) (p_poll w i)) -> room w k 32 = 32 ->
  p_poll w k = PollReady (Some (port_reply (n_xid net (S t)) st vf vl port)) -> 0 <= port < 2 ^ 32 ->
  portmap net t program version proto = Ret (port, S (S t)).
Proof.
  intros H1 H2 Hx Hw Hk Hwr Hh Hroom Hp Hport. rewrite (portmap_udp net t program version proto w) by done.
  destruct (udp_answered w (n_xid net (S t)) (rpc_header 60 (n_xid net (S t)) (portmap_body program version proto))
    {| rbuf := replicate 32 NUL; reply_len := PORTMAP_REPLY_SIZE |} (port_reply (n_xid net (S t)) st vf vl port) k) as (r' & s & -> & E1 & E2 & E3); try done.
  - by apply port_reply_answers.
  - change (reply_len {| rbuf := replicate 32 NUL; reply_len := PORTMAP_REPLY_SIZE |}) with 32 in *. rewrite Hroom in E1, E2.
    assert (Hd : lenZ (port_reply (n_xid net (S t)) st vf vl port) = 28) by (unfold port_reply; by rewrite lenZ_words).
    rewrite (takeZ_ge (32 - 4)) in E1, E2 by lia. assert (Hl : reply_len r' = 32) by lia. rewrite Hl in E2.
    rewrite (takeZ_ge 32) in E2 by lia. cbn [obind fst snd]. rewrite Hl. change (32 <? PORTMAP_REPLY_SIZE) with false. cbv iota.
    rewrite E2. unfold port_reply. rewrite <- (app_nil_r (words _)). rewrite (rd32_words _ _ 6 port) by done. done.
Qed.

(** The stand-in answers the calls of the kernel for root and those of nfsmount:
    with null credentials or those of root, PMAP_PROC_SET for TCP or UDP adds a line to
    the file and is answered with 1 (true) for the number of the call, and the
    question of portmap.c for a port is answered with 0, without a line. *)
Theorem kernel_call_answered xid flavor body program version proto port :
  0 <= xid < 2 ^ 32 -> 0 <= program < 2 ^ 32 -> 0 <= version < 2 ^ 32 -> 0 <= port < 2 ^ 32 -> proto = IPPROTO_TCP \/ proto = IPPROTO_UDP ->
  root_cred flavor body -> lenZ body < 2 ^ 31 ->
  dummy_packet (pmap_call xid PMAP_PROC_SET flavor body program version proto port) =
    Ret (Some (port_reply xid 0 0 0 1), set_line program version proto port) /\
  forall net t w, tcp_client net t RPC_PMAP_PORT 0 = false -> udp_client net (S t) RPC_PMAP_PORT 0 = true -> n_xid net (S t) = xid ->
    (forall m, n_peer net (S t) UDP RPC_PMAP_PORT m = w m) ->
    (forall m i, 56 <= p_write (w m) i /\
       match dummy_packet m with Ret (Some q, _) => p_poll (w m) i = PollReady (Some q) | _ => True end) ->
    portmap net t program version proto = Ret (0, S (S t)).
Proof.
  intros Hx Hpr Hv Hpo Hproto Hcred Hb. pose proof (lenZ_nonneg body) as Hl. split.
  - rewrite pmap_call_answer by (done || unfold PMAP_PROC_SET; lia). unfold portmap_proc. cbn [Z.eqb PMAP_PROC_SET].
    change (PMAP_PROC_SET =? PMAP_PROC_SET) with true. cbv iota.
    rewrite (pmap_call_tail _ _ _ _ _ _ _ _ 4 proto) by (done || (destruct Hproto as [-> | ->]; unfold IPPROTO_TCP, IPPROTO_UDP; lia) || lia). cbn [obind].
    replace ((proto =? IPPROTO_TCP) || (proto =? IPPROTO_UDP)) with true by (by destruct Hproto as [-> | ->]).
    rewrite (pmap_call_tail _ _ _ _ _ _ _ _ 2 program) by (done || lia). cbn [obind].
    rewrite (pmap_call_tail _ _ _ _ _ _ _ _ 3 version) by (done || lia). cbn [obind].
    rewrite (pmap_call_tail _ _ _ _ _ _ _ _ 5 port) by (done || lia). done.
  - intros net t w H1 H2 <- Hpeer Hw.
    assert (Hd : dummy_packet (pmap_call (n_xid net (S t)) PMAP_PROC_GETPORT AUTH_NULL [] program version proto 0) = Ret (Some (port_reply (n_xid net (S t)) 0 0 0 0), [])).
    { rewrite pmap_call_answer by (done || (by left) || unfold PMAP_PROC_GETPORT; lia). done. }
    remember (pmap_call _ _ _ _ _ _ _ _) as m eqn:Em in Hd. pose proof (proj2 (Hw m 0%nat)) as Hm. rewrite Hd in Hm. rewrite Em in Hm.
    clear Em Hd m. set (m := pmap_call _ _ _ _ _ _ _ _) in Hm. apply (portmap_port net t program version proto (w m) 0%nat 0 0 0 0 H1 H2 Hx (Hpeer m)).
    + unfold MAX_TRIES. lia.
    + intros i. apply Hw.
    + intros i Hi. lia.
    + reflexivity.
    + exact Hm.
    + lia.
Qed.

(** C18. The stand-in for the portmapper reads every packet, however it is made up, only
    inside of the bytes that were received: the lengths of the credentials and of the
    verifier, which the sender chooses, never lead out of the packet. It answers a
    packet at most once, with the number of the call. *)
Theorem dummy_portmap_safe l file : Forall (fun r => match r with Recv p => lenZ p <= 65536 | _ => True end) l ->
  (exists sent file', dummy_portmap l file = Ret (sent, file') /\ (length sent <= length l)%nat) /\
  (forall p, Recv p ∈ l -> exists r, dummy_packet p = Ret r /\
     forall q, r.1 = Some q -> exists xid state ok, rd32 p 0 = Ret xid /\ q = words [xid; RPC_REPLY; state; 0; 0; 0; ok]).
Proof.
  intros Hl. split; [by apply dummy_portmap_in|]. intros p Hp. apply dummy_packet_in. rewrite list.Forall_forall in Hl. by specialize (Hl _ Hp).
Qed.

(** Two tries: a datagram that does not answer, and the answer. *)
Lemma udp_tries_two n w xid len r r1 r2 e d : (MAX_TRIES = S (S n))%nat -> 0 <= len <= p_write w 0 ->
  p_poll w 0 = PollReady (Some e) -> p_poll w 1 = PollReady (Some d) -> rpc_do_reply xid r UDP_HDR_OFF (Some e) = Ret (false, r1) ->
  rpc_do_reply xid r1 UDP_HDR_OFF (Some d) = Ret (true, r2) -> udp_tries MAX_TRIES w xid len true r = Ret (true, r2, 1%nat).
Proof.
  intros Hn Hw H0 H1 Hd0 Hd1. rewrite Hn. cbn [udp_tries]. rewrite Hn. replace (S (S n) - S (S n))%nat with 0%nat by lia.
  replace (S (S n) - S n)%nat with 1%nat by lia. replace (true && _) with false by (cbn; zlia).
  rewrite H0, Hd0. cbn [obind fst snd andb]. rewrite H1, Hd1. done.
Qed.

(** A datagram that does not answer the call but is shorter than the buffer lowers
    reply_len for good: the answer that comes next is cut off, and portmap finds no
    port although the server sent it. *)
Theorem stale_reply_truncates net t program version proto w e st vf vl port :
  tcp_client net t RPC_PMAP_PORT 0 = false -> udp_client net (S t) RPC_PMAP_PORT 0 = true -> 0 <= n_xid net (S t) < 2 ^ 32 ->
  n_peer net (S t) UDP RPC_PMAP_PORT (pmap_call (n_xid net (S t)) PMAP_PROC_GETPORT AUTH_NULL [] program version proto 0) = w ->
  (forall i, 56 <= p_write w i) -> p_poll w 0 = PollReady (Some e) -> 24 <= lenZ e < 28 -> ~ answers (n_xid net (S t)) e ->
  p_poll w 1 = PollReady (Some (port_reply (n_xid net (S t)) st vf vl port)) ->
  portmap net t program version proto = Ret (0, S (S t)).
Proof.
  intros H1 H2 Hx Hw Hwr Hp0 He Hne Hp1. rewrite (portmap_udp net t program version proto w) by done.
  pose proof (port_reply_answers (n_xid net (S t)) st vf vl port Hx) as Ha. set (d := port_reply _ _ _ _ _) in *.
  set (r0 := {| rbuf := replicate 32 NUL; reply_len := PORTMAP_REPLY_SIZE |}).
  assert (Hr0 : reply_fits r0) by (unfold reply_fits; cbn; done).
  assert (Hk0 : kept r0 e = e) by (apply takeZ_ge; unfold r0, PORTMAP_REPLY_SIZE; cbn [reply_len]; lia).
  set (r1 := {| rbuf := store (rbuf r0) 4 e; reply_len := lenZ e + 4 |}).
  assert (Hr1 : reply_fits r1) by (unfold reply_fits, RPC_REPLY_SIZE, r1; cbn [reply_len rbuf]; rewrite lenZ_store; change (lenZ (rbuf r0)) with 32; lia).
  assert (Hd0 : rpc_do_reply (n_xid net (S t)) r0 UDP_HDR_OFF (Some e) = Ret (false, r1)).
  { rewrite (proj2 (do_reply_udp _ r0 e Hr0)) by (by rewrite Hk0). rewrite Hk0, (proj2 (Z.ltb_ge _ _)) by lia. done. }
  assert (Hd1 : exists r2, rpc_do_reply (n_xid net (S t)) r1 UDP_HDR_OFF (Some d) = Ret (true, r2) /\ reply_len r2 < 32).
  { rewrite (proj1 (do_reply_udp _ r1 d Hr1)) by done. eexists. split; [done|]. cbn [reply_len].
    assert (Hl1 : reply_len r1 = lenZ e + 4) by done. rewrite kept_len by lia. lia. }
  destruct Hd1 as (r2 & Hd1 & Hlen).
  assert (E : rpc_call_udp w (n_xid net (S t)) (rpc_header 60 (n_xid net (S t)) (portmap_body program version proto)) r0 = Ret (true, r2, 1%nat)).
  { unfold rpc_call_udp. apply (udp_tries_two 98 _ _ _ _ r1 _ e d); done. }
  rewrite E. cbn [obind fst snd]. unfold PORTMAP_REPLY_SIZE. by rewrite (proj2 (Z.ltb_lt _ _)).
Qed.

(** bindanyprivport takes the lowest port from 512 to 1023 that is free. *)
Lemma bind_from_lowest bind n port p : bind_from n bind port = Some p ->
  port <= p <= ENDPORT /\ bind p = 0 /\ forall q, port <= q < p -> bind q = EADDRINUSE.
Proof.
  revert port. induction n as [|n IH]; intros port; cbn; [done|].
  destruct (Z.leb_spec port ENDPORT); [|done]. destruct (Z.eqb_spec (bind port) 0) as [E|E].
  - intros [= <-]. split; [lia|]. split; [done|]. intros q Hq. lia.
  - destruct (Z.eqb_spec (bind port) EADDRINUSE) as [E'|]; [|done]. intros H1. destruct (IH _ H1) as (? & ? & H2). split; [lia|]. split; [done|].
    intros q Hq. destruct (decide (q = port)) as [->|]; [done|]. apply H2. lia.
Qed.

(** ** Examples *)

(** A server on UDP that answers after a timeout, and one that a stale datagram disturbs. *)
Definition example_peer (xid : Z) (first : poll_result) : peer :=
  {| p_write := fun _ => 56; p_poll := fun i => match i with O => first | _ => PollReady (Some (port_reply xid 0 0 0 2049)) end; p_read := None |}.
Definition example_net (w : bytes -> peer) : network :=
  {| n_socket := fun _ => true; n_bind := fun _ _ => 0; n_connect := fun _ tr _ => match tr with TCP => false | UDP => true end; n_xid := fun _ => 7;
     n_peer := fun _ _ _ m => w m |}.

Lemma rpc_call_udp_spec_witness :
  exists r' sent, rpc_call_udp (example_peer 7 PollTimeout) 7 (replicate 60 NUL) {| rbuf := replicate 32 NUL; reply_len := 32 |} = Ret (true, r', sent) /\
    reply_len r' = 32 /\ takeZ (reply_len r') (rbuf r') = replicate 4 NUL ++ port_reply 7 0 0 0 2049.
Proof.
  destruct (rpc_call_udp_spec (example_peer 7 PollTimeout) 7 (replicate 60 NUL) {| rbuf := replicate 32 NUL; reply_len := 32 |}) as [_ H];
    [done|done|done|].
  destruct (H (port_reply 7 0 0 0 2049) 1%nat) as (r' & sent & H1 & H2 & H3); [unfold MAX_TRIES; lia|done| |done|by vm_compute|].
  - intros i Hi. assert (i = 0%nat) as -> by lia. exact I.
  - exists r', sent. split; [exact H1|]. split; [rewrite H2; vm_compute; reflexivity|rewrite H3; vm_compute; reflexivity].
Defined.

Lemma kernel_call_answered_witness :
  dummy_packet (pmap_call 7 PMAP_PROC_SET AUTH_UNIX (words [1; 4] ++ #"node" ++ words [0; 0; 1; 0]) 100021 3 IPPROTO_TCP 4045) =
    Ret (Some (port_reply 7 0 0 0 1), #"100021 3 tcp 4045" ++ ["010"%char]) /\
  portmap (example_net (fun m => {| p_write := fun _ => 56; p_read := None; p_poll := fun _ =>
      match dummy_packet m with Ret (Some q, _) => PollReady (Some q) | _ => PollTimeout end |})) 0 100021 3 IPPROTO_TCP = Ret (0, 2%nat).
Proof.
  destruct (kernel_call_answered 7 AUTH_UNIX (words [1; 4] ++ #"node" ++ words [0; 0; 1; 0]) 100021 3 IPPROTO_TCP 4045) as [H1 H2];
    [lia|lia|lia|lia|by left| |reflexivity|].
  - right. split; [done|]. exists 1, #"node", 4, [0]. split; [reflexivity|]. split; [lia|]. split; [reflexivity|]. by left.
  - split; [exact H1|].
    apply (H2 _ 0%nat (fun m => {| p_write := fun _ => 56; p_read := None; p_poll := fun _ =>
      match dummy_packet m with Ret (Some q, _) => PollReady (Some q) | _ => PollTimeout end |})); [reflexivity|reflexivity|reflexivity|reflexivity|].
    intros m i. split; [cbn; lia|]. cbn. by destruct (dummy_packet m) as [[[q|] l]| | |].
Defined.

Lemma dummy_portmap_safe_witness : exists r, dummy_packet (words [7; 0; 2; 100000; 2; 1; 1; 4294967295] ++ replicate 24 NUL) = Ret r.
Proof.
  destruct (dummy_portmap_safe [Recv (words [7; 0; 2; 100000; 2; 1; 1; 4294967295] ++ replicate 24 NUL)] []) as [_ H].
  - apply list.Forall_singleton. done.
  - destruct (H (words [7; 0; 2; 100000; 2; 1; 1; 4294967295] ++ replicate 24 NUL)) as (r & Hr & _); [by apply list_elem_of_singleton|].
    exists r. exact Hr.
Defined.

Lemma stale_reply_truncates_witness :
  portmap (example_net (fun _ => example_peer 7 (PollReady (Some (words [6; 1; 0; 0; 0; 0]))))) 0 100005 3 IPPROTO_UDP = Ret (0, 2%nat) /\
  portmap (example_net (fun _ => example_peer 7 PollTimeout)) 0 100005 3 IPPROTO_UDP = Ret (2049, 2%nat).
Proof.
  split; [|vm_compute; reflexivity].
  apply (stale_reply_truncates (example_net (fun _ => example_peer 7 (PollReady (Some (words [6; 1; 0; 0; 0; 0]))))) 0 100005 3 IPPROTO_UDP
    (example_peer 7 (PollReady (Some (words [6; 1; 0; 0; 0; 0])))) (words [6; 1; 0; 0; 0; 0]) 0 0 0 2049); try reflexivity; try done.
  intros (_ & H & _). vm_compute in H. congruence.
Defined.
