(* ===== verification/NfsMount.v ===== *)
(** nfsmount (features/runtime/src/nfsmount): mount.c asks the server for the root file
    handle and calls mount, main.c reads the options.

    [get_ports], [mount_call], [mount_v2], [mount_v3] and [nfs_mount] are mount.c;
    [parse_int], [parse_opts] and [nfsmount_main] are main.c. The calls to the server
    are those of NfsRpc.v. The mount system call, stat and inet_aton are parameters, and
    the memory that malloc returns is not initialised ([junk]). *)

From Stdlib Require Import ZArith Ascii Lia.
From stdpp Require Import base list strings tactics.
From S2P Require Import Prelude CString NfsRpc.

Open Scope Z_scope.
Open Scope cprog_scope.

(** ** Constants of linux/nfs.h and linux/nfs_mount.h *)

Definition NFS_PROGRAM : Z := 100003.
Definition NFS_PORT : Z := 2049.
Definition NFS2_VERSION : Z := 2.
Definition NFS3_VERSION : Z := 3.
Definition NFS_MNT_PROGRAM : Z := 100005.
Definition NFS_MNT_VERSION : Z := 1.
Definition NFS_MNT3_VERSION : Z := 3.
Definition NFS_FHSIZE : Z := 32.
Definition NFS3_FHSIZE : Z := 64.
Definition NFS_MOUNT_SOFT : Z := 1.
Definition NFS_MOUNT_INTR : Z := 2.
Definition NFS_MOUNT_POSIX : Z := 8.
Definition NFS_MOUNT_NOCTO : Z := 16.
Definition NFS_MOUNT_NOAC : Z := 32.
Definition NFS_MOUNT_TCP : Z := 64.
Definition NFS_MOUNT_VER3 : Z := 128.
Definition NFS_MOUNT_NONLM : Z := 512.
Definition NFS_MOUNT_BROKEN_SUID : Z := 1024.
Definition NFS_MOUNT_NOACL : Z := 2048.
Definition NFS_MOUNT_FLAGMASK : Z := 65535.
Definition NFS_MOUNT_KLIBC_RONLY : Z := 65536.
Definition MOUNT_PORT : Z := 627.
Definition MNTPROC_MNT : Z := 1.
Definition MNTPROC_UMNT : Z := 3.
Definition MS_RDONLY : Z := 1.
Definition INT_MAX : Z := 2 ^ 31 - 1.
Definition USHRT_MAX : Z := 65535.

(** ** The data for the kernel *)

(** The fields of struct nfs_mount_data that the program sets. *)
Record mount_data := {
  flags : Z; rsize : Z; wsize : Z; timeo : Z; retrans : Z; acregmin : Z; acregmax : Z; acdirmin : Z; acdirmax : Z;
  root_size : Z; root_data : bytes; old_root : bytes; addr_port : Z; hostname : bytes;
}.

Definition mount_data0 : mount_data :=
  {| flags := Z.lor (Z.lor NFS_MOUNT_NONLM NFS_MOUNT_VER3) NFS_MOUNT_TCP; rsize := 0; wsize := 0; timeo := 0; retrans := 3;
     acregmin := 3; acregmax := 60; acdirmin := 30; acdirmax := 60; root_size := 0; root_data := replicate 64 NUL;
     old_root := replicate 32 NUL; addr_port := 0; hostname := replicate 256 NUL |}.

Definition set_flags (f : Z) (d : mount_data) : mount_data :=
  {| flags := f; rsize := rsize d; wsize := wsize d; timeo := timeo d; retrans := retrans d; acregmin := acregmin d; acregmax := acregmax d;
     acdirmin := acdirmin d; acdirmax := acdirmax d; root_size := root_size d; root_data := root_data d; old_root := old_root d;
     addr_port := addr_port d; hostname := hostname d |}.
Definition set_root (size : Z) (data old : bytes) (d : mount_data) : mount_data :=
  {| flags := flags d; rsize := rsize d; wsize := wsize d; timeo := timeo d; retrans := retrans d; acregmin := acregmin d; acregmax := acregmax d;
     acdirmin := acdirmin d; acdirmax := acdirmax d; root_size := size; root_data := data; old_root := old;
     addr_port := addr_port d; hostname := hostname d |}.
Definition set_addr (port : Z) (host : bytes) (d : mount_data) : mount_data :=
  {| flags := flags d; rsize := rsize d; wsize := wsize d; timeo := timeo d; retrans := retrans d; acregmin := acregmin d; acregmax := acregmax d;
     acdirmin := acdirmin d; acdirmax := acdirmax d; root_size := root_size d; root_data := root_data d; old_root := old_root d;
     addr_port := port; hostname := host |}.

Definition has (f bit : Z) : bool := negb (Z.land f bit =? 0).

(** The variables of the program: the ports, the buffer of the replies of mountd, the
    number of calls so far, and the procedures of mountd that were called, each with
    its version, its path and whether it succeeded. *)
Record nst := { time : nat; nfs_port : Z; mount_port : Z; mnt_reply : bytes; called : list (Z * Z * bytes * bool) }.
Definition nst0 (port : Z) : nst := {| time := 0; nfs_port := port; mount_port := 0; mnt_reply := replicate 100 NUL; called := [] |}.

Section NfsMount.
Context (net : network) (junk : nat -> ascii).

(** [false] is a result of -1. *)
Definition get_ports (d : mount_data) (s : nst) : out (bool * nst) :=
  let '(nfs_ver, mount_ver) := if has (flags d) NFS_MOUNT_VER3 then (NFS3_VERSION, NFS_MNT3_VERSION) else (NFS2_VERSION, NFS_MNT_VERSION) in
  let proto := if has (flags d) NFS_MOUNT_TCP then IPPROTO_TCP else IPPROTO_UDP in
  let! r :=
    (if nfs_port s =? 0 then
       let! p := portmap net (time s) NFS_PROGRAM nfs_ver proto in
       let s' port := {| time := p.2; nfs_port := port; mount_port := mount_port s; mnt_reply := mnt_reply s; called := called s |} in
       if (p.1 =? 0) || (p.1 >? INT_MAX) then
         if p.1 >? INT_MAX then Ret (false, s' (nfs_port s))
         else if proto =? IPPROTO_TCP then Ret (false, s' (nfs_port s))
         else Ret (true, s' NFS_PORT)
       else Ret (true, s' p.1)
     else Ret (true, s)) in
  if negb r.1 then Ret (false, r.2) else
  let s := r.2 in
  if mount_port s =? 0 then
    let! p := portmap net (time s) NFS_MNT_PROGRAM mount_ver proto in
    let mp := if (mount_port s =? 0) || (p.1 >? USHRT_MAX) then MOUNT_PORT else mount_port s in
    let mp := p.1 mod 2 ^ 16 in
    Ret (true, {| time := p.2; nfs_port := nfs_port s; mount_port := mp; mnt_reply := mnt_reply s; called := called s |})
  else Ret (true, s).

Definition pad_len (len : Z) : Z := Z.land (u64 (len + 3)) (2 ^ 64 - 4).

(** struct mount_call behind rpc_vers: the padding of the path is not written. *)
Definition mount_body (proc version : Z) (path : bytes) : bytes :=
  words [NFS_MNT_PROGRAM; version; proc; 0; 0; 0; 0; lenZ path] ++ path ++ map junk (seq 0 (Z.to_nat (pad_len (lenZ path) - lenZ path))).

Definition MNT_REPLY_SIZE : Z := 100.
Definition MNT_REPLY_MINSIZE : Z := 32.

(** [tr] and [port] are those of the client. *)
Definition mount_call (tr : transport) (port proc version : Z) (path : bytes) (s : nst) : out (bool * nst) :=
  let! x := rpc_call net (time s) tr port (mount_body proc version path) {| rbuf := mnt_reply s; reply_len := MNT_REPLY_SIZE |} in
  let! ok :=
    (if negb x.1 then Ret false
     else if negb (proc =? MNTPROC_MNT) then Ret true
     else if reply_len x.2 <? MNT_REPLY_MINSIZE then Ret false
     else let! status := rd32 (rbuf x.2) 28 in Ret (status =? 0)) in
  Ret (ok, {| time := S (time s); nfs_port := nfs_port s; mount_port := mount_port s; mnt_reply := rbuf x.2;
              called := called s ++ [(proc, version, path, ok)] |}).

(** The handle starts behind the status; version 2 has no length. *)
Definition mount_v2 (tr : transport) (port : Z) (path : bytes) (d : mount_data) (s : nst) : out (bool * mount_data * nst) :=
  let! x := mount_call tr port MNTPROC_MNT NFS_MNT_VERSION path s in
  if negb x.1 then Ret (false, d, x.2)
  else let fh := takeZ NFS_FHSIZE (dropZ 32 (mnt_reply x.2)) in
       Ret (true, set_root NFS_FHSIZE (fh ++ dropZ NFS_FHSIZE (root_data d)) fh d, x.2).

(** A length above the size of the two arrays makes memcpy run over both. *)
Definition mount_v3 (tr : transport) (port : Z) (path : bytes) (d : mount_data) (s : nst) : out (bool * mount_data * nst) :=
  let! x := mount_call tr port MNTPROC_MNT NFS_MNT3_VERSION path s in
  if negb x.1 then Ret (false, d, x.2)
  else
    let! fhsize := rd32 (mnt_reply x.2) 32 in
    if fhsize >? NFS3_FHSIZE then Undef
    else Ret (true, set_flags (Z.lor (flags d) NFS_MOUNT_VER3)
                (set_root fhsize (takeZ fhsize (dropZ 36 (mnt_reply x.2)) ++ replicate (Z.to_nat (NFS3_FHSIZE - fhsize)) NUL) (replicate 32 NUL) d), x.2).

Definition umount_v2 (tr : transport) (port : Z) (path : bytes) (s : nst) : out (bool * nst) := mount_call tr port MNTPROC_UMNT NFS_MNT_VERSION path s.
Definition umount_v3 (tr : transport) (port : Z) (path : bytes) (s : nst) : out (bool * nst) := mount_call tr port MNTPROC_UMNT NFS_MNT3_VERSION path s.

(** strncpy into the field of 256 bytes. *)
Definition store_hostname (h : bytes) : bytes := takeZ 256 h ++ replicate (256 - length h) NUL.

(** The mount system call: [true] is success. *)
Variable mount : bytes -> bytes -> Z -> mount_data -> bool.

(** The label bail, with the client and what was mounted. *)
Definition bail (mounted : bool) (tr : transport) (port : Z) (rem_path : bytes) (d : mount_data) (s : nst) : out (bool * nst) :=
  if mounted then
    let! x := (if has (flags d) NFS_MOUNT_VER3 then umount_v3 tr port rem_path s else umount_v2 tr port rem_path s) in
    Ret (false, x.2)
  else Ret (false, s).

Definition tick (s : nst) : nst :=
  {| time := S (time s); nfs_port := nfs_port s; mount_port := mount_port s; mnt_reply := mnt_reply s; called := called s |}.

Definition nfs_mount (pathname hostname rem_path path : bytes) (d : mount_data) (s : nst) : out (bool * nst) :=
  let! g := get_ports d s in
  let s := g.2 in
  let tr := if has (flags d) NFS_MOUNT_TCP then TCP else UDP in
  let port := mount_port s in
  if negb g.1 then bail false tr port rem_path d s else
  let client := make_client net (time s) tr port CLI_RESVPORT in
  let s := tick s in
  if negb client then bail false tr port rem_path d s else
  let! m := (if has (flags d) NFS_MOUNT_VER3 then mount_v3 tr port rem_path d s else mount_v2 tr port rem_path d s) in
  let d := m.1.2 in
  let s := m.2 in
  if negb m.1.1 then bail false tr port rem_path d s
  else if negb (n_socket net (time s)) then bail true tr port rem_path d s
  else match bindanyprivport (n_bind net (time s)) with
       | None => bail true tr port rem_path d s
       | Some _ =>
           let d := set_addr (nfs_port s mod 2 ^ 16) (store_hostname hostname) d in
           let mountflags := if has (flags d) NFS_MOUNT_KLIBC_RONLY then MS_RDONLY else 0 in
           let d := set_flags (Z.land (flags d) NFS_MOUNT_FLAGMASK) d in
           if mount pathname path mountflags d then Ret (true, s) else bail true tr port rem_path d s
       end.
End NfsMount.

(** ** main.c *)

(** The variables that the options set. *)
Record opts := { o_nfs_port : Z; o_nfs_version : Z; o_data : mount_data }.

(** parse_int: a failure is longjmp, and main returns 1. *)
Definition parse_int (val : bytes) : out Z :=
  let '(v, _, rest) := strtoul 0 val in
  if bool_decide (val = []) || negb (bool_decide (rest = [])) then Die 1 "invalid value" else Ret (i32 v).

Definition set_int (name : bytes) (v : Z) (o : opts) : option opts :=
  let d := o_data o in
  let mk rs ws ti re a b c e :=
    Some {| o_nfs_port := o_nfs_port o; o_nfs_version := o_nfs_version o;
            o_data := {| flags := flags d; rsize := rs; wsize := ws; timeo := ti; retrans := re; acregmin := a; acregmax := b; acdirmin := c; acdirmax := e;
                         root_size := root_size d; root_data := root_data d; old_root := old_root d; addr_port := addr_port d; hostname := hostname d |} |} in
  if decide (name = #"port") then Some {| o_nfs_port := v; o_nfs_version := o_nfs_version o; o_data := d |}
  else if decide (name = #"nfsvers" \/ name = #"vers") then Some {| o_nfs_port := o_nfs_port o; o_nfs_version := v; o_data := d |}
  else if decide (name = #"rsize") then mk v (wsize d) (timeo d) (retrans d) (acregmin d) (acregmax d) (acdirmin d) (acdirmax d)
  else if decide (name = #"wsize") then mk (rsize d) v (timeo d) (retrans d) (acregmin d) (acregmax d) (acdirmin d) (acdirmax d)
  else if decide (name = #"timeo") then mk (rsize d) (wsize d) v (retrans d) (acregmin d) (acregmax d) (acdirmin d) (acdirmax d)
  else if decide (name = #"retrans") then mk (rsize d) (wsize d) (timeo d) v (acregmin d) (acregmax d) (acdirmin d) (acdirmax d)
  else if decide (name = #"acregmin") then mk (rsize d) (wsize d) (timeo d) (retrans d) v (acregmax d) (acdirmin d) (acdirmax d)
  else if decide (name = #"acregmax") then mk (rsize d) (wsize d) (timeo d) (retrans d) (acregmin d) v (acdirmin d) (acdirmax d)
  else if decide (name = #"acdirmin") then mk (rsize d) (wsize d) (timeo d) (retrans d) (acregmin d) (acregmax d) v (acdirmax d)
  else if decide (name = #"acdirmax") then mk (rsize d) (wsize d) (timeo d) (retrans d) (acregmin d) (acregmax d) (acdirmin d) v
  else None.

(** bool_opts: the name, the bit that is cleared and the bits that are set. *)
Definition bool_opts : list (bytes * Z * Z) :=
  [(#"soft", NFS_MOUNT_SOFT, NFS_MOUNT_SOFT); (#"hard", NFS_MOUNT_SOFT, 0); (#"intr", NFS_MOUNT_INTR, NFS_MOUNT_INTR);
   (#"nointr", NFS_MOUNT_INTR, 0); (#"posix", NFS_MOUNT_POSIX, NFS_MOUNT_POSIX); (#"noposix", NFS_MOUNT_POSIX, 0);
   (#"cto", NFS_MOUNT_NOCTO, 0); (#"nocto", NFS_MOUNT_NOCTO, NFS_MOUNT_NOCTO); (#"ac", NFS_MOUNT_NOAC, 0);
   (#"noac", NFS_MOUNT_NOAC, NFS_MOUNT_NOAC); (#"lock", NFS_MOUNT_NONLM, 0); (#"nolock", NFS_MOUNT_NONLM, NFS_MOUNT_NONLM);
   (#"acl", NFS_MOUNT_NOACL, 0); (#"noacl", NFS_MOUNT_NOACL, NFS_MOUNT_NOACL); (#"v2", NFS_MOUNT_VER3, 0);
   (#"v3", NFS_MOUNT_VER3, NFS_MOUNT_VER3); (#"udp", NFS_MOUNT_TCP, 0); (#"tcp", NFS_MOUNT_TCP, NFS_MOUNT_TCP);
   (#"broken_suid", NFS_MOUNT_BROKEN_SUID, NFS_MOUNT_BROKEN_SUID); (#"ro", NFS_MOUNT_KLIBC_RONLY, NFS_MOUNT_KLIBC_RONLY);
   (#"rw", NFS_MOUNT_KLIBC_RONLY, 0)].

Definition bool_opt (name : bytes) : option (Z * Z) :=
  match list_find (fun e => e.1.1 = name) bool_opts with Some (_, (_, b, v)) => Some (b, v) | None => None end.

Definition apply_opt (cp : bytes) (o : opts) : out opts :=
  match strchr "="%char cp with
  | Some (name, val) =>
      match set_int name 0 o with
      | None => Die 1 "bad option"
      | Some _ => let! v := parse_int val in match set_int name v o with Some o => Ret o | None => Die 1 "bad option" end
      end
  | None =>
      match bool_opt cp with
      | None => Die 1 "bad option"
      | Some (b, v) =>
          Ret {| o_nfs_port := o_nfs_port o; o_nfs_version := o_nfs_version o;
                 o_data := set_flags (Z.lor (Z.land (flags (o_data o)) (Z.lnot b)) v) (o_data o) |}
      end
  end.

Fixpoint apply_opts (l : list bytes) (o : opts) : out opts :=
  match l with
  | [] => Ret o
  | cp :: l => if decide (cp = []) then apply_opts l o else let! o := apply_opt cp o in apply_opts l o
  end.

Definition parse_opts (options : bytes) (o : opts) : out opts :=
  let! o := apply_opts (split_on ","%char options) o in
  let with_flags f := Ret {| o_nfs_port := o_nfs_port o; o_nfs_version := o_nfs_version o; o_data := set_flags f (o_data o) |} in
  if o_nfs_version o =? 0 then Ret o
  else if o_nfs_version o =? 2 then with_flags (Z.land (flags (o_data o)) (Z.lnot NFS_MOUNT_VER3))
  else if o_nfs_version o =? 3 then with_flags (Z.lor (flags (o_data o)) NFS_MOUNT_VER3)
  else Die 1 "bad NFS version".

Inductive main_opt := M_o (options : bytes) | M_p (file : bytes) | M_unknown.

Fixpoint main_options (l : list main_opt) (o : opts) (portmap_file : option bytes) : out (opts * option bytes) :=
  match l with
  | [] => Ret (o, portmap_file)
  | M_o x :: l => let! o := parse_opts x o in main_options l o portmap_file
  | M_p f :: l => main_options l o (Some f)
  | M_unknown :: _ => Die 1 "invalid option"
  end.

(** The rest of the system: inet_aton, stat and S_ISDIR, and the stand-in for the
    portmapper. *)
Record system := { aton : bytes -> option Z; is_dir : bytes -> option bool; spoofer : bytes -> option bool }.

(** The exit status, and whether a stand-in was started and killed. *)
Definition nfsmount_main (net : network) (junk : nat -> ascii) (mount : bytes -> bytes -> Z -> mount_data -> bool) (sys : system)
    (options : list main_opt) (args : list bytes) : out (Z * bool) :=
  let! m := main_options options {| o_nfs_port := 0; o_nfs_version := 0; o_data := mount_data0 |} None in
  match args with
  | [] => Die 1 "need a path"
  | rem_name :: more =>
      match strchr ":"%char rem_name with
      | None => Die 1 "need a server"
      | Some (host, rem_path) =>
          match rem_path with
          | "/"%char :: _ =>
              match aton sys host with
              | None => Die 1 "can't parse IP address"
              | Some _ =>
                  let path := default #"/nfs_root" (head more) in
                  match is_dir sys path with
                  | None => Die 1 "stat"
                  | Some false => Die 1 "not a directory"
                  | Some true =>
                      let spoof := match m.2 with Some f => spoofer sys f | None => Some false end in
                      match spoof with
                      | None => Die 1 "portmap"
                      | Some running =>
                          let! r := nfs_mount net junk mount rem_name host rem_path path (o_data m.1) (nst0 (o_nfs_port m.1)) in
                          Ret (if r.1 then 0 else 1, running)
                      end
                  end
              end
          | _ => Die 1 "need a path"
          end
      end
  end.

(** ** Mounting *)

Section Mounting.
Context (net : network) (junk : nat -> ascii).

Lemma rpc_call_in t tr port body r : reply_fits r ->
  exists b r', rpc_call net t tr port body r = Ret (b, r') /\ reply_fits r' /\ lenZ (rbuf r') = lenZ (rbuf r).
Proof.
  intros Hr. unfold rpc_call. destruct tr.
  - unfold rpc_call_tcp. destruct (_ =? _); [by exists false, r|]. destruct (_ <? _); [by exists false, r|].
    destruct (rpc_do_reply_in (n_xid net t) r 0 (p_read (n_peer net t TCP port (rpc_header (lenZ body + 16) (n_xid net t) body))) Hr ltac:(by left))
      as (b & r' & -> & ? & ? & _). by exists b, r'.
  - unfold rpc_call_udp. match goal with |- context [udp_tries MAX_TRIES ?w ?x ?l true r] => destruct (udp_tries_in MAX_TRIES w x l true r Hr) as (b & r' & k & -> & ? & ? & _) end.
    by exists b, r'.
Qed.

Lemma portmap_in t program version proto : exists port t', portmap net t program version proto = Ret (port, t') /\ 0 <= port < 2 ^ 32.
Proof.
  unfold portmap. set (r0 := {| rbuf := replicate 32 NUL; reply_len := PORTMAP_REPLY_SIZE |}).
  assert (Hr0 : reply_fits r0) by (unfold reply_fits; done).
  repeat match goal with
  | |- context [if ?b then _ else _] => lazymatch b with tcp_client _ _ _ _ => destruct b | udp_client _ _ _ _ => destruct b end
  | |- context [rpc_call net ?t ?tr ?p ?b r0] =>
      let x := fresh "x" in let r := fresh "r" in let E := fresh "E" in
      destruct (rpc_call_in t tr p b r0 Hr0) as (x & r & E & ? & ?); rewrite E; cbn [obind fst snd]; destruct x; [|eexists _, _; split; [done|lia]];
      destruct (_ <? _); [eexists _, _; split; [done|lia]|];
      destruct (rd32_in (rbuf r) 28) as (z & Ez & ?); [lia|change (lenZ (rbuf r0)) with 32 in *; lia|rewrite Ez; eexists _, _; done]
  end.
  eexists _, _. split; [done|lia].
Qed.

Lemma get_ports_in d s : exists b s', get_ports net d s = Ret (b, s') /\ called s' = called s /\ mnt_reply s' = mnt_reply s.
Proof.
  unfold get_ports. set (vers := if has (flags d) NFS_MOUNT_VER3 then (NFS3_VERSION, NFS_MNT3_VERSION) else _). destruct vers as [nv mv].
  set (proto := if has _ NFS_MOUNT_TCP then _ else _).
  assert (H1 : forall r, (exists b s1, r = Ret (b, s1) /\ called s1 = called s /\ mnt_reply s1 = mnt_reply s) ->
    exists b s', (let! r := r in if negb r.1 then Ret (false, r.2) else
      let s := r.2 in
      if mount_port s =? 0 then
        let! p := portmap net (time s) NFS_MNT_PROGRAM mv proto in
        Ret (true, {| time := p.2; nfs_port := nfs_port s; mount_port := p.1 mod 2 ^ 16; mnt_reply := mnt_reply s; called := called s |})
      else Ret (true, s)) = Ret (b, s') /\ called s' = called s /\ mnt_reply s' = mnt_reply s).
  { intros r (b & s1 & -> & Hc & Hm). cbn [obind fst snd]. destruct b; [|by eexists _, _]. cbn [negb]. cbv zeta.
    destruct (mount_port s1 =? 0); [|by eexists _, _].
    destruct (portmap_in (time s1) NFS_MNT_PROGRAM mv proto) as (p & t & -> & _). by eexists _, _. }
  apply H1. destruct (nfs_port s =? 0); [|by eexists _, _].
  destruct (portmap_in (time s) NFS_PROGRAM nv proto) as (p & t & -> & _). cbn [obind fst snd]. repeat case_match; by eexists _, _.
Qed.

Lemma mount_call_in tr port proc version path s : lenZ (mnt_reply s) = MNT_REPLY_SIZE ->
  exists b s', mount_call net junk tr port proc version path s = Ret (b, s') /\ called s' = called s ++ [(proc, version, path, b)] /\
    lenZ (mnt_reply s') = MNT_REPLY_SIZE.
Proof.
  intros Hm. unfold mount_call. set (r0 := {| rbuf := mnt_reply s; reply_len := MNT_REPLY_SIZE |}).
  assert (Hr0 : reply_fits r0) by (unfold reply_fits, r0; cbn [rbuf reply_len]; rewrite Hm; done).
  destruct (rpc_call_in (time s) tr port (mount_body junk proc version path) r0 Hr0) as (x & r & -> & Hf & Hl). cbn [obind fst snd].
  assert (Hl' : lenZ (rbuf r) = MNT_REPLY_SIZE) by (rewrite Hl; done).
  destruct (rd32_in (rbuf r) 28) as (z & -> & _); [lia|rewrite Hl'; unfold MNT_REPLY_SIZE; lia|].
  destruct x; cbn [negb]; [destruct (negb (proc =? MNTPROC_MNT)); [|destruct (_ <? _)]|]; cbn [obind]; eexists _, _; (split; [done|]); done.
Qed.

Variable mount : bytes -> bytes -> Z -> mount_data -> bool.

(** The version of the protocol that the flags choose. *)
Definition mount_version (d : mount_data) : Z := if has (flags d) NFS_MOUNT_VER3 then NFS_MNT3_VERSION else NFS_MNT_VERSION.

Lemma has_lor f b : 0 < b -> has (Z.lor f b) b = true.
Proof.
  intros Hb. unfold has. rewrite Z.land_comm, Z.land_lor_distr_r, Z.land_diag. rewrite negb_true_iff, Z.eqb_neq.
  intros E. apply Z.lor_eq_0_iff in E. lia.
Qed.

Lemma bail_true tr port path d s : lenZ (mnt_reply s) = MNT_REPLY_SIZE ->
  exists s' b, bail net junk true tr port path d s = Ret (false, s') /\ called s' = called s ++ [(MNTPROC_UMNT, mount_version d, path, b)].
Proof.
  intros Hm. unfold bail, umount_v2, umount_v3, mount_version.
  destruct (has (flags d) NFS_MOUNT_VER3);
    match goal with |- context [mount_call net junk tr port ?p ?v path s] => destruct (mount_call_in tr port p v path s Hm) as (b & s' & -> & ? & _) end;
    by exists s', b.
Qed.

(** What is asked of mountd, for the two ends of the function. *)
Definition mount_trace (v : Z) (path : bytes) (ok : bool) (l : list (Z * Z * bytes * bool)) : Prop :=
  if ok then l = [(MNTPROC_MNT, v, path, true)]
  else l = [] \/ l = [(MNTPROC_MNT, v, path, false)] \/ exists b, l = [(MNTPROC_MNT, v, path, true); (MNTPROC_UMNT, v, path, b)].

(** mountd has granted the mount with a handle of more than 64 bytes. *)
Definition long_handle (tr : transport) (port : Z) (path : bytes) (d : mount_data) (s : nst) : Prop :=
  has (flags d) NFS_MOUNT_VER3 = true /\ exists s' z, mount_call net junk tr port MNTPROC_MNT NFS_MNT3_VERSION path s = Ret (true, s') /\
    rd32 (mnt_reply s') 32 = Ret z /\ NFS3_FHSIZE < z.

(** The step that asks for the handle. *)
Lemma mount_step_in tr port path d s : lenZ (mnt_reply s) = MNT_REPLY_SIZE -> called s = [] ->
  ((if has (flags d) NFS_MOUNT_VER3 then mount_v3 net junk tr port path d s else mount_v2 net junk tr port path d s) = Undef /\ long_handle tr port path d s) \/
  exists b d' s', (if has (flags d) NFS_MOUNT_VER3 then mount_v3 net junk tr port path d s else mount_v2 net junk tr port path d s) = Ret (b, d', s') /\
    called s' = [(MNTPROC_MNT, mount_version d, path, b)] /\ lenZ (mnt_reply s') = MNT_REPLY_SIZE /\ mount_version d' = mount_version d.
Proof.
  intros Hm Hc. unfold mount_v3, mount_v2, mount_version, long_handle. destruct (has (flags d) NFS_MOUNT_VER3) eqn:Ev.
  - destruct (mount_call_in tr port MNTPROC_MNT NFS_MNT3_VERSION path s Hm) as (b & s' & -> & Hc' & Hm'). cbn [obind fst snd]. rewrite Hc in Hc'.
    destruct b; cbn [negb]; [|right; eexists _, _, _; split; [done|]; by rewrite Ev].
    destruct (rd32_in (mnt_reply s') 32) as (z & Ez & _); [lia|rewrite Hm'; unfold MNT_REPLY_SIZE; lia|]. rewrite Ez. cbn [obind].
    rewrite Z.gtb_ltb. destruct (Z.ltb_spec NFS3_FHSIZE z); [left; split; [done|]; split; [done|]; by exists s', z|]. right. eexists _, _, _. split; [done|]. split; [done|]. split; [done|].
    cbn [flags set_flags]. by rewrite has_lor.
  - right. destruct (mount_call_in tr port MNTPROC_MNT NFS_MNT_VERSION path s Hm) as (b & s' & -> & Hc' & Hm'). cbn [obind fst snd]. rewrite Hc in Hc'.
    destruct b; cbn [negb]; eexists _, _, _; (split; [done|]); split; try done; split; try done; cbn [flags set_root]; by rewrite Ev.
Qed.

(** The client for mountd. *)
Definition client_made (d : mount_data) (s s1 : nst) : Prop :=
  get_ports net d s = Ret (true, s1) /\
  make_client net (time s1) (if has (flags d) NFS_MOUNT_TCP then TCP else UDP) (mount_port s1) CLI_RESVPORT = true.

(** C13. Whatever the network and the kernel answer, nfs_mount asks mountd for the handle
    at most once, exactly if the ports are known and there is a client for mountd, and
    releases what it was granted if and only if it does not use it: it reports success
    only with a granted mount, and when a later step fails it calls the procedure for
    unmounting with the version and path of the mount. The only other outcome is that
    mountd, asked for version 3 through such a client, has granted the mount with a handle
    of more than 64 bytes. *)
Theorem nfs_mount_balanced pathname host rem_path path d s : lenZ (mnt_reply s) = MNT_REPLY_SIZE -> called s = [] ->
  (nfs_mount net junk mount pathname host rem_path path d s = Undef /\
   exists s1, client_made d s s1 /\ long_handle (if has (flags d) NFS_MOUNT_TCP then TCP else UDP) (mount_port s1) rem_path d (tick s1)) \/
  exists b s', nfs_mount net junk mount pathname host rem_path path d s = Ret (b, s') /\ mount_trace (mount_version d) rem_path b (called s') /\
    (called s' <> [] <-> exists s1, client_made d s s1).
Proof.
  intros Hm Hc. unfold nfs_mount, client_made. destruct (get_ports_in d s) as (g & s1 & Eg & Hc1 & Hm1). rewrite Eg. cbn [obind fst snd].
  rewrite Hc in Hc1. rewrite <- Hm1 in Hm. set (tr := if has (flags d) NFS_MOUNT_TCP then TCP else UDP). destruct g; cbn [negb].
  2: { right. eexists _, _. split; [done|]. split; [by left|]. rewrite Hc1. split; [done|]. by intros (s2 & [= <-] & _). }
  destruct (make_client _ _ _ _ _) eqn:Ec; cbn [negb].
  2: { right. eexists _, _. split; [done|]. split; [by left|]. cbn [called tick]. rewrite Hc1. split; [done|]. intros (s2 & [= <-] & E). congruence. }
  assert (Hmade : forall l : list (Z * Z * bytes * bool), l <> [] -> (l <> [] <-> exists s2, Ret (true, s1) = Ret (true, s2) /\ make_client net (time s2) tr (mount_port s2) CLI_RESVPORT = true))
    by (intros l Hl; split; [by exists s1|done]).
  destruct (mount_step_in tr (mount_port s1) rem_path d (tick s1) Hm Hc1) as [[E Hlong]|(b & d' & s3 & E & Hc3 & Hm3 & Hv)]; rewrite E; cbn [obind fst snd].
  { left. split; [done|]. exists s1. done. }
  right. destruct b; cbn [negb]; [|eexists _, _; split; [done|]; rewrite Hc3; split; [right; by left|by apply Hmade]].
  assert (Hbail : forall d2, mount_version d2 = mount_version d ->
    exists b s', bail net junk true tr (mount_port s1) rem_path d2 s3 = Ret (b, s') /\ mount_trace (mount_version d) rem_path b (called s') /\
      (called s' <> [] <-> exists s2, Ret (true, s1) = Ret (true, s2) /\ make_client net (time s2) tr (mount_port s2) CLI_RESVPORT = true)).
  { intros d2 Hd2. destruct (bail_true tr (mount_port s1) rem_path d2 s3 Hm3) as (s' & b & -> & Hs'). eexists _, _. split; [done|].
    rewrite Hs', Hc3, Hd2. split; [right; right; by exists b|by apply Hmade]. }
  destruct (negb (n_socket _ _)); [by apply Hbail|]. destruct (bindanyprivport _); [|by apply Hbail].
  destruct (mount _ _ _ _); [eexists _, _; split; [done|]; rewrite Hc3; split; [done|by apply Hmade]|]. apply Hbail. rewrite <- Hv.
  unfold mount_version, has. cbn [flags set_flags set_addr]. rewrite <- Z.land_assoc. done.
Qed.
End Mounting.

(** ** The handle *)

Section Handle.
Context (net : network) (junk : nat -> ascii).

(** A reply of mountd on TCP: a handle behind its length. *)
Definition mnt_message (frag xid vf vl size : Z) (h : bytes) : bytes :=
  words [frag; xid; RPC_REPLY; 0; vf; vl; REPLY_OK; 0; size] ++ h.

Lemma mnt_message_word frag xid vf vl size h buf k z off :
  [frag; xid; RPC_REPLY; 0; vf; vl; REPLY_OK; 0; size] !! k = Some z -> 0 <= z < 2 ^ 32 -> off = 4 * Z.of_nat k ->
  rd32 (store buf 0 (mnt_message frag xid vf vl size h)) off = Ret z.
Proof.
  intros Hk Hz ->. unfold store, mnt_message. rewrite <- app_assoc, takeZ_0. by apply (rd32_words [] _ k).
Qed.

Section Answered.
Variables (s : nst) (port : Z) (path : bytes) (frag vf vl size : Z) (h : bytes).
Let xid := n_xid net (time s).
Let call := rpc_header (lenZ (mount_body junk MNTPROC_MNT NFS_MNT3_VERSION path) + 16) xid (mount_body junk MNTPROC_MNT NFS_MNT3_VERSION path).
Let w := n_peer net (time s) TCP port call.
Hypotheses (Hxid : 0 <= xid < 2 ^ 32) (Hfrag : LAST_FRAG <= frag < 2 ^ 32).
Hypotheses (Hwrite : lenZ call <= p_write w 0) (Hread : p_read w = Some (mnt_message frag xid vf vl size h)).
Hypothesis (Hsize : 0 <= size < 2 ^ 32).

(** What does not fit behind the length is not read. *)
Lemma mnt_message_take : takeZ MNT_REPLY_SIZE (mnt_message frag xid vf vl size h) = mnt_message frag xid vf vl size (takeZ 64 h).
Proof.
  unfold mnt_message, MNT_REPLY_SIZE. set (l := words _). assert (Hl : lenZ l = 36) by (unfold l; by rewrite lenZ_words).
  unfold takeZ at 1. rewrite lenZ_app, Hl. unfold takeZ. destruct (Z.leb_spec 100 (36 + lenZ h)), (Z.leb_spec 64 (lenZ h)); try lia; try done.
Qed.

Lemma mount_call_answered :
  mount_call net junk TCP port MNTPROC_MNT NFS_MNT3_VERSION path s =
  Ret (true, {| time := S (time s); nfs_port := nfs_port s; mount_port := mount_port s;
                mnt_reply := store (mnt_reply s) 0 (mnt_message frag xid vf vl size (takeZ 64 h));
                called := called s ++ [(MNTPROC_MNT, NFS_MNT3_VERSION, path, true)] |}).
Proof.
  pose proof mnt_message_take as Htake. set (h' := takeZ 64 h) in *.
  assert (Hl : lenZ (mnt_message frag xid vf vl size h') = 36 + lenZ h') by (unfold mnt_message; rewrite lenZ_app, lenZ_words; done).
  pose proof (lenZ_nonneg h') as Hh0. pose proof (lenZ_nonneg call) as Hcall.
  unfold mount_call, rpc_call. fold xid. fold call. fold w. unfold rpc_call_tcp.
  rewrite (proj2 (Z.eqb_neq _ _)) by lia. rewrite (proj2 (Z.ltb_ge _ _)) by lia. rewrite Hread. cbn [rpc_do_reply rbuf reply_len].
  unfold MNT_REPLY_SIZE in *. rewrite Z.sub_0_r, Htake. unfold RPC_REPLY_SIZE. rewrite (proj2 (Z.ltb_ge _ _)) by lia.
  rewrite (mnt_message_word frag xid vf vl size h' (mnt_reply s) 0 frag) by (done || unfold LAST_FRAG in *; lia). cbn [obind].
  rewrite (mnt_message_word frag xid vf vl size h' (mnt_reply s) 1 xid) by (done || lia). cbn [obind].
  rewrite (mnt_message_word frag xid vf vl size h' (mnt_reply s) 2 RPC_REPLY) by (done || unfold RPC_REPLY; lia). cbn [obind].
  rewrite (mnt_message_word frag xid vf vl size h' (mnt_reply s) 6 REPLY_OK) by (done || unfold REPLY_OK; lia). cbn [obind].
  assert (Hf : (Z.land frag LAST_FRAG =? 0) = false).
  { apply Z.eqb_neq. intros E. assert (Ht : Z.testbit (Z.land frag LAST_FRAG) 31 = true); [|rewrite E in Ht; done].
    rewrite Z.land_spec. change (Z.testbit LAST_FRAG 31) with true. rewrite andb_true_r. apply Z.testbit_true; [lia|].
    unfold LAST_FRAG in Hfrag. replace (frag / 2 ^ 31) with 1; [done|]. apply Z.div_unique with (frag - 2 ^ 31); lia. }
  rewrite Hf, !Z.eqb_refl. cbn [andb orb negb fst snd obind reply_len rbuf]. unfold MNT_REPLY_MINSIZE. rewrite (proj2 (Z.ltb_ge _ _)) by lia.
  rewrite (mnt_message_word frag xid vf vl size h' (mnt_reply s) 7 0) by (done || lia). done.
Qed.

Lemma mount_v3_overflow d : NFS3_FHSIZE < size -> mount_v3 net junk TCP port path d s = Undef.
Proof.
  intros Hs. unfold mount_v3. rewrite mount_call_answered. cbn [obind fst snd negb mnt_reply].
  rewrite (mnt_message_word frag xid vf vl size (takeZ 64 h) (mnt_reply s) 8 size) by (done || lia). cbn [obind].
  by rewrite Z.gtb_ltb, (proj2 (Z.ltb_lt _ _)).
Qed.

(** The handle is the first [size] bytes of what follows the length. *)
Lemma mount_v3_stores d fh rest : h = fh ++ rest -> size = lenZ fh -> size <= NFS3_FHSIZE -> exists s',
  mount_v3 net junk TCP port path d s = Ret (true, set_flags (Z.lor (flags d) NFS_MOUNT_VER3)
    (set_root (lenZ fh) (fh ++ replicate (64 - length fh) NUL) (replicate 32 NUL) d), s') /\
  time s' = S (time s) /\ nfs_port s' = nfs_port s /\ called s' = called s ++ [(MNTPROC_MNT, NFS_MNT3_VERSION, path, true)].
Proof.
  intros Hh Hs Hle. unfold mount_v3. rewrite mount_call_answered. cbn [obind fst snd negb mnt_reply].
  rewrite (mnt_message_word frag xid vf vl size (takeZ 64 h) (mnt_reply s) 8 size) by (done || lia). cbn [obind].
  unfold NFS3_FHSIZE in *. rewrite Z.gtb_ltb, (proj2 (Z.ltb_ge _ _)) by lia.
  assert (Htake : exists rest', takeZ 64 h = fh ++ rest').
  { rewrite Hh. unfold takeZ. destruct (_ <=? _); [|by exists rest]. rewrite take_app. rewrite take_ge by (unfold lenZ in *; lia). by eexists. }
  destruct Htake as [rest' ->].
  assert (Efh : takeZ size (dropZ 36 (store (mnt_reply s) 0 (mnt_message frag xid vf vl size (fh ++ rest')))) = fh).
  { unfold store. rewrite takeZ_0. unfold mnt_message. rewrite <- !app_assoc. cbn [app]. change 36 with (lenZ (words [frag; xid; RPC_REPLY; 0; vf; vl; REPLY_OK; 0; size])).
    rewrite dropZ_app. by apply takeZ_app. }
  rewrite Efh, Hs. replace (Z.to_nat (64 - lenZ fh)) with (64 - length fh)%nat by (unfold lenZ in *; lia). eexists. split; [reflexivity|done].
Qed.
End Answered.
End Handle.

(** C34. The handle that mountd sends is what the kernel gets. Let the mount be one of
    version 3 over TCP, with ports that are known, a client for mountd and a socket with a
    reserved port for the kernel. When the answer of mountd arrives in one read and
    has a handle of at most 64 bytes, with anything behind it such as the list of
    flavors, nfs_mount calls mount with the length of the handle, its bytes with zeros
    behind them, the port of nfsd and the name of the host, and version 3 in the flags. *)
Theorem mount_v3_handle net junk mount pathname host rem_path path d s s1 frag vf vl h rest p :
  let body := mount_body junk MNTPROC_MNT NFS_MNT3_VERSION rem_path in
  let xid := n_xid net (S (time s1)) in
  let call := rpc_header (lenZ body + 16) xid body in
  let w := n_peer net (S (time s1)) TCP (mount_port s1) call in
  has (flags d) NFS_MOUNT_VER3 = true -> has (flags d) NFS_MOUNT_TCP = true -> client_made net d s s1 ->
  0 <= xid < 2 ^ 32 -> LAST_FRAG <= frag < 2 ^ 32 -> lenZ call <= p_write w 0 ->
  p_read w = Some (mnt_message frag xid vf vl (lenZ h) (h ++ rest)) -> lenZ h <= NFS3_FHSIZE ->
  n_socket net (S (S (time s1))) = true -> bindanyprivport (n_bind net (S (S (time s1)))) = Some p ->
  let d' := set_flags (Z.land (Z.lor (flags d) NFS_MOUNT_VER3) NFS_MOUNT_FLAGMASK) (set_addr (nfs_port s1 mod 2 ^ 16) (store_hostname host)
              (set_root (lenZ h) (h ++ replicate (64 - length h) NUL) (replicate 32 NUL) d)) in
  exists s', called s' = called s1 ++ [(MNTPROC_MNT, NFS_MNT3_VERSION, rem_path, true)] /\
    nfs_mount net junk mount pathname host rem_path path d s =
      if mount pathname path (if has (flags d) NFS_MOUNT_KLIBC_RONLY then MS_RDONLY else 0) d' then Ret (true, s')
      else bail net junk true TCP (mount_port s1) rem_path d' s'.
Proof.
  intros body xid call w H3 Ht [Hg Hc] Hx Hf Hwr Hrd Hh Hso Hbi d'. pose proof (lenZ_nonneg h). rewrite Ht in Hc.
  destruct (mount_v3_stores net junk (tick s1) (mount_port s1) rem_path frag vf vl (lenZ h) (h ++ rest) Hx Hf Hwr Hrd
    ltac:(unfold NFS3_FHSIZE in *; lia) d h rest eq_refl eq_refl Hh) as (s' & E & Es1 & Es2 & Es3).
  exists s'. split; [exact Es3|]. unfold nfs_mount. rewrite Hg. cbn [obind fst snd negb]. rewrite Ht, Hc, H3, E. cbn [obind fst snd negb].
  rewrite Es1. cbn [tick time]. rewrite Hso, Hbi. cbn [negb]. rewrite Es2. cbn [tick nfs_port].
  assert (Hro : has (Z.lor (flags d) NFS_MOUNT_VER3) NFS_MOUNT_KLIBC_RONLY = has (flags d) NFS_MOUNT_KLIBC_RONLY).
  { unfold has. rewrite Z.land_lor_distr_l. change (Z.land NFS_MOUNT_VER3 NFS_MOUNT_KLIBC_RONLY) with 0. by rewrite Z.lor_0_r. }
  cbn [flags set_flags set_addr]. rewrite Hro. done.
Qed.

(** C38. The length of the handle is taken from the answer without a test: a server that
    sends a length above 64 makes memcpy write behind the handle in the data for the
    kernel. *)
Theorem handle_overflow net junk s port path d frag vf vl size h :
  let body := mount_body junk MNTPROC_MNT NFS_MNT3_VERSION path in
  let call := rpc_header (lenZ body + 16) (n_xid net (time s)) body in
  let w := n_peer net (time s) TCP port call in
  lenZ (mnt_reply s) = MNT_REPLY_SIZE -> 0 <= n_xid net (time s) < 2 ^ 32 -> LAST_FRAG <= frag < 2 ^ 32 -> lenZ call <= p_write w 0 ->
  p_read w = Some (mnt_message frag (n_xid net (time s)) vf vl size h) -> NFS3_FHSIZE < size < 2 ^ 32 -> lenZ h <= 64 ->
  mount_v3 net junk TCP port path d s = Undef.
Proof.
  intros body call w H1 H2 H3 H4 H5 H6 H7. unfold NFS3_FHSIZE in H6.
  eapply (mount_v3_overflow net junk s port path frag vf vl size h); try done; unfold NFS3_FHSIZE; lia.
Qed.

(** If the portmapper of the server knows no mountd, get_ports means to use port 627
    but the next line overwrites it: the port becomes 0. *)
Theorem mount_port_fallback_lost net d s t : nfs_port s <> 0 -> mount_port s = 0 ->
  portmap net (time s) NFS_MNT_PROGRAM (mount_version d) (if has (flags d) NFS_MOUNT_TCP then IPPROTO_TCP else IPPROTO_UDP) = Ret (0, t) ->
  exists s', get_ports net d s = Ret (true, s') /\ mount_port s' = 0.
Proof.
  intros H1 H2 H3. unfold get_ports, mount_version in *. rewrite (proj2 (Z.eqb_neq _ _)) by done.
  destruct (has (flags d) NFS_MOUNT_VER3); cbn [obind fst snd negb]; rewrite H2, H3; cbn [Z.eqb obind fst snd]; by eexists.
Qed.

(** ** Options *)

(** An option of the list that decides about a bit of the flags. *)
Definition touches (i : Z) (cp : bytes) : Prop := exists b v, bool_opt cp = Some (b, v) /\ Z.testbit b i = true.

Lemma bool_opt_in cp b v : bool_opt cp = Some (b, v) -> (cp, b, v) ∈ bool_opts.
Proof.
  unfold bool_opt. destruct (list_find _ _) as [[i [[n b'] v']]|] eqn:E; [|done]. intros [= -> ->].
  apply list_find_Some in E as (Hi & <- & _). by eapply list_elem_of_lookup_2.
Qed.

(** The names have no [=], and an option sets only the bits that it clears before. *)
Lemma bool_opts_plain : Forall (fun e => strchr "="%char e.1.1 = None /\ e.1.1 <> [] /\ Z.land e.2 (Z.lnot e.1.2) = 0) bool_opts.
Proof. apply (bool_decide_unpack _). vm_compute. exact I. Qed.

Lemma bool_opt_plain cp b v : bool_opt cp = Some (b, v) -> strchr "="%char cp = None /\ cp <> [] /\ Z.land v (Z.lnot b) = 0.
Proof. intros H%bool_opt_in. pose proof bool_opts_plain as Hp. rewrite list.Forall_forall in Hp. exact (Hp _ H). Qed.

Lemma set_int_flags name v o o' : set_int name v o = Some o' -> flags (o_data o') = flags (o_data o).
Proof. unfold set_int. cbv zeta. repeat (case_decide; [by intros [= <-]|]). done. Qed.

(** The bit [i] after an option. *)
Definition opt_bit (i : Z) (cp : bytes) (old : bool) : bool :=
  match bool_opt cp with Some (b, v) => if Z.testbit b i then Z.testbit v i else old | None => old end.

Lemma apply_opt_bit cp o o' i : 0 <= i -> apply_opt cp o = Ret o' ->
  Z.testbit (flags (o_data o')) i = opt_bit i cp (Z.testbit (flags (o_data o)) i).
Proof.
  intros Hi. unfold apply_opt, opt_bit. destruct (bool_opt cp) as [[b v]|] eqn:Eb.
  - destruct (bool_opt_plain cp b v Eb) as (-> & _ & Hz). intros [= <-]. cbn [o_data flags set_flags].
    rewrite Z.lor_spec, Z.land_spec, Z.lnot_spec by done.
    assert (Hv : Z.testbit v i = true -> Z.testbit b i = true).
    { intros Hv. destruct (Z.testbit b i) eqn:E; [done|]. assert (Z.testbit (Z.land v (Z.lnot b)) i = true)
        by (by rewrite Z.land_spec, Z.lnot_spec, Hv, E by done). rewrite Hz, Z.bits_0 in *. done. }
    destruct (Z.testbit b i), (Z.testbit v i), (Z.testbit (flags (o_data o)) i); cbn; try done; by specialize (Hv eq_refl).
  - destruct (strchr "="%char cp) as [[name val]|]; [|done]. destruct (set_int name 0 o); [|done].
    destruct (parse_int val) as [v| | |]; cbn [obind]; try done. destruct (set_int name v o) as [o1|] eqn:E; [|done].
    intros [= <-]. by rewrite (set_int_flags _ _ _ _ E).
Qed.

Lemma apply_opts_bit l o o' i : 0 <= i -> apply_opts l o = Ret o' ->
  Z.testbit (flags (o_data o')) i = foldl (fun old cp => opt_bit i cp old) (Z.testbit (flags (o_data o)) i) l.
Proof.
  intros Hi. revert o. induction l as [|cp l IH]; intros o; cbn [apply_opts foldl]; [by intros [= ->]|].
  case_decide as Ec.
  - subst cp. intros H. rewrite (IH _ H). unfold opt_bit at 2. destruct (bool_opt []) as [[b v]|] eqn:E; [|done].
    by apply bool_opt_plain in E as (_ & ? & _).
  - destruct (apply_opt cp o) as [o1| | |] eqn:E; cbn [obind]; try done. intros H. rewrite (IH _ H). by rewrite (apply_opt_bit _ _ _ _ Hi E).
Qed.

Lemma untouched l i old : (forall c, c ∈ l -> ~ touches i c) -> foldl (fun old cp => opt_bit i cp old) old l = old.
Proof.
  revert old. induction l as [|cp l IH]; intros old Hl; [done|]. cbn. rewrite IH by (intros c Hc; apply Hl; apply elem_of_cons; by right).
  unfold opt_bit. destruct (bool_opt cp) as [[b v]|] eqn:E; [|done]. destruct (Z.testbit b i) eqn:Eb; [|done].
  destruct (Hl cp); [apply elem_of_cons; by left|]. by exists b, v.
Qed.

Lemma ver3_bit i : 0 <= i -> Z.testbit NFS_MOUNT_VER3 i = bool_decide (i = 7).
Proof.
  intros Hi. change NFS_MOUNT_VER3 with (2 ^ 7). rewrite Z.pow2_bits_eqb by lia. case_bool_decide; [by subst|]. by apply Z.eqb_neq.
Qed.

(** Of the options that decide about a flag of the mount, the last one in the list
    counts, and flags that no option names stay as they were. A version that was given
    with vers= or nfsvers= overrides v2 and v3, wherever they stand, and has to be 2
    or 3. *)
Theorem parse_opts_flags options o o' i : parse_opts options o = Ret o' -> 0 <= i ->
  let l := split_on ","%char options in
  let decided (P : bool -> Prop) :=
    (forall l1 cp l2 b v, l = l1 ++ cp :: l2 -> bool_opt cp = Some (b, v) -> Z.testbit b i = true -> (forall c, c ∈ l2 -> ~ touches i c) -> P (Z.testbit v i)) /\
    ((forall c, c ∈ l -> ~ touches i c) -> P (Z.testbit (flags (o_data o)) i)) in
  if decide (i = 7 /\ o_nfs_version o' <> 0)
  then (o_nfs_version o' = 2 \/ o_nfs_version o' = 3) /\ Z.testbit (flags (o_data o')) i = (o_nfs_version o' =? 3)
  else decided (fun bit => Z.testbit (flags (o_data o')) i = bit).
Proof.
  intros Hp Hi l decided. unfold parse_opts in Hp. fold l in Hp. destruct (apply_opts l o) as [o1| | |] eqn:E; cbn [obind] in Hp; try done.
  pose proof (apply_opts_bit l o o1 i Hi E) as Hb.
  assert (Hd : forall f, Z.testbit f i = Z.testbit (flags (o_data o1)) i -> decided (fun bit => Z.testbit f i = bit)).
  { intros f Hf. rewrite Hf, Hb. split.
    - intros l1 cp l2 b v -> Hcp Hbi Hl2. rewrite foldl_app. cbn [foldl]. rewrite untouched by done. unfold opt_bit. by rewrite Hcp, Hbi.
    - intros Hl. by apply untouched. }
  destruct (Z.eqb_spec (o_nfs_version o1) 0) as [E0|E0]; [injection Hp as <-; rewrite decide_False by (by intros [_ ?]); by apply Hd|].
  destruct (Z.eqb_spec (o_nfs_version o1) 2) as [E2|E2]; [|destruct (Z.eqb_spec (o_nfs_version o1) 3) as [E3|E3]; [|done]];
    injection Hp as <-; cbn [o_nfs_version o_data flags set_flags]; case_decide as Ec.
  - destruct Ec as [-> _]. split; [by left|]. rewrite E2, Z.land_spec, Z.lnot_spec by done. change (Z.testbit NFS_MOUNT_VER3 7) with true. apply andb_false_r.
  - apply Hd. rewrite Z.land_spec, Z.lnot_spec, ver3_bit by done. rewrite bool_decide_eq_false_2 by (intros ->; by apply Ec). apply andb_true_r.
  - destruct Ec as [-> _]. split; [by right|]. rewrite E3, Z.lor_spec. apply orb_true_r.
  - apply Hd. rewrite Z.lor_spec, ver3_bit by done. rewrite bool_decide_eq_false_2 by (intros ->; by apply Ec). apply orb_false_r.
Qed.

(** The path is padded to whole words. *)
Lemma pad_len_words len : 0 <= len < 2 ^ 63 -> len <= pad_len len < len + 4 /\ pad_len len mod 4 = 0.
Proof.
  intros H. unfold pad_len. rewrite land_not3 by apply u64_range. rewrite u64_small by lia.
  split; Z.div_mod_to_equations; lia.
Qed.

(** ** Examples *)

(** A server on TCP with one answer for all calls, a handle of three bytes. *)
Definition mount_server (size : Z) : network :=
  {| n_socket := fun _ => true; n_bind := fun _ _ => 0; n_connect := fun _ _ _ => true; n_xid := fun _ => 7;
     n_peer := fun _ _ _ m => {| p_write := fun _ => lenZ m; p_poll := fun _ => PollTimeout; p_read := Some (mnt_message (2 ^ 31 + 40) 7 0 0 size #"abc") |} |}.

Lemma nfs_mount_balanced_witness : exists s',
  nfs_mount (mount_server 3) (fun _ => NUL) (fun _ _ _ _ => false) #"10.0.0.1:/r" #"10.0.0.1" #"/r" #"/root" mount_data0
    {| time := 0; nfs_port := 2049; mount_port := 635; mnt_reply := replicate 100 NUL; called := [] |} = Ret (false, s') /\
  exists b, called s' = [(MNTPROC_MNT, 3, #"/r", true); (MNTPROC_UMNT, 3, #"/r", b)].
Proof.
  destruct (nfs_mount_balanced (mount_server 3) (fun _ => NUL) (fun _ _ _ _ => false) #"10.0.0.1:/r" #"10.0.0.1" #"/r" #"/root" mount_data0
    {| time := 0; nfs_port := 2049; mount_port := 635; mnt_reply := replicate 100 NUL; called := [] |}) as [[H _]|(b & s' & H & Ht & _)];
    [reflexivity|reflexivity|vm_compute in H; discriminate|].
  exists s'. assert (b = false) as -> by (vm_compute in H; congruence). split; [exact H|].
  destruct Ht as [Ht|[Ht|Ht]]; [..|exact Ht]; vm_compute in H; injection H as <-; discriminate Ht.
Defined.

Lemma mount_v3_handle_witness : exists s',
  nfs_mount (mount_server 3) (fun _ => NUL) (fun _ _ _ d => bool_decide (takeZ 3 (root_data d) = #"abc")) #"10.0.0.1:/r" #"10.0.0.1" #"/r" #"/root" mount_data0
    {| time := 0; nfs_port := 2049; mount_port := 635; mnt_reply := replicate 100 NUL; called := [] |} = Ret (true, s').
Proof.
  destruct (mount_v3_handle (mount_server 3) (fun _ => NUL) (fun _ _ _ d => bool_decide (takeZ 3 (root_data d) = #"abc")) #"10.0.0.1:/r" #"10.0.0.1" #"/r" #"/root"
    mount_data0 {| time := 0; nfs_port := 2049; mount_port := 635; mnt_reply := replicate 100 NUL; called := [] |}
    {| time := 0; nfs_port := 2049; mount_port := 635; mnt_reply := replicate 100 NUL; called := [] |} (2 ^ 31 + 40) 0 0 #"abc" [] LOWPORT)
    as (s' & _ & H); [reflexivity|reflexivity|split; vm_compute; reflexivity|cbn; lia|unfold LAST_FRAG; lia|apply Z.le_refl|reflexivity|discriminate|
     reflexivity|vm_compute; reflexivity|].
  exists s'. rewrite H. reflexivity.
Defined.

Lemma handle_overflow_witness : mount_v3 (mount_server 65) (fun _ => NUL) TCP 635 #"/r" mount_data0 (nst0 0) = Undef.
Proof.
  apply (handle_overflow (mount_server 65) (fun _ => NUL) (nst0 0) 635 #"/r" mount_data0 (2 ^ 31 + 40) 0 0 65 #"abc");
    [reflexivity|cbn; lia|unfold LAST_FRAG; lia|apply Z.le_refl|reflexivity|unfold NFS3_FHSIZE; lia|discriminate].
Defined.

Lemma mount_port_fallback_lost_witness : exists s',
  get_ports (example_net (fun _ => example_peer 7 PollError)) mount_data0 (nst0 2049) = Ret (true, s') /\ mount_port s' = 0.
Proof.
  apply (mount_port_fallback_lost (example_net (fun _ => example_peer 7 PollError)) mount_data0 (nst0 2049) 2%nat);
    [discriminate|reflexivity|vm_compute; reflexivity].
Defined.

Lemma parse_opts_flags_witness : exists o',
  parse_opts #"v2,soft,ro,vers=3,hard" {| o_nfs_port := 0; o_nfs_version := 0; o_data := mount_data0 |} = Ret o' /\
  Z.testbit (flags (o_data o')) 7 = true /\ Z.testbit (flags (o_data o')) 0 = false.
Proof.
  eexists. split; [vm_compute; reflexivity|].
  match goal with |- Z.testbit (flags (o_data ?o')) 7 = true /\ _ =>
    pose proof (parse_opts_flags #"v2,soft,ro,vers=3,hard" {| o_nfs_port := 0; o_nfs_version := 0; o_data := mount_data0 |} o' 7 ltac:(vm_compute; reflexivity) ltac:(lia)) as H7;
    pose proof (parse_opts_flags #"v2,soft,ro,vers=3,hard" {| o_nfs_port := 0; o_nfs_version := 0; o_data := mount_data0 |} o' 0 ltac:(vm_compute; reflexivity) ltac:(lia)) as H0 end.
  cbv zeta in H7, H0. rewrite decide_True in H7 by done. rewrite decide_False in H0 by (intros [? _]; discriminate).
  split; [apply H7|]. destruct H0 as [H0 _]. apply (H0 [ #"v2"; #"soft"; #"ro"; #"vers=3"] #"hard" [] 1 0); [reflexivity|reflexivity|reflexivity|].
  intros c Hc. by apply not_elem_of_nil in Hc.
Defined.
