(* ===== verification/Mounts.v ===== *)
(** ueventd-mounts (features/runtime/src/ueventd-mounts): keeps a list of the mount
    points and writes an event into the queue of ueventd for every change.

    - ueventd-mounts.c: [mount_new], [mount_find], [create_event], [mount_attach],
      [mount_detach], [backend_select];
    - backend-procfs.c compares the list with /proc/self/mounts: [procfs_reset_state],
      [procfs_read_mounts], [procfs_diff_mounts], [procfs_init_backend],
      [procfs_dispatch];
    - backend-fanotify.c reads events of the kernel: [statmount_alloc],
      [fanotify_read_mounts], [info_loop], [meta_loop], [fanotify_dispatch].

    The linked list is a list in its order, and the pointer to an entry its index. The
    contents of /proc/self/mounts, the answers of statmount, listmount and read, the
    clock and the results of the calls that write an event are parameters; dprintf
    writes the whole text. *)

From Stdlib Require Import ZArith Ascii Lia Sorted.
From stdpp Require Import base list gmap strings tactics.
From S2P Require Import Prelude CString.

Open Scope Z_scope.
Open Scope cprog_scope.

(** ** The list *)

Inductive mount_entry_t := MOUNT_ENTRY_OLD | MOUNT_ENTRY_NEW | MOUNT_ENTRY_CUR.

#[export] Instance mount_entry_eq : EqDecision mount_entry_t.
Proof. solve_decision. Defined.

Record mounts := { ent_flag : mount_entry_t; mnt_id : Z; ent_name : bytes; ent_path : bytes; ent_type : bytes; ent_opts : bytes }.

Definition set_flag (f : mount_entry_t) (m : mounts) : mounts :=
  {| ent_flag := f; mnt_id := mnt_id m; ent_name := ent_name m; ent_path := ent_path m; ent_type := ent_type m; ent_opts := ent_opts m |}.

Definition mount_new (id : Z) (source target fstype opts : option bytes) : mounts :=
  {| ent_flag := MOUNT_ENTRY_CUR; mnt_id := id; ent_name := default [] source; ent_path := default [] target;
     ent_type := default [] fstype; ent_opts := default [] opts |}.

(** The test of mount_find on one entry. *)
Definition find_test (id : Z) (target source fstype : option bytes) (m : mounts) : bool :=
  if negb (id =? 0) && negb (mnt_id m =? 0) then mnt_id m =? id
  else match target, source, fstype with
       | Some t, Some s, Some f => bool_decide (ent_path m = t) && bool_decide (ent_name m = s) && bool_decide (ent_type m = f)
       | _, _, _ => false
       end.

Definition mount_find (id : Z) (target source fstype : option bytes) (l : list mounts) : option nat :=
  fst <$> list_find (fun m => find_test id target source fstype m = true) l.

(** ** Events *)

(** The list, the files in the directory of the queue, and the events so far; the
    number of events is the time. *)
Record mst := { mlist : list mounts; queue : gmap string bytes; events : list (bytes * mounts) }.

Definition set_mlist (l : list mounts) (s : mst) : mst := {| mlist := l; queue := queue s; events := events s |}.

Definition event_text (action : bytes) (m : mounts) : bytes :=
  #"ACTION='" ++ action ++ #"'" ++ ["010"%char] ++ #"SOURCE='" ++ ent_name m ++ #"'" ++ ["010"%char] ++ #"TARGET='" ++ ent_path m ++ #"'" ++
  ["010"%char] ++ #"FSTYPE='" ++ ent_type m ++ #"'" ++ ["010"%char] ++ #"OPTIONS='" ++ ent_opts m ++ #"'" ++ ["010"%char].

Definition unslash (c : ascii) : ascii := if decide (c = "/"%char) then "_"%char else c.

(** The conversions %06lu and %012lu. *)
Definition fmt_pad (w : nat) (z : Z) : bytes := pad_left w "0"%char (fmt_num 10 z).

Definition event_name (path : bytes) (tp : Z * Z) : bytes :=
  map unslash (#"mount." ++ path ++ #"." ++ fmt_pad 6 tp.1 ++ #"." ++ fmt_pad 12 tp.2).

(** The system calls of the n-th event: clock_gettime, openat of the temporary file with
    O_EXCL, and renameat to the name in the queue. *)
Record event_io := { ev_clock : nat -> Z * Z; ev_openat : nat -> Z; ev_renameat : nat -> bytes -> Z }.

Section Mounts.
Context (E : event_io).

(** The temporary file has gone when the event is renamed into the queue. *)
Definition create_event (action : bytes) (m : mounts) (s : mst) : out mst :=
  let n := length (events s) in
  let tp := ev_clock E n in
  if ev_openat E n <? 0 then Die EXIT_FAILURE "open" else
  let fname := event_name (ent_path m) tp in
  if ev_renameat E n fname <? 0 then Die EXIT_FAILURE "rename" else
  Ret {| mlist := mlist s; queue := <[str fname := event_text action m]> (queue s); events := events s ++ [(action, m)] |}.

Definition mount_emit (action : bytes) (m : mounts) (s : mst) : out mst := create_event action m s.

Definition mount_attach (m : mounts) (s : mst) : out mst := mount_emit #"mount" m (set_mlist (mlist s ++ [m]) s).

(** The entry at index [i] is removed. *)
Definition mount_detach (i : nat) (s : mst) : out mst :=
  match mlist s !! i with
  | Some m => let! s := mount_emit #"umount" m s in Ret (set_mlist (delete i (mlist s)) s)
  | None => Ret s
  end.

(** ** backend-procfs.c *)

(** A line of /proc/self/mounts, as getmntent returns it. *)
Record mntent := { mnt_fsname : bytes; mnt_dir : bytes; mnt_type : bytes; mnt_opts : bytes }.

Definition procfs_reset_state (l : list mounts) : list mounts := map (set_flag MOUNT_ENTRY_OLD) l.

(** The list with the flags of the entries that are still there, and the new entries. *)
Fixpoint read_lines (lines : list mntent) (l new : list mounts) : list mounts * list mounts :=
  match lines with
  | [] => (l, new)
  | e :: lines =>
      match mount_find 0 (Some (mnt_dir e)) (Some (mnt_fsname e)) (Some (mnt_type e)) l with
      | Some i => read_lines lines (alter (set_flag MOUNT_ENTRY_CUR) i l) new
      | None =>
          read_lines lines l
            (new ++ [set_flag MOUNT_ENTRY_NEW (mount_new 0 (Some (mnt_fsname e)) (Some (mnt_dir e)) (Some (mnt_type e)) (Some (mnt_opts e)))])
      end
  end.

Definition procfs_read_mounts (file : option (list mntent)) (l : list mounts) : out (list mounts * list mounts) :=
  match file with
  | None => Die EXIT_FAILURE "fopen"
  | Some lines => Ret (read_lines lines l [])
  end.

(** The first loop of procfs_diff_mounts, from the index [i] on. *)
Fixpoint detach_old (n i : nat) (s : mst) : out mst :=
  match n with
  | O => Ret s
  | S n =>
      match mlist s !! i with
      | None => Ret s
      | Some m =>
          if decide (ent_flag m = MOUNT_ENTRY_OLD) then let! s := mount_detach i s in detach_old n i s
          else detach_old n (S i) s
      end
  end.

Fixpoint attach_new (new : list mounts) (s : mst) : out mst :=
  match new with
  | [] => Ret s
  | m :: new => let! s := mount_attach m s in attach_new new s
  end.

Definition procfs_diff_mounts (new : list mounts) (s : mst) : out mst :=
  let! s := detach_old (length (mlist s)) 0 s in
  attach_new new s.

(** procfs_init_backend: the list, and then the descriptor for poll. *)
Definition procfs_init_list (file : option (list mntent)) (s : mst) : out mst :=
  let! r := procfs_read_mounts file (mlist s) in
  Ret (set_mlist (r.1 ++ map (set_flag MOUNT_ENTRY_CUR) r.2) s).

Definition procfs_init_backend (file : option (list mntent)) (fd : Z) (s : mst) : out mst :=
  let! s := procfs_init_list file s in
  if fd <? 0 then Die EXIT_FAILURE "open" else Ret s.

Definition procfs_dispatch (file : option (list mntent)) (s : mst) : out mst :=
  let! r := procfs_read_mounts file (procfs_reset_state (mlist s)) in
  procfs_diff_mounts r.2 (set_mlist r.1 s).

(** ** backend-fanotify.c *)

(** The reply of statmount: the mask, and the strings at the offsets of the fields. *)
Record statmount_reply := { sm_mask : Z; sm_point : bytes; sm_type : bytes; sm_source : bytes; sm_opts : bytes }.
Definition STATMOUNT_MNT_POINT : Z := 16.
Definition STATMOUNT_FS_TYPE : Z := 32.
Definition STATMOUNT_MNT_OPTS : Z := 128.
Definition STATMOUNT_SB_SOURCE : Z := 512.

Context (statmount : Z -> option statmount_reply).

Definition if_set (mask bit : Z) (s : bytes) : option bytes := Some (if Z.land mask bit =? 0 then [] else s).

Definition statmount_alloc (id : Z) : option mounts :=
  match statmount id with
  | None => None
  | Some r => Some (mount_new id (if_set (sm_mask r) STATMOUNT_SB_SOURCE (sm_source r)) (if_set (sm_mask r) STATMOUNT_MNT_POINT (sm_point r))
                      (if_set (sm_mask r) STATMOUNT_FS_TYPE (sm_type r)) (if_set (sm_mask r) STATMOUNT_MNT_OPTS (sm_opts r)))
  end.

Definition find_id (id : Z) (l : list mounts) : option nat := mount_find id None None None l.

(** One batch of listmount. *)
Definition add_ids (ids : list Z) (l : list mounts) : list mounts :=
  foldl (fun l id => match find_id id l with
                     | Some _ => l
                     | None => match statmount_alloc id with Some m => l ++ [m] | None => l end
                     end) l ids.

Definition MNT_IDS : Z := 256.

(** The second result of listmount is the array; [None] is an error. *)
Context (listmount : Z -> option (list Z)).

Fixpoint fanotify_read_mounts (fuel : nat) (param : Z) (l : list mounts) : out (bool * list mounts) :=
  match fuel with
  | O => NoFuel
  | S fuel =>
      match listmount param with
      | None => Ret (false, l)
      | Some ids =>
          if lenZ ids =? 0 then Ret (true, l) else
          let l := add_ids ids l in
          if lenZ ids <? MNT_IDS then Ret (true, l)
          else match list.last ids with Some p => fanotify_read_mounts fuel p l | None => Undef end
      end
  end.

(** Fields of the structs in the buffer, which the kernel writes in its own order. *)
Definition rd (n : Z) (p : bytes) (off : Z) : out Z :=
  if (0 <=? off) && (off + n <=? lenZ p) then Ret (le_num (takeZ n (dropZ off p))) else Undef.

Definition FAN_MNT_ATTACH : Z := 16777216.
Definition FAN_MNT_DETACH : Z := 33554432.
Definition FAN_EVENT_INFO_TYPE_MNT : Z := 7.
Definition FANOTIFY_METADATA_VERSION : Z := 3.
Definition METADATA_SIZE : Z := 24.
Definition INFO_HEADER_SIZE : Z := 4.

Definition detach_id (id : Z) (s : mst) : out mst :=
  match find_id id (mlist s) with Some i => mount_detach i s | None => Ret s end.

Definition handle_mnt (mask id : Z) (s : mst) : out mst :=
  let! s := (if Z.land mask FAN_MNT_DETACH =? 0 then Ret s else detach_id id s) in
  if Z.land mask FAN_MNT_ATTACH =? 0 then Ret s
  else let! s := detach_id id s in
       match statmount_alloc id with Some m => mount_attach m s | None => Ret s end.

(** The records of one event: from [info] up to [info_end]. *)
Fixpoint info_loop (fuel : nat) (buf : bytes) (mask info info_end : Z) (s : mst) : out mst :=
  match fuel with
  | O => NoFuel
  | S fuel =>
      if info + INFO_HEADER_SIZE >? info_end then Ret s else
      let! len := rd 2 buf (info + 2) in
      if (len <? INFO_HEADER_SIZE) || (info + len >? info_end) then Ret s else
      let! info_type := rd 1 buf info in
      if info_type =? FAN_EVENT_INFO_TYPE_MNT then
        let! id := rd 8 buf (info + 8) in
        let! s := handle_mnt mask id s in
        info_loop fuel buf mask (info + len) info_end s
      else info_loop fuel buf mask (info + len) info_end s
  end.

(** The events in a buffer of [len] bytes from [meta] on. *)
Fixpoint meta_loop (fuel : nat) (buf : bytes) (meta len : Z) (s : mst) : out mst :=
  match fuel with
  | O => NoFuel
  | S fuel =>
      if len <? METADATA_SIZE then Ret s else
      let! event_len := rd 4 buf meta in
      if (event_len <? METADATA_SIZE) || (event_len >? len) then Ret s else
      let! vers := rd 1 buf (meta + 4) in
      if negb (vers =? FANOTIFY_METADATA_VERSION) then Die EXIT_FAILURE "unsupported fanotify metadata version" else
      let! mask := rd 8 buf (meta + 8) in
      let! s := info_loop (length buf) buf mask (meta + METADATA_SIZE) (meta + event_len) s in
      meta_loop fuel buf (meta + event_len) (len - event_len) s
  end.

Inductive read_event := ReadData (buf : bytes) | ReadEINTR | ReadEAGAIN | ReadError.

Fixpoint fanotify_dispatch (reads : list read_event) (s : mst) : out mst :=
  match reads with
  | [] | ReadEAGAIN :: _ | ReadData [] :: _ => Ret s
  | ReadEINTR :: reads => fanotify_dispatch reads s
  | ReadError :: _ => Die EXIT_FAILURE "read fanotify"
  | ReadData buf :: reads =>
      let! s := meta_loop (length buf) buf 0 (lenZ buf) s in
      fanotify_dispatch reads s
  end.

(** The calls of fanotify_init_backend before the list is read: whether fanotify_init,
    the mount namespace and fanotify_mark succeed. *)
Record fan_setup := { fan_init : bool; fan_ns : bool; fan_mark : bool }.
Definition LSMT_ROOT_PARAM : Z := 0.

Definition fanotify_init_backend (fuel : nat) (h : fan_setup) (s : mst) : out (bool * mst) :=
  if fan_init h && fan_ns h && fan_mark h then
    let! r := fanotify_read_mounts fuel LSMT_ROOT_PARAM (mlist s) in
    Ret (r.1, set_mlist r.2 s)
  else Ret (false, s).

Inductive backend := fanotify_backend | procfs_backend.

Definition backend_select (fuel : nat) (h : fan_setup) (file : option (list mntent)) (fd : Z) (s : mst) : out (backend * mst) :=
  let! r := fanotify_init_backend fuel h s in
  if r.1 then Ret (fanotify_backend, r.2)
  else let! s := procfs_init_backend file fd r.2 in Ret (procfs_backend, s).
End Mounts.

(** ** The files of the events *)

Section Emitted.
Context (E : event_io).

(** The files of the events [new], the first of which is the n-th. *)
Fixpoint write_events (n : nat) (new : list (bytes * mounts)) (q : gmap string bytes) : gmap string bytes :=
  match new with
  | [] => q
  | (a, m) :: new => write_events (S n) new (<[str (event_name (ent_path m) (ev_clock E n)) := event_text a m]> q)
  end.

(** The calls for them: the first one that fails ends the daemon. *)
Fixpoint write_calls (n : nat) (new : list (bytes * mounts)) : out unit :=
  match new with
  | [] => Ret tt
  | (a, m) :: new =>
      if ev_openat E n <? 0 then Die EXIT_FAILURE "open" else
      if ev_renameat E n (event_name (ent_path m) (ev_clock E n)) <? 0 then Die EXIT_FAILURE "rename" else
      write_calls (S n) new
  end.

(** The state with the list [l] and the events [new] behind the ones of [s]. *)
Definition emitted (new : list (bytes * mounts)) (l : list mounts) (s : mst) : mst :=
  {| mlist := l; queue := write_events (length (events s)) new (queue s); events := events s ++ new |}.
Definition emit (new : list (bytes * mounts)) (l : list mounts) (s : mst) : out mst :=
  let! _ := write_calls (length (events s)) new in Ret (emitted new l s).

Lemma write_calls_app n a b : write_calls n (a ++ b) = let! _ := write_calls n a in write_calls (n + length a) b.
Proof.
  revert n. induction a as [|[x m] a IH]; intros n; cbn [app write_calls length obind]; [by rewrite Nat.add_0_r|].
  repeat (destruct (_ <? 0); [done|]). rewrite IH. by replace (n + S (length a))%nat with (S n + length a)%nat by lia.
Qed.

Lemma write_events_app n a b q : write_events n (a ++ b) q = write_events (n + length a) b (write_events n a q).
Proof.
  revert n q. induction a as [|[x m] a IH]; intros n q; cbn [app write_events length]; [by rewrite Nat.add_0_r|].
  rewrite IH. by replace (n + S (length a))%nat with (S n + length a)%nat by lia.
Qed.

Lemma emitted_app a b l l' s : emitted b l' (emitted a l s) = emitted (a ++ b) l' s.
Proof. unfold emitted. cbn [events queue]. by rewrite length_app, write_events_app, app_assoc. Qed.

Lemma emit_app a b l l' s : (let! s := emit a l s in emit b l' s) = emit (a ++ b) l' s.
Proof.
  unfold emit. rewrite write_calls_app. destruct (write_calls _ a); cbn [obind]; try done.
  unfold emitted at 1. cbn [events]. rewrite length_app. destruct (write_calls _ b); cbn [obind]; try done. by rewrite emitted_app.
Qed.

Lemma emit_nil s : Ret s = emit [] (mlist s) s.
Proof. destruct s. unfold emit, emitted. cbn. by rewrite app_nil_r. Qed.

Lemma emit_set l l' a s : emit a l (set_mlist l' s) = emit a l s.
Proof. done. Qed.

(** What follows may use the list and nothing else. *)
Lemma emit_then a b l l' (k : mst -> out mst) s : k (emitted a l s) = emit b l' (emitted a l s) -> (let! s := emit a l s in k s) = emit (a ++ b) l' s.
Proof.
  intros Hk. rewrite <- (emit_app a b l l' s). unfold emit at 1 2. destruct (write_calls _ a); cbn [obind]; [exact Hk|done..].
Qed.

Lemma create_event_emit a m s : create_event E a m s = emit [(a, m)] (mlist s) s.
Proof. unfold create_event, emit, emitted. cbn. by repeat (destruct (_ <? 0); [done|]). Qed.

Lemma mount_attach_emit m s : mount_attach E m s = emit [(#"mount", m)] (mlist s ++ [m]) s.
Proof. unfold mount_attach, mount_emit. by rewrite create_event_emit. Qed.

Lemma mount_detach_emit i m s : mlist s !! i = Some m -> mount_detach E i s = emit [(#"umount", m)] (delete i (mlist s)) s.
Proof.
  intros Hi. unfold mount_detach, mount_emit. rewrite Hi, create_event_emit. unfold emit. by destruct (write_calls _ _).
Qed.

(** When the calls succeed, so does what emits. *)
Definition calls_fine : Prop := forall n, 0 <= ev_openat E n /\ forall f, 0 <= ev_renameat E n f.

Lemma emit_fine new l s : calls_fine -> emit new l s = Ret (emitted new l s).
Proof.
  intros HE. unfold emit. cut (forall n, write_calls n new = Ret tt); [by intros ->|]. induction new as [|[a m] new IH]; intros n; [done|].
  cbn [write_calls]. destruct (HE n) as [H1 H2]. rewrite (proj2 (Z.ltb_ge _ _)) by done. rewrite (proj2 (Z.ltb_ge _ _)) by done. apply IH.
Qed.
End Emitted.

(** ** /proc/self/mounts *)

(** What identifies a mount for this backend. *)
Definition key (m : mounts) : bytes * bytes * bytes := (ent_name m, ent_path m, ent_type m).
Definition line_key (e : mntent) : bytes * bytes * bytes := (mnt_fsname e, mnt_dir e, mnt_type e).

Lemma key_flag f m : key (set_flag f m) = key m.
Proof. done. Qed.

Definition new_entry (e : mntent) : mounts :=
  set_flag MOUNT_ENTRY_NEW (mount_new 0 (Some (mnt_fsname e)) (Some (mnt_dir e)) (Some (mnt_type e)) (Some (mnt_opts e))).

Lemma find_test_key e m : find_test 0 (Some (mnt_dir e)) (Some (mnt_fsname e)) (Some (mnt_type e)) m = true <-> key m = line_key e.
Proof. unfold find_test, key, line_key. cbn. rewrite !andb_true_iff, !bool_decide_eq_true.
  split; [intros [[H1 H2] H3]; congruence|intros H; injection H; auto]. Qed.

(** The list [l] before a dispatch and the kinds [ks] that the table has: of each of them
    the first entry stays, unless one of the kind is in [seen], and all others go. *)
Fixpoint kept (ks : list (bytes * bytes * bytes)) (seen : gset (bytes * bytes * bytes)) (l : list mounts) : list mounts :=
  match l with
  | [] => []
  | m :: l => (if decide (key m ∈ ks /\ key m ∉ seen) then [set_flag MOUNT_ENTRY_CUR m] else []) ++ kept ks ({[ key m ]} ∪ seen) l
  end.
Fixpoint gone (ks : list (bytes * bytes * bytes)) (seen : gset (bytes * bytes * bytes)) (l : list mounts) : list mounts :=
  match l with
  | [] => []
  | m :: l => (if decide (key m ∈ ks /\ key m ∉ seen) then [] else [set_flag MOUNT_ENTRY_OLD m]) ++ gone ks ({[ key m ]} ∪ seen) l
  end.

(** The lines of kinds that the list does not have. *)
Definition added (lines : list mntent) (l : list mounts) : list mounts :=
  map new_entry (filter (fun e => line_key e ∉ key <$> l) lines).

(** The flags after lines with the keys [ks]. *)
Fixpoint mark (ks : list (bytes * bytes * bytes)) (seen : gset (bytes * bytes * bytes)) (l : list mounts) : list mounts :=
  match l with
  | [] => []
  | m :: l => (if decide (key m ∈ ks /\ key m ∉ seen) then set_flag MOUNT_ENTRY_CUR m else m) :: mark ks ({[ key m ]} ∪ seen) l
  end.

Lemma key_mark ks seen l : key <$> mark ks seen l = key <$> l.
Proof. revert seen. induction l as [|m l IH]; intros seen; [done|]. cbn [mark fmap list_fmap]. f_equal; [by case_decide|apply IH]. Qed.

(** Entries of a kind that was seen stay as they are. *)
Lemma mark_seen ks seen l : (forall k, k ∈ ks -> k ∈ seen) -> mark ks seen l = l.
Proof.
  revert seen. induction l as [|m l IH]; intros seen Hk; [done|]. cbn [mark]. rewrite IH by set_solver. rewrite decide_False by naive_solver. done.
Qed.

Lemma mark_cons k ks seen l : mark ks seen (mark [k] seen l) = mark (k :: ks) seen l.
Proof.
  revert seen. induction l as [|m l IH]; intros seen; [done|]. cbn [mark].
  assert (Hk : key (if decide (key m ∈ [k] /\ key m ∉ seen) then set_flag MOUNT_ENTRY_CUR m else m) = key m) by (by case_decide).
  rewrite Hk, IH. f_equal. clear Hk. destruct (decide (key m ∈ [k] /\ key m ∉ seen)), (decide (key m ∈ ks /\ key m ∉ seen)), (decide (key m ∈ k :: ks /\ key m ∉ seen)); set_solver.
Qed.

(** A line marks the first entry of its kind. *)
Lemma mount_find_key e l :
  match mount_find 0 (Some (mnt_dir e)) (Some (mnt_fsname e)) (Some (mnt_type e)) l with
  | Some i => alter (set_flag MOUNT_ENTRY_CUR) i l = mark [line_key e] ∅ l /\ line_key e ∈ key <$> l
  | None => line_key e ∉ key <$> l
  end.
Proof.
  cut (forall seen, line_key e ∉ seen ->
    match mount_find 0 (Some (mnt_dir e)) (Some (mnt_fsname e)) (Some (mnt_type e)) l with
    | Some i => alter (set_flag MOUNT_ENTRY_CUR) i l = mark [line_key e] seen l /\ line_key e ∈ key <$> l
    | None => line_key e ∉ key <$> l
    end); [intros H; apply H; set_solver|].
  unfold mount_find. induction l as [|m l IH]; intros seen Hs; [apply not_elem_of_nil|]. cbn [list_find mark]. rewrite fmap_cons.
  destruct (decide (find_test _ _ _ _ m = true)) as [Hm|Hm]; rewrite find_test_key in Hm.
  - cbn. rewrite Hm, decide_True by (split; [by apply list_elem_of_singleton|done]). rewrite mark_seen by set_solver. split; [done|set_solver].
  - rewrite decide_False by (rewrite list_elem_of_singleton; tauto). specialize (IH ({[ key m ]} ∪ seen) ltac:(set_solver)).
    destruct (list_find _ l) as [[i x]|]; cbn in *; [destruct IH as [-> IH]; split; [done|set_solver]|set_solver].
Qed.

Lemma read_lines_spec lines l new : read_lines lines l new = (mark (line_key <$> lines) ∅ l, new ++ added lines l).
Proof.
  revert l new. induction lines as [|e lines IH]; intros l new.
  - cbn. rewrite app_nil_r, mark_seen by set_solver. done.
  - cbn [read_lines]. pose proof (mount_find_key e l) as Hf. unfold added in *. rewrite list.filter_cons.
    destruct (mount_find _ _ _ _ l) as [i|].
    + destruct Hf as [-> Hk]. rewrite decide_False by tauto. rewrite IH, mark_cons. by rewrite key_mark.
    + rewrite decide_True by done. rewrite IH. cbn [map]. rewrite <- app_assoc. f_equal. rewrite fmap_cons, <- mark_cons. f_equal. symmetry.
      clear -Hf. generalize (∅ : gset (bytes * bytes * bytes)). induction l as [|m l IH]; intros seen; [done|]. cbn [mark].
      rewrite fmap_cons, not_elem_of_cons in Hf. destruct Hf as [Hm Hf]. rewrite IH by done. rewrite decide_False; [done|].
      rewrite list_elem_of_singleton. intros [? _]. done.
Qed.

(** The entries that keep the flag of the reset, and the others. *)
Lemma mark_flags ks seen l :
  filter (fun m => ent_flag m <> MOUNT_ENTRY_OLD) (mark ks seen (procfs_reset_state l)) = kept ks seen l /\
  filter (fun m => ent_flag m = MOUNT_ENTRY_OLD) (mark ks seen (procfs_reset_state l)) = gone ks seen l.
Proof.
  revert seen. induction l as [|m l IH]; intros seen; [done|]. destruct (IH ({[ key m ]} ∪ seen)) as [IH1 IH2].
  cbn [procfs_reset_state map mark kept gone]. unfold procfs_reset_state in IH1, IH2. rewrite !key_flag, !list.filter_cons, IH1, IH2.
  destruct (decide (key m ∈ ks /\ key m ∉ seen)); cbn; done.
Qed.

(** The kinds that stay. *)
Lemma elem_of_kept k ks seen l : k ∈ key <$> kept ks seen l <-> k ∈ key <$> l /\ k ∈ ks /\ k ∉ seen.
Proof.
  revert seen. induction l as [|m l IH]; intros seen; [cbn; set_solver|]. cbn [kept]. rewrite fmap_app, elem_of_app, IH, fmap_cons, elem_of_cons.
  destruct (decide (key m ∈ ks /\ key m ∉ seen)); cbn; rewrite ?key_flag, ?list_elem_of_singleton, ?elem_of_nil, elem_of_union, elem_of_singleton;
  destruct (decide (k = key m)) as [->|]; naive_solver.
Qed.

Lemma kept_NoDup ks seen l : NoDup (key <$> kept ks seen l).
Proof.
  revert seen. induction l as [|m l IH]; intros seen; [apply base.NoDup_nil_2|]. cbn [kept]. case_decide; [|apply IH].
  cbn [app]. rewrite fmap_cons. apply list.NoDup_cons. split; [|apply IH]. rewrite elem_of_kept. set_solver.
Qed.

(** In a list without two of a kind those go that the table lacks. *)
Lemma gone_keys ks seen l : NoDup (key <$> l) -> (forall k, k ∈ key <$> l -> k ∉ seen) ->
  key <$> gone ks seen l = filter (fun k => k ∉ ks) (key <$> l).
Proof.
  revert seen. induction l as [|m l IH]; intros seen Hn Hs; [done|]. cbn [gone]. rewrite fmap_cons in *. apply list.NoDup_cons in Hn as [Hm Hn].
  rewrite fmap_app, list.filter_cons, IH; [|done|].
  - assert (key m ∉ seen) by (apply Hs, elem_of_cons; by left). case_decide; case_decide; done || tauto.
  - intros k Hk. assert (k ∉ seen) by (apply Hs, elem_of_cons; by right). rewrite not_elem_of_union, elem_of_singleton. split; [intros ->; done|done].
Qed.

Lemma filter_fmap_key {A B} (g : A -> B) (P : B -> Prop) (Q : A -> Prop) `{!forall x, Decision (P x)} `{!forall x, Decision (Q x)} (l : list A) :
  (forall x, x ∈ l -> Q x <-> P (g x)) -> g <$> filter Q l = filter P (g <$> l).
Proof.
  induction l as [|x l IH]; intros Hl; [done|]. rewrite fmap_cons, !list.filter_cons.
  assert (Hx : Q x <-> P (g x)) by (apply Hl, elem_of_cons; by left).
  rewrite <- IH by (intros y Hy; apply Hl, elem_of_cons; by right).
  destruct (decide (Q x)), (decide (P (g x))); try (by rewrite fmap_cons); tauto.
Qed.

Lemma added_keys lines l : key <$> added lines l = filter (fun k => k ∉ key <$> l) (line_key <$> lines).
Proof.
  unfold added. rewrite <- list_fmap_compose. rewrite <- (filter_fmap_key line_key _ (fun e => line_key e ∉ key <$> l)) by done. by apply list_fmap_ext.
Qed.

Definition on_umount (l : list mounts) : list (bytes * mounts) := (fun m => (#"umount", m)) <$> l.
Definition on_mount (l : list mounts) : list (bytes * mounts) := (fun m => (#"mount", m)) <$> l.

Section Procfs.
Context (E : event_io).

Lemma detach_old_spec n i s : (length (mlist s) - i <= n)%nat ->
  detach_old E n i s = emit E (on_umount (filter (fun m => ent_flag m = MOUNT_ENTRY_OLD) (drop i (mlist s))))
    (take i (mlist s) ++ filter (fun m => ent_flag m <> MOUNT_ENTRY_OLD) (drop i (mlist s))) s.
Proof.
  revert i s. induction n as [|n IH]; intros i s Hn; cbn [detach_old].
  - rewrite drop_ge, take_ge by lia. cbn. rewrite app_nil_r. apply emit_nil.
  - destruct (mlist s !! i) as [m|] eqn:Hi.
    2: { apply lookup_ge_None in Hi. rewrite drop_ge, take_ge by lia. cbn. rewrite app_nil_r. apply emit_nil. }
    pose proof (lookup_lt_Some _ _ _ Hi) as Hlt. rewrite (drop_S _ _ _ Hi), !list.filter_cons.
    destruct (decide (ent_flag m = MOUNT_ENTRY_OLD)) as [Hf|Hf].
    + rewrite decide_False by (intros Hx; by apply Hx). rewrite (mount_detach_emit E i m s Hi).
      apply (emit_then E [(#"umount", m)]). rewrite IH by (cbn; rewrite length_delete by done; lia). cbn [emitted mlist].
      rewrite delete_take_drop. rewrite take_app_le by (rewrite length_take; lia). rewrite take_take, Nat.min_id.
      rewrite drop_app_ge by (rewrite length_take; lia). rewrite length_take_le by lia. by rewrite Nat.sub_diag, drop_0.
    + rewrite decide_True by done. rewrite IH by lia. by rewrite (take_S_r _ _ _ Hi), <- app_assoc.
Qed.

Lemma attach_new_spec new s : attach_new E new s = emit E (on_mount new) (mlist s ++ new) s.
Proof.
  revert s. induction new as [|m new IH]; intros s; cbn [attach_new]; [rewrite app_nil_r; apply emit_nil|].
  rewrite mount_attach_emit. apply (emit_then E [(#"mount", m)]). rewrite IH. cbn [emitted mlist]. by rewrite <- app_assoc.
Qed.

Lemma procfs_dispatch_spec lines s :
  procfs_dispatch E (Some lines) s =
    emit E (on_umount (gone (line_key <$> lines) ∅ (mlist s)) ++ on_mount (added lines (mlist s)))
      (kept (line_key <$> lines) ∅ (mlist s) ++ added lines (mlist s)) s.
Proof.
  unfold procfs_dispatch, procfs_read_mounts. cbn [obind]. rewrite read_lines_spec. cbn [fst snd app]. unfold procfs_diff_mounts.
  destruct (mark_flags (line_key <$> lines) ∅ (mlist s)) as [Hk Hg]. rewrite detach_old_spec by (cbn; lia). cbn [set_mlist mlist].
  rewrite drop_0, Hk, Hg, emit_set, take_0. cbn [app]. apply emit_then. rewrite attach_new_spec. cbn [emitted mlist].
  assert (Ha : added lines (procfs_reset_state (mlist s)) = added lines (mlist s)).
  { unfold added. f_equal. apply list_filter_iff. intros e. unfold procfs_reset_state. rewrite <- list_fmap_compose. done. }
  by rewrite Ha.
Qed.

(** The kinds after a dispatch are those of the table. *)
Lemma dispatch_keys lines l k : k ∈ key <$> kept (line_key <$> lines) ∅ l ++ added lines l <-> k ∈ line_key <$> lines.
Proof.
  rewrite fmap_app, elem_of_app, elem_of_kept, added_keys, list_elem_of_filter. destruct (decide (k ∈ key <$> l)); set_solver.
Qed.

Lemma dispatch_NoDup lines l : NoDup (line_key <$> lines) -> NoDup (key <$> kept (line_key <$> lines) ∅ l ++ added lines l).
Proof.
  intros Hn. rewrite fmap_app. apply list.NoDup_app. split_and!; [apply kept_NoDup| |rewrite added_keys; by apply list.NoDup_filter].
  intros k Hk. rewrite elem_of_kept in Hk. rewrite added_keys, list_elem_of_filter. tauto.
Qed.
End Procfs.

(** C12. What the procfs backend does after a change of the mount table, for every list
    and every table. For this backend mounts with the same source, directory and type
    are of one kind. The new list consists of the entries that stay, the first one of
    every kind that the table still has, in their order, and behind them of an entry for
    every line of a kind that the list did not have; so it has the kinds of the table. The
    events are an umount for each entry that goes and then a mount for each new one,
    behind the events so far, and each is written to its file in the queue; the daemon
    ends at the first one whose file cannot be created or renamed. When neither
    the list nor the table has two mounts of a kind, nor does the new list, and the
    events are the differences of the list and the table. *)
Theorem procfs_sync E lines s :
  let stay := kept (line_key <$> lines) ∅ (mlist s) in
  let go := gone (line_key <$> lines) ∅ (mlist s) in
  let new := added lines (mlist s) in
  procfs_dispatch E (Some lines) s = emit E (on_umount go ++ on_mount new) (stay ++ new) s /\
  (forall k, k ∈ key <$> stay ++ new <-> k ∈ line_key <$> lines) /\
  key <$> new = filter (fun k => k ∉ key <$> mlist s) (line_key <$> lines) /\
  (NoDup (key <$> mlist s) -> NoDup (line_key <$> lines) ->
     NoDup (key <$> stay ++ new) /\ key <$> go = filter (fun k => k ∉ line_key <$> lines) (key <$> mlist s)).
Proof.
  cbv zeta. split_and!; [apply procfs_dispatch_spec|apply dispatch_keys|apply added_keys|].
  intros Hl Hn. split; [by apply dispatch_NoDup|]. apply gone_keys; [done|set_solver].
Qed.

(** Two mounts with the same source, directory and type are one for this backend:
    the line of the second marks the first entry again. At the next change of the table
    an umount event is written for the second one although it is still there. *)
Theorem duplicate_mount_unmounted E e : calls_fine E -> exists s1 s2,
  procfs_init_backend (Some [e; e]) 3 {| mlist := []; queue := ∅; events := [] |} = Ret s1 /\ events s1 = [] /\
  procfs_dispatch E (Some [e; e]) s1 = Ret s2 /\ (fun x => (x.1, key x.2)) <$> events s2 = [(#"umount", line_key e)].
Proof.
  intros HE. eexists _, _. split; [reflexivity|]. split; [done|]. rewrite procfs_dispatch_spec, emit_fine by done. split; [reflexivity|].
  cbn [emitted events app mlist]. set (m := set_flag MOUNT_ENTRY_CUR (new_entry e)).
  change (set_mlist _ _) with {| mlist := [m; m]; queue := ∅; events := [] |}. cbn [events mlist app]. assert (Hm : key m = line_key e) by done.
  assert (Ha : added [e; e] [m; m] = []).
  { unfold added. rewrite !list.filter_cons, !decide_False by (intros Hx; apply Hx, elem_of_cons; by left). done. }
  rewrite Ha. cbn [gone]. rewrite Hm, decide_True by (split; [apply elem_of_cons; by left|set_solver]).
  rewrite decide_False by set_solver. done.
Qed.

(** ** fanotify *)

Lemma rd_at a n z b off : 0 <= z < 256 ^ Z.of_nat n -> off = lenZ a -> rd (Z.of_nat n) (a ++ le_bytes n z ++ b) off = Ret z.
Proof.
  intros Hz ->. unfold rd. pose proof (lenZ_nonneg a). pose proof (lenZ_nonneg b). rewrite !lenZ_app, lenZ_le_bytes.
  rewrite (proj2 (Z.leb_le _ _)), (proj2 (Z.leb_le _ _)) by lia. cbn [andb]. rewrite dropZ_app, takeZ_app by (by rewrite lenZ_le_bytes).
  by rewrite le_num_bytes.
Qed.

(** An event of the kernel with one record: [fd] and [pid] are not used. *)
Record fan_event := { fe_mask : Z; fe_id : Z; fe_fd : Z; fe_pid : Z }.
Definition fan_bytes (e : fan_event) : bytes :=
  le_bytes 4 40 ++ le_bytes 1 3 ++ le_bytes 1 0 ++ le_bytes 2 24 ++ le_bytes 8 (fe_mask e) ++ le_bytes 4 (fe_fd e) ++ le_bytes 4 (fe_pid e) ++
  le_bytes 1 7 ++ le_bytes 1 0 ++ le_bytes 2 16 ++ le_bytes 4 0 ++ le_bytes 8 (fe_id e).
Definition fan_ok (e : fan_event) : Prop := 0 <= fe_mask e < 2 ^ 64 /\ 0 < fe_id e < 2 ^ 64.

Lemma lenZ_fan_bytes e : lenZ (fan_bytes e) = 40.
Proof. unfold fan_bytes. rewrite !lenZ_app, !lenZ_le_bytes. done. Qed.

Section FanEvents.
Context (E : event_io) (statmount : Z -> option statmount_reply).

(** The fields of an event behind [a]. *)
Lemma fan_fields a e b : fan_ok e ->
  let buf := a ++ fan_bytes e ++ b in
  let m := lenZ a in
  rd 4 buf m = Ret 40 /\ rd 1 buf (m + 4) = Ret 3 /\ rd 8 buf (m + 8) = Ret (fe_mask e) /\
  rd 2 buf (m + 24 + 2) = Ret 16 /\ rd 1 buf (m + 24) = Ret 7 /\ rd 8 buf (m + 24 + 8) = Ret (fe_id e).
Proof.
  intros [Hm Hi] buf m. unfold buf, m, fan_bytes. rewrite <- !app_assoc.
  set (w1 := le_bytes 4 40). set (w2 := le_bytes 1 3). set (w3 := le_bytes 1 0). set (w4 := le_bytes 2 24). set (w5 := le_bytes 8 (fe_mask e)).
  set (w6 := le_bytes 4 (fe_fd e)). set (w7 := le_bytes 4 (fe_pid e)). set (w8 := le_bytes 1 7). set (w10 := le_bytes 2 16). set (w11 := le_bytes 4 0).
  set (w12 := le_bytes 8 (fe_id e)).
  assert (Hlen : lenZ w1 = 4 /\ lenZ w2 = 1 /\ lenZ w3 = 1 /\ lenZ w4 = 2 /\ lenZ w5 = 8 /\ lenZ w6 = 4 /\ lenZ w7 = 4 /\ lenZ w8 = 1 /\ lenZ w10 = 2 /\ lenZ w11 = 4)
    by (split_and!; apply lenZ_le_bytes).
  split_and!.
  - apply (rd_at a 4 40); [lia|lia].
  - rewrite (app_assoc a w1). apply (rd_at (a ++ w1) 1 3); [lia|rewrite lenZ_app; lia].
  - rewrite (app_assoc a w1), (app_assoc _ w2), (app_assoc _ w3), (app_assoc _ w4). apply (rd_at _ 8 (fe_mask e)); [lia|rewrite !lenZ_app; lia].
  - rewrite (app_assoc a w1), (app_assoc _ w2), (app_assoc _ w3), (app_assoc _ w4), (app_assoc _ w5), (app_assoc _ w6), (app_assoc _ w7), (app_assoc _ w8), (app_assoc _ w3).
    apply (rd_at _ 2 16); [lia|rewrite !lenZ_app; lia].
  - rewrite (app_assoc a w1), (app_assoc _ w2), (app_assoc _ w3), (app_assoc _ w4), (app_assoc _ w5), (app_assoc _ w6), (app_assoc _ w7).
    apply (rd_at _ 1 7); [lia|rewrite !lenZ_app; lia].
  - rewrite (app_assoc a w1), (app_assoc _ w2), (app_assoc _ w3), (app_assoc _ w4), (app_assoc _ w5), (app_assoc _ w6), (app_assoc _ w7), (app_assoc _ w8), (app_assoc _ w3),
      (app_assoc _ w10), (app_assoc _ w11). apply (rd_at _ 8 (fe_id e)); [lia|rewrite !lenZ_app; lia].
Qed.

(** The events one by one. *)
Fixpoint handle_all (evs : list fan_event) (s : mst) : out mst :=
  match evs with
  | [] => Ret s
  | e :: evs => let! s := handle_mnt E statmount (fe_mask e) (fe_id e) s in handle_all evs s
  end.

Lemma meta_loop_events evs a s fuel : Forall fan_ok evs -> (length evs < fuel)%nat ->
  meta_loop E statmount fuel (a ++ concat (map fan_bytes evs)) (lenZ a) (lenZ (concat (map fan_bytes evs))) s = handle_all evs s.
Proof.
  intros Hevs. revert a s fuel. induction Hevs as [|e evs He Hevs IH]; intros a s fuel Hf; (destruct fuel as [|fuel]; [cbn in Hf; lia|]); [done|].
  cbn [map concat handle_all meta_loop]. set (rest := concat (map fan_bytes evs)). pose proof (lenZ_nonneg rest). pose proof (lenZ_nonneg a).
  rewrite lenZ_app, lenZ_fan_bytes. unfold METADATA_SIZE. rewrite (proj2 (Z.ltb_ge _ _)) by lia.
  destruct (fan_fields a e rest He) as (F1 & F2 & F3 & F4 & F5 & F6). rewrite F1. cbn [obind].
  rewrite Z.gtb_ltb, (proj2 (Z.ltb_ge (40 + lenZ rest) 40)) by lia. change (40 <? 24) with false. cbn [orb].
  rewrite F2. cbn [obind]. change (negb (3 =? FANOTIFY_METADATA_VERSION)) with false. cbv iota. rewrite F3. cbn [obind].
  assert (Hb : exists k, length (a ++ fan_bytes e ++ rest) = S (S k)).
  { exists (length a + 38 + length rest)%nat. rewrite !length_app. pose proof (lenZ_fan_bytes e) as Hl. unfold lenZ in Hl. lia. }
  destruct Hb as [k Hb].
  assert (Hi : info_loop E statmount (length (a ++ fan_bytes e ++ rest)) (a ++ fan_bytes e ++ rest) (fe_mask e) (lenZ a + 24) (lenZ a + 40) s =
    handle_mnt E statmount (fe_mask e) (fe_id e) s).
  { rewrite Hb. cbn [info_loop]. unfold INFO_HEADER_SIZE. rewrite !Z.gtb_ltb, (proj2 (Z.ltb_ge (lenZ a + 40) (lenZ a + 24 + 4))) by lia.
    rewrite F4. cbn [obind]. change (16 <? 4) with false. rewrite !Z.gtb_ltb, (proj2 (Z.ltb_ge (lenZ a + 40) (lenZ a + 24 + 16))) by lia. cbn [orb].
    rewrite F5. cbn [obind]. change (7 =? FAN_EVENT_INFO_TYPE_MNT) with true. cbv iota. rewrite F6. cbn [obind].
    rewrite (proj2 (Z.ltb_lt (lenZ a + 40) (lenZ a + 24 + 16 + 4))) by lia. by destruct (handle_mnt _ _ _ _ _). }
  rewrite Hi. destruct (handle_mnt E statmount (fe_mask e) (fe_id e) s) as [s1| | |]; cbn [obind]; [|done..]. replace (lenZ a + 40) with (lenZ (a ++ fan_bytes e)) by (rewrite lenZ_app, lenZ_fan_bytes; lia).
  replace (40 + lenZ rest - 40) with (lenZ rest) by lia. rewrite app_assoc. apply IH. cbn in Hf. lia.
Qed.

(** *** The list under events *)

(** All entries have a number, each its own. *)
Definition ids_ok (l : list mounts) : Prop := NoDup (mnt_id <$> l) /\ Forall (fun m => mnt_id m <> 0) l.

Lemma find_id_spec id l : id <> 0 -> Forall (fun m => mnt_id m <> 0) l ->
  match find_id id l with
  | Some i => exists m, l !! i = Some m /\ mnt_id m = id
  | None => id ∉ mnt_id <$> l
  end.
Proof.
  intros Hid Hl. rewrite list.Forall_forall in Hl. unfold find_id, mount_find.
  assert (Ht : forall m, m ∈ l -> find_test id None None None m = true <-> mnt_id m = id).
  { intros m Hm. unfold find_test. rewrite (proj2 (Z.eqb_neq id 0)), (proj2 (Z.eqb_neq (mnt_id m) 0)) by auto. cbn. apply Z.eqb_eq. }
  destruct (list_find _ l) as [[i m]|] eqn:Ef; cbn.
  - apply list_find_Some in Ef as (Hi & Hk & _). exists m. split; [done|]. apply Ht; [by eapply list_elem_of_lookup_2|done].
  - apply list_find_None in Ef. rewrite list.Forall_forall in Ef. rewrite list_elem_of_fmap. intros (m & Hk & Hm). apply (Ef m Hm). by apply Ht.
Qed.

Lemma delete_id l i m : NoDup (mnt_id <$> l) -> l !! i = Some m -> delete i l = filter (fun x => mnt_id x <> mnt_id m) l.
Proof.
  intros Hl Hi. rewrite delete_take_drop. rewrite <- (take_drop_middle l i m Hi) at 3. rewrite <- (take_drop_middle l i m Hi) in Hl.
  rewrite fmap_app, fmap_cons, list.NoDup_app, list.NoDup_cons in Hl. destruct Hl as (_ & Hd & Hn & _).
  assert (Hall : forall l' : list mounts, mnt_id m ∉ mnt_id <$> l' -> filter (fun x => mnt_id x <> mnt_id m) l' = l').
  { intros l' H'. induction l' as [|x l' IH]; [done|]. rewrite fmap_cons, not_elem_of_cons in H'. destruct H'. rewrite list.filter_cons, decide_True by auto.
    by rewrite IH. }
  rewrite list.filter_app, list.filter_cons, decide_False by (intros Hx; by apply Hx). rewrite !Hall; [done|done|].
  intros Hx. apply (Hd _ Hx). apply elem_of_cons. by left.
Qed.

Lemma filter_other id (l : list mounts) : id ∉ mnt_id <$> l ->
  filter (fun x => mnt_id x <> id) l = l /\ filter (fun x => mnt_id x = id) l = [].
Proof.
  induction l as [|x l IH]; intros Hl; [done|]. rewrite fmap_cons, not_elem_of_cons in Hl. destruct Hl as [Hx Hl].
  rewrite !list.filter_cons, decide_True, decide_False by auto. destruct (IH Hl) as [-> ->]. done.
Qed.

Lemma filter_this (l : list mounts) i m : NoDup (mnt_id <$> l) -> l !! i = Some m -> filter (fun x => mnt_id x = mnt_id m) l = [m].
Proof.
  intros Hl Hi. rewrite <- (take_drop_middle l i m Hi) in *. rewrite fmap_app, fmap_cons, list.NoDup_app, list.NoDup_cons in Hl.
  destruct Hl as (_ & Hd & Hn & _). rewrite list.filter_app, list.filter_cons, decide_True by done.
  destruct (filter_other (mnt_id m) (take i l)) as [_ ->]; [intros Hx; apply (Hd _ Hx), elem_of_cons; by left|].
  by destruct (filter_other (mnt_id m) (drop (S i) l)) as [_ ->].
Qed.

Lemma detach_id_spec id s : id <> 0 -> ids_ok (mlist s) ->
  detach_id E id s = emit E (on_umount (filter (fun x => mnt_id x = id) (mlist s))) (filter (fun x => mnt_id x <> id) (mlist s)) s.
Proof.
  intros Hid [Hn Hz]. unfold detach_id. pose proof (find_id_spec id (mlist s) Hid Hz) as Hf. destruct (find_id id (mlist s)) as [i|].
  - destruct Hf as (m & Hi & <-). rewrite (mount_detach_emit E i m) by done. rewrite (filter_this _ i), <- (delete_id _ i) by done. done.
  - destruct (filter_other id (mlist s) Hf) as [-> ->]. apply emit_nil.
Qed.

Definition attaches (e : fan_event) : bool := negb (Z.land (fe_mask e) FAN_MNT_ATTACH =? 0).
Definition detaches (e : fan_event) : bool := negb (Z.land (fe_mask e) FAN_MNT_DETACH =? 0).

(** What an event does to the table, and what is reported of it. *)
Definition track (l : list mounts) (e : fan_event) : list mounts :=
  (if attaches e || detaches e then filter (fun x => mnt_id x <> fe_id e) l else l) ++
  (if attaches e then option_list (statmount_alloc statmount (fe_id e)) else []).
Definition track_events (l : list mounts) (e : fan_event) : list (bytes * mounts) :=
  (if attaches e || detaches e then on_umount (filter (fun x => mnt_id x = fe_id e) l) else []) ++
  (if attaches e then on_mount (option_list (statmount_alloc statmount (fe_id e))) else []).
Fixpoint reported (l : list mounts) (evs : list fan_event) : list (bytes * mounts) :=
  match evs with
  | [] => []
  | e :: evs => track_events l e ++ reported (track l e) evs
  end.

Lemma statmount_alloc_id id m : statmount_alloc statmount id = Some m -> mnt_id m = id.
Proof. unfold statmount_alloc. destruct (statmount id); [|done]. by intros [= <-]. Qed.

Lemma filter_twice {A} (P : A -> Prop) `{!forall x, Decision (P x)} (l : list A) : filter P (filter P l) = filter P l.
Proof. induction l as [|x l IH]; [done|]. rewrite list.filter_cons. case_decide; [rewrite list.filter_cons, decide_True by done|]; by rewrite IH. Qed.

Lemma ids_ok_filter id l : ids_ok l -> ids_ok (filter (fun x => mnt_id x <> id) l).
Proof.
  intros [Hn Hz]. split; [eapply sublist_NoDup; [exact Hn|apply fmap_sublist, sublist_filter]|].
  apply list.Forall_forall. intros m [_ Hm]%list_elem_of_filter. by eapply list.Forall_forall in Hz.
Qed.

Lemma track_ok l e : fe_id e <> 0 -> ids_ok l -> ids_ok (track l e).
Proof.
  intros He Hl. pose proof (ids_ok_filter (fe_id e) l Hl) as Hf. unfold track. destruct (attaches e); cbn [orb].
  2: { rewrite app_nil_r. by destruct (detaches e). }
  destruct (statmount_alloc statmount (fe_id e)) as [m|] eqn:Em; cbn; [|by rewrite app_nil_r].
  apply statmount_alloc_id in Em. destruct Hf as [Hf1 Hf2]. split.
  - rewrite fmap_app. apply list.NoDup_app. split_and!; [done| |apply list.NoDup_singleton].
    intros x (y & -> & [Hy _]%list_elem_of_filter)%list_elem_of_fmap Hx. cbn in Hx. apply list_elem_of_singleton in Hx. congruence.
  - apply list.Forall_app. split; [done|]. apply list.Forall_singleton. congruence.
Qed.

(** The mount is detached, twice if the event says both, and then attached. *)
Lemma detach_twice id s : id <> 0 -> ids_ok (mlist s) -> (let! s := detach_id E id s in detach_id E id s) = detach_id E id s.
Proof.
  intros Hid Hs. rewrite !(detach_id_spec id s) by done. set (new := on_umount _). rewrite <- (app_nil_r new) at 2. apply emit_then.
  rewrite detach_id_spec; [|done|by apply ids_ok_filter]. cbn [emitted mlist]. rewrite filter_twice.
  destruct (filter_other id (filter (fun x => mnt_id x <> id) (mlist s))) as [_ ->]; [|done].
  intros (x & -> & [Hx _]%list_elem_of_filter)%list_elem_of_fmap. done.
Qed.

Lemma handle_mnt_track e s : fe_id e <> 0 -> ids_ok (mlist s) ->
  handle_mnt E statmount (fe_mask e) (fe_id e) s = emit E (track_events (mlist s) e) (track (mlist s) e) s.
Proof.
  intros He Hs. unfold handle_mnt, track, track_events, attaches, detaches.
  assert (Ha : (let! s := detach_id E (fe_id e) s in
      match statmount_alloc statmount (fe_id e) with Some m => mount_attach E m s | None => Ret s end) =
    emit E (on_umount (filter (fun x => mnt_id x = fe_id e) (mlist s)) ++ on_mount (option_list (statmount_alloc statmount (fe_id e))))
      (filter (fun x => mnt_id x <> fe_id e) (mlist s) ++ option_list (statmount_alloc statmount (fe_id e))) s).
  { rewrite detach_id_spec by done. apply emit_then. destruct (statmount_alloc _ _); cbn; [apply mount_attach_emit|rewrite app_nil_r; apply emit_nil]. }
  destruct (Z.eqb_spec (Z.land (fe_mask e) FAN_MNT_DETACH) 0), (Z.eqb_spec (Z.land (fe_mask e) FAN_MNT_ATTACH) 0); cbn [negb orb obind].
  - rewrite !app_nil_r. apply emit_nil.
  - exact Ha.
  - rewrite !app_nil_r, detach_id_spec by done. unfold emit. by destruct (write_calls _ _ _).
  - rewrite <- Ha. rewrite <- (detach_twice (fe_id e) s) at 2 by done. by destruct (detach_id E (fe_id e) s).
Qed.

Lemma handle_all_track evs s : Forall fan_ok evs -> ids_ok (mlist s) ->
  handle_all evs s = emit E (reported (mlist s) evs) (foldl track (mlist s) evs) s /\ ids_ok (foldl track (mlist s) evs).
Proof.
  intros Hevs. revert s. induction Hevs as [|e evs [_ He] Hevs IH]; intros s Hs; [split; [apply emit_nil|done]|]. cbn [handle_all reported foldl].
  assert (Hid : fe_id e <> 0) by lia. rewrite handle_mnt_track by done.
  destruct (IH (emitted E (track_events (mlist s) e) (track (mlist s) e) s)) as [IH1 IH2]; [by apply track_ok|]. split; [|exact IH2].
  apply emit_then. exact IH1.
Qed.
End FanEvents.

Lemma fan_bytes_length evs : lenZ (concat (map fan_bytes evs)) = 40 * lenZ evs.
Proof. induction evs as [|e evs IH]; [done|]. cbn [map concat]. rewrite lenZ_app, lenZ_fan_bytes, IH, lenZ_cons. lia. Qed.

(** C27. A buffer with events of the kernel is read event by event, without a read outside
    of it, and the list follows them: a detached mount is gone, an attached one is at
    the end with what statmount says of it, and a number is never twice in the list.
    Behind the events so far there is an umount for every entry that goes and a mount for
    every one that comes, in the order of the changes, and each is written to its
    file in the queue; the daemon ends at the first one whose file cannot be created or
    renamed. *)
Theorem fanotify_tracks E statmount evs s : ids_ok (mlist s) -> evs <> [] -> Forall fan_ok evs ->
  fanotify_dispatch E statmount [ReadData (concat (map fan_bytes evs)); ReadEAGAIN] s =
    emit E (reported statmount (mlist s) evs) (foldl (track statmount) (mlist s) evs) s /\
  ids_ok (foldl (track statmount) (mlist s) evs).
Proof.
  intros Hs Hne Hevs. destruct (handle_all_track E statmount evs s Hevs Hs) as [H1 H2]. split; [|done]. rewrite <- H1.
  assert (Hl : 0 < lenZ evs) by (destruct evs; [done|]; rewrite lenZ_cons; pose proof (lenZ_nonneg evs); lia).
  pose proof (fan_bytes_length evs) as Hb.
  pose proof (meta_loop_events E statmount evs [] s (length (concat (map fan_bytes evs))) Hevs ltac:(unfold lenZ in *; lia)) as Hm. cbn [app] in Hm.
  change (lenZ []) with 0 in Hm. unfold fanotify_dispatch. destruct (concat (map fan_bytes evs)) as [|c buf]; [rewrite lenZ_nil in Hb; lia|].
  rewrite Hm. by destruct (handle_all _ _ _ _).
Qed.

(** ** The first list of the fanotify backend *)

Lemma sorted_NoDup l : StronglySorted Z.lt l -> NoDup l.
Proof.
  induction 1 as [|x l Hl IH Hx]; [apply base.NoDup_nil_2|]. apply list.NoDup_cons. split; [|done]. intros Hin.
  rewrite List.Forall_forall in Hx. apply list_elem_of_In in Hin. specialize (Hx _ Hin). lia.
Qed.

Lemma filter_above p (pre r : list Z) : Forall (fun i => i <= p) pre -> Forall (fun i => p < i) r -> filter (fun i => p < i) (pre ++ r) = r.
Proof.
  intros H1 H2. rewrite list.filter_app. replace (filter _ pre) with (@nil Z).
  - clear H1. induction H2 as [|i r Hi Hr IH]; [done|]. cbn [app] in *. rewrite list.filter_cons, decide_True by done. by rewrite IH.
  - clear H2. induction H1 as [|i pre Hi Hpre IH]; [done|]. rewrite list.filter_cons, decide_False by lia. done.
Qed.

Section ReadMounts.
Context (statmount : Z -> option statmount_reply) (listmount : Z -> option (list Z)) (ids : list Z).

(** listmount: the numbers above its parameter, in their order, as many as fit. *)
Definition lists_ids : Prop := forall p, listmount p = Some (take 256 (filter (fun i => p < i) ids)).
Hypotheses (Hlist : lists_ids) (Hsorted : StronglySorted Z.lt ids) (Hpos : Forall (fun i => 0 < i) ids).

Lemma add_ids_new l new : Forall (fun m => mnt_id m <> 0) l -> Forall (fun i => 0 < i) new -> NoDup new -> (forall i, i ∈ new -> i ∉ mnt_id <$> l) ->
  add_ids statmount new l = l ++ omap (statmount_alloc statmount) new.
Proof.
  revert l. induction new as [|i new IH]; intros l Hl Hp Hn Hd; [by rewrite app_nil_r|].
  apply list.Forall_cons in Hp as [Hi Hp]. apply list.NoDup_cons in Hn as [Hin Hn]. cbn [add_ids foldl omap list_omap].
  pose proof (find_id_spec i l ltac:(lia) Hl) as Hf. destruct (find_id i l) as [k|].
  { destruct Hf as (m & Hk & Hm). destruct (Hd i); [apply elem_of_cons; by left|]. rewrite <- Hm. apply list_elem_of_fmap. exists m.
    split; [done|]. by eapply list_elem_of_lookup_2. }
  destruct (statmount_alloc statmount i) as [m|] eqn:E.
  - fold (add_ids statmount new (l ++ [m])). apply statmount_alloc_id in E as Em. rewrite IH; [by rewrite <- app_assoc| |done|done|].
    + apply list.Forall_app. split; [done|]. apply list.Forall_singleton. lia.
    + intros j Hj. rewrite fmap_app, not_elem_of_app. split; [apply Hd, elem_of_cons; by right|]. cbn. rewrite list_elem_of_singleton. intros ->.
      by rewrite Em in Hj.
  - fold (add_ids statmount new l). apply IH; try done. intros j Hj. apply Hd, elem_of_cons. by right.
Qed.

Lemma read_mounts_loop fuel pre r p : ids = pre ++ r -> Forall (fun i => i <= p) pre -> Forall (fun i => p < i) r -> (length r < fuel)%nat ->
  fanotify_read_mounts statmount listmount fuel p (omap (statmount_alloc statmount) pre) = Ret (true, omap (statmount_alloc statmount) ids).
Proof.
  revert pre r p. induction fuel as [|fuel IH]; intros pre r p Hids Hpre Hr Hf; [lia|]. cbn [fanotify_read_mounts].
  rewrite Hlist, Hids, (filter_above p pre r) by done. rewrite <- Hids. set (b := take 256 r).
  assert (Hadd : b <> [] -> add_ids statmount b (omap (statmount_alloc statmount) pre) = omap (statmount_alloc statmount) (pre ++ b)).
  { intros _. rewrite omap_app. pose proof (sorted_NoDup ids Hsorted) as Hnd.
    rewrite Hids in Hnd. apply list.NoDup_app in Hnd as (_ & Hd & Hnr). apply add_ids_new.
    - apply list.Forall_forall. intros m (i & Hi & Em)%list_elem_of_omap. apply statmount_alloc_id in Em. rewrite Em.
      eapply list.Forall_forall in Hpos; [|rewrite Hids; apply elem_of_app; by left]. cbv beta in Hpos. lia.
    - apply list.Forall_take. eapply list.Forall_app. by rewrite <- Hids.
    - eapply sublist_NoDup; [exact Hnr|apply sublist_take].
    - intros i Hi (m & Em & (j & Hj & Ej)%list_elem_of_omap)%list_elem_of_fmap. apply statmount_alloc_id in Ej. subst.
      apply (Hd (mnt_id m)); [done|]. eapply elem_of_sublist; [exact Hi|apply sublist_take]. }
  destruct (Z.eqb_spec (lenZ b) 0) as [E|E].
  { destruct b eqn:Eb; [|rewrite lenZ_cons in E; pose proof (lenZ_nonneg l); lia]. destruct r; [|done]. by rewrite Hids, app_nil_r. }
  assert (Hb : b <> []) by (intros ->; done). rewrite (Hadd Hb). unfold MNT_IDS. destruct (Z.ltb_spec (lenZ b) 256) as [Hl|Hl].
  - assert (Er : b = r) by (apply take_ge; unfold b, lenZ in Hl; rewrite length_take in Hl; lia). by rewrite Er, <- Hids.
  - destruct (list.last b) as [q|] eqn:Eq; [|by apply last_None in Eq]. apply last_Some in Eq as [b' Eb].
    assert (Hsr : StronglySorted Z.lt r) by (rewrite Hids in Hsorted; clear -Hsorted; induction pre as [|x pre IHp]; [done|]; by inversion Hsorted; auto).
    assert (Hsplit : r = b ++ drop 256 r) by (unfold b; by rewrite take_drop).
    assert (Hq : Forall (fun i => i <= q) b /\ Forall (fun i => q < i) (drop 256 r) /\ p < q).
    { rewrite Hsplit, Eb, <- app_assoc in Hsr. cbn [app] in Hsr. assert (Hpq : p < q).
      { eapply list.Forall_forall in Hr; [exact Hr|]. rewrite Hsplit, Eb. rewrite !elem_of_app. left. right. by apply list_elem_of_singleton. }
      rewrite Eb. clear -Hsr Hpq. induction b' as [|x b' IHb]; cbn [app] in *; inversion Hsr as [|? ? Hs Hx]; subst.
      - split; [apply list.Forall_singleton; lia|]. split; [|done]. apply list.Forall_forall. intros i Hi. rewrite Forall_forall in Hx. apply Hx. by apply list_elem_of_In.
      - destruct (IHb Hs) as (H1 & H2 & H3). split; [|done]. apply list.Forall_cons. split; [|done].
        rewrite Forall_forall in Hx. specialize (Hx q ltac:(apply in_or_app; right; by left)). lia. }
    destruct Hq as (Hq1 & Hq2 & Hpq). apply (IH (pre ++ b) (drop 256 r) q); [by rewrite <- app_assoc, <- Hsplit| |done|].
    + apply list.Forall_app. split; [|done]. eapply list.Forall_impl; [exact Hpre|]. cbv beta. lia.
    + apply (f_equal length) in Hsplit. rewrite length_app in Hsplit. unfold lenZ in Hl. lia.
Qed.
End ReadMounts.

(** The fanotify backend starts with all mounts: the loop over listmount ends, also
    when there are more than the 256 that one call returns, and the list then has every
    mount that statmount knows, once and in the order of the kernel. *)
Theorem fanotify_lists_all statmount listmount ids : lists_ids listmount ids -> StronglySorted Z.lt ids -> Forall (fun i => 0 < i) ids ->
  fanotify_read_mounts statmount listmount (S (length ids)) LSMT_ROOT_PARAM [] = Ret (true, omap (statmount_alloc statmount) ids).
Proof. intros Hl Hs Hp. apply (read_mounts_loop statmount listmount ids Hl Hs Hp (S (length ids)) [] ids 0); try done. lia. Qed.

(** ** Examples *)

Definition example_io : event_io := {| ev_clock := fun n => (Z.of_nat n, 0); ev_openat := fun _ => 7; ev_renameat := fun _ _ => 0 |}.
Definition example_stat (id : Z) : option statmount_reply :=
  if id =? 13 then None else Some {| sm_mask := 1023; sm_point := #"/p"; sm_type := #"tmpfs"; sm_source := #"none"; sm_opts := #"rw" |}.

Lemma example_io_fine : calls_fine example_io.
Proof. split; [done|]. by intros f. Qed.

Definition example_state (m : mounts) : mst := {| mlist := [m]; queue := ∅; events := [] |}.

Lemma fanotify_tracks_witness : exists s',
  fanotify_dispatch example_io example_stat [ReadData (concat (map fan_bytes
    [{| fe_mask := FAN_MNT_ATTACH; fe_id := 5; fe_fd := 0; fe_pid := 9 |}; {| fe_mask := FAN_MNT_DETACH; fe_id := 4; fe_fd := 0; fe_pid := 9 |}])); ReadEAGAIN]
    (example_state (mount_new 4 None None None None)) = Ret s' /\ mnt_id <$> mlist s' = [5] /\ (fst <$> events s') = [ #"mount"; #"umount"] /\
    queue s' !! "mount._p.000000.000000000000"%string = Some (event_text #"mount" (mount_new 5 (Some #"none") (Some #"/p") (Some #"tmpfs") (Some #"rw"))).
Proof.
  destruct (fanotify_tracks example_io example_stat
    [{| fe_mask := FAN_MNT_ATTACH; fe_id := 5; fe_fd := 0; fe_pid := 9 |}; {| fe_mask := FAN_MNT_DETACH; fe_id := 4; fe_fd := 0; fe_pid := 9 |}]
    (example_state (mount_new 4 None None None None))) as [H1 _].
  - split; [apply list.NoDup_singleton|by apply list.Forall_singleton].
  - discriminate.
  - apply list.Forall_cons. split; [|apply list.Forall_singleton]; unfold fan_ok; cbn [fe_mask fe_id]; unfold FAN_MNT_ATTACH, FAN_MNT_DETACH; lia.
  - eexists. split; [rewrite H1; vm_compute; reflexivity|]. split_and!; vm_compute; reflexivity.
Defined.

Lemma fanotify_lists_all_witness :
  let ids := [3; 13; 40] in
  fanotify_read_mounts example_stat (fun p => Some (take 256 (filter (fun i => p < i) ids))) 4 LSMT_ROOT_PARAM [] =
    Ret (true, omap (statmount_alloc example_stat) ids) /\ mnt_id <$> omap (statmount_alloc example_stat) ids = [3; 40].
Proof.
  intros ids. split; [|vm_compute; reflexivity].
  apply (fanotify_lists_all example_stat (fun p => Some (take 256 (filter (fun i => p < i) ids))) ids).
  - intros p. reflexivity.
  - repeat constructor; lia.
  - repeat constructor; lia.
Defined.
