(* ===== verification/Halt.v ===== *)
(** halt, reboot and poweroff (features/runtime/src/halt).

    - halt.c: [halt_options], [get_runlevel], [shutdown_args], [halt_main];
    - hddown.c: [strstrip], [hdopen], [flush_cache_ext], [scan_disk] and [list_disks],
      [do_standby_disk], [hddown], [hdflush];
    - ifdown.c: [ifdown].

    The result of the program is the list of what it does, in order. The files of sysfs,
    the answers of the disks and of the network and whether a system call returns are
    parameters. *)

From Stdlib Require Import ZArith Ascii Lia.
From stdpp Require Import base list strings tactics.
From S2P Require Import Prelude CString.

Open Scope Z_scope.
Open Scope cprog_scope.

(** ** hddown.c *)

Definition NAME_BUF : Z := 256.
Definition DISK_IS_IDE : Z := 1.
Definition DISK_IS_SATA : Z := 2.
Definition DISK_EXTFLUSH : Z := 4.
Definition DISK_REMOVABLE : Z := 8.
Definition DISK_MANAGED : Z := 16.
Definition DISK_FLUSHONLY : Z := 32.
Definition MASK_EXT : Z := 57344.
Definition TEST_EXT : Z := 24576.

(** What open finds: an error, no such file, or the contents. *)
Inductive hdfile := HdError | HdNone | HdData (s : bytes).
Inductive link := LinkError | LinkNone | LinkTo (s : bytes).

(** sysfs and the devices: [dev_read] and [dev_open] tell whether
    open succeeds in /dev, for reading and for writing, [identify] is the word 83 of the identity
    of the disk, if the disk answers. *)
Record disks := {
  sysfs : bytes -> hdfile;
  readlink : bytes -> link;
  dev_read : bytes -> bool;
  dev_open : bytes -> bool;
  identify : bytes -> option Z;
}.

Definition is_space (c : ascii) : bool := isspace c.

(** The first character stays even if it is a space. *)
Definition strstrip (s : bytes) : bytes :=
  match s with
  | [] => []
  | c :: t => c :: rev (skip_while is_space (rev t))
  end.

Definition hdopen (D : disks) (pre name post : bytes) : hdfile :=
  let path := pre ++ name ++ post in
  if lenZ path >=? NAME_BUF then HdError else sysfs D path.

(** The first line that fgets reads into the buffer; [None] at the end of the file. *)
Definition fgets (s : bytes) : option bytes :=
  match s with
  | [] => None
  | _ => Some (takeZ (NAME_BUF - 1) (match strchr "010"%char s with Some (a, _) => a ++ ["010"%char] | None => s end))
  end.

Definition atoll (s : bytes) : Z := fst (fst (strtol 10 s)).

(** The variable [ret] holds the result of snprintf at the label out. *)
Definition flush_cache_ext (D : disks) (device : bytes) : Z :=
  match hdopen D #"/sys/block/" device #"/size" with
  | HdError => -1
  | HdNone => 0
  | HdData s =>
      match fgets s with
      | None => 0
      | Some buf =>
          let buf := strstrip buf in
          if bool_decide (buf = []) then 0
          else if u64 (atoll buf) <? 2 ^ 28 then 0
          else
            let ret := lenZ (#"/dev/" ++ device) in
            if ret >=? NAME_BUF then -1
            else if negb (dev_read D (#"/dev/" ++ device)) then ret
            else match identify D device with
                 | None => ret
                 | Some w => if Z.land w MASK_EXT =? TEST_EXT then 1 else ret
                 end
      end
  end.

(** basename of libgen.h: without the slashes at the end. *)
Definition basename (p : bytes) : bytes :=
  let q := rev (skip_while (fun c => bool_decide (c = "/"%char)) (rev p)) in
  match p, q with
  | [], _ => #"."
  | _, [] => #"/"
  | _, _ => match strrchr "/"%char q with Some (_, b) => b | None => q end
  end.

Definition is_zero_char (s : bytes) : bool := match s with "0"%char :: _ => true | _ => false end.

(** What the loop does with a name: go on, end the search, or return the disk. *)
Inductive scan := Continue | Empty | Found (flags : Z).

(** The end of the three branches that return a disk. *)
Definition found (D : disks) (name : bytes) (flags : Z) : scan :=
  let ret := flush_cache_ext D name in
  if ret =? 0 then Found flags else if ret <? 0 then Empty else Found (Z.lor flags DISK_EXTFLUSH).

Definition scan_disk (D : disks) (name : bytes) : scan :=
  match name with
  | a :: "d"%char :: _ =>
      if bool_decide (a = "h"%char \/ a = "s"%char) then
        match hdopen D #"/sys/block/" name #"/removable" with
        | HdError => Empty
        | HdNone => Continue
        | HdData s =>
            let flags := if is_zero_char s then 0 else DISK_REMOVABLE in
            let removable := negb (is_zero_char s) in
            if bool_decide (a = "h"%char) then
              if removable then Continue else found D name (Z.lor flags DISK_IS_IDE)
            else if lenZ (#"/sys/block/" ++ name ++ #"/device") >=? NAME_BUF then Empty
            else match readlink D (#"/sys/block/" ++ name ++ #"/device") with
                 | LinkError => Empty
                 | LinkNone => Continue
                 | LinkTo lnk =>
                     if lenZ lnk >=? NAME_BUF then Empty
                     else if bool_decide (basename lnk = []) then Continue
                     else match hdopen D #"/sys/class/scsi_disk/" (basename lnk) #"/manage_start_stop" with
                          | HdError => Empty
                          | m =>
                              if (match m with HdData s => negb (is_zero_char s) | _ => false end) then Continue
                              else match hdopen D #"/sys/block/" name #"/device/vendor" with
                                   | HdError => Empty
                                   | HdNone => Continue
                                   | HdData v =>
                                       match fgets v with
                                       | None => Continue
                                       | Some buf =>
                                           let buf := strstrip buf in
                                           if bool_decide (buf = []) then Continue
                                           else if bool_decide (buf = #"ATA") then
                                             if removable then Continue else found D name (Z.lor flags (Z.lor DISK_IS_IDE DISK_IS_SATA))
                                           else if negb removable then Continue
                                           else found D name flags
                                       end
                                   end
                          end
                 end
        end
      else Continue
  | _ => Continue
  end.

(** All that the calls of list_disks return, one after the other. *)
Fixpoint list_disks (D : disks) (names : list bytes) : list (bytes * Z) :=
  match names with
  | [] => []
  | name :: names =>
      match scan_disk D name with
      | Continue => list_disks D names
      | Empty => []
      | Found flags => (name, flags) :: list_disks D names
      end
  end.

(** The commands to a disk; [drive] tells whether one succeeds. *)
Inductive command := FlushCacheExt | FlushCache | BlkFlsBuf | StandbyNow1 | StandbyNow2.

#[export] Instance command_eq : EqDecision command.
Proof. solve_decision. Defined.

Definition do_standby_disk (D : disks) (drive : bytes -> command -> bool) (device : bytes) (flags : Z) : Z * list command :=
  if lenZ (#"/dev/" ++ device) >=? NAME_BUF then (-1, [])
  else if negb (dev_open D (#"/dev/" ++ device)) then (-1, [])
  else
    let standard := if drive device FlushCache then (true, [FlushCache]) else (drive device BlkFlsBuf, [FlushCache; BlkFlsBuf]) in
    let '(ok, l) :=
      if Z.land flags DISK_EXTFLUSH =? 0 then standard
      else if drive device FlushCacheExt then (true, [FlushCacheExt]) else (standard.1, FlushCacheExt :: standard.2) in
    let '(ok, l) :=
      if Z.land flags DISK_FLUSHONLY =? 0 then
        if drive device StandbyNow1 then (true, l ++ [StandbyNow1]) else (drive device StandbyNow2, l ++ [StandbyNow1; StandbyNow2])
      else (ok, l) in
    (if ok then 0 else -1, l).

(** The commands of a pass over the disks; [None] if /sys/block cannot be read. *)
Definition disk_pass (D : disks) (drive : bytes -> command -> bool) (blk : option (list bytes)) (more : Z) : list (bytes * command) :=
  match blk with
  | None => []
  | Some names => concat (map (fun d => map (pair d.1) (do_standby_disk D drive d.1 (Z.lor d.2 more)).2) (list_disks D names))
  end.
Definition hddown (D : disks) (drive : bytes -> command -> bool) (blk : option (list bytes)) : list (bytes * command) := disk_pass D drive blk 0.
Definition hdflush (D : disks) (drive : bytes -> command -> bool) (blk : option (list bytes)) : list (bytes * command) :=
  disk_pass D drive blk DISK_FLUSHONLY.

(** ** ifdown.c *)

Definition MAX_IFS : nat := 64.
Definition IFF_UP : Z := 1.

Definition is_shaper (name : bytes) : bool := match strip_prefix #"shaper" name with Some _ => true | None => false end.

(** The interfaces of SIOCGIFCONF, and their flags if SIOCGIFFLAGS gives them: what is
    set with SIOCSIFFLAGS. *)
Definition ifdown_pass (shaper : bool) (flags : bytes -> option Z) (names : list bytes) : list (bytes * Z) :=
  omap (fun name =>
    if negb (eqb (is_shaper name) shaper) then None
    else if bool_decide (name = #"lo") then None
    else if bool_decide (":"%char ∈ name) then None
    else match flags name with
         | None => None
         | Some f => if Z.land f IFF_UP =? 0 then None else Some (name, Z.land f (Z.lnot IFF_UP))
         end) names.

Definition ifdown (flags : bytes -> option Z) (names : list bytes) : list (bytes * Z) :=
  let ifr := take MAX_IFS names in
  ifdown_pass true flags ifr ++ ifdown_pass false flags ifr.

(** ** halt.c *)

Inductive magic := BMAGIC_HARD | BMAGIC_SOFT | BMAGIC_HALT | BMAGIC_REBOOT | BMAGIC_POWEROFF | BMAGIC_KEXEC.

#[export] Instance magic_eq : EqDecision magic.
Proof. solve_decision. Defined.

(** What the program does. The calls of hddown and of hdflush come with the commands
    that they send to the disks. *)
Inductive action :=
| Usage | NotPermitted | ChdirFailed | KexecRefused
| Shutdown (args : list bytes) | ShutdownFailed
| WriteWtmp | Sync | Sleep2 | IfDown | HdDown (commands : list (bytes * command)) | HdFlush (commands : list (bytes * command))
| Reboot (m : magic) | Stop_init | Continue_init.

#[export] Instance action_eq : EqDecision action.
Proof. solve_decision. Defined.

Record halt_opts := { do_reboot : bool; do_sync : bool; do_wtmp : bool; do_nothing : bool; do_hard : bool; do_ifdown : bool; do_hddown : bool;
                      do_poweroff : bool; do_kexec : bool; tm : option bytes }.

Definition progname (argv0 : bytes) : bytes :=
  let p := match strrchr "/"%char argv0 with Some (_, b) => "/"%char :: b | None => argv0 end in
  match p with "-"%char :: p' => p' | _ => p end.

Definition opts0 (argv0 : bytes) : halt_opts :=
  {| do_reboot := bool_decide (progname argv0 = #"reboot"); do_sync := true; do_wtmp := true; do_nothing := false; do_hard := false;
     do_ifdown := false; do_hddown := false; do_poweroff := bool_decide (progname argv0 = #"poweroff"); do_kexec := false; tm := None |}.

Inductive flag := F_n | F_w | F_d | F_f | F_i | F_h | F_p | F_k | F_t (t : bytes) | F_unknown.

(** [None] is usage(). *)
Definition halt_option (f : flag) (o : halt_opts) : option halt_opts :=
  match f with
  | F_n => Some {| do_reboot := do_reboot o; do_sync := false; do_wtmp := false; do_nothing := do_nothing o; do_hard := do_hard o; do_ifdown := do_ifdown o;
                   do_hddown := do_hddown o; do_poweroff := do_poweroff o; do_kexec := do_kexec o; tm := tm o |}
  | F_w => Some {| do_reboot := do_reboot o; do_sync := do_sync o; do_wtmp := do_wtmp o; do_nothing := true; do_hard := do_hard o; do_ifdown := do_ifdown o;
                   do_hddown := do_hddown o; do_poweroff := do_poweroff o; do_kexec := do_kexec o; tm := tm o |}
  | F_d => Some {| do_reboot := do_reboot o; do_sync := do_sync o; do_wtmp := false; do_nothing := do_nothing o; do_hard := do_hard o; do_ifdown := do_ifdown o;
                   do_hddown := do_hddown o; do_poweroff := do_poweroff o; do_kexec := do_kexec o; tm := tm o |}
  | F_f => Some {| do_reboot := do_reboot o; do_sync := do_sync o; do_wtmp := do_wtmp o; do_nothing := do_nothing o; do_hard := true; do_ifdown := do_ifdown o;
                   do_hddown := do_hddown o; do_poweroff := do_poweroff o; do_kexec := do_kexec o; tm := tm o |}
  | F_i => Some {| do_reboot := do_reboot o; do_sync := do_sync o; do_wtmp := do_wtmp o; do_nothing := do_nothing o; do_hard := do_hard o; do_ifdown := true;
                   do_hddown := do_hddown o; do_poweroff := do_poweroff o; do_kexec := do_kexec o; tm := tm o |}
  | F_h => Some {| do_reboot := do_reboot o; do_sync := do_sync o; do_wtmp := do_wtmp o; do_nothing := do_nothing o; do_hard := do_hard o; do_ifdown := do_ifdown o;
                   do_hddown := true; do_poweroff := do_poweroff o; do_kexec := do_kexec o; tm := tm o |}
  | F_p => if do_reboot o then None
           else Some {| do_reboot := do_reboot o; do_sync := do_sync o; do_wtmp := do_wtmp o; do_nothing := do_nothing o; do_hard := do_hard o;
                        do_ifdown := do_ifdown o; do_hddown := do_hddown o; do_poweroff := true; do_kexec := do_kexec o; tm := tm o |}
  | F_k => Some {| do_reboot := do_reboot o; do_sync := do_sync o; do_wtmp := do_wtmp o; do_nothing := do_nothing o; do_hard := do_hard o; do_ifdown := do_ifdown o;
                   do_hddown := do_hddown o; do_poweroff := do_poweroff o; do_kexec := true; tm := tm o |}
  | F_t t => Some {| do_reboot := do_reboot o; do_sync := do_sync o; do_wtmp := do_wtmp o; do_nothing := do_nothing o; do_hard := do_hard o; do_ifdown := do_ifdown o;
                     do_hddown := do_hddown o; do_poweroff := do_poweroff o; do_kexec := do_kexec o; tm := Some t |}
  | F_unknown => None
  end.

Fixpoint halt_options (l : list flag) (o : halt_opts) : option halt_opts :=
  match l with
  | [] => Some o
  | f :: l => o ← halt_option f o; halt_options l o
  end.

(** The environment and the entries of utmp: type and pid. *)
Record runlevel_info := { init_version : bool; runlevel_var : option bytes; utmp : list (Z * Z) }.
Definition RUN_LVL : Z := 1.

Definition get_runlevel (r : runlevel_info) : Z :=
  match init_version r, runlevel_var r with
  | true, Some v => match v with c :: _ => if ord c <? 128 then ord c else ord c - 256 | [] => 0 end
  | _, _ => match list_find (fun e => e.1 = RUN_LVL) (utmp r) with Some (_, (_, pid)) => Z.land pid 255 | None => -1 end
  end.

(** The arguments of /sbin/shutdown. *)
Definition shutdown_args (o : halt_opts) : list bytes :=
  [ #"shutdown"; if do_reboot o then #"-r" else #"-h"] ++
  (if do_poweroff o then [ #"-P"] else if do_reboot o then [] else [ #"-H"]) ++
  match tm o with Some t => [ #"-t"; t] | None => [] end ++ [ #"now"].

(** What the calls return: the user, chdir, execv of shutdown, and reboot; the disks,
    whether a command to one succeeds, and the names in /sys/block, if it can be read. *)
Record system := { euid : Z; chdir_ok : bool; shutdown_runs : bool; reboot_returns : magic -> bool;
                   hardware : disks; drive : bytes -> command -> bool; sys_block : option (list bytes) }.

(** reboot, and what follows if it returns. *)
Definition reboot_then (sys : system) (m : magic) (l : list action) : list action := Reboot m :: if reboot_returns sys m then l else [].

Definition halt_end (sys : system) (o : halt_opts) : list action :=
  let back := reboot_then sys BMAGIC_SOFT [Continue_init] in
  if do_reboot o then
    let plain := reboot_then sys BMAGIC_REBOOT back in
    if do_kexec o then reboot_then sys BMAGIC_KEXEC plain else plain
  else
    let halt := reboot_then sys BMAGIC_HALT back in
    reboot_then sys BMAGIC_HARD (Stop_init :: if do_poweroff o then reboot_then sys BMAGIC_POWEROFF halt else halt).

(** From the record in wtmp on. *)
Definition halt_down (sys : system) (o : halt_opts) : list action :=
  (if do_wtmp o then [WriteWtmp] else []) ++
  if do_nothing o && negb (do_hddown o) && negb (do_ifdown o) then []
  else (if do_sync o then [Sync; Sleep2] else []) ++ (if do_ifdown o then [IfDown] else []) ++
       (if do_hddown o then [HdDown (hddown (hardware sys) (drive sys) (sys_block sys))]
        else [HdFlush (hdflush (hardware sys) (drive sys) (sys_block sys))]) ++
       (if do_nothing o then [] else halt_end sys o).

Definition halt_main (sys : system) (r : runlevel_info) (argv0 : bytes) (flags : list flag) (args : list bytes) : list action :=
  match halt_options flags (opts0 argv0) with
  | None => [Usage]
  | Some o =>
      if negb (bool_decide (args = [])) then [Usage]
      else if negb (euid sys =? 0) then [NotPermitted]
      else if negb (chdir_ok sys) then [ChdirFailed]
      else if negb (do_hard o) && negb (do_nothing o) then
        let c := get_runlevel r in
        if negb (c =? 54) && do_reboot o && do_kexec o then [KexecRefused]
        else if negb (c =? 48) && negb (c =? 54) then
          Shutdown (shutdown_args o) :: if shutdown_runs sys then [] else [ShutdownFailed]
        else halt_down sys o
      else halt_down sys o
  end.

(** ** The disks *)

Definition is_flush (c : command) : bool := match c with FlushCacheExt | FlushCache | BlkFlsBuf => true | _ => false end.

Lemma land_more f : Z.land f DISK_FLUSHONLY = 0 -> Z.land (Z.lor f 0) DISK_FLUSHONLY = 0 /\ Z.land (Z.lor f DISK_FLUSHONLY) DISK_FLUSHONLY <> 0.
Proof. intros H. rewrite Z.lor_0_r. split; [done|]. rewrite Z.land_lor_distr_l, H. done. Qed.

Lemma land_ext f more : more = 0 \/ more = DISK_FLUSHONLY -> Z.land (Z.lor f more) DISK_EXTFLUSH = Z.land f DISK_EXTFLUSH.
Proof. intros [-> | ->]; rewrite Z.land_lor_distr_l; [by rewrite Z.land_0_l, Z.lor_0_r|]. apply Z.lor_0_r. Qed.

(** No disk is found with the flag of hdflush. *)
Lemma found_flags D name f f' : Z.land f DISK_FLUSHONLY = 0 -> found D name f = Found f' -> Z.land f' DISK_FLUSHONLY = 0.
Proof.
  unfold found. intros Hf. repeat case_match; try done; intros [= <-]; [done|]. by rewrite Z.land_lor_distr_l, Hf.
Qed.

Lemma scan_disk_flags D name f : scan_disk D name = Found f -> Z.land f DISK_FLUSHONLY = 0.
Proof.
  unfold scan_disk. intros H. repeat (case_match; try discriminate H); (eapply found_flags; [|exact H]; done).
Qed.

Lemma list_disks_flags D names d f : (d, f) ∈ list_disks D names -> Z.land f DISK_FLUSHONLY = 0.
Proof.
  induction names as [|n names IH]; cbn; [by intros ?%not_elem_of_nil|].
  destruct (scan_disk D n) eqn:E; [done|by intros ?%not_elem_of_nil|]. intros [[= -> ->]|H]%elem_of_cons; [by eapply scan_disk_flags|auto].
Qed.

(** The flush that do_standby_disk sends first. *)
Definition flushes (drive : bytes -> command -> bool) (d : bytes) (f : Z) : list command :=
  let standard := if drive d FlushCache then [FlushCache] else [FlushCache; BlkFlsBuf] in
  if Z.land f DISK_EXTFLUSH =? 0 then standard else if drive d FlushCacheExt then [FlushCacheExt] else FlushCacheExt :: standard.

Definition standbys (drive : bytes -> command -> bool) (d : bytes) : list command :=
  if drive d StandbyNow1 then [StandbyNow1] else [StandbyNow1; StandbyNow2].

Lemma do_standby_disk_commands D drive d f : lenZ (#"/dev/" ++ d) < NAME_BUF -> dev_open D (#"/dev/" ++ d) = true ->
  (do_standby_disk D drive d f).2 = flushes drive d f ++ (if Z.land f DISK_FLUSHONLY =? 0 then standbys drive d else []).
Proof.
  intros Hl Ho. unfold do_standby_disk. rewrite Z.geb_leb, (proj2 (Z.leb_gt _ _)), Ho by lia. cbn [negb]. unfold flushes, standbys.
  destruct (Z.land f DISK_EXTFLUSH =? 0), (drive d FlushCache), (drive d FlushCacheExt), (Z.land f DISK_FLUSHONLY =? 0), (drive d StandbyNow1); done.
Qed.

Lemma flushes_flush drive d f : flushes drive d f <> [] /\ Forall (fun c => is_flush c = true) (flushes drive d f) /\
  ((exists c, c ∈ flushes drive d f /\ drive d c = true) \/ (FlushCache ∈ flushes drive d f /\ BlkFlsBuf ∈ flushes drive d f)).
Proof.
  unfold flushes. destruct (Z.land f DISK_EXTFLUSH =? 0), (drive d FlushCache) eqn:E1, (drive d FlushCacheExt) eqn:E2;
    (split; [done|split; [by repeat constructor|]]); try (left; eexists; split; [apply elem_of_cons; by left|done]);
    try (right; split; apply (bool_decide_unpack _); vm_compute; exact I).
  left. exists FlushCache. split; [apply (bool_decide_unpack _); vm_compute; exact I|done].
Qed.

(** The commands [fl] flush the disk: one succeeds or the two plain ones were tried. *)
Definition flushed (drive : bytes -> command -> bool) (d : bytes) (fl : list command) : Prop :=
  Forall (fun c => is_flush c = true) fl /\ ((exists c, c ∈ fl /\ drive d c = true) \/ (FlushCache ∈ fl /\ BlkFlsBuf ∈ fl)).

(** The search finds a disk behind names without an error. *)
Lemma list_disks_found D n1 d n2 f : Forall (fun n => scan_disk D n <> Empty) n1 -> scan_disk D d = Found f -> (d, f) ∈ list_disks D (n1 ++ d :: n2).
Proof.
  intros H Hf. induction H as [|n n1 Hn _ IH]; cbn; [rewrite Hf; apply elem_of_cons; by left|].
  destruct (scan_disk D n); [done|done|]. apply elem_of_cons. by right.
Qed.

(** The commands of one disk in a pass. *)
Lemma disk_pass_block D drive names more d f : (d, f) ∈ list_disks D names ->
  exists a b, disk_pass D drive (Some names) more = a ++ map (pair d) (do_standby_disk D drive d (Z.lor f more)).2 ++ b.
Proof.
  intros (l1 & l2 & H)%list_elem_of_split. cbn. rewrite H, map_app, concat_app. cbn. eauto.
Qed.

Lemma pass_flushes D drive names more d f : (d, f) ∈ list_disks D names ->
  lenZ (#"/dev/" ++ d) < NAME_BUF -> dev_open D (#"/dev/" ++ d) = true ->
  exists fl x y, disk_pass D drive (Some names) more = x ++ map (pair d) fl ++ y /\ flushed drive d fl.
Proof.
  intros Hd Hl Ho. destruct (disk_pass_block D drive names more d f Hd) as (a & b & ->). rewrite do_standby_disk_commands by done.
  destruct (flushes_flush drive d (Z.lor f more)) as (_ & Hfl & Hok). rewrite map_app, <- !app_assoc. by eexists _, a, _.
Qed.

Lemma disk_pass_in D drive names more d c : (d, c) ∈ disk_pass D drive (Some names) more ->
  exists f, (d, f) ∈ list_disks D names /\ c ∈ (do_standby_disk D drive d (Z.lor f more)).2.
Proof.
  cbn. intros H. apply list_elem_of_In, in_concat in H as (l & Hl & Hc). apply in_map_iff in Hl as ([d' f] & <- & Hd).
  apply in_map_iff in Hc as (c' & [= <- <-] & Hc). exists f. split; by apply list_elem_of_In.
Qed.

(** Every disk that list_disks finds and that can be opened is flushed, by hdflush
    and by hddown: the same commands of which one succeeds or the two plain ones were
    both tried. Only hddown sends the standby command, and after those of the flush. *)
Theorem disks_flushed D drive names d f : (d, f) ∈ list_disks D names -> lenZ (#"/dev/" ++ d) < NAME_BUF -> dev_open D (#"/dev/" ++ d) = true ->
  (exists fl, Forall (fun c => is_flush c = true) fl /\
    ((exists c, c ∈ fl /\ drive d c = true) \/ (FlushCache ∈ fl /\ BlkFlsBuf ∈ fl)) /\
    (exists a b, hdflush D drive (Some names) = a ++ map (pair d) fl ++ b) /\
    (exists a b st, hddown D drive (Some names) = a ++ map (pair d) (fl ++ StandbyNow1 :: st) ++ b)) /\
  (forall e c, (e, c) ∈ hdflush D drive (Some names) -> is_flush c = true).
Proof.
  intros Hd Hl Ho. pose proof (list_disks_flags _ _ _ _ Hd) as Hf. destruct (land_more f Hf) as [H0 H1]. split.
  - exists (flushes drive d f). destruct (flushes_flush drive d f) as (_ & Hfl & Hok). split; [done|]. split; [done|]. split.
    + destruct (disk_pass_block D drive names DISK_FLUSHONLY d f Hd) as (a & b & E). exists a, b. unfold hdflush. rewrite E.
      rewrite do_standby_disk_commands by done. rewrite (proj2 (Z.eqb_neq _ _) H1), app_nil_r. unfold flushes. rewrite land_ext by auto. done.
    + destruct (disk_pass_block D drive names 0 d f Hd) as (a & b & E). unfold hddown. rewrite E, do_standby_disk_commands by done.
      rewrite (proj2 (Z.eqb_eq _ _) H0). exists a, b, (if drive d StandbyNow1 then [] else [StandbyNow2]).
      rewrite Z.lor_0_r. unfold standbys. by destruct (drive d StandbyNow1).
  - intros e c (g & Hg & Hc)%disk_pass_in. destruct (land_more g (list_disks_flags _ _ _ _ Hg)) as [_ Hg1]. revert Hc.
    destruct (decide (lenZ (#"/dev/" ++ e) < NAME_BUF)) as [Hle|Hle]; [destruct (dev_open D (#"/dev/" ++ e)) eqn:Hoe|].
    + rewrite do_standby_disk_commands by done. rewrite (proj2 (Z.eqb_neq _ _) Hg1), app_nil_r. intros Hc.
      destruct (flushes_flush drive e (Z.lor g DISK_FLUSHONLY)) as (_ & Hfl & _). rewrite list.Forall_forall in Hfl. auto.
    + unfold do_standby_disk. rewrite Hoe. cbn [negb]. case_match; by intros ?%not_elem_of_nil.
    + unfold do_standby_disk. rewrite Z.geb_leb, (proj2 (Z.leb_le _ _)) by lia. by intros ?%not_elem_of_nil.
Qed.

(** Every disk of 2^28 sectors or more is taken for one that knows the extended flush,
    whatever it says of itself, and also if it does not answer: the result of the check
    is never 0 after the path was printed into the same variable. *)
Theorem ext_flush_always D d s buf : sysfs D (#"/sys/block/" ++ d ++ #"/size") = HdData s ->
  lenZ (#"/sys/block/" ++ d ++ #"/size") < NAME_BUF -> fgets s = Some buf -> strstrip buf <> [] -> 2 ^ 28 <= u64 (atoll (strstrip buf)) ->
  0 < flush_cache_ext D d.
Proof.
  intros Hs Hl Hb Hn Hz. unfold flush_cache_ext, hdopen. rewrite Z.geb_leb, (proj2 (Z.leb_gt _ _)) by lia. rewrite Hs, Hb.
  rewrite bool_decide_false by done. rewrite (proj2 (Z.ltb_ge _ _)) by lia.
  assert (0 < lenZ (#"/dev/" ++ d) < NAME_BUF).
  { unfold lenZ in *. rewrite !length_app in *. change (length #"/dev/") with 5%nat. change (length #"/sys/block/") with 11%nat in Hl. lia. }
  cbv zeta. rewrite Z.geb_leb, (proj2 (Z.leb_gt _ _)) by lia. repeat case_match; lia.
Qed.

(** ** The order of the actions *)

Lemma halt_options_sync l o o' : halt_options l o = Some o' -> F_n ∉ l -> do_sync o' = do_sync o.
Proof.
  revert o. induction l as [|f l IH]; intros o; cbn; [by intros [= <-]|]. rewrite not_elem_of_cons. intros H [Hf Hl].
  destruct (halt_option f o) as [o1|] eqn:E; cbn in H; [|done]. rewrite (IH o1 H Hl).
  destruct f; cbn in E; try done; try (by injection E as <-). destruct (do_reboot o); [done|]. by injection E as <-.
Qed.

Lemma halt_options_reboot l o o' : halt_options l o = Some o' -> do_reboot o' = do_reboot o.
Proof.
  revert o. induction l as [|f l IH]; intros o; cbn; [by intros [= <-]|]. intros H.
  destruct (halt_option f o) as [o1|] eqn:E; cbn in H; [|done]. rewrite (IH o1 H).
  destruct f; cbn in E; try done; try (by injection E as <-). destruct (do_reboot o) eqn:Er; [done|]. by injection E as <-.
Qed.

Definition is_reboot (a : action) : bool := match a with Reboot _ => true | _ => false end.

(** What is in front of a call of reboot starts with [pre], if that has none. *)
Lemma before_reboot pre t l1 m l2 : Forall (fun a => is_reboot a = false) pre -> pre ++ t = l1 ++ Reboot m :: l2 -> exists l, l1 = pre ++ l.
Proof.
  intros Hp. revert l1. induction Hp as [|a pre Ha Hp IH]; intros l1 H; [by exists l1|].
  destruct l1 as [|b l1]; cbn in H; [injection H as -> _; done|]. injection H as -> H. destruct (IH l1 H) as [l ->]. by exists l.
Qed.

(** The call for the disks. *)
Definition disk_action (sys : system) (o : halt_opts) : action :=
  if do_hddown o then HdDown (hddown (hardware sys) (drive sys) (sys_block sys)) else HdFlush (hdflush (hardware sys) (drive sys) (sys_block sys)).

(** The actions in front of halt_end. *)
Definition halt_prepare (sys : system) (o : halt_opts) : list action :=
  (if do_wtmp o then [WriteWtmp] else []) ++ (if do_sync o then [Sync; Sleep2] else []) ++ (if do_ifdown o then [IfDown] else []) ++
  [disk_action sys o].

Lemma halt_down_split sys o l1 m l2 : halt_down sys o = l1 ++ Reboot m :: l2 -> exists l, l1 = halt_prepare sys o ++ l.
Proof.
  unfold halt_down. intros H. assert (Hp : Forall (fun a => is_reboot a = false) (halt_prepare sys o)).
  { unfold halt_prepare, disk_action. destruct (do_wtmp o), (do_sync o), (do_ifdown o), (do_hddown o); by repeat constructor. }
  destruct (do_nothing o && negb (do_hddown o) && negb (do_ifdown o)) eqn:E.
  - assert (Hx : Reboot m ∈ (if do_wtmp o then [WriteWtmp] else []) ++ []) by (rewrite H, elem_of_app, elem_of_cons; right; by left).
    rewrite app_nil_r in Hx. destruct (do_wtmp o); [apply list_elem_of_singleton in Hx; done|by apply not_elem_of_nil in Hx].
  - eapply (before_reboot _ (if do_nothing o then [] else halt_end sys o) l1 m l2 Hp). rewrite <- H. unfold halt_prepare, disk_action. rewrite <- !app_assoc. by destruct (do_hddown o).
Qed.

Lemma halt_main_reboots sys r argv0 flags args m : Reboot m ∈ halt_main sys r argv0 flags args ->
  exists o, halt_options flags (opts0 argv0) = Some o /\ euid sys = 0 /\ halt_main sys r argv0 flags args = halt_down sys o.
Proof.
  unfold halt_main. destruct (halt_options flags (opts0 argv0)) as [o|]; [|intros H%list_elem_of_singleton; done].
  destruct (negb (bool_decide _)); [intros H%list_elem_of_singleton; done|].
  destruct (Z.eqb_spec (euid sys) 0); cbn [negb]; [|intros H%list_elem_of_singleton; done].
  destruct (negb (chdir_ok sys)); [intros H%list_elem_of_singleton; done|].
  destruct (negb (do_hard o) && negb (do_nothing o)); [|by eauto]. cbv zeta.
  destruct (_ && do_reboot o && do_kexec o); [intros H%list_elem_of_singleton; done|].
  destruct (_ && _); [|by eauto]. intros [H|H]%elem_of_cons; [done|]. destruct (shutdown_runs sys); [by apply not_elem_of_nil in H|].
  by apply list_elem_of_singleton in H.
Qed.

(** C28. Only root can halt or reboot. Before any call of reboot the disks were flushed
    or put to sleep and, unless -n was given, the file systems were synced before that:
    for all options, runlevels and results of the calls. Flushed means: if /sys/block
    could be read, then every disk of it that the search takes and that can be opened
    got the flush, of which one command succeeded or both plain ones were tried. The
    search ends at the first name with an error, so the names in front of the disk have
    to be without one. *)
Theorem flush_before_reboot sys r argv0 flags args l1 m l2 : halt_main sys r argv0 flags args = l1 ++ Reboot m :: l2 ->
  euid sys = 0 /\
  exists a b d cmds, l1 = a ++ d :: b /\ (d = HdDown cmds \/ d = HdFlush cmds) /\ (F_n ∉ flags -> Sync ∈ a) /\
    forall n1 dev n2 f, sys_block sys = Some (n1 ++ dev :: n2) -> Forall (fun n => scan_disk (hardware sys) n <> Empty) n1 ->
      scan_disk (hardware sys) dev = Found f -> lenZ (#"/dev/" ++ dev) < NAME_BUF -> dev_open (hardware sys) (#"/dev/" ++ dev) = true ->
      exists fl x y, cmds = x ++ map (pair dev) fl ++ y /\ flushed (drive sys) dev fl.
Proof.
  intros H. destruct (halt_main_reboots sys r argv0 flags args m) as (o & Ho & Hu & Hd); [rewrite H, elem_of_app, elem_of_cons; right; by left|].
  split; [done|]. rewrite Hd in H. apply halt_down_split in H as [l ->]. unfold halt_prepare.
  exists ((if do_wtmp o then [WriteWtmp] else []) ++ (if do_sync o then [Sync; Sleep2] else []) ++ (if do_ifdown o then [IfDown] else [])), l,
    (disk_action sys o), (disk_pass (hardware sys) (drive sys) (sys_block sys) (if do_hddown o then 0 else DISK_FLUSHONLY)).
  split; [by rewrite <- !app_assoc|]. split; [unfold disk_action; destruct (do_hddown o); auto|]. split.
  - intros Hn. pose proof (halt_options_sync _ _ _ Ho Hn) as ->. cbn [do_sync opts0]. rewrite !elem_of_app. right. left. apply elem_of_cons. by left.
  - intros n1 dev n2 f -> H1 Hf Hl Hopen. apply (pass_flushes _ _ _ _ _ f); [by apply list_disks_found|done..].
Qed.

(** Called with its path, as "/sbin/reboot", the program does not know that it is
    reboot: with -f it halts the machine instead, and never asks for a reboot. *)
Theorem reboot_by_path_halts sys r dir : euid sys = 0 -> chdir_ok sys = true -> (forall m, reboot_returns sys m = true) ->
  let l := halt_main sys r (dir ++ #"/reboot") [F_f] [] in Reboot BMAGIC_HALT ∈ l /\ Reboot BMAGIC_REBOOT ∉ l.
Proof.
  intros Hu Hc Hr l.
  assert (Hp : progname (dir ++ #"/reboot") = #"/reboot").
  { unfold progname. change (dir ++ #"/reboot") with (dir ++ "/"%char :: #"reboot"). rewrite strrchr_app; [done|].
    apply (bool_decide_unpack _). vm_compute. exact I. }
  assert (Ho : opts0 (dir ++ #"/reboot") = opts0 #"/reboot") by (unfold opts0; by rewrite Hp).
  assert (Hl : l = [WriteWtmp; Sync; Sleep2; HdFlush (hdflush (hardware sys) (drive sys) (sys_block sys)); Reboot BMAGIC_HARD; Stop_init; Reboot BMAGIC_HALT; Reboot BMAGIC_SOFT; Continue_init]).
  { unfold l, halt_main. rewrite Ho. destruct (halt_options [F_f] (opts0 #"/reboot")) as [o|] eqn:E; [|done].
    vm_compute in E. injection E as <-. rewrite Hu, Hc. unfold halt_down, halt_end, reboot_then. cbn. by rewrite !Hr. }
  rewrite Hl. split; apply (bool_decide_unpack _); vm_compute; exact I.
Qed.

(** ** The interfaces *)

Lemma up_bit f : (Z.land f IFF_UP =? 0) = negb (Z.testbit f 0).
Proof.
  unfold IFF_UP. change 1 with (Z.ones 1). rewrite Z.land_ones by lia. change (2 ^ 1) with 2. rewrite <- Z.bit0_mod. by destruct (Z.testbit f 0).
Qed.

Lemma down_bit f : Z.land f (Z.lnot IFF_UP) = Z.clearbit f 0.
Proof. by rewrite <- Z.ldiff_land. Qed.

Lemma ifdown_pass_in sh flags l d g : (d, g) ∈ ifdown_pass sh flags l <-> is_shaper d = sh /\
  exists f, d ∈ l /\ d <> #"lo" /\ ":"%char ∉ d /\ flags d = Some f /\ Z.testbit f 0 = true /\ g = Z.clearbit f 0.
Proof.
  unfold ifdown_pass. rewrite list_elem_of_omap. split.
  - intros (x & Hx & H). destruct (eqb (is_shaper x) sh) eqn:E; [|done]. apply eqb_prop in E. cbn [negb] in H.
    do 2 (case_bool_decide; [done|]). destruct (flags x) as [f|] eqn:Ef; [|done].
    rewrite up_bit, down_bit in H. destruct (Z.testbit f 0) eqn:Eb; [|done]. injection H as -> <-. eauto 10.
  - intros (<- & f & Hd & Hlo & Hc & Hf & Hb & ->). exists d. split; [done|]. rewrite eqb_reflx. cbn [negb].
    rewrite !bool_decide_false by done. by rewrite Hf, up_bit, down_bit, Hb.
Qed.

(** ifdown takes down exactly the interfaces among the first 64 that are up, apart
    from lo and the aliases, and changes no other flag of them. *)
Theorem ifdown_spec flags names d g : (d, g) ∈ ifdown flags names <->
  exists f, d ∈ take MAX_IFS names /\ d <> #"lo" /\ ":"%char ∉ d /\ flags d = Some f /\ Z.testbit f 0 = true /\ g = Z.clearbit f 0.
Proof.
  unfold ifdown. rewrite elem_of_app, !ifdown_pass_in. split; [by intros [[_ H]|[_ H]]|]. intros H. destruct (is_shaper d); auto.
Qed.

(** ** Witnesses *)

(** A machine with one disk sda, of 2^30 sectors. *)
Definition demo_disks : disks := {|
  sysfs p := if bool_decide (p = #"/sys/block/sda/removable") then HdData #"0"
             else if bool_decide (p = #"/sys/block/sda/device/vendor") then HdData #"ATA     "
             else if bool_decide (p = #"/sys/block/sda/size") then HdData #"1073741824" else HdNone;
  readlink p := if bool_decide (p = #"/sys/block/sda/device") then LinkTo #"../../../0:0:0:0" else LinkNone;
  dev_read p := bool_decide (p = #"/dev/sda");
  dev_open p := bool_decide (p = #"/dev/sda");
  identify _ := Some 0;
|}.
Definition demo_system : system := {| euid := 0; chdir_ok := true; shutdown_runs := true; reboot_returns _ := true;
  hardware := demo_disks; drive _ _ := true; sys_block := Some [ #"loop0"; #"sda"] |}.
Definition demo_runlevel : runlevel_info := {| init_version := true; runlevel_var := Some #"6"; utmp := [] |}.

Lemma flush_before_reboot_witness : let l1 := [WriteWtmp; Sync; Sleep2; HdDown [(#"sda", FlushCacheExt); (#"sda", StandbyNow1)]] in
  halt_main demo_system demo_runlevel #"reboot" [F_h] [] = l1 ++ Reboot BMAGIC_REBOOT :: [Reboot BMAGIC_SOFT; Continue_init] /\
  exists a b d cmds, l1 = a ++ d :: b /\ (d = HdDown cmds \/ d = HdFlush cmds) /\ Sync ∈ a /\
    exists fl x y, cmds = x ++ map (pair #"sda") fl ++ y /\ flushed (drive demo_system) #"sda" fl.
Proof.
  intros l1.
  assert (H : halt_main demo_system demo_runlevel #"reboot" [F_h] [] = l1 ++ Reboot BMAGIC_REBOOT :: [Reboot BMAGIC_SOFT; Continue_init])
    by (vm_compute; reflexivity).
  split; [exact H|].
  destruct (proj2 (flush_before_reboot demo_system demo_runlevel #"reboot" [F_h] [] _ _ _ H)) as (a & b & d & cmds & E & Hd & Hs & Hf).
  exists a, b, d, cmds. split; [exact E|]. split; [exact Hd|]. split; [apply Hs; intros Hn%list_elem_of_singleton; discriminate|].
  apply (Hf [ #"loop0"] #"sda" [] 7); [reflexivity| |vm_compute; reflexivity..]. apply list.Forall_singleton. vm_compute. discriminate.
Defined.

Lemma reboot_by_path_halts_witness : let l := halt_main demo_system demo_runlevel (#"/sbin" ++ #"/reboot") [F_f] [] in
  Reboot BMAGIC_HALT ∈ l /\ Reboot BMAGIC_REBOOT ∉ l.
Proof. apply (reboot_by_path_halts demo_system demo_runlevel #"/sbin"); reflexivity. Defined.

Lemma disks_flushed_witness : list_disks demo_disks [ #"loop0"; #"sda"] = [(#"sda", 7)] /\
  exists fl a b st, Forall (fun c => is_flush c = true) fl /\
    hddown demo_disks (fun _ _ => true) (Some [ #"loop0"; #"sda"]) = a ++ map (pair #"sda") (fl ++ StandbyNow1 :: st) ++ b.
Proof.
  assert (Hl : list_disks demo_disks [ #"loop0"; #"sda"] = [(#"sda", 7)]) by (vm_compute; reflexivity).
  split; [exact Hl|].
  destruct (disks_flushed demo_disks (fun _ _ => true) [ #"loop0"; #"sda"] #"sda" 7) as [(fl & Hf & _ & _ & (a & b & st & H)) _].
  - rewrite Hl. apply elem_of_cons. by left.
  - vm_compute. reflexivity.
  - vm_compute. reflexivity.
  - exists fl, a, b, st. split; [exact Hf|exact H].
Defined.

Lemma ext_flush_always_witness : identify demo_disks #"sda" = Some 0 /\ 0 < flush_cache_ext demo_disks #"sda".
Proof.
  split; [reflexivity|].
  apply (ext_flush_always demo_disks #"sda" #"1073741824" #"1073741824"); [vm_compute; reflexivity..| |]; vm_compute; discriminate.
Defined.
