(* ===== verification/Wtmp.v ===== *)
(** The record that halt and reboot leave in the log of logins (features/runtime/src/halt,
    utmp.c, [write_wtmp], and its call in halt.c).

    The fields of struct utmp have a fixed size and hold what strncpy writes to them. The
    file is the list of its records. What access, open, clock_gettime and uname return is
    a parameter; [w_append] says whether the record could be written. *)

From Stdlib Require Import ZArith Ascii String Lia.
From stdpp Require Import base list strings tactics.
From S2P Require Import Prelude.

Open Scope Z_scope.
Open Scope cprog_scope.

Definition UT_LINESIZE : Z := 32.
Definition UT_NAMESIZE : Z := 32.
Definition UT_HOSTSIZE : Z := 256.
Definition UT_IDSIZE : Z := 4.
Definition RUN_LVL : Z := 1.

Record utmp := {
  ut_type : Z;
  ut_pid : Z;
  ut_line : bytes;
  ut_id : bytes;
  ut_name : bytes;
  ut_host : bytes;
  ut_tv : Z * Z;
}.

(** The field after memset and strncpy of a string of [s] without its NUL. *)
Definition strncpy_field (s : bytes) (size : Z) : bytes :=
  takeZ size s ++ replicate (Z.to_nat (size - lenZ s)) NUL.

Record wtmp_calls := {
  w_access : Z;
  w_open : Z;
  w_clock : option (Z * Z);
  w_uname : option bytes;
  w_append : bool;
}.

(** The file and the open descriptors afterwards. *)
Definition write_wtmp (c : wtmp_calls) (user id : bytes) (pid type : Z) (line : bytes) (file : list utmp) (fds : list Z) : list utmp * list Z :=
  if w_access c <? 0 then (file, fds) else
  if w_open c <? 0 then (file, fds) else
  let fds := w_open c :: fds in
  let u := {| ut_type := type; ut_pid := pid;
              ut_line := strncpy_field line UT_LINESIZE;
              ut_id := strncpy_field id UT_IDSIZE;
              ut_name := strncpy_field user UT_NAMESIZE;
              ut_host := match w_uname c with
                         | Some release => strncpy_field release UT_HOSTSIZE
                         | None => replicate (Z.to_nat UT_HOSTSIZE) NUL
                         end;
              ut_tv := match w_clock c with Some (sec, nsec) => (sec, Z.quot nsec 1000) | None => (0, 0) end |} in
  let file := if w_append c then file ++ [u] else file in
  (file, List.filter (fun fd => negb (fd =? w_open c)) fds).

(** The call in main of halt. *)
Definition halt_wtmp (c : wtmp_calls) (file : list utmp) (fds : list Z) : list utmp * list Z :=
  write_wtmp c #"shutdown" #"~~" 0 RUN_LVL #"~~" file fds.

(** A reader of a field: up to the first NUL, or all of it. *)
Fixpoint field_text (f : bytes) : bytes :=
  match f with
  | [] => []
  | c :: f => if decide (c = NUL) then [] else c :: field_text f
  end.

Lemma field_text_app s n : NUL ∉ s -> field_text (s ++ replicate n NUL) = s.
Proof.
  intros Hs. induction s as [|x s IH]; cbn; [by destruct n|]. rewrite not_elem_of_cons in Hs.
  rewrite decide_False by (intros ->; tauto). by rewrite IH by tauto.
Qed.

Lemma lenZ_field s size : 0 <= size -> lenZ (strncpy_field s size) = size.
Proof.
  intros Hs. unfold strncpy_field. rewrite lenZ_app, lenZ_replicate. pose proof (lenZ_nonneg s).
  destruct (Z.le_gt_cases size (lenZ s)); [rewrite lenZ_takeZ by lia|rewrite takeZ_ge by lia]; lia.
Qed.

Lemma field_read_back s size : NUL ∉ s -> lenZ s <= size -> field_text (strncpy_field s size) = s.
Proof. intros Hn Hl. unfold strncpy_field. rewrite takeZ_ge by done. by apply field_text_app. Qed.

(** The record of a shutdown. When the log can be written exactly one record is added at
    its end, and the records before it are as they were; the record has the size the
    readers expect in every field, whatever the release of the kernel is, and they read
    back the user, the run level and the release. In every case the descriptors are as
    before. *)
Theorem wtmp_record c file fds :
  w_open c ∉ fds -> (forall r, w_uname c = Some r -> NUL ∉ r /\ lenZ r <= 64) ->
  exists new, halt_wtmp c file fds = (file ++ new, fds) /\
    (0 <= w_access c -> 0 <= w_open c -> w_append c = true -> exists u, new = [u]) /\
    forall u, u ∈ new -> ut_type u = RUN_LVL /\ field_text (ut_name u) = #"shutdown" /\ field_text (ut_line u) = #"~~" /\
      field_text (ut_id u) = #"~~" /\ field_text (ut_host u) = default [] (w_uname c) /\
      lenZ (ut_line u) = UT_LINESIZE /\ lenZ (ut_id u) = UT_IDSIZE /\ lenZ (ut_name u) = UT_NAMESIZE /\ lenZ (ut_host u) = UT_HOSTSIZE.
Proof.
  intros Ho Hu. unfold halt_wtmp, write_wtmp.
  assert (Hnil : (file, fds) = (file ++ [], fds)) by (by rewrite app_nil_r).
  destruct (Z.ltb_spec (w_access c) 0); [exists []; split_and!; [done|lia|by intros ? ?%not_elem_of_nil]|].
  destruct (Z.ltb_spec (w_open c) 0); [exists []; split_and!; [done|lia|by intros ? ?%not_elem_of_nil]|].
  assert (Hf : List.filter (fun fd => negb (fd =? w_open c)) (w_open c :: fds) = fds).
  { cbn. rewrite Z.eqb_refl. cbn. clear -Ho. induction fds as [|x fds IH]; cbn; [done|]. rewrite not_elem_of_cons in Ho.
    rewrite (proj2 (Z.eqb_neq _ _)) by naive_solver. cbn. by rewrite IH by tauto. }
  rewrite Hf. destruct (w_append c); [|exists []; split_and!; [done|done|by intros ? ?%not_elem_of_nil]].
  eexists [_]. split; [done|]. split; [by eexists|]. intros u ->%list_elem_of_singleton. cbn [ut_type ut_name ut_line ut_id ut_host].
  split; [done|]. split; [reflexivity|]. split; [reflexivity|]. split; [reflexivity|]. split.
  { destruct (w_uname c) as [r|]; [|reflexivity]. destruct (Hu r eq_refl) as [H1 H2]. apply field_read_back; [exact H1|]. unfold UT_HOSTSIZE. cbn. lia. }
  split; [reflexivity|]. split; [reflexivity|]. split; [reflexivity|].
  destruct (w_uname c) as [r|]; [|reflexivity]. by apply lenZ_field.
Qed.
