(* ===== verification/Resume.v ===== *)
(** resume, the program that resumes from a suspended system (features/runtime/src/resume).

    - getarg.c: [get_flag], [get_arg];
    - name_to_dev.c and name_to_dev.h: [try_name], [name_to_dev_t];
    - resumelib.c and resume.c: [resume], [do_resume], [resume_main].

    The files of sysfs and the device nodes are parameters. Of the system library the file
    has makedev, major and minor. [Undef] is a read outside of a string. *)

From Stdlib Require Import ZArith Ascii Lia.
From stdpp Require Import base list strings tactics.
From S2P Require Import Prelude CString.

Open Scope Z_scope.
Open Scope cprog_scope.

(** ** Device numbers *)

Definition makedev (ma mi : Z) : Z :=
  Z.lor (Z.lor (Z.shiftl (Z.land ma 0xfff) 8) (Z.shiftl (Z.land ma 0xfffff000) 32))
        (Z.lor (Z.land mi 0xff) (Z.shiftl (Z.land mi 0xffffff00) 12)).
Definition major (dev : Z) : Z := Z.lor (Z.shiftr (Z.land dev 0xfff00) 8) (Z.shiftr (Z.land dev 0xfffff00000000000) 32).
Definition minor (dev : Z) : Z := Z.lor (Z.land dev 0xff) (Z.shiftr (Z.land dev 0xffffff00000) 12).

(** __makedev and the numbers of name_to_dev.h. *)
Definition makedev_root (ma mi : Z) : Z :=
  Z.lor (Z.lor (Z.shiftl (Z.land ma 0xfff) 8) (Z.land mi 0xff)) (Z.shiftl (Z.land mi 0xfff00) 12).
Definition Root_RAM0 : Z := makedev_root 1 0.
Definition Root_NFS : Z := makedev_root 0 255.
Definition Root_MTD : Z := makedev_root 0 254.
Definition Root_MULTI : Z := makedev_root 0 253.

(** ** name_to_dev.c *)

Definition BUF_SZ : Z := 65536.

(** The contents of the files of sysfs, [None] if a file cannot be opened, and the numbers
    of the block devices. *)
Record devfs := { sys_file : bytes -> option bytes; block_node : bytes -> option Z }.

(** A line of at most [n - 1] bytes that read gets, as a string without its end. *)
Definition read_line (F : devfs) (path : bytes) (n : Z) : option bytes :=
  d ← sys_file F (takeZ (BUF_SZ - 1) path);
  let len := lenZ (takeZ n d) in
  if (len <=? 0) || (len =? n) then None
  else match list.last (takeZ n d) with
       | Some "010"%char => cstr (takeZ (len - 1) d ++ [NUL])
       | _ => None
       end.

(** The number of a disk or of its partition, 0 if there is none. *)
Definition try_name (F : devfs) (name : bytes) (part : Z) : Z :=
  match read_line F (#"/sys/block/" ++ name ++ #"/dev") BUF_SZ with
  | None => 0
  | Some buf =>
      let '(major_num, _, s) := strtoul 10 buf in
      match s with
      | ":"%char :: s =>
          let '(minor_num, _, s) := strtoul 10 s in
          if negb (bool_decide (s = [])) then 0
          else
            let res := makedev (u32 major_num) (u32 minor_num) in
            if part =? 0 then res
            else match read_line F (#"/sys/block/" ++ name ++ #"/range") 32 with
                 | None => 0
                 | Some buf =>
                     let '(range, _, s) := strtoul 10 buf in
                     if negb (bool_decide (s = [])) then 0
                     else if part <? range then u64 (res + part) else 0
                 end
      | _ => 0
      end
  end.

(** The digits at the end of a string and what is in front of them. *)
Definition split_digits (s : bytes) : bytes * bytes :=
  let stem := rev (skip_while isdigit (rev s)) in (stem, dropZ (lenZ stem) s).

(** A disk or a partition of sysfs: the numbers at the end of the name are the partition,
    with a p in front of them if the name of the disk ends with a digit. *)
Definition disk_name (F : devfs) (name : bytes) : Z :=
  let s := map (fun c => if bool_decide (c = "/"%char) then "!"%char else c) name in
  let res := try_name F s 0 in
  if negb (res =? 0) then res
  else
    let '(stem, digits) := split_digits s in
    match stem, digits with
    | [], _ | _, [] | _, "0"%char :: _ => 0
    | _, _ =>
        let part := (strtoul 10 digits).1.1 in
        let res := try_name F stem part in
        if negb (res =? 0) then res
        else match rev stem with
             | "p"%char :: c :: t => if isdigit c then try_name F (rev (c :: t)) part else 0
             | _ => 0
             end
    end.

(** The names that are not for a file of /dev. *)
Definition special_name (F : devfs) (name : bytes) : Z :=
  if bool_decide (name = #"nfs") then Root_NFS
  else if bool_decide (name = #"ram") then Root_RAM0
  else match strip_prefix #"mtd" name with
       | Some _ => Root_MTD
       | None => disk_name F name
       end.

(** A number major:minor or in hexadecimal; [devname5] is what is five bytes behind the
    start of the path. *)
Definition number_name (name devname5 : bytes) : option Z :=
  match strchr ":"%char devname5 with
  | Some (a, (_ :: _) as b) =>
      let '(major_num, _, e1) := strtoul 10 a in
      let '(minor_num, _, e2) := strtoul 10 b in
      if bool_decide (e1 = []) && bool_decide (e2 = []) then Some (makedev (u32 major_num) (u32 minor_num)) else None
  | _ =>
      let '(res, _, p) := strtoul 16 name in
      if bool_decide (p = []) then Some res else None
  end.

Definition absolute (name : bytes) : bool := match name with "/"%char :: _ => true | _ => false end.

Definition name_to_dev_t (F : devfs) (name : bytes) : out Z :=
  match strchr ","%char name with
  | Some _ => Ret Root_MULTI
  | None =>
      let devname := if absolute name then name else #"/dev/" ++ name in
      match block_node F devname with
      | Some d => Ret d
      | None =>
          match strip_prefix #"/dev/" name with
          | Some rest => Ret (special_name F rest)
          | None =>
              if lenZ devname <? 5 then Undef
              else match number_name name (dropZ 5 devname) with
                   | Some d => Ret d
                   | None => Ret (special_name F name)
                   end
          end
      end
  end.

(** ** getarg.c *)

(** Both loops go from the last argument down to the second one: [l] is argv. *)
Definition get_flag (l : list bytes) (name : bytes) : nat :=
  match list_find (fun a => a = name) (rev (drop 1 l)) with
  | Some (k, _) => (length l - 1 - k)%nat
  | None => O
  end.

Definition arg_value (name a : bytes) : option bytes :=
  match strip_prefix name a with
  | Some ((_ :: _) as v) => Some v
  | _ => None
  end.
Definition get_arg (l : list bytes) (name : bytes) : option bytes := head (omap (arg_value name) (rev (drop 1 l))).

(** ** resumelib.c and resume.c *)

(** What the program says, and the bytes for /sys/power/resume. *)
Inductive resumed := InvalidDevice | CannotWrite | NoUsage | Nothing | Wrote (s : bytes).

Definition device_string (dev offset : Z) : bytes :=
  fmt_num 10 (major dev) ++ #":" ++ fmt_num 10 (minor dev) ++ #":" ++ fmt_num 10 offset.

(** [power] tells whether the file can be opened and takes the string. *)
Definition resume (F : devfs) (power : bytes -> bool) (can_open : bool) (resume_file : bytes) (resume_offset : Z) : out resumed :=
  let! resume_device := name_to_dev_t F resume_file in
  if major resume_device =? 0 then Ret InvalidDevice
  else if negb can_open then Ret CannotWrite
  else
    let s := device_string resume_device resume_offset in
    if lenZ s >=? 64 then Ret CannotWrite
    else if power s then Ret (Wrote s) else Ret CannotWrite.

Definition CONFIG_PM_STD_PARTITION : bytes := [].

Definition do_resume (F : devfs) (power : bytes -> bool) (can_open : bool) (argv : list bytes) : out resumed :=
  let resume_file := default CONFIG_PM_STD_PARTITION (get_arg argv #"resume=") in
  match resume_file with
  | [] => Ret Nothing
  | _ =>
      let resume_offset := match get_arg argv #"resume_offset=" with Some a => (strtoul 0 a).1.1 | None => 0 end in
      if bool_decide (get_flag argv #"noresume" <> O) then Ret Nothing
      else resume F power can_open resume_file resume_offset
  end.

Definition resume_main (F : devfs) (power : bytes -> bool) (can_open : bool) (argv : list bytes) : out resumed :=
  match argv with
  | [_; file] => resume F power can_open file 0
  | [_; file; offset] => resume F power can_open file (strtoul 0 offset).1.1
  | _ => Ret NoUsage
  end.

(** ** Device numbers as bits *)

Lemma mask_bit k a n : 0 <= a -> 0 <= k -> Z.testbit (Z.shiftl (Z.ones k) a) n = (a <=? n) && (n <? a + k).
Proof.
  intros Ha Hk. destruct (Z.leb_spec a n); cbn [andb].
  - rewrite Z.shiftl_spec, Z.testbit_ones_nonneg by lia. destruct (Z.ltb_spec (n - a) k), (Z.ltb_spec n (a + k)); lia.
  - destruct (decide (n < 0)); [by apply Z.testbit_neg_r|]. rewrite Z.shiftl_spec by lia. apply Z.testbit_neg_r. lia.
Qed.

Lemma high_bit x w n : 0 <= x < 2 ^ w -> w <= n -> Z.testbit x n = false.
Proof.
  intros Hx Hn. destruct (decide (x = 0)) as [->|]; [apply Z.bits_0|]. apply Z.bits_above_log2; [lia|]. apply Z.lt_le_trans with w; [|done].
  apply Z.log2_lt_pow2; lia.
Qed.

Lemma makedev_masks : 0xfff = Z.ones 12 /\ 0xfffff000 = Z.shiftl (Z.ones 20) 12 /\ 0xff = Z.ones 8 /\ 0xffffff00 = Z.shiftl (Z.ones 24) 8 /\
  0xfff00 = Z.shiftl (Z.ones 12) 8 /\ 0xfffff00000000000 = Z.shiftl (Z.ones 20) 44 /\ 0xffffff00000 = Z.shiftl (Z.ones 24) 20.
Proof. repeat split. Qed.

(** Masks become comparisons of the number of the bit, which are decided by cases. *)
Ltac mask_cases :=
  rewrite ?mask_bit, ?Z.testbit_ones by lia;
  repeat match goal with
  | |- context [?a <=? ?b] => destruct (Z.leb_spec a b)
  | |- context [?a <? ?b] => destruct (Z.ltb_spec a b)
  end; try lia; cbn [andb]; rewrite ?andb_true_r, ?andb_false_r, ?orb_false_r, ?orb_false_l.

(** The bits of a device number. *)
Lemma makedev_bit ma mi n : 0 <= n -> Z.testbit (makedev ma mi) n =
  if n <? 8 then Z.testbit mi n else if n <? 20 then Z.testbit ma (n - 8) else if n <? 44 then Z.testbit mi (n - 12)
  else if n <? 64 then Z.testbit ma (n - 32) else false.
Proof.
  intros Hn. unfold makedev. destruct makedev_masks as (-> & -> & -> & -> & _).
  rewrite !Z.lor_spec, !Z.shiftl_spec, !Z.land_spec by done. by mask_cases.
Qed.

Lemma makedev_parts ma mi : 0 <= ma < 2 ^ 32 -> 0 <= mi < 2 ^ 32 -> major (makedev ma mi) = ma /\ minor (makedev ma mi) = mi.
Proof.
  intros Ha Hi. unfold major, minor. destruct makedev_masks as (_ & _ & -> & _ & -> & -> & ->).
  split; apply Z.bits_inj'; intros n Hn; rewrite Z.lor_spec, ?Z.shiftr_spec, !Z.land_spec, !makedev_bit by lia.
  - destruct (decide (32 <= n)); [rewrite (high_bit ma 32 n) by lia|]; mask_cases; try done; f_equal; lia.
  - destruct (decide (32 <= n)); [rewrite (high_bit mi 32 n) by lia|]; mask_cases; try done; f_equal; lia.
Qed.

Lemma below_pow2 x w : 0 <= w -> 0 <= x -> (forall n, w <= n -> Z.testbit x n = false) -> x < 2 ^ w.
Proof.
  intros Hw Hx H. destruct (decide (x < 2 ^ w)); [done|exfalso].
  assert (w <= Z.log2 x) by (apply Z.log2_le_pow2; lia). specialize (H _ H0). rewrite Z.bit_log2 in H by lia. done.
Qed.

Lemma makedev_range ma mi : 0 <= ma -> 0 <= mi -> 0 <= makedev ma mi < 2 ^ 64.
Proof.
  intros Ha Hi. assert (Hn : 0 <= makedev ma mi).
  { unfold makedev. repeat (apply Z.lor_nonneg; split); rewrite ?Z.shiftl_nonneg; apply Z.land_nonneg; by left. }
  split; [done|]. apply below_pow2; [done..|]. intros n H. rewrite makedev_bit by lia. by mask_cases.
Qed.

Lemma major_minor_range dev : 0 <= dev < 2 ^ 64 -> 0 <= major dev < 2 ^ 32 /\ 0 <= minor dev < 2 ^ 32.
Proof.
  intros Hd. unfold major, minor. destruct makedev_masks as (_ & _ & -> & _ & -> & -> & ->).
  assert (Hn : forall a b, 0 <= a -> 0 <= b -> 0 <= Z.lor a b) by (intros; by apply Z.lor_nonneg).
  split; (split; [apply Hn; rewrite ?Z.shiftr_nonneg; apply Z.land_nonneg; left; lia|]).
  all: apply below_pow2; [lia|apply Hn; rewrite ?Z.shiftr_nonneg; apply Z.land_nonneg; left; lia|].
  all: intros n Hw; rewrite Z.lor_spec, ?Z.shiftr_spec, !Z.land_spec by lia.
  all: mask_cases; try done; apply (high_bit dev 64); lia.
Qed.

Lemma makedev_low ma mi : 0 <= mi -> makedev ma mi = makedev ma (256 * (mi / 256)) + mi mod 256.
Proof.
  intros Hi. assert (Hm : mi mod 256 = Z.land mi (Z.ones 8)) by (by rewrite Z.land_ones).
  assert (Hd : 256 * (mi / 256) = Z.ldiff mi (Z.ones 8)).
  { rewrite Z.ldiff_ones_r, Z.shiftl_mul_pow2, Z.shiftr_div_pow2 by lia. apply Z.mul_comm. }
  rewrite Hd, Hm, Z.add_nocarry_lxor, Z.lxor_lor.
  1: apply Z.bits_inj'; intros n Hn; rewrite Z.lor_spec, !makedev_bit, !Z.ldiff_spec, Z.land_spec by done; by mask_cases.
  all: apply Z.bits_inj'; intros n Hn; rewrite Z.land_spec, makedev_bit, !Z.ldiff_spec, Z.land_spec, Z.bits_0 by done; by mask_cases.
Qed.

Lemma makedev_high ma mi : 0 <= ma -> makedev ma mi = makedev (4096 * (ma / 4096)) mi + 256 * (ma mod 4096).
Proof.
  intros Hi. assert (Hm : 256 * (ma mod 4096) = Z.shiftl (Z.land ma (Z.ones 12)) 8).
  { rewrite Z.land_ones, Z.shiftl_mul_pow2 by lia. apply Z.mul_comm. }
  assert (Hd : 4096 * (ma / 4096) = Z.ldiff ma (Z.ones 12)).
  { rewrite Z.ldiff_ones_r, Z.shiftl_mul_pow2, Z.shiftr_div_pow2 by lia. apply Z.mul_comm. }
  rewrite Hd, Hm, Z.add_nocarry_lxor, Z.lxor_lor.
  1: apply Z.bits_inj'; intros n Hn; rewrite Z.lor_spec, Z.shiftl_spec, !makedev_bit, !Z.ldiff_spec, Z.land_spec by done; by mask_cases.
  all: apply Z.bits_inj'; intros n Hn; rewrite Z.land_spec, Z.shiftl_spec, makedev_bit, !Z.ldiff_spec, Z.land_spec, Z.bits_0 by done; by mask_cases.
Qed.

(** The sum of a device number and a partition: a carry out of the low 8 bits of the
    minor number goes into the major number. *)
Definition part_major (ma mi part : Z) : Z := ma + (mi mod 256 + part) / 256.
Definition part_minor (mi part : Z) : Z := 256 * (mi / 256) + (mi mod 256 + part) mod 256.

(** The carry stays in the low 12 bits of the major number. *)
Definition carry_fits (ma mi part : Z) : Prop := ma mod 4096 + (mi mod 256 + part) / 256 < 4096.

Lemma part_numbers ma mi part : 0 <= mi -> 0 <= part -> (part_major ma mi part = ma /\ part_minor mi part = mi + part) <-> mi mod 256 + part < 256.
Proof.
  intros Hi Hp. unfold part_major, part_minor. pose proof (Z.mod_pos_bound mi 256 ltac:(lia)). pose proof (Z.div_mod mi 256 ltac:(lia)).
  split; [intros [H1 _]|intros H1; rewrite Z.div_small, Z.mod_small by lia; lia].
  destruct (decide (mi mod 256 + part < 256)); [done|]. assert (0 < (mi mod 256 + part) / 256) by (apply Z.div_str_pos; lia). lia.
Qed.

Lemma part_range ma mi part : 0 < ma < 2 ^ 32 -> 0 <= mi < 2 ^ 32 -> 0 <= part -> carry_fits ma mi part ->
  0 < part_major ma mi part < 2 ^ 32 /\ 0 <= part_minor mi part < 2 ^ 32.
Proof.
  intros Ha Hi Hp. unfold carry_fits, part_major, part_minor. intros Hc. pose proof (Z.mod_pos_bound mi 256 ltac:(lia)).
  pose proof (Z.mod_pos_bound (mi mod 256 + part) 256 ltac:(lia)). pose proof (Z.div_pos (mi mod 256 + part) 256 ltac:(lia) ltac:(lia)).
  pose proof (Z.div_mod ma 4096 ltac:(lia)). assert (ma / 4096 < 2 ^ 20) by (apply Z.div_lt_upper_bound; lia).
  pose proof (Z.div_pos mi 256 ltac:(lia) ltac:(lia)). assert (mi / 256 < 2 ^ 24) by (apply Z.div_lt_upper_bound; lia). lia.
Qed.

Lemma makedev_add ma mi part : 0 <= ma -> 0 <= mi -> 0 <= part -> carry_fits ma mi part ->
  makedev ma mi + part = makedev (part_major ma mi part) (part_minor mi part).
Proof.
  unfold carry_fits, part_major, part_minor. intros Ha Hi Hp Hc. set (x := mi mod 256 + part) in *. pose proof (Z.mod_pos_bound mi 256 ltac:(lia)).
  pose proof (Z.mod_pos_bound x 256 ltac:(lia)). pose proof (Z.div_pos x 256 ltac:(lia) ltac:(lia)). pose proof (Z.mod_pos_bound ma 4096 ltac:(lia)).
  pose proof (Z.div_mod ma 4096 ltac:(lia)). pose proof (Z.div_mod x 256 ltac:(lia)). pose proof (Z.div_pos mi 256 ltac:(lia) ltac:(lia)).
  rewrite (makedev_low ma mi), (makedev_low (ma + x / 256) _), (makedev_high ma), (makedev_high (ma + x / 256)) by lia.
  assert ((256 * (mi / 256) + x mod 256) / 256 = mi / 256) as -> by (symmetry; apply (Z.div_unique_pos _ _ _ (x mod 256)); lia).
  assert ((256 * (mi / 256) + x mod 256) mod 256 = x mod 256) as -> by (symmetry; apply (Z.mod_unique_pos _ _ (mi / 256)); lia).
  assert ((ma + x / 256) / 4096 = ma / 4096) as -> by (symmetry; apply (Z.div_unique_pos _ _ _ (ma mod 4096 + x / 256)); lia).
  assert ((ma + x / 256) mod 4096 = ma mod 4096 + x / 256) as -> by (symmetry; apply (Z.mod_unique_pos _ _ (ma / 4096)); lia). lia.
Qed.

(** ** Numbers as text *)

Lemma fmt_num_digits z : 0 <= z -> Forall (fun c => is_digit_of 10 c = true) (fmt_num 10 z).
Proof. intros Hz. unfold fmt_num. apply Forall_rev, num_rev_digits; lia. Qed.

Lemma fmt_num_without c z : 0 <= z -> is_digit_of 10 c = false -> c ∉ fmt_num 10 z.
Proof. intros Hz Hc Hin. pose proof (fmt_num_digits z Hz) as H. rewrite list.Forall_forall in H. specialize (H c Hin). congruence. Qed.

(** The buffer of 64 bytes is always large enough. *)
Lemma device_string_fits dev offset : 0 <= dev < 2 ^ 64 -> 0 <= offset < 2 ^ 64 -> lenZ (device_string dev offset) < 64.
Proof.
  intros Hd Ho. destruct (major_minor_range dev Hd) as [Ha Hi]. unfold device_string. rewrite !lenZ_app.
  pose proof (fmt_num_length 10 (major dev) ltac:(lia) ltac:(lia)). pose proof (fmt_num_length 10 (minor dev) ltac:(lia) ltac:(lia)).
  pose proof (fmt_num_length 20 offset ltac:(lia) ltac:(lia)). change (lenZ #":") with 1. lia.
Qed.

Definition number (ma mi : Z) : bytes := fmt_num 10 ma ++ ":"%char :: fmt_num 10 mi.

Lemma number_without c ma mi : 0 <= ma -> 0 <= mi -> is_digit_of 10 c = false -> c <> ":"%char -> c ∉ number ma mi.
Proof.
  intros Ha Hi Hd Hc. unfold number. rewrite elem_of_app, elem_of_cons. intros [H|[H|H]]; [|done|]; (eapply fmt_num_without; [| |exact H]; done).
Qed.

Lemma number_name_dev ma mi : 0 <= ma < 2 ^ 32 -> 0 <= mi < 2 ^ 32 -> number_name (number ma mi) (number ma mi) = Some (makedev ma mi).
Proof.
  intros Ha Hi. unfold number_name, number at 1. rewrite strchr_app by (apply fmt_num_without; [lia|done]).
  destruct (fmt_num 10 mi) as [|c t] eqn:E; [by apply fmt_num_nonempty in E|]. rewrite <- E, !strtoul_fmt_num_10 by lia.
  cbn. unfold u32. by rewrite !Z.mod_small by lia.
Qed.

Lemma number_head ma mi : 0 <= ma -> exists c t, number ma mi = c :: t /\ c <> "/"%char.
Proof.
  intros Ha. unfold number. pose proof (fmt_num_digits ma Ha) as H. destruct (fmt_num 10 ma) as [|c t] eqn:E; [by apply fmt_num_nonempty in E|].
  exists c, (t ++ ":"%char :: fmt_num 10 mi). split; [done|]. intros ->. apply list.Forall_cons in H as [H _]. vm_compute in H. done.
Qed.

Lemma name_to_dev_number F ma mi : 0 <= ma < 2 ^ 32 -> 0 <= mi < 2 ^ 32 -> block_node F (#"/dev/" ++ number ma mi) = None ->
  name_to_dev_t F (number ma mi) = Ret (makedev ma mi).
Proof.
  intros Ha Hi Hb. unfold name_to_dev_t. rewrite strchr_none by (apply number_without; done || lia).
  destruct (number_head ma mi ltac:(lia)) as (c & t & E & Hc).
  assert (absolute (number ma mi) = false) as ->.
  { rewrite E. unfold absolute. repeat case_match; congruence. }
  rewrite Hb. assert (strip_prefix #"/dev/" (number ma mi) = None) as ->.
  { rewrite E. cbn. by destruct (decide _) as [e|]; [|]. }
  rewrite (proj2 (Z.ltb_ge _ _)) by (rewrite lenZ_app; change (lenZ #"/dev/") with 5; pose proof (lenZ_nonneg (number ma mi)); lia).
  rewrite (dropZ_app' 5) by done. by rewrite number_name_dev.
Qed.

(** What is written for a device number. *)
Lemma resume_dev F power file ma mi offset : name_to_dev_t F file = Ret (makedev ma mi) -> 0 < ma < 2 ^ 32 -> 0 <= mi < 2 ^ 32 ->
  0 <= offset < 2 ^ 64 -> (forall s, power s = true) -> resume F power true file offset = Ret (Wrote (number ma mi ++ ":"%char :: fmt_num 10 offset)).
Proof.
  intros Hf Ha Hi Ho Hp. unfold resume. rewrite Hf. cbn [obind]. destruct (makedev_parts ma mi) as [Hma Hmi]; [lia..|].
  rewrite Hma, (proj2 (Z.eqb_neq _ _)) by lia. cbn [negb].
  rewrite Z.geb_leb, (proj2 (Z.leb_gt _ _)), Hp by (apply device_string_fits; [apply makedev_range; lia|lia]).
  unfold device_string. rewrite Hma, Hmi. unfold number. by rewrite <- app_assoc.
Qed.

(** The number of a device as major:minor, with no device node of that name, goes
    through unchanged: what is written to /sys/power/resume is the two numbers and the
    offset, for all numbers of 32 bits with a major number that is not 0. *)
Theorem resume_number F power ma mi offset : 0 < ma < 2 ^ 32 -> 0 <= mi < 2 ^ 32 -> 0 <= offset < 2 ^ 64 ->
  block_node F (#"/dev/" ++ number ma mi) = None -> (forall s, power s = true) ->
  resume F power true (number ma mi) offset = Ret (Wrote (number ma mi ++ ":"%char :: fmt_num 10 offset)).
Proof.
  intros Ha Hi Ho Hb Hp. apply resume_dev; [|done..]. apply name_to_dev_number; [lia|done..].
Qed.

(** ** Partitions *)

Lemma read_line_text F path n s : sys_file F path = Some (s ++ ["010"%char]) -> NUL ∉ s -> lenZ s + 1 < n -> lenZ path < BUF_SZ ->
  read_line F path n = Some s.
Proof.
  intros Hf Hn Hl Hp. unfold read_line. rewrite takeZ_ge, Hf by lia. cbn. pose proof (lenZ_nonneg s).
  assert (Hs : takeZ n (s ++ ["010"%char]) = s ++ ["010"%char]) by (apply takeZ_ge; rewrite lenZ_app, lenZ_cons; change (lenZ (@nil ascii)) with 0; lia). rewrite Hs.
  rewrite lenZ_app. change (lenZ ["010"%char]) with 1. rewrite (proj2 (Z.leb_gt _ _)), (proj2 (Z.eqb_neq _ _)) by lia. cbn [orb].
  rewrite last_snoc, takeZ_app by lia. by apply cstr_app.
Qed.

Lemma sys_file_none F path n : sys_file F path = None -> lenZ path < BUF_SZ -> read_line F path n = None.
Proof. intros Hf Hp. unfold read_line. by rewrite takeZ_ge, Hf by lia. Qed.

(** The numbers of a disk in sysfs. *)
Record has_disk (F : devfs) (disk : bytes) (ma mi range : Z) := {
  disk_dev : sys_file F (#"/sys/block/" ++ disk ++ #"/dev") = Some (number ma mi ++ ["010"%char]);
  disk_range : sys_file F (#"/sys/block/" ++ disk ++ #"/range") = Some (fmt_num 10 range ++ ["010"%char]);
  disk_ma : 0 < ma < 2 ^ 32;
  disk_mi : 0 <= mi < 2 ^ 32;
  disk_r : 0 <= range < 2 ^ 32;
  disk_short : lenZ disk <= 255;
}.

Lemma number_length ma mi : 0 <= ma < 2 ^ 32 -> 0 <= mi < 2 ^ 32 -> lenZ (number ma mi) <= 21.
Proof.
  intros Ha Hi. unfold number. rewrite lenZ_app, lenZ_cons. pose proof (fmt_num_length 10 ma ltac:(lia) ltac:(lia)).
  pose proof (fmt_num_length 10 mi ltac:(lia) ltac:(lia)). lia.
Qed.

Lemma try_name_part F disk ma mi range part : has_disk F disk ma mi range -> 0 < part < range -> carry_fits ma mi part ->
  try_name F disk part = makedev (part_major ma mi part) (part_minor mi part).
Proof.
  intros [Hd Hr Ha Hi Hrr Hs] Hp Hl. unfold try_name.
  assert (Hpath : forall e, lenZ e <= 255 -> lenZ (#"/sys/block/" ++ disk ++ e) < BUF_SZ).
  { intros e He. rewrite !lenZ_app. change (lenZ #"/sys/block/") with 11. unfold BUF_SZ. lia. }
  pose proof (number_length ma mi ltac:(lia) Hi). pose proof (fmt_num_length 10 range ltac:(lia) ltac:(lia)).
  rewrite (read_line_text _ _ _ _ Hd); [|apply number_without; done || lia|unfold BUF_SZ; lia|by apply Hpath].
  unfold number. rewrite strtoul_fmt_num_app by (done || lia). rewrite strtoul_fmt_num_10 by lia. cbn [bool_decide negb].
  rewrite (proj2 (Z.eqb_neq part 0)) by lia. rewrite (read_line_text _ _ _ _ Hr); [|apply fmt_num_without; done || lia|lia|by apply Hpath].
  rewrite strtoul_fmt_num_10 by lia. cbn. rewrite (proj2 (Z.ltb_lt _ _)), !u32_small by lia.
  rewrite makedev_add by (done || lia). rewrite u64_small; [done|]. destruct (part_range ma mi part); [done || lia..|]. apply makedev_range; lia.
Qed.

Lemma try_name_none F name part : sys_file F (#"/sys/block/" ++ name ++ #"/dev") = None -> lenZ name <= 1024 -> try_name F name part = 0.
Proof.
  intros Hf Hl. unfold try_name. rewrite sys_file_none; [done|done|]. rewrite !lenZ_app. change (lenZ #"/sys/block/") with 11.
  change (lenZ #"/dev") with 4. unfold BUF_SZ. lia.
Qed.

(** The first digit is not 0. *)
Lemma num_rev_last f z : 0 < z < 10 ^ Z.of_nat f -> list.last (num_rev 10 f z) <> Some "0"%char.
Proof.
  revert z. induction f as [|f IH]; intros z Hz; [cbn in Hz; lia|]. cbn [num_rev]. destruct (Z.ltb_spec z 10).
  - rewrite Z.mod_small by lia. assert (z = 1 \/ z = 2 \/ z = 3 \/ z = 4 \/ z = 5 \/ z = 6 \/ z = 7 \/ z = 8 \/ z = 9) as Hc by lia.
    decompose [or] Hc; subst; vm_compute; discriminate.
  - rewrite Nat2Z.inj_succ, Z.pow_succ_r in Hz by lia. destruct f as [|f]; [cbn in Hz; lia|].
    assert (0 < z / 10 < 10 ^ Z.of_nat (S f)) as Hd by (split; [apply Z.div_str_pos; lia|apply Z.div_lt_upper_bound; lia]).
    specialize (IH _ Hd). destruct (num_rev 10 (S f) (z / 10)) eqn:E; [cbn in E; done|]. exact IH.
Qed.

Lemma fmt_num_head z : 0 < z < 2 ^ 64 -> exists c t, fmt_num 10 z = c :: t /\ c <> "0"%char.
Proof.
  intros Hz. pose proof (num_rev_last 64 z ltac:(lia)) as H. destruct (fmt_num 10 z) as [|c t] eqn:E; [by apply fmt_num_nonempty in E|].
  exists c, t. split; [done|]. intros ->. apply H. unfold fmt_num in E. apply (f_equal (@rev ascii)) in E. rewrite rev_involutive in E. rewrite E. cbn.
  by rewrite last_snoc.
Qed.

Lemma skip_all f a b : Forall (fun c => f c = true) a -> (match b with c :: _ => f c = false | [] => True end) -> skip_while f (a ++ b) = b.
Proof. intros Ha Hb. induction Ha as [|c a Hc Ha IH]; cbn; [|by rewrite Hc]. destruct b as [|c b]; [done|]. cbn. by rewrite Hb. Qed.

Lemma digit_isdigit c : is_digit_of 10 c = true -> isdigit c = true.
Proof. destruct c as [[] [] [] [] [] [] [] []]; vm_compute; done. Qed.

(** No digit at the end of a name. *)
Definition ends_plain (s : bytes) : Prop := match rev s with c :: _ => isdigit c = false | [] => True end.

Lemma split_digits_num stem z : ends_plain stem -> 0 <= z -> split_digits (stem ++ fmt_num 10 z) = (stem, fmt_num 10 z).
Proof.
  intros Hs Hz. unfold split_digits. rewrite rev_app_distr, skip_all.
  - by rewrite rev_involutive, dropZ_app.
  - apply List.Forall_rev. eapply list.Forall_impl; [by apply fmt_num_digits|]. apply digit_isdigit.
  - done.
Qed.

(** A name without slash and comma is looked up in sysfs as it is. *)
Lemma disk_name_plain (name : bytes) : "/"%char ∉ name -> map (fun c => if bool_decide (c = "/"%char) then "!"%char else c) name = name.
Proof.
  intros H. induction name as [|c name IH]; [done|]. apply not_elem_of_cons in H as [Hc H]. cbn. by rewrite bool_decide_false, IH by done.
Qed.

(** How a partition of a disk is named: with a p if the disk has a digit at the end, and
    then there is no other disk with that name. *)
Inductive part_name (F : devfs) (disk : bytes) (part : Z) : bytes -> Prop :=
| part_plain : disk <> [] -> ends_plain disk -> part_name F disk part (disk ++ fmt_num 10 part)
| part_p c t : disk = t ++ [c] -> isdigit c = true -> sys_file F (#"/sys/block/" ++ (disk ++ #"p") ++ #"/dev") = None ->
    part_name F disk part ((disk ++ #"p") ++ fmt_num 10 part).

Lemma part_name_without F disk part name c : part_name F disk part name -> 0 <= part -> c ∉ disk -> is_digit_of 10 c = false -> c <> "p"%char -> c ∉ name.
Proof.
  intros Hn Hp Hd Hc Hcp. pose proof (fmt_num_without c part Hp Hc) as Hf. destruct Hn; rewrite !elem_of_app; [tauto|].
  change #"p" with ["p"%char]. rewrite list_elem_of_singleton. tauto.
Qed.

Lemma disk_name_part F disk ma mi range part name : has_disk F disk ma mi range -> 0 < part < range -> carry_fits ma mi part ->
  part_name F disk part name -> "/"%char ∉ disk -> sys_file F (#"/sys/block/" ++ name ++ #"/dev") = None ->
  disk_name F name = makedev (part_major ma mi part) (part_minor mi part).
Proof.
  intros Hd Hp Hl Hn Hs Hf. pose proof (disk_r _ _ _ _ _ Hd). pose proof (disk_short _ _ _ _ _ Hd).
  pose proof (fmt_num_length 10 part ltac:(lia) ltac:(lia)) as Hlen. destruct (fmt_num_head part ltac:(lia)) as (d & t' & Et & Hd0).
  assert (Hplain : "/"%char ∉ name) by (by apply (part_name_without _ _ _ _ "/"%char Hn ltac:(lia) Hs eq_refl)).
  pose proof (try_name_part F disk ma mi range part Hd Hp Hl) as Htry.
  assert (Hnz : makedev (part_major ma mi part) (part_minor mi part) <> 0).
  { intros E. destruct (part_range ma mi part (disk_ma _ _ _ _ _ Hd) (disk_mi _ _ _ _ _ Hd) ltac:(lia) Hl) as [H1 H2].
    destruct (makedev_parts (part_major ma mi part) (part_minor mi part)) as [Hma _]; [lia..|]. rewrite E in Hma. change (major 0) with 0 in Hma. lia. }
  unfold disk_name. rewrite disk_name_plain by done. destruct Hn as [Hne He|c t -> Hc Hpf].
  - rewrite try_name_none; [|done|rewrite lenZ_app; lia]. cbn [Z.eqb negb].
    rewrite split_digits_num by (done || lia). rewrite strtoul_fmt_num_10 by lia. cbn [fst]. rewrite Htry, (proj2 (Z.eqb_neq _ _) Hnz). cbn [negb].
    rewrite Et. destruct disk; [done|]. repeat case_match; congruence.
  - rewrite try_name_none; [|done|rewrite !lenZ_app in *; change (lenZ #"p") with 1; lia]. cbn [Z.eqb negb].
    rewrite split_digits_num; [|by unfold ends_plain; rewrite rev_app_distr|lia]. rewrite strtoul_fmt_num_10 by lia. cbn [fst].
    rewrite (try_name_none F ((t ++ [c]) ++ #"p")); [|done|rewrite !lenZ_app in *; change (lenZ #"p") with 1; lia]. cbn [Z.eqb negb].
    rewrite Et, !rev_app_distr. change (rev #"p" ++ rev [c] ++ rev t) with ("p"%char :: c :: rev t). cbn [negb]. rewrite Hc. cbn [rev].
    rewrite rev_involutive, Htry. destruct ((t ++ [c]) ++ #"p") eqn:E2; [by apply app_nil in E2 as [_ ?]|]. repeat case_match; congruence.
Qed.

(** C29. The partition of a disk, as /dev/sda3 or /dev/mmcblk0p2, that is in the range
    of the disk and has no device node: the program writes the device number of the disk
    plus the partition. These are the numbers of the partition, the same major number and
    the sum of the minor number and the partition, exactly if the sum stays in the block
    of 256 minor numbers of the disk; otherwise the carry has gone into the major number,
    as for the disk 179:250 and the partition 10. *)
Theorem resume_partition F power disk ma mi range part name offset : has_disk F disk ma mi range -> 0 < part < range ->
  carry_fits ma mi part -> part_name F disk part name -> "/"%char ∉ disk -> ","%char ∉ disk -> strip_prefix #"mtd" name = None ->
  sys_file F (#"/sys/block/" ++ name ++ #"/dev") = None -> block_node F (#"/dev/" ++ name) = None -> 0 <= offset < 2 ^ 64 ->
  (forall s, power s = true) ->
  let ma' := part_major ma mi part in let mi' := part_minor mi part in
  resume F power true (#"/dev/" ++ name) offset = Ret (Wrote (number ma' mi' ++ ":"%char :: fmt_num 10 offset)) /\
  ((ma' = ma /\ mi' = mi + part) <-> mi mod 256 + part < 256).
Proof.
  intros Hd Hp Hl Hn Hs Hc Hm Hf Hb Ho Hpow ma' mi'. split; [|apply part_numbers; [apply (disk_mi _ _ _ _ _ Hd)|lia]].
  assert (Hdev : name_to_dev_t F (#"/dev/" ++ name) = Ret (makedev ma' mi')).
  { unfold name_to_dev_t. rewrite strchr_none.
    2:{ pose proof (part_name_without _ _ _ _ ","%char Hn ltac:(lia) Hc eq_refl ltac:(done)) as Hcn.
        rewrite elem_of_app. intros [H'|H']; [|done]. revert H'. apply (bool_decide_unpack _). vm_compute. exact I. }
    assert (absolute (#"/dev/" ++ name) = true) as -> by done. rewrite Hb.
    change (strip_prefix #"/dev/" (#"/dev/" ++ name)) with (Some name). unfold special_name. rewrite Hm.
    rewrite (disk_name_part F disk ma mi range part name Hd Hp Hl Hn Hs Hf).
    assert (Hlast : exists c t, name = t ++ [c] /\ isdigit c = true).
    { pose proof (fmt_num_digits part ltac:(lia)) as Hdg.
      destruct (exists_last (fmt_num_nonempty 10 part)) as (t & c & E). rewrite E in Hdg. apply list.Forall_app in Hdg as [_ Hdg].
      apply list.Forall_cons in Hdg as [Hdg _]. exists c. destruct Hn; rewrite E; eexists; (split; [by rewrite app_assoc|by apply digit_isdigit]). }
    destruct Hlast as (c & t & -> & Hdig).
    rewrite !bool_decide_false; [done| |]; intros E; apply (f_equal (@rev ascii)) in E; rewrite rev_app_distr in E; injection E as -> _; vm_compute in Hdig; done. }
  destruct Hd as [_ _ Ha Hi Hr _]. destruct (part_range ma mi part Ha Hi ltac:(lia) Hl). by apply resume_dev.
Qed.

(** ** Short names *)

(** A path of less than five bytes that is not that of a block device, as /a, is read
    outside of its bytes. *)
Theorem short_name_overread F name : absolute name = true -> lenZ name < 5 -> ","%char ∉ name -> block_node F name = None ->
  name_to_dev_t F name = Undef.
Proof.
  intros Ha Hl Hc Hb. unfold name_to_dev_t. rewrite strchr_none, Ha, Hb by done.
  destruct (strip_prefix #"/dev/" name) as [r|] eqn:E.
  - apply strip_prefix_Some in E as ->. rewrite lenZ_app in Hl. change (lenZ #"/dev/") with 5 in Hl. pose proof (lenZ_nonneg r). lia.
  - by rewrite (proj2 (Z.ltb_lt _ _)).
Qed.

(** ** The command line *)

Lemma omap_none {A B} (f : A -> option B) l : Forall (fun a => f a = None) l -> omap f l = [].
Proof. induction 1 as [|a l Ha Hl IH]; [done|]. cbn. by rewrite Ha. Qed.

(** The last argument with a value counts. *)
Lemma get_arg_last p l1 name v l2 : v <> [] -> Forall (fun a => arg_value name a = None) l2 -> get_arg (p :: l1 ++ (name ++ v) :: l2) name = Some v.
Proof.
  intros Hv Hl. unfold get_arg. cbn [drop]. rewrite drop_0, rev_app_distr. cbn [rev]. rewrite <- app_assoc, omap_app, omap_none by (by apply List.Forall_rev).
  assert (arg_value name (name ++ v) = Some v) as Hs.
  { unfold arg_value. rewrite (proj2 (strip_prefix_Some name (name ++ v) v) eq_refl). by destruct v. }
  cbn. by rewrite Hs.
Qed.

Lemma get_flag_in p l name : get_flag (p :: l) name <> O <-> name ∈ l.
Proof.
  unfold get_flag. cbn [drop]. rewrite drop_0. destruct (list_find _ (rev l)) as [[k a]|] eqn:E.
  - apply list_find_Some in E as (Hk & -> & _). pose proof (lookup_lt_Some _ _ _ Hk) as Hlt. rewrite length_rev in Hlt.
    apply list_elem_of_lookup_2 in Hk. rewrite list_elem_of_In, <- in_rev, <- list_elem_of_In in Hk. cbn [length]. split; [done|lia].
  - apply list_find_None in E. split; [done|]. intros Hin. rewrite list.Forall_forall in E. exfalso. apply (E name); [|done].
    rewrite list_elem_of_In, <- in_rev, <- list_elem_of_In. done.
Qed.

(** The last argument resume= that has a value names the device, and noresume
    anywhere on the command line stops it. *)
Theorem do_resume_last F power can_open p l1 v l2 : v <> [] -> Forall (fun a => arg_value #"resume=" a = None) l2 ->
  let argv := p :: l1 ++ (#"resume=" ++ v) :: l2 in
  (#"noresume" ∈ l1 ++ l2 -> do_resume F power can_open argv = Ret Nothing) /\
  (#"noresume" ∉ l1 ++ l2 -> exists offset, do_resume F power can_open argv = resume F power can_open v offset).
Proof.
  intros Hv Hl argv. unfold do_resume, argv. rewrite get_arg_last by done. cbn [default from_option id].
  assert (Hin : #"noresume" ∈ l1 ++ (#"resume=" ++ v) :: l2 <-> #"noresume" ∈ l1 ++ l2).
  { rewrite !elem_of_app, elem_of_cons. split; [|tauto]. intros [H|[H|H]]; [by left|done|by right]. }
  destruct v as [|c v]; [done|]. split; intros Hn.
  - rewrite bool_decide_true; [done|]. by apply get_flag_in, Hin.
  - rewrite bool_decide_false; [by eexists|]. intros H%get_flag_in. by apply Hn, Hin.
Qed.

(** ** Witnesses *)

Definition demo_devfs : devfs := {|
  sys_file p := if bool_decide (p = #"/sys/block/sda/dev") then Some (#"8:16" ++ ["010"%char])
                else if bool_decide (p = #"/sys/block/sda/range") then Some (#"16" ++ ["010"%char]) else None;
  block_node _ := None;
|}.

Lemma resume_number_witness : resume demo_devfs (fun _ => true) true #"259:70000" 42 = Ret (Wrote #"259:70000:42").
Proof. apply (resume_number demo_devfs (fun _ => true) 259 70000 42); (lia || reflexivity). Defined.

Lemma resume_partition_witness : resume demo_devfs (fun _ => true) true #"/dev/sda3" 0 = Ret (Wrote #"8:19:0").
Proof.
  apply (resume_partition demo_devfs (fun _ => true) #"sda" 8 16 16 3 #"sda3" 0); try lia; try reflexivity.
  - constructor; (lia || reflexivity || (vm_compute; discriminate)).
  - exact (part_plain demo_devfs #"sda" 3 ltac:(discriminate) eq_refl).
  - apply (bool_decide_unpack _). vm_compute. exact I.
  - apply (bool_decide_unpack _). vm_compute. exact I.
Defined.

Lemma short_name_overread_witness : name_to_dev_t demo_devfs #"/a" = Undef.
Proof. apply short_name_overread; [reflexivity|reflexivity| |reflexivity]. apply (bool_decide_unpack _). vm_compute. exact I. Defined.

Lemma do_resume_last_witness : exists offset,
  do_resume demo_devfs (fun _ => true) true [ #"kinit"; #"resume=/dev/sdb1"; #"quiet"; #"resume=8:3"; #"resume_offset=0x10"] =
  resume demo_devfs (fun _ => true) true #"8:3" offset.
Proof.
  apply (do_resume_last demo_devfs (fun _ => true) true #"kinit" [ #"resume=/dev/sdb1"; #"quiet"] #"8:3" [ #"resume_offset=0x10"]).
  - discriminate.
  - constructor; [reflexivity|constructor].
  - apply (bool_decide_unpack _). vm_compute. exact I.
Defined.
