(* ===== verification/Sysexec.v ===== *)
(** The small programs that start the real system (features/runtime/src): sysexec,
    chrooted, runas and timestamp.

    - sysexec.c: [is_dot_dir], [remove_recursive_at], [is_temporary_fs], [sysexec_main];
    - chrooted.c: [cmd_test], [cmd_realpath], [chrooted_main];
    - runas.c: [runas_main]; timestamp.c: [timestamp_main].

    A directory is a tree in which every node has its device and whether something is
    mounted on it. What the system calls return is a parameter. *)

From Stdlib Require Import ZArith Ascii Lia.
From stdpp Require Import base list strings tactics.
From S2P Require Import Prelude CString.

Open Scope Z_scope.
Open Scope cprog_scope.

(** ** sysexec.c: the old root *)

Notation path := (list bytes).

Inductive d_type := DT_DIR | DT_UNKNOWN | DT_OTHER.

Inductive node :=
| Leaf (dev : Z) (mounted : bool)
| Dir (dev : Z) (mounted : bool) (entries : list (bytes * node)).

Definition st_dev (n : node) : Z := match n with Leaf d _ => d | Dir d _ _ => d end.
Definition mounted (n : node) : bool := match n with Leaf _ m => m | Dir _ m _ => m end.

(** The calls for a path: the type readdir reports, and whether fstatat, opening the
    directory, the k-th readdir and unlinkat succeed. *)
Record calls := {
  dtype : path -> d_type;
  stat_ok : path -> bool;
  open_ok : path -> bool;
  readdir_ok : path -> nat -> bool;
  unlink_ok : path -> bool;
}.

Definition is_dot_dir (name : bytes) (t : d_type) : bool :=
  match t with
  | DT_DIR => bool_decide (name = #"." \/ name = #"..")
  | _ => false
  end.

(** unlinkat without and with AT_REMOVEDIR: [None] if the node is gone. A node with a
    mount on it is busy. *)
Definition unlink (C : calls) (p : path) (n : node) : option node :=
  match n with
  | Leaf _ m => if unlink_ok C p && negb m then None else Some n
  | Dir _ _ _ => Some n
  end.
Definition rmdir (C : calls) (p : path) (n : node) : option node :=
  match n with
  | Dir _ m [] => if unlink_ok C p && negb m then None else Some n
  | _ => Some n
  end.

(** The loop over readdir, with [f] for what is done with an entry. *)
Fixpoint remove_entries (f : bytes -> node -> option node) (ok : nat -> bool) (k : nat) (es : list (bytes * node)) : list (bytes * node) :=
  match es with
  | [] => []
  | (name, c) :: rest =>
      if negb (ok k) then es
      else match f name c with
           | Some c => (name, c) :: remove_entries f ok (S k) rest
           | None => remove_entries f ok (S k) rest
           end
  end.

(** remove_recursive_at on the directory [p] of the device [root_dev]: what is left of
    its entries. [rec] is for an entry that is not a dot directory. *)
Definition remove_dir (C : calls) (rec : Z -> path -> node -> option node) (p : path) (root_dev : Z) (es : list (bytes * node)) : list (bytes * node) :=
  if open_ok C p then
    remove_entries (fun name c => if is_dot_dir name (dtype C (p ++ [name])) then Some c else rec root_dev (p ++ [name]) c) (readdir_ok C p) 0 es
  else es.

Fixpoint remove_entry (C : calls) (root_dev : Z) (p : path) (n : node) {struct n} : option node :=
  match dtype C p with
  | DT_OTHER => unlink C p n
  | _ =>
      if negb (stat_ok C p) then Some n
      else if negb (st_dev n =? root_dev) then Some n
      else match n with
           | Leaf _ _ => unlink C p n
           | Dir d m es => rmdir C p (Dir d m (remove_dir C (remove_entry C) p d es))
           end
  end.

Definition remove_recursive_at (C : calls) (p : path) (root_dev : Z) (es : list (bytes * node)) : list (bytes * node) :=
  remove_dir C (remove_entry C) p root_dev es.

(** ** sysexec.c: main *)

Definition RAMFS_MAGIC : Z := 0x858458f6.
Definition TMPFS_MAGIC : Z := 0x01021994.

(** [f_type]: what fstatfs gives. *)
Definition is_temporary_fs (f_type : option Z) : bool :=
  match f_type with
  | Some t => (t =? RAMFS_MAGIC) || (t =? TMPFS_MAGIC)
  | None => false
  end.

Inductive step :=
| SUsage (code : Z) | SErr | SOpenRoot | SOpenNew (dir : bytes) | SPrivate | SFchdir | SPivot (ok : bool) | SUmountOld | SMoveRoot
| SChroot | SChdir | SRemoveOld | SExec (prog : bytes) (args : list bytes).

Record sysexec_calls := { root_opens : bool; new_opens : bool; private_ok : bool; fchdir_ok : bool; pivot_ok : bool; umount_ok : bool; move_ok : bool;
                          chroot_ok : bool; chdir_ok : bool; old_type : option Z; exec_ok : bool }.

(** A call that ends the program if it fails. *)
Definition must (ok : bool) (s : step) (rest : list step) : list step := s :: if ok then rest else [SErr].

Definition sysexec_main (S : sysexec_calls) (argv : list bytes) : list step :=
  match argv with
  | [] | [_] => [SUsage 0]
  | _ :: newroot :: ((initprog :: _) as initargs) =>
      if bool_decide (newroot = []) || bool_decide (initprog = []) then [SUsage 1]
      else
        must (root_opens S) SOpenRoot (must (new_opens S) (SOpenNew newroot) (must (private_ok S) SPrivate (must (fchdir_ok S) SFchdir
          (let enter := must (chroot_ok S) SChroot (must (chdir_ok S) SChdir
             ((if is_temporary_fs (old_type S) then [SRemoveOld] else []) ++ SExec initprog initargs :: if exec_ok S then [] else [SErr])) in
           SPivot (pivot_ok S) :: if pivot_ok S then must (umount_ok S) SUmountOld enter else must (move_ok S) SMoveRoot enter))))
  | _ => [SUsage 1]
  end.

(** ** chrooted.c *)

Inductive file_kind := S_BLK | S_CHR | S_DIR | S_REG | S_FIFO | S_LNK | S_SOCK.

#[export] Instance file_kind_eq : EqDecision file_kind.
Proof. solve_decision. Defined.

Record file_stat := { st_kind : file_kind; st_size : Z }.

(** The files of the new root: lstat, stat and realpath. *)
Record new_root := { lstat : bytes -> option file_stat; stat : bytes -> option file_stat; realpath : bytes -> option bytes }.

(** C's truth values. *)
Definition c_bool (b : bool) : Z := if b then 1 else 0.

Definition is_kind (k : file_kind) (st : file_stat) : bool := bool_decide (st_kind st = k).

Definition test_file (opt : option ascii) (st : file_stat) : Z :=
  match opt with
  | Some "b"%char => c_bool (negb (is_kind S_BLK st))
  | Some "c"%char => c_bool (negb (is_kind S_CHR st))
  | Some "d"%char => c_bool (negb (is_kind S_DIR st))
  | Some "e"%char => 0
  | Some "f"%char => c_bool (negb (is_kind S_REG st))
  | Some "p"%char => c_bool (negb (is_kind S_FIFO st))
  | Some "s"%char => c_bool (negb (is_kind S_REG st) && (st_size st >? 0))
  | Some "L"%char => c_bool (negb (is_kind S_LNK st))
  | _ => 0
  end.

Definition cmd_test (R : new_root) (argv : list bytes) : out Z :=
  match argv with
  | [_; opt; file] =>
      match opt with
      | "-"%char :: o =>
          match (if bool_decide (head o = Some "L"%char) then lstat R file else stat R file) with
          | None => Ret 1
          | Some st => Ret (test_file (head o) st)
          end
      | _ => Die 1 "unexpected option"
      end
  | _ => Die 1 "wrong number of arguments"
  end.

Definition cmd_realpath (R : new_root) (argv : list bytes) : out (Z * bytes) :=
  match argv with
  | [_; file] =>
      match realpath R file with
      | Some p => Ret (0, p ++ ["010"%char])
      | None => Die 1 "realpath"
      end
  | _ => Die 1 "wrong number of arguments"
  end.

(** The exit code and the output; [root] is what chroot to a directory leads to. *)
Definition chrooted_main (root : bytes -> option new_root) (chdir_root : bool) (argv : list bytes) : out (Z * bytes) :=
  match argv with
  | _ :: dir :: ((cmd :: _) as args) =>
      if bool_decide (dir = #"-h" \/ dir = #"--help") then Die 0 "usage"
      else match root dir with
           | None => Die 1 "chroot"
           | Some R =>
               if negb chdir_root then Die 1 "chdir"
               else if bool_decide (cmd = #"test") then let! rc := cmd_test R args in Ret (rc, [])
               else if bool_decide (cmd = #"realpath") then cmd_realpath R args
               else Ret (1, [])
           end
  | _ => Die 1 "usage"
  end.

(** ** runas.c and timestamp.c *)

(** The program and the arguments for execvp. *)
Definition runas_main (av : list bytes) : option (bytes * list bytes) :=
  match av with
  | _ :: name :: path :: args => Some (path, name :: args)
  | _ => None
  end.

Inductive clock := CLOCK_MONOTONIC_RAW | CLOCK_BOOTTIME.

Definition fmt_0 (w : nat) (z : Z) : bytes := pad_left w "0"%char (fmt_num 10 z).

Definition timestamp_main (clock_gettime : clock -> Z * Z) (argv : list bytes) : Z * bytes :=
  match drop 1 argv with
  | [] => (0, [])
  | name :: args =>
      match (if bool_decide (name = #"monotonic") then Some CLOCK_MONOTONIC_RAW
             else if bool_decide (name = #"boottime") then Some CLOCK_BOOTTIME else None) with
      | None => (1, [])
      | Some clockid =>
          let '(tv_sec, tv_nsec) := clock_gettime clockid in
          let default := #"[" ++ fmt_u 5 tv_sec ++ #"." ++ fmt_0 6 (tv_nsec / 1000) ++ #"] " in
          match args with
          | arg :: _ =>
              if bool_decide (arg = #"simple") then (0, fmt_0 6 tv_sec ++ #"." ++ fmt_0 7 tv_nsec)
              else if bool_decide (arg = #"raw") then (0, fmt_num 10 tv_sec ++ #"." ++ fmt_num 10 tv_nsec)
              else (0, default)
          | [] => (0, default)
          end
      end
  end.

(** ** What is removed from the old root *)

Fixpoint assoc (x : bytes) (es : list (bytes * node)) : option node :=
  match es with
  | [] => None
  | (y, c) :: es => if decide (y = x) then Some c else assoc x es
  end.

Fixpoint walk (n : node) (q : path) : option node :=
  match q, n with
  | [], _ => Some n
  | x :: q, Dir _ _ es => match assoc x es with Some c => walk c q | None => None end
  | _, Leaf _ _ => None
  end.

(** [c] is at [q] below [n], on another device than the directory it is in, which has the
    device [root_dev] if that is not below [n]. *)
Fixpoint foreign_at (root_dev : Z) (n : node) (q : path) (c : node) : Prop :=
  match q with
  | [] => c = n /\ st_dev n <> root_dev
  | x :: q => match n with
              | Dir d _ es => match assoc x es with Some n1 => foreign_at d n1 q c | None => False end
              | Leaf _ _ => False
              end
  end.

Lemma foreign_walk root_dev n q c : foreign_at root_dev n q c -> walk n q = Some c.
Proof.
  revert root_dev n. induction q as [|x q IH]; intros root_dev n; cbn; [by intros [-> _]|].
  destruct n as [|d m es]; [done|]. destruct (assoc x es); [apply IH|done].
Qed.

(** An entry that [f] keeps is still there; it is not changed if the loop ended before. *)
Lemma remove_entries_kept f ok k es x c c' : assoc x es = Some c -> f x c = Some c' ->
  assoc x (remove_entries f ok k es) = Some c' \/ assoc x (remove_entries f ok k es) = Some c.
Proof.
  intros Ha Hf. revert k Ha. induction es as [|[y e] es IH]; intros k Ha; [done|]. cbn [remove_entries]. destruct (ok k); cbn [negb]; [|by right].
  cbn [assoc] in Ha. destruct (decide (y = x)) as [->|Hne].
  - injection Ha as ->. rewrite Hf. cbn [assoc]. rewrite decide_True by done. by left.
  - destruct (f y e); [|by apply IH]. cbn [assoc]. rewrite decide_False by done. by apply IH.
Qed.

Lemma rmdir_nonempty C p d m es x c : assoc x es = Some c -> rmdir C p (Dir d m es) = Some (Dir d m es).
Proof. by destruct es. Qed.

(** The same for a node below an entry. *)
Lemma remove_dir_kept C rec p d es x n q c n' : assoc x es = Some n -> walk n q = Some c -> rec d (p ++ [x]) n = Some n' -> walk n' q = Some c ->
  exists n2, assoc x (remove_dir C rec p d es) = Some n2 /\ walk n2 q = Some c.
Proof.
  intros Ha Hw Hr Hw'. unfold remove_dir. destruct (open_ok C p); [|by eauto]. set (f := fun name c => _).
  assert (Hf : exists n2, f x n = Some n2 /\ walk n2 q = Some c) by (unfold f; destruct (is_dot_dir _ _); eauto).
  destruct Hf as (n2 & Hf & Hw2). destruct (remove_entries_kept f (readdir_ok C p) 0 es x n n2 Ha Hf); eauto.
Qed.

(** A node of another device below [n] is there afterwards, with all that is in it. *)
Lemma remove_entry_foreign C root_dev p n q c : foreign_at root_dev n q c -> mounted c = true ->
  exists n', remove_entry C root_dev p n = Some n' /\ walk n' q = Some c.
Proof.
  revert root_dev p n. induction q as [|x q IH]; intros root_dev p n Hf Hm.
  - destruct Hf as [-> Hd]. exists n. split; [|done].
    assert (Hu : unlink C p n = Some n) by (destruct n; cbn in Hm |- *; [by rewrite Hm, andb_false_r|done]).
    destruct n; cbn [remove_entry] in *; cbn [st_dev] in *; rewrite (proj2 (Z.eqb_neq _ _) Hd); cbn [negb]; destruct (dtype C p), (stat_ok C p); done.
  - pose proof (foreign_walk _ _ _ _ Hf) as Hw. destruct n as [|d m es]; [done|]. cbn in Hf. destruct (assoc x es) as [n1|] eqn:Ea; [|done].
    assert (Hkeep : exists n', Some (Dir d m es) = Some n' /\ walk n' (x :: q) = Some c) by eauto.
    assert (Hdir : exists n', rmdir C p (Dir d m (remove_dir C (remove_entry C) p d es)) = Some n' /\ walk n' (x :: q) = Some c).
    { destruct (IH d (p ++ [x]) n1 Hf Hm) as (n1' & Hr & Hw1).
      destruct (remove_dir_kept C (remove_entry C) p d es x n1 q c n1' Ea (foreign_walk _ _ _ _ Hf) Hr Hw1) as (n2 & He & Hw2).
      rewrite (rmdir_nonempty _ _ _ _ _ _ _ He). eexists. split; [done|]. cbn. by rewrite He. }
    cbn [remove_entry]. destruct (dtype C p); try exact Hkeep; (destruct (stat_ok C p); cbn [negb]; [|exact Hkeep]);
      (destruct (st_dev (Dir d m es) =? root_dev); cbn [negb]; [exact Hdir|exact Hkeep]).
Qed.

(** C21. What is mounted from another device below the old root is not touched, wherever it
    is and whatever calls fail: it is there afterwards at the same path and with the same
    contents. *)
Theorem other_devices_kept C p dev m es q c : foreign_at dev (Dir dev m es) q c -> q <> [] -> mounted c = true ->
  walk (Dir dev m (remove_recursive_at C p dev es)) q = Some c.
Proof.
  intros Hf Hq Hm. destruct q as [|x q]; [done|]. cbn in Hf |- *. destruct (assoc x es) as [n1|] eqn:Ea; [|done].
  destruct (remove_entry_foreign C dev (p ++ [x]) n1 q c Hf Hm) as (n1' & Hr & Hw1).
  destruct (remove_dir_kept C (remove_entry C) p dev es x n1 q c n1' Ea (foreign_walk _ _ _ _ Hf) Hr Hw1) as (n2 & He & Hw2).
  unfold remove_recursive_at. by rewrite He.
Qed.

(** Induction on trees. *)
Lemma node_ind' (P : node -> Prop) : (forall d m, P (Leaf d m)) -> (forall d m es, Forall (fun e => P e.2) es -> P (Dir d m es)) -> forall n, P n.
Proof.
  intros Hl Hd. fix IH 1. intros [d m|d m es]; [apply Hl|]. apply Hd. induction es as [|[x c] es IHes]; constructor; [apply IH|exact IHes].
Qed.

(** No call fails. *)
Record no_failure (C : calls) : Prop := {
  ok_stat p : stat_ok C p = true;
  ok_open p : open_ok C p = true;
  ok_readdir p k : readdir_ok C p k = true;
  ok_unlink p : unlink_ok C p = true;
}.

(** All of a tree is on the device, and nothing is mounted there. *)
Fixpoint clean (dev : Z) (n : node) : bool :=
  match n with
  | Leaf d m => (d =? dev) && negb m
  | Dir d m es => (d =? dev) && negb m && forallb (fun e => clean dev e.2) es
  end.

(** readdir does not report a directory as another file, and the dot directories are not
    among the entries of a tree. *)
Fixpoint typed (C : calls) (p : path) (n : node) : bool :=
  match n with
  | Leaf _ _ => true
  | Dir _ _ es =>
      match dtype C p with DT_OTHER => false | _ => true end &&
      forallb (fun e => negb (bool_decide (e.1 = #"." \/ e.1 = #"..")) && typed C (p ++ [e.1]) e.2) es
  end.

Lemma not_dot name t : bool_decide (name = #"." \/ name = #"..") = false -> is_dot_dir name t = false.
Proof. by destruct t. Qed.

Lemma remove_entries_all f ok k es : (forall k, ok k = true) -> Forall (fun e => f e.1 e.2 = None) es -> remove_entries f ok k es = [].
Proof.
  intros Hok Hf. revert k. induction Hf as [|[x c] es Hx Hf IH]; intros k; [done|]. cbn in Hx |- *. rewrite Hok, Hx. apply IH.
Qed.

Lemma clean_removed C dev n p : no_failure C -> clean dev n = true -> typed C p n = true -> remove_entry C dev p n = None.
Proof.
  intros Hok. revert p. induction n as [d m|d m es IH] using node_ind'; intros p Hc Ht; cbn in Hc.
  - apply andb_prop in Hc as [Hd Hm]. cbn. rewrite Hd, (ok_stat C Hok), (ok_unlink C Hok), Hm. by destruct (dtype C p).
  - apply andb_prop in Hc as [[Hd Hm]%andb_prop Hes]. cbn in Ht. apply andb_prop in Ht as [Htp Hte].
    assert (Hr : rmdir C p (Dir d m (remove_dir C (remove_entry C) p d es)) = None).
    { unfold remove_dir. rewrite (ok_open C Hok), remove_entries_all; [by cbn; rewrite (ok_unlink C Hok), Hm|apply (ok_readdir C Hok)|].
      apply Z.eqb_eq in Hd as ->. rewrite list.Forall_forall in *. intros [x c] Hin. cbn.
      assert (Hin' := Hin). apply list_elem_of_In in Hin'. rewrite forallb_forall in Hes, Hte.
      specialize (Hes _ Hin'). specialize (Hte _ Hin'). cbn in Hes, Hte. apply andb_prop in Hte as [Hdot Htc].
      rewrite not_dot by (by destruct (bool_decide _)). by apply (IH (x, c) Hin). }
    cbn [remove_entry st_dev]. rewrite Hd, (ok_stat C Hok). cbn [negb]. by destruct (dtype C p).
Qed.

(** [c] is at [q] below [n], and all directories on the way are on the device and have no
    mount on them. *)
Fixpoint same_at (dev : Z) (n : node) (q : path) (c : node) : Prop :=
  match q with
  | [] => c = n
  | x :: q => match n with
              | Dir d m es => d = dev /\ m = false /\ NoDup es.*1 /\ match assoc x es with Some n1 => same_at dev n1 q c | None => False end
              | Leaf _ _ => False
              end
  end.

Lemma assoc_none x es : x ∉ es.*1 -> assoc x es = None.
Proof.
  induction es as [|[y c] es IH]; [done|]. cbn. rewrite not_elem_of_cons. intros [Hx H]. rewrite decide_False by congruence. auto.
Qed.

Lemma remove_entries_names f ok k es x : x ∈ (remove_entries f ok k es).*1 -> x ∈ es.*1.
Proof.
  revert k. induction es as [|[y c] es IH]; intros k; [done|]. cbn. destruct (ok k); cbn [negb]; [|done].
  destruct (f y c); cbn; rewrite !elem_of_cons; [intros [?|?%IH]; auto|intros ?%IH; auto].
Qed.

Lemma remove_entries_assoc f ok k es x c : (forall k, ok k = true) -> NoDup es.*1 -> assoc x es = Some c -> assoc x (remove_entries f ok k es) = f x c.
Proof.
  intros Hok. revert k. induction es as [|[y e] es IH]; intros k Hn Ha; [done|]. cbn in Hn. apply list.NoDup_cons in Hn as [Hy Hn].
  cbn in Ha |- *. rewrite Hok. cbn [negb]. destruct (decide (y = x)) as [->|Hne].
  - injection Ha as ->. destruct (f x c); cbn; [by rewrite decide_True|]. apply assoc_none. by intros ?%remove_entries_names.
  - destruct (f y e); cbn; rewrite ?decide_False by done; auto.
Qed.

Lemma typed_child C p d m es x c : typed C p (Dir d m es) = true -> assoc x es = Some c ->
  bool_decide (x = #"." \/ x = #"..") = false /\ typed C (p ++ [x]) c = true.
Proof.
  cbn. intros [_ Ht]%andb_prop Ha. induction es as [|[y e] es IH]; [done|]. cbn in Ha, Ht. apply andb_prop in Ht as [He Ht].
  destruct (decide (y = x)) as [->|]; [|auto]. injection Ha as ->. apply andb_prop in He as [Hd He]. split; [by destruct (bool_decide _)|done].
Qed.

Lemma same_removed C dev p n q c n' : no_failure C -> same_at dev n q c -> clean dev c = true -> typed C p n = true ->
  remove_entry C dev p n = Some n' -> walk n' q = None.
Proof.
  intros Hok. revert p n n'. induction q as [|x q IH]; intros p n n' Hs Hc Ht Hr; cbn in Hs.
  { subst c. by rewrite clean_removed in Hr. }
  destruct n as [|d m es]; [done|]. destruct Hs as (-> & _ & Hn & Hs). destruct (assoc x es) as [n1|] eqn:Ea; [|done].
  destruct (typed_child _ _ _ _ _ _ _ Ht Ea) as [Hdot Ht1].
  assert (Hdir : exists es', n' = Dir dev m es' /\ es' = remove_dir C (remove_entry C) p dev es).
  { revert Hr. cbn [remove_entry st_dev]. rewrite (ok_stat C Hok), Z.eqb_refl. cbn [negb].
    cbn in Ht. destruct (dtype C p); try done.
    all: unfold rmdir; intros Hr; exists (remove_dir C (remove_entry C) p dev es); (split; [|done]); revert Hr.
    all: destruct (remove_dir C (remove_entry C) p dev es); [destruct (unlink_ok C p && negb m)|]; intros Hr; by simplify_eq. }
  destruct Hdir as (es' & -> & ->). cbn. unfold remove_dir. rewrite (ok_open C Hok).
  rewrite (remove_entries_assoc _ _ _ _ _ n1 (ok_readdir C Hok p) Hn Ea). rewrite not_dot by done.
  destruct (remove_entry C dev (p ++ [x]) n1) eqn:E; [|done]. by eapply IH.
Qed.

(** C31. All that is reached from the old root over directories of its device without a
    mount on them, and that has no other device and no mount in it, is gone, if no call
    fails. What is behind a mount on the way is not meant here: from another device it is
    kept, from the same one the code removes it as well, unlike its comment says. *)
Theorem old_root_emptied C p dev m es x n q c : no_failure C -> typed C p (Dir dev m es) = true -> NoDup es.*1 ->
  assoc x es = Some n -> same_at dev n q c -> clean dev c = true -> walk (Dir dev m (remove_recursive_at C p dev es)) (x :: q) = None.
Proof.
  intros Hok Ht Hn Ea Hs Hc. destruct (typed_child _ _ _ _ _ _ _ Ht Ea) as [Hdot Ht1]. cbn. unfold remove_recursive_at, remove_dir.
  rewrite (ok_open C Hok), (remove_entries_assoc _ _ _ _ _ n (ok_readdir C Hok p) Hn Ea), not_dot by done.
  destruct (remove_entry C dev (p ++ [x]) n) eqn:E; [|done]. by eapply same_removed.
Qed.

(** A mount point with the same device, as a bind mount from the old root has, is
    entered and emptied; only the mount point itself stays. *)
Theorem bind_mount_emptied C p dev es : no_failure C -> typed C p (Dir dev true es) = true -> forallb (fun e => clean dev e.2) es = true ->
  remove_entry C dev p (Dir dev true es) = Some (Dir dev true []).
Proof.
  intros Hok Ht Hc.
  assert (Hr : rmdir C p (Dir dev true (remove_dir C (remove_entry C) p dev es)) = Some (Dir dev true [])).
  { unfold remove_dir. rewrite (ok_open C Hok), remove_entries_all; [by cbn; rewrite andb_false_r|apply (ok_readdir C Hok)|].
    rewrite list.Forall_forall. intros [x c] Hin%list_elem_of_In. cbn in Ht. apply andb_prop in Ht as [_ Ht]. rewrite forallb_forall in Ht, Hc.
    specialize (Hc _ Hin). specialize (Ht _ Hin). cbn in Hc, Ht |- *. apply andb_prop in Ht as [Hdot Htc].
    rewrite not_dot by (by destruct (bool_decide _)). by apply clean_removed. }
  cbn in Ht. cbn [remove_entry st_dev]. rewrite (ok_stat C Hok), Z.eqb_refl. cbn [negb]. by destruct (dtype C p).
Qed.

(** ** The order of sysexec *)

Definition moved (S : sysexec_calls) : list step := if pivot_ok S then [SPivot true; SUmountOld] else [SPivot false; SMoveRoot].

(** The steps with a call of their own. *)
Definition last_step (s : step) : Prop := s = SRemoveOld \/ exists prog args, s = SExec prog args.

Lemma cons_split {A} (a : A) rest l1 s l2 : a :: rest = l1 ++ s :: l2 -> s <> a -> exists l, l1 = a :: l /\ rest = l ++ s :: l2.
Proof. destruct l1 as [|b l1]; cbn; intros [= -> ->]; [done|eauto]. Qed.

Lemma must_split ok a rest l1 s l2 : must ok a rest = l1 ++ s :: l2 -> s <> a -> s <> SErr -> ok = true /\ exists l, l1 = a :: l /\ rest = l ++ s :: l2.
Proof.
  unfold must. intros H Ha He. apply cons_split in H as (l & -> & H); [|done]. destruct ok; [by eauto|].
  apply (f_equal (elem_of s)) in H. exfalso. assert (Hin : s ∈ [SErr]) by (rewrite H, elem_of_app, elem_of_cons; tauto).
  by apply list_elem_of_singleton in Hin.
Qed.


(** ** The tests of chrooted *)

(** The letters for a kind of file. *)
Definition kind_tests : list (ascii * file_kind) :=
  [("b", S_BLK); ("c", S_CHR); ("d", S_DIR); ("f", S_REG); ("p", S_FIFO); ("L", S_LNK)]%char.

(** In the new root, "test -b", -c, -d, -f, -p and -L end with 0 exactly if the file
    is there and of that kind, where only -L looks at a link itself. *)
Theorem chrooted_test_kind root R dir name cmd file c k : root dir = Some R -> dir <> #"-h" -> dir <> #"--help" -> cmd = #"test" ->
  (c, k) ∈ kind_tests ->
  chrooted_main root true [name; dir; cmd; ["-"%char; c]; file] = Ret (0, []) <->
  exists st, (if bool_decide (c = "L"%char) then lstat R file else stat R file) = Some st /\ st_kind st = k.
Proof.
  intros Hr Hh Hhh -> Hk. unfold chrooted_main. rewrite bool_decide_false by tauto. rewrite Hr. cbn [negb].
  rewrite (bool_decide_true (#"test" = #"test")) by done. unfold cmd_test, head.
  assert (bool_decide (Some c = Some "L"%char) = bool_decide (c = "L"%char)) as -> by (apply bool_decide_ext; naive_solver).
  destruct (if bool_decide (c = "L"%char) then lstat R file else stat R file) as [st|]; cbn [obind]; [|naive_solver].
  assert (Ht : test_file (Some c) st = c_bool (negb (is_kind k st))) by (unfold kind_tests in Hk; rewrite !elem_of_cons in Hk; destruct_or! Hk; try (by apply not_elem_of_nil in Hk); by injection Hk as -> ->).
  rewrite Ht. unfold is_kind. case_bool_decide; cbn; naive_solver.
Qed.

(** "test -s" is true of an empty file and false of a directory with a size: the
    condition has the kind of the file negated and the size not. *)
Theorem chrooted_test_size R name file st : stat R file = Some st ->
  cmd_test R [name; #"-s"; file] = Ret (if bool_decide (st_kind st = S_REG \/ st_size st <= 0) then 0 else 1).
Proof.
  intros Hs. cbn. rewrite Hs. unfold test_file, is_kind, c_bool. f_equal. rewrite Z.gtb_ltb.
  destruct (bool_decide (st_kind st = S_REG)) eqn:E; cbn [negb andb].
  - apply bool_decide_eq_true in E. by rewrite bool_decide_true by (by left).
  - apply bool_decide_eq_false in E. destruct (Z.ltb_spec 0 (st_size st)); [rewrite bool_decide_false by (intros [?|?]; [done|lia])|rewrite bool_decide_true by (by right)]; done.
Qed.

(** ** Witnesses *)

(** An old root of the device 1 with a file, a directory with the new root on device 2, and
    a bind mount. *)
Definition new_tree : node := Dir 2 true [(#"etc", Leaf 2 false)].
Definition old_entries : list (bytes * node) :=
  [(#"init", Leaf 1 false); (#"mnt", Dir 1 false [(#"root", new_tree); (#"tmp", Dir 1 false [(#"x", Leaf 1 false)])])].
Definition demo_calls : calls :=
  {| dtype p := if bool_decide (list.last p = Some #"init" \/ list.last p = Some #"x") then DT_OTHER else DT_DIR;
     stat_ok _ := true; open_ok _ := true; readdir_ok _ _ := true; unlink_ok _ := true |}.

Lemma demo_no_failure : no_failure demo_calls.
Proof. by constructor. Qed.

Lemma other_devices_kept_witness : walk (Dir 1 false (remove_recursive_at demo_calls [] 1 old_entries)) [ #"mnt"; #"root"] = Some new_tree.
Proof. apply (other_devices_kept demo_calls [] 1 false old_entries); [|discriminate|reflexivity]. vm_compute. split; [reflexivity|discriminate]. Defined.

Lemma old_root_emptied_witness : walk (Dir 1 false (remove_recursive_at demo_calls [] 1 old_entries)) [ #"mnt"; #"tmp"] = None.
Proof.
  apply (old_root_emptied demo_calls [] 1 false old_entries #"mnt" (Dir 1 false [(#"root", new_tree); (#"tmp", Dir 1 false [(#"x", Leaf 1 false)])])
    [ #"tmp"] (Dir 1 false [(#"x", Leaf 1 false)])).
  - exact demo_no_failure.
  - vm_compute. reflexivity.
  - apply (bool_decide_unpack _). vm_compute. exact I.
  - reflexivity.
  - vm_compute. split; [reflexivity|]. split; [reflexivity|]. split; [apply (bool_decide_unpack _); vm_compute; exact I|]. reflexivity.
  - vm_compute. reflexivity.
Defined.

Lemma bind_mount_emptied_witness : remove_entry demo_calls 1 [ #"bind"] (Dir 1 true [(#"x", Leaf 1 false)]) = Some (Dir 1 true []).
Proof. apply bind_mount_emptied; [exact demo_no_failure|vm_compute; reflexivity|vm_compute; reflexivity]. Defined.

Definition demo_sysexec : sysexec_calls :=
  {| root_opens := true; new_opens := true; private_ok := true; fchdir_ok := true; pivot_ok := false; umount_ok := true; move_ok := true;
     chroot_ok := true; chdir_ok := true; old_type := Some RAMFS_MAGIC; exec_ok := true |}.


Definition demo_root : new_root :=
  {| lstat _ := Some {| st_kind := S_LNK; st_size := 4 |}; stat _ := Some {| st_kind := S_REG; st_size := 0 |}; realpath _ := None |}.

Lemma chrooted_test_kind_witness : chrooted_main (fun _ => Some demo_root) true [ #"chrooted"; #"/root"; #"test"; #"-f"; #"/init"] = Ret (0, []).
Proof.
  apply (chrooted_test_kind (fun _ => Some demo_root) demo_root #"/root" #"chrooted" #"test" #"/init" "f"%char S_REG);
    [reflexivity|discriminate|discriminate|reflexivity| |].
  - unfold kind_tests. do 3 (apply elem_of_cons; right). apply elem_of_cons. by left.
  - eexists. split; reflexivity.
Defined.

Lemma chrooted_test_size_witness : cmd_test demo_root [ #"test"; #"-s"; #"/init"] = Ret 0.
Proof. rewrite (chrooted_test_size demo_root #"test" #"/init" {| st_kind := S_REG; st_size := 0 |} eq_refl). reflexivity. Defined.
