(* ===== verification/Libinitramfs.v ===== *)
(** The library of the programs of the initramfs (features/runtime/src/libinitramfs), and
    the program that asks for a password (features/sshfsroot/src/ask-pass).

    - logging.c: [rd_logging_level], [rd_logging_init], [rd_vmessage], [rd_log_message],
      [rd_log_setup_stderr];
    - console.c: [is_a_console], [open_a_console], [rd_open_console];
    - ask-pass.c: [get_password], [ask_pass_main].

    The clock, the text that a format gives, the terminals and the files are parameters.
    [Undef] is a read behind the end of a buffer. *)

From Stdlib Require Import ZArith Ascii Lia.
From stdpp Require Import base list strings tactics.
From S2P Require Import Prelude CString.

Open Scope Z_scope.
Open Scope cprog_scope.

(** ** logging.c *)

Definition LOG_ERR : Z := 3.
Definition LOG_WARNING : Z := 4.
Definition LOG_INFO : Z := 6.
Definition LOG_DEBUG : Z := 7.

Record log_state := { log_priority : Z; log_fd : Z; log_progname : option bytes }.
Definition log0 : log_state := {| log_priority := LOG_INFO; log_fd := 2; log_progname := None |}.

(** strcasecmp of the C locale. *)
Definition tolower (c : ascii) : ascii :=
  if (65 <=? ord c) && (ord c <=? 90) then ascii_of_nat (Z.to_nat (ord c + 32)) else c.
Definition same_case (a b : bytes) : bool := bool_decide (map tolower a = map tolower b).

Definition rd_logging_level (st : log_state) (name : bytes) : Z :=
  if same_case name #"debug" then LOG_DEBUG
  else if same_case name #"info" then LOG_INFO
  else if same_case name #"warning" then LOG_WARNING
  else if same_case name #"error" then LOG_ERR
  else log_priority st.

Definition rd_logging_init (fd loglevel : Z) (progname : option bytes) (st : log_state) : log_state :=
  {| log_priority := loglevel; log_fd := fd; log_progname := match progname with Some p => Some p | None => log_progname st end |}.

(** struct tm, and what localtime_r gives. *)
Record tm := { tm_year : Z; tm_mon : Z; tm_mday : Z; tm_hour : Z; tm_min : Z; tm_sec : Z }.

(** %0<w>d *)
Definition fmt_0d (w : nat) (z : Z) : bytes :=
  if z <? 0 then "-"%char :: pad_left (w - 1) "0"%char (fmt_num 10 (- z)) else pad_left w "0"%char (fmt_num 10 z).

Definition date_text (t : tm) : bytes :=
  #"[" ++ fmt_0d 4 (tm_year t + 1900) ++ #"-" ++ fmt_0d 2 (tm_mon t + 1) ++ #"-" ++ fmt_0d 2 (tm_mday t) ++ #" " ++
  fmt_0d 2 (tm_hour t) ++ #":" ++ fmt_0d 2 (tm_min t) ++ #":" ++ fmt_0d 2 (tm_sec t) ++ #"]".

Definition STACK_DATE : Z := 38.
Definition STACK_MSG : Z := 80.

(** [used] bytes of a buffer of [size] bytes into which snprintf printed [s]. *)
Definition iov (size used : Z) (s : bytes) : out bytes := if used <? size then Ret (takeZ used s) else Undef.

(** What writev gets: the six parts of a line, for a message that vsnprintf prints as
    [msg]. [malloc_ok] tells whether there is memory for a long one. *)
Definition rd_vmessage (st : log_state) (now : option tm) (malloc_ok : bool) (msg : bytes) : out bytes :=
  let! date := match now with
               | Some t => let! d := iov STACK_DATE (lenZ (date_text t)) (date_text t) in Ret (d ++ #" ")
               | None => Ret []
               end in
  let prog := match log_progname st with Some p => p ++ #": " | None => [] end in
  let used := lenZ msg in
  let size := if (used >=? STACK_MSG) && malloc_ok then used + 1 else STACK_MSG in
  let! text := iov size used msg in
  Ret (date ++ prog ++ text ++ ["010"%char]).

Definition rd_log_message (st : log_state) (priority : Z) (now : option tm) (malloc_ok : bool) (msg : bytes) : out bytes :=
  if priority <=? log_priority st then rd_vmessage st now malloc_ok msg else Ret [].

(** The file that stderr is opened as; [None] if it stays as it is. *)
Definition rd_log_setup_stderr (getenv : bytes -> option bytes) (logfile : bytes) : option bytes :=
  match getenv #"RDLOG_STDERR" with
  | Some _ => None
  | None =>
      match getenv #"RDLOG" with
      | Some rdlog => if same_case rdlog #"console" then Some #"/dev/console" else Some logfile
      | None => Some logfile
      end
  end.

(** ** console.c *)

Definition conspath : list bytes := [ #"/dev/console"; #"/dev/systty"; #"/dev/tty0"; #"/dev/tty"; #"/dev/vc/0"; #"/proc/self/fd/0"].

Inductive mode := O_RDWR | O_WRONLY | O_RDONLY.
Definition KB_84 : Z := 1.
Definition KB_101 : Z := 2.

(** The terminals: whether a file can be opened in a mode, and by descriptor whether it is
    a terminal and the type of its keyboard. A descriptor is named by the file it was
    opened for, or by its number. *)
Record terminals := { can_open : bytes -> mode -> bool; isatty : bytes + Z -> bool; kgbtype : bytes + Z -> option Z }.

Definition is_a_console (T : terminals) (f : bytes + Z) : bool :=
  isatty T f && match kgbtype T f with Some arg => (arg =? KB_101) || (arg =? KB_84) | None => false end.

Definition open_a_console (T : terminals) (fnam : bytes) : bool := can_open T fnam O_RDWR || can_open T fnam O_WRONLY || can_open T fnam O_RDONLY.

Inductive con_event := Opened (f : bytes) | Closed (f : bytes).

Fixpoint try_consoles (T : terminals) (l : list bytes) : list con_event * option bytes :=
  match l with
  | [] => ([], None)
  | f :: l =>
      if open_a_console T f then
        if is_a_console T (inl f) then ([Opened f], Some f)
        else let '(ev, r) := try_consoles T l in (Opened f :: Closed f :: ev, r)
      else try_consoles T l
  end.

Definition rd_open_console (T : terminals) : list con_event * option (bytes + Z) :=
  let '(ev, r) := try_consoles T conspath in
  match r with
  | Some f => (ev, Some (inl f))
  | None => (ev, head (map inr (filter (fun fd => is_a_console T (inr fd) = true) [0; 1; 2])))
  end.

(** ** ask-pass.c *)

Definition ECHO : Z := 8.

(** The settings of the terminal one after the other, and the line; [oldt] are the flags
    that tcgetattr gives. *)
Definition get_password (oldt : Z) (getline : option bytes) : list Z * option bytes :=
  ([Z.land oldt (Z.lnot ECHO); oldt], getline).

(** The exit code, what goes to the console and to the output, and the settings;
    [strerror] is the text of the error. *)
Definition ask_pass_main (console : bool) (argv : list bytes) (oldt : Z) (getline : option bytes) (strerror : bytes) : Z * list bytes * bytes * list Z :=
  if negb console then (1, [], [], [])
  else
    let prompt := match argv with _ :: p :: _ => [p ++ ["010"%char]] | _ => [] end in
    let '(settings, password) := get_password oldt getline in
    match password with
    | None => (1, prompt ++ [ #"ask-pin error: Can't read password from stream: " ++ strerror ++ ["010"%char]], [], settings)
    | Some p => (0, prompt, default [] (cstr (p ++ [NUL])), settings)
    end.

(** ** A line of the log *)

Lemma pad_left_length w c s : lenZ (pad_left w c s) = Z.max (Z.of_nat w) (lenZ s).
Proof. unfold pad_left, lenZ. rewrite length_app, length_replicate. lia. Qed.

Lemma fmt_0d_length w k z : (0 < k)%nat -> - 10 ^ Z.of_nat k < z < 10 ^ Z.of_nat k -> lenZ (fmt_0d w z) <= Z.max (Z.of_nat w) (Z.of_nat k + 1).
Proof.
  intros Hk Hz. unfold fmt_0d. destruct (Z.ltb_spec z 0).
  - rewrite lenZ_cons, pad_left_length. pose proof (fmt_num_length k (- z) ltac:(lia) Hk). lia.
  - rewrite pad_left_length. pose proof (fmt_num_length k z ltac:(lia) Hk). lia.
Qed.

(** The fields that localtime_r gives. *)
Definition tm_ok (t : tm) : Prop :=
  - 2 ^ 31 <= tm_year t + 1900 < 2 ^ 31 /\ 0 <= tm_mon t <= 11 /\ 1 <= tm_mday t <= 31 /\ 0 <= tm_hour t <= 23 /\ 0 <= tm_min t <= 59 /\ 0 <= tm_sec t <= 60.

Lemma date_fits t : tm_ok t -> lenZ (date_text t) < STACK_DATE.
Proof.
  intros (Hy & Hmo & Hd & Hh & Hmi & Hs). unfold date_text. rewrite !lenZ_app.
  pose proof (fmt_0d_length 4 10 (tm_year t + 1900) ltac:(lia) ltac:(lia)).
  pose proof (fmt_0d_length 2 2 (tm_mon t + 1) ltac:(lia) ltac:(lia)). pose proof (fmt_0d_length 2 2 (tm_mday t) ltac:(lia) ltac:(lia)).
  pose proof (fmt_0d_length 2 2 (tm_hour t) ltac:(lia) ltac:(lia)). pose proof (fmt_0d_length 2 2 (tm_min t) ltac:(lia) ltac:(lia)).
  pose proof (fmt_0d_length 2 2 (tm_sec t) ltac:(lia) ltac:(lia)).
  change (lenZ #"[") with 1. change (lenZ #"-") with 1. change (lenZ #" ") with 1. change (lenZ #":") with 1. change (lenZ #"]") with 1. unfold STACK_DATE. lia.
Qed.

(** A message up to the priority is one line with the date, the name of the program
    and the text, of any length, and one above it is not written; a message of 80 bytes or
    more is read behind the end of the buffer on the stack if there is no memory for it. *)
Theorem log_message_spec st priority t malloc_ok msg : tm_ok t ->
  rd_log_message st priority (Some t) malloc_ok msg =
  if log_priority st <? priority then Ret []
  else if malloc_ok || (lenZ msg <? STACK_MSG) then
    Ret (date_text t ++ #" " ++ match log_progname st with Some p => p ++ #": " | None => [] end ++ msg ++ ["010"%char])
  else Undef.
Proof.
  intros Ht. unfold rd_log_message. rewrite Z.leb_antisym. destruct (log_priority st <? priority); cbn [negb]; [done|].
  assert (Hiov : forall size s, lenZ s < size -> iov size (lenZ s) s = Ret s).
  { intros size s Hs. unfold iov. rewrite (proj2 (Z.ltb_lt _ _)) by done. by rewrite takeZ_ge. }
  unfold rd_vmessage. rewrite (Hiov STACK_DATE) by (by apply date_fits). cbn [obind].
  rewrite Z.geb_leb, Z.leb_antisym. destruct (Z.ltb_spec (lenZ msg) STACK_MSG), malloc_ok; cbn [negb andb orb].
  all: try (rewrite Hiov by lia; cbn [obind]; by rewrite <- app_assoc).
  unfold iov. rewrite (proj2 (Z.ltb_ge _ _)) by lia. done.
Qed.

(** ** The console *)

(** The files that are open after the events. *)
Fixpoint still_open (ev : list con_event) (l : list bytes) : list bytes :=
  match ev with
  | [] => l
  | Opened f :: ev => still_open ev (f :: l)
  | Closed f :: ev => still_open ev (filter (fun g => g <> f) l)
  end.

Lemma try_consoles_open T l : still_open (try_consoles T l).1 [] = match (try_consoles T l).2 with Some f => [f] | None => [] end.
Proof.
  induction l as [|f l IH]; cbn; [done|]. destruct (open_a_console T f); [|done]. destruct (is_a_console T (inl f)); [done|].
  destruct (try_consoles T l) as [ev r]. cbn [fst snd still_open] in *.
  assert (filter (fun g => g <> f) [f] = []) as -> by (rewrite list.filter_cons, decide_False by tauto; done). done.
Qed.

Lemma try_consoles_found T l : match (try_consoles T l).2 with
  | Some f => f ∈ l /\ open_a_console T f = true /\ is_a_console T (inl f) = true
  | None => Forall (fun f => open_a_console T f = true -> is_a_console T (inl f) = false) l
  end.
Proof.
  induction l as [|f l IH]; cbn; [constructor|]. destruct (open_a_console T f) eqn:Eo.
  - destruct (is_a_console T (inl f)) eqn:Ec; cbn; [split; [apply elem_of_cons; by left|done]|].
    destruct (try_consoles T l) as [ev [g|]]; cbn in *; [|by constructor]. destruct IH as (H & ? & ?). split; [apply elem_of_cons; by right|done].
  - destruct (try_consoles T l) as [ev [g|]]; cbn in *; [|constructor; [cbn; congruence|done]]. destruct IH as (H & ? & ?). split; [apply elem_of_cons; by right|done].
Qed.

(** rd_open_console returns a console if one of the files or of the descriptors 0, 1
    and 2 is one, and every other file that it opened is closed again. *)
Theorem open_console_spec T ev r : rd_open_console T = (ev, r) ->
  still_open ev [] = match r with Some (inl f) => [f] | _ => [] end /\
  match r with
  | Some c => is_a_console T c = true
  | None => Forall (fun f => open_a_console T f = true -> is_a_console T (inl f) = false) conspath /\
            Forall (fun fd => is_a_console T (inr fd) = false) [0; 1; 2]
  end.
Proof.
  unfold rd_open_console. pose proof (try_consoles_open T conspath) as Ho. pose proof (try_consoles_found T conspath) as Hf.
  destruct (try_consoles T conspath) as [ev' [f|]]; cbn [fst snd] in *; intros [= <- <-]; [by destruct Hf as (_ & _ & ?)|].
  destruct (filter _ [0; 1; 2]) as [|fd l] eqn:E; cbn [map head].
  - split; [done|]. split; [done|]. apply list.Forall_forall. intros fd Hfd. destruct (is_a_console T (inr fd)) eqn:Ec; [|done].
    assert (fd ∈ filter (fun fd => is_a_console T (inr fd) = true) [0; 1; 2]) as Hin by (by apply list_elem_of_filter).
    rewrite E in Hin. by apply not_elem_of_nil in Hin.
  - split; [done|]. assert (fd ∈ filter (fun fd => is_a_console T (inr fd) = true) [0; 1; 2]) as Hin by (rewrite E; apply elem_of_cons; by left).
    by apply list_elem_of_filter in Hin as [? _].
Qed.

(** ** The password *)

(** The echo is off while the password is read, no other flag of the terminal is
    changed, and at the end the terminal has its flags again, also if nothing was read. *)
Theorem password_echo argv oldt getline err : let '(rc, _, _, settings) := ask_pass_main true argv oldt getline err in
  (rc = 0 <-> getline <> None) /\ list.last settings = Some oldt /\
  exists hidden, head settings = Some hidden /\ forall n, 0 <= n -> Z.testbit hidden n = Z.testbit oldt n && negb (n =? 3).
Proof.
  unfold ask_pass_main, get_password. cbn [negb].
  assert (Hbits : forall n, 0 <= n -> Z.testbit (Z.land oldt (Z.lnot ECHO)) n = Z.testbit oldt n && negb (n =? 3)).
  { intros n Hn. rewrite Z.land_spec, Z.lnot_spec by done. unfold ECHO. change 8 with (2 ^ 3). rewrite Z.pow2_bits_eqb by lia. by rewrite Z.eqb_sym. }
  destruct getline; cbn; (split; [done|]); (split; [done|]); eexists; split; done.
Qed.

(** ** Witnesses *)

Definition demo_tm : tm := {| tm_year := 124; tm_mon := 1; tm_mday := 29; tm_hour := 7; tm_min := 5; tm_sec := 9 |}.

Lemma log_message_spec_witness :
  rd_log_message (rd_logging_init 2 LOG_INFO (Some #"ueventd") log0) LOG_ERR (Some demo_tm) false #"no queue" =
  Ret (#"[2024-02-29 07:05:09] ueventd: no queue" ++ ["010"%char]).
Proof.
  rewrite (log_message_spec _ LOG_ERR demo_tm false #"no queue"); [reflexivity|]. unfold tm_ok, demo_tm. cbn. lia.
Defined.

Definition demo_terminals : terminals :=
  {| can_open f m := bool_decide (f = #"/dev/console" \/ f = #"/dev/tty0"); isatty f := true;
     kgbtype f := if bool_decide (f = inl #"/dev/tty0") then Some KB_101 else None |}.

Lemma open_console_spec_witness : still_open [Opened #"/dev/console"; Closed #"/dev/console"; Opened #"/dev/tty0"] [] = [ #"/dev/tty0"].
Proof.
  apply (open_console_spec demo_terminals [Opened #"/dev/console"; Closed #"/dev/console"; Opened #"/dev/tty0"] (Some (inl #"/dev/tty0"))).
  vm_compute. reflexivity.
Defined.
