(* ===== verification/MountsMain.v ===== *)
(** ueventd-mounts as a process: its options and environment, the descriptors of the
    fanotify backend, main with its loop over poll (ueventd-mounts.c), and the procfs
    backend running while the mount table changes.

    For the second part the kernel counts the changes of the mount table; a descriptor of
    /proc/self/mounts has seen the changes up to its open or to the last poll that
    reported one, and poll reports a change when there are more. Reading the table gives
    the table of one moment. *)

From Stdlib Require Import ZArith Ascii Lia.
From stdpp Require Import base list gmap strings relations tactics.
From S2P Require Import Prelude CString Mounts Libinitramfs.

Open Scope Z_scope.
Open Scope cprog_scope.

(** ** Options and environment *)

Inductive mounts_opt := O_h | O_l (arg : bytes) | O_unknown.

Fixpoint mounts_options (st : log_state) (opts : list mounts_opt) (loglevel : Z) : out Z :=
  match opts with
  | [] => Ret loglevel
  | O_h :: _ => Die 0 "Usage"
  | O_l arg :: opts => mounts_options st opts (rd_logging_level st arg)
  | O_unknown :: _ => Die EXIT_FAILURE ""
  end.

Definition DEFAULT_LOGFILE : bytes := #"/var/log/ueventd-mounts.log".

Definition nonempty (v : option bytes) : option bytes :=
  match v with Some (_ :: _) => v | _ => None end.

Definition log_file (getenv : bytes -> option bytes) : bytes :=
  match nonempty (getenv #"UEVENTD_MOUNTS_LOGFILE") with
  | Some f => f
  | None => match nonempty (getenv #"LOGFILE") with Some f => f | None => DEFAULT_LOGFILE end
  end.

Definition get_param_dir (getenv : bytes -> option bytes) (name : bytes) : out bytes :=
  match getenv name with
  | None => Die EXIT_FAILURE "please set env variable"
  | Some v => Ret v
  end.

(** ** The descriptors of fanotify_init_backend *)

Record fan_calls := {
  fc_init : Z;
  fc_pidfd : Z;
  fc_ioctl : Z;
  fc_open : Z;
  fc_mark : Z;
}.

(** [-1] as long as there is no descriptor of the namespace. *)
Definition namespace_fd (c : fan_calls) (fds : gset Z) : Z * gset Z :=
  let '(ns, fds) := if fc_pidfd c >=? 0 then
                      (fc_ioctl c, (if fc_ioctl c >=? 0 then {[ fc_ioctl c ]} ∪ ({[ fc_pidfd c ]} ∪ fds) else {[ fc_pidfd c ]} ∪ fds) ∖ {[ fc_pidfd c ]})
                    else (-1, fds) in
  if ns <? 0 then (fc_open c, if fc_open c >=? 0 then {[ fc_open c ]} ∪ fds else fds) else (ns, fds).

(** [read_ok] is the result of fanotify_read_mounts; the result is [b->fd]. *)
Definition fanotify_fds (c : fan_calls) (read_ok : bool) (fds : gset Z) : option Z * gset Z :=
  if fc_init c <? 0 then (None, fds) else
  let fds := {[ fc_init c ]} ∪ fds in
  let '(ns, fds) := namespace_fd c fds in
  if ns <? 0 then (None, fds ∖ {[ fc_init c ]}) else
  let fds := fds ∖ {[ ns ]} in
  if fc_mark c <? 0 then (None, fds ∖ {[ fc_init c ]})
  else if negb read_ok then (None, fds ∖ {[ fc_init c ]})
  else (Some (fc_init c), fds).

(** What the model of the backend needs of the calls. *)
Definition setup_of (c : fan_calls) : fan_setup :=
  {| fan_init := fc_init c >=? 0;
     fan_ns := (fc_pidfd c >=? 0) && (fc_ioctl c >=? 0) || (fc_open c >=? 0);
     fan_mark := fc_mark c >=? 0 |}.

(** ** main *)

Definition POLLIN : Z := 1.
Definition POLLPRI : Z := 2.
Definition POLLERR : Z := 8.

Definition poll_events (b : backend) : Z :=
  match b with fanotify_backend => POLLIN | procfs_backend => Z.lor POLLERR POLLPRI end.

(** What poll returns, and what a dispatch then reads: the file of the procfs backend, or
    the buffers of the fanotify backend. *)
Record input := { in_file : option (list mntent); in_reads : list read_event }.
Inductive poll_result := P_EINTR | P_ERROR | P_READY (revents : Z) (i : input).

Section Main.
Context (E : event_io) (statmount : Z -> option statmount_reply) (listmount : Z -> option (list Z)).

Definition dispatch (b : backend) (i : input) (s : mst) : out mst :=
  match b with
  | fanotify_backend => fanotify_dispatch E statmount (in_reads i) s
  | procfs_backend => procfs_dispatch E (in_file i) s
  end.

(** The state after the given results of poll. *)
Fixpoint poll_loop (b : backend) (ps : list poll_result) (s : mst) : out mst :=
  match ps with
  | [] => Ret s
  | P_EINTR :: ps => poll_loop b ps s
  | P_ERROR :: _ => Die EXIT_FAILURE "poll"
  | P_READY revents i :: ps =>
      let! s := (if negb (Z.land revents (poll_events b) =? 0) then dispatch b i s else Ret s) in
      poll_loop b ps s
  end.

(** The results of chdir, chdir, open and openat. *)
Record queue_calls := { qc_chdir : Z; qc_chdir_queue : Z; qc_open : Z; qc_openat : Z }.

Definition mounts_main (st : log_state) (opts : list mounts_opt) (getenv : bytes -> option bytes) (q : queue_calls)
    (fuel : nat) (c : fan_calls) (file : option (list mntent)) (fd : Z) (ps : list poll_result) : out mst :=
  let! loglevel := mounts_options st opts LOG_INFO in
  let! filter_dir := get_param_dir getenv #"filterdir" in
  if qc_chdir q <? 0 then Die EXIT_FAILURE "chdir" else
  if qc_chdir_queue q <? 0 then Die EXIT_FAILURE "chdir" else
  if qc_open q <? 0 then Die EXIT_FAILURE "open" else
  if qc_openat q <? 0 then Die EXIT_FAILURE "open" else
  let! (b, s) := backend_select statmount listmount fuel (setup_of c) file fd {| mlist := []; queue := ∅; events := [] |} in
  poll_loop b ps s.
End Main.

(** ** The procfs backend while the table changes *)

Inductive mphase := M_READ | M_OPEN | M_POLL | M_DISPATCH.

(** [m_start] is the table that was read first. *)
Record mnode := {
  m_st : mst;
  m_table : list mntent;
  m_event : nat;
  m_seen : nat;
  m_phase : mphase;
  m_start : list mntent;
}.

Definition node0 (t : list mntent) : mnode :=
  {| m_st := {| mlist := []; queue := ∅; events := [] |}; m_table := t; m_event := 0; m_seen := 0; m_phase := M_READ; m_start := [] |}.

Section Steps.
Context (E : event_io).

(** The steps of the daemon. *)
Definition daemon_step (n : mnode) : out (option mnode) :=
  match m_phase n with
  | M_READ =>
      let! s := procfs_init_list (Some (m_table n)) (m_st n) in
      Ret (Some {| m_st := s; m_table := m_table n; m_event := m_event n; m_seen := m_seen n; m_phase := M_OPEN; m_start := m_table n |})
  | M_OPEN =>
      Ret (Some {| m_st := m_st n; m_table := m_table n; m_event := m_event n; m_seen := m_event n; m_phase := M_POLL; m_start := m_start n |})
  | M_POLL =>
      if decide (m_seen n = m_event n) then Ret None
      else Ret (Some {| m_st := m_st n; m_table := m_table n; m_event := m_event n; m_seen := m_event n; m_phase := M_DISPATCH; m_start := m_start n |})
  | M_DISPATCH =>
      let! s := procfs_dispatch E (Some (m_table n)) (m_st n) in
      Ret (Some {| m_st := s; m_table := m_table n; m_event := m_event n; m_seen := m_seen n; m_phase := M_POLL; m_start := m_start n |})
  end.

Definition change (t : list mntent) (n : mnode) : mnode :=
  {| m_st := m_st n; m_table := t; m_event := S (m_event n); m_seen := m_seen n; m_phase := m_phase n; m_start := m_start n |}.

(** The table changes to one of [tables]; [window]: also between the first read and the
    open. *)
Inductive mstep (tables : list mntent -> Prop) (window : bool) (n : mnode) : mnode -> Prop :=
  | step_daemon n' : daemon_step n = Ret (Some n') -> mstep tables window n n'
  | step_change t : tables t -> (window = true \/ m_phase n <> M_OPEN) -> mstep tables window n (change t n).

(** No two mounts have the same source, directory and type. *)
Definition distinct (t : list mntent) : Prop := NoDup (line_key <$> t).

(** The daemon waits until the table changes. *)
Definition waits (n : mnode) : Prop := daemon_step n = Ret None.

(** A reader of the events keeps a set of mounts. *)
Definition apply_event (X : gset (bytes * bytes * bytes)) (e : bytes * (bytes * bytes * bytes)) : gset (bytes * bytes * bytes) :=
  if decide (e.1 = #"mount") then {[ e.2 ]} ∪ X else X ∖ {[ e.2 ]}.
Definition replay (evs : list (bytes * mounts)) (X : gset (bytes * bytes * bytes)) : gset (bytes * bytes * bytes) :=
  foldl apply_event X ((fun e => (e.1, key e.2)) <$> evs).
Definition keys (t : list mntent) : gset (bytes * bytes * bytes) := list_to_set (line_key <$> t).

Definition is_seen (n : mnode) : Prop := forall k, k ∈ key <$> mlist (m_st n) <-> k ∈ line_key <$> m_table n.

Record minv (n : mnode) : Prop := {
  mi_table : NoDup (line_key <$> m_table n);
  mi_list : NoDup (key <$> mlist (m_st n));
  mi_first : m_phase n = M_READ -> mlist (m_st n) = [] /\ events (m_st n) = [];
  mi_replay : m_phase n <> M_READ -> replay (events (m_st n)) (keys (m_start n)) = list_to_set (key <$> mlist (m_st n));
  mi_open : m_phase n = M_OPEN -> is_seen n;
  mi_seen : (m_seen n <= m_event n)%nat;
  mi_poll : m_phase n = M_POLL -> m_seen n = m_event n -> is_seen n;
}.
End Steps.

(** ** Descriptors *)

(** The calls that succeed return descriptors that are not open. *)
Definition fan_fresh (c : fan_calls) (fds : gset Z) : Prop :=
  NoDup [fc_init c; fc_pidfd c; fc_ioctl c] /\ NoDup [fc_init c; fc_open c] /\
  fc_init c ∉ fds /\ fc_pidfd c ∉ fds /\ fc_ioctl c ∉ fds /\ fc_open c ∉ fds.

(** The backend that cannot be used leaves no descriptor behind, and the other one leaves
    the one that main polls; it is used in exactly the cases of the model of Mounts. *)
Lemma fanotify_fds_balanced c read_ok fds :
  fan_fresh c fds ->
  fanotify_fds c read_ok fds =
    (if fan_init (setup_of c) && fan_ns (setup_of c) && fan_mark (setup_of c) && read_ok
     then (Some (fc_init c), {[ fc_init c ]} ∪ fds) else (None, fds)).
Proof.
  intros ([H1 H2]%list.NoDup_cons & [H3 _]%list.NoDup_cons & Hi & Hp & Ho & Hq). apply list.NoDup_cons in H2 as [H2 _].
  rewrite !not_elem_of_cons in *. destruct H1 as (? & ? & _), H2 as (? & _), H3 as (? & _).
  unfold fanotify_fds, namespace_fd, setup_of. cbn [fan_init fan_ns fan_mark]. rewrite !Z.geb_leb, !Z.leb_antisym.
  destruct (fc_init c <? 0); cbn [negb andb]; [done|].
  change (-1 <? 0) with true.
  destruct (fc_pidfd c <? 0), (fc_ioctl c <? 0) eqn:Ei, (fc_open c <? 0) eqn:Eo, (fc_mark c <? 0), read_ok; cbn;
  rewrite ?Ei, ?Eo; cbn; rewrite ?Ei, ?Eo; cbn; f_equal; set_solver.
Qed.

(** ** The invariant *)

Section Invariant.
Context (E : event_io).

Lemma replay_app a b X : replay (a ++ b) X = replay b (replay a X).
Proof. unfold replay. by rewrite fmap_app, foldl_app. Qed.

Lemma apply_umounts ks X : foldl apply_event X ((fun k => (#"umount", k)) <$> ks) = X ∖ list_to_set ks.
Proof.
  revert X. induction ks as [|k ks IH]; intros X; cbn; [set_solver|]. rewrite IH. unfold apply_event. rewrite decide_False by done. set_solver.
Qed.

Lemma apply_mounts ks X : foldl apply_event X ((fun k => (#"mount", k)) <$> ks) = list_to_set ks ∪ X.
Proof.
  revert X. induction ks as [|k ks IH]; intros X; cbn; [set_solver|]. rewrite IH. unfold apply_event. rewrite decide_True by done. set_solver.
Qed.

(** A dispatch: the list is the table, and the events lead from the old list to it. *)
Lemma dispatch_ok lines s s' : NoDup (key <$> mlist s) -> NoDup (line_key <$> lines) -> procfs_dispatch E (Some lines) s = Ret s' ->
  NoDup (key <$> mlist s') /\ (forall k, k ∈ key <$> mlist s' <-> k ∈ line_key <$> lines) /\
  forall X, replay (events s) X = list_to_set (key <$> mlist s) -> replay (events s') X = list_to_set (key <$> mlist s').
Proof.
  intros Hl Hn. rewrite procfs_dispatch_spec. unfold emit. destruct (write_calls _ _ _); cbn [obind]; [|done..]. intros [= <-].
  cbn [emitted mlist events]. split_and!; [by apply dispatch_NoDup|apply dispatch_keys|]. intros X HX.
  rewrite !replay_app, HX. unfold replay, on_umount, on_mount. rewrite <- !list_fmap_compose.
  change (_ ∘ (fun m => (#"umount", m))) with ((fun k => (#"umount", k)) ∘ key). change (_ ∘ (fun m => (#"mount", m))) with ((fun k => (#"mount", k)) ∘ key).
  rewrite !list_fmap_compose, apply_umounts, apply_mounts, gone_keys, added_keys by (done || set_solver).
  apply set_eq. intros k. rewrite elem_of_union, elem_of_difference, !elem_of_list_to_set, !list_elem_of_filter, dispatch_keys.
  destruct (decide (k ∈ key <$> mlist s)), (decide (k ∈ line_key <$> lines)); tauto.
Qed.

Lemma dispatch_fine lines s : calls_fine E -> exists s', procfs_dispatch E (Some lines) s = Ret s'.
Proof. intros HE. rewrite procfs_dispatch_spec, emit_fine by done. by eexists. Qed.

Lemma filter_every {A} (P : A -> Prop) `{!forall x, Decision (P x)} (l : list A) : (forall x, P x) -> filter P l = l.
Proof. intros HP. induction l as [|x l IH]; [done|]. rewrite list.filter_cons, decide_True by done. by rewrite IH. Qed.

Lemma init_list_ok t s : mlist s = [] -> events s = [] ->
  exists s', procfs_init_list (Some t) s = Ret s' /\ key <$> mlist s' = line_key <$> t /\ events s' = [].
Proof.
  intros Hl He. unfold procfs_init_list, procfs_read_mounts. cbn [obind]. rewrite Hl.
  rewrite read_lines_spec. unfold added. eexists. split; [done|]. cbn [fst snd map app set_mlist mlist events]. split; [|done].
  cbn [mark app]. rewrite map_map, filter_every by (intros x; apply not_elem_of_nil).
  rewrite <- list_fmap_compose. by apply list_fmap_ext.
Qed.

Lemma minv0 t : distinct t -> minv (node0 t).
Proof. intros Ht. constructor; cbn; try done. apply base.NoDup_nil_2. Qed.

Lemma mstep_inv n n' : minv n -> mstep E distinct false n n' -> minv n'.
Proof.
  intros [I1 I2 I3 I4 I5 I6 I7] [n1 Hs|t Ht Hw].
  - unfold daemon_step in Hs. destruct n as [s t ev se ph st]. cbn [m_st m_table m_event m_seen m_phase m_start] in *. destruct ph.
    + destruct I3 as [Hl He]; [done|]. destruct (init_list_ok t s Hl He) as (s' & Ei & Hk & He'). rewrite Ei in Hs. cbn [obind] in Hs. simplify_eq.
      constructor; cbn; try done.
      * by rewrite Hk.
      * intros _. by rewrite He', Hk.
      * intros _ k. cbn. by rewrite Hk.
    + simplify_eq. constructor; cbn; try done; intros _; [by apply I4|intros _; by apply I5].
    + case_decide; simplify_eq. constructor; cbn; try done. intros _. by apply I4.
    + destruct (procfs_dispatch E (Some t) s) as [s'| | |] eqn:Ed; cbn [obind] in Hs; simplify_eq.
      destruct (dispatch_ok t s s' I2 I1 Ed) as (Hn & Hk & Hr).
      constructor; cbn; try done. intros _. by apply Hr, I4.
  - constructor; cbn; try done; [|lia|intros _ ?; lia]. intros Hp. destruct Hw; done.
Qed.

Lemma msteps_inv n n' : minv n -> rtc (mstep E distinct false) n n' -> minv n'.
Proof. intros Hi. induction 1; [done|]. eauto using mstep_inv. Qed.

(** Without a change the daemon comes to wait. *)
Lemma comes_to_wait n : calls_fine E -> minv n -> exists n', rtc (mstep E distinct false) n n' /\ waits E n' /\ m_table n' = m_table n.
Proof.
  intros HE Hi.
  assert (Hpoll : forall n, m_phase n = M_POLL -> m_seen n = m_event n -> waits E n).
  { intros x Hp Hs. unfold waits, daemon_step. by rewrite Hp, decide_True. }
  assert (Hdisp : forall n, minv n -> m_phase n = M_DISPATCH -> m_seen n = m_event n -> exists n', rtc (mstep E distinct false) n n' /\ waits E n' /\ m_table n' = m_table n).
  { intros x Hx Hp Hs. destruct (dispatch_fine (m_table x) (m_st x) HE) as (s' & Ed).
    eexists. split; [apply rtc_once, step_daemon; unfold daemon_step; rewrite Hp, Ed; reflexivity|]. split; [by apply Hpoll|done]. }
  assert (Hany : forall n, minv n -> m_phase n = M_POLL -> exists n', rtc (mstep E distinct false) n n' /\ waits E n' /\ m_table n' = m_table n).
  { intros x Hx Hp. destruct (decide (m_seen x = m_event x)); [exists x; split; [done|]; split; [by apply Hpoll|done]|].
    assert (Hst : exists y, mstep E distinct false x y /\ m_phase y = M_DISPATCH /\ m_seen y = m_event y /\ m_table y = m_table x).
    { eexists. split; [apply step_daemon; unfold daemon_step; rewrite Hp, decide_False by done; reflexivity|done]. }
    destruct Hst as (y & Hy & Hyp & Hys & Hyt). destruct (Hdisp y) as (z & Hz & Hw & Ht); [by eapply mstep_inv|done..|].
    exists z. split; [by eapply rtc_l|]. split; [done|congruence]. }
  assert (Hopen : forall n, minv n -> m_phase n = M_OPEN -> exists n', rtc (mstep E distinct false) n n' /\ waits E n' /\ m_table n' = m_table n).
  { intros x Hx Hp. eexists. split; [apply rtc_once, step_daemon; unfold daemon_step; rewrite Hp; reflexivity|]. split; [by apply Hpoll|done]. }
  destruct (m_phase n) eqn:Hp; [|by apply Hopen|by apply Hany|].
  - destruct (mi_first _ Hi Hp) as [Hl He]. destruct (init_list_ok (m_table n) (m_st n) Hl He) as (s' & Ed & _).
    assert (Hst : exists y, mstep E distinct false n y /\ m_phase y = M_OPEN /\ m_table y = m_table n).
    { eexists. split; [apply step_daemon; unfold daemon_step; rewrite Hp, Ed; reflexivity|done]. }
    destruct Hst as (y & Hy & Hyp & Hyt). destruct (Hopen y) as (z & Hz & Hw & Ht); [by eapply mstep_inv|done|].
    exists z. split; [by eapply rtc_l|]. split; [done|congruence].
  - destruct (dispatch_fine (m_table n) (m_st n) HE) as (s' & Ed).
    assert (Hst : exists y, mstep E distinct false n y /\ m_phase y = M_POLL /\ m_table y = m_table n).
    { eexists. split; [apply step_daemon; unfold daemon_step; rewrite Hp, Ed; reflexivity|done]. }
    destruct Hst as (y & Hy & Hyp & Hyt). destruct (Hany y) as (z & Hz & Hw & Ht); [by eapply mstep_inv|done|].
    exists z. split; [by eapply rtc_l|]. split; [done|congruence].
Qed.
End Invariant.

(** ** Properties *)

(** C30. The procfs backend while the mount table changes, for tables in which no two
    mounts have the same source, directory and type. If the table does not change
    between the first read and the open of the descriptor for poll, then whatever changes
    later, also between a poll and the read that follows it: when the daemon waits, its
    list is the mount table, and a reader that applies the events to the mounts of the
    start has the mount table. And as long as the files of the events can be created and
    renamed, the daemon comes to wait once the changes end. *)
Theorem mounts_in_sync E t n :
  distinct t -> rtc (mstep E distinct false) (node0 t) n ->
  (waits E n -> is_seen n /\ replay (events (m_st n)) (keys (m_start n)) = keys (m_table n)) /\
  (calls_fine E -> exists n', rtc (mstep E distinct false) n n' /\ waits E n' /\ m_table n' = m_table n).
Proof.
  intros Ht Hr. pose proof (msteps_inv E _ _ (minv0 t Ht) Hr) as Hi. split; [|intros HE; by apply comes_to_wait].
  intros Hw. assert (m_phase n = M_POLL /\ m_seen n = m_event n) as [Hp Hs].
  { unfold waits, daemon_step in Hw. destruct (m_phase n); try done; [by case_decide|]. destruct (procfs_dispatch _ _ _); done. }
  pose proof (mi_poll _ Hi Hp Hs) as Hk. split; [done|]. rewrite (mi_replay _ Hi) by (by rewrite Hp).
  apply set_eq. intros k. unfold keys. rewrite !elem_of_list_to_set. apply Hk.
Qed.

Definition demo_mount (d : bytes) : mntent := {| mnt_fsname := #"none"; mnt_dir := d; mnt_type := #"tmpfs"; mnt_opts := #"rw" |}.

(** A mount between the first read of the table and the open of the descriptor for
    poll is not reported: the daemon waits, its list lacks the mount, and there is no
    event, until the table changes once more. *)
Theorem mount_lost_at_start E :
  exists n, rtc (mstep E distinct true) (node0 []) n /\ waits E n /\ m_table n = [demo_mount #"/new"] /\
    mlist (m_st n) = [] /\ events (m_st n) = [].
Proof.
  eexists. split; [|split_and!].
  - eapply rtc_l; [apply step_daemon; reflexivity|].
    eapply rtc_l; [apply (step_change _ _ _ _ [demo_mount #"/new"]); [apply list.NoDup_singleton|by left]|].
    apply rtc_once, step_daemon. reflexivity.
  - reflexivity.
  - reflexivity.
  - reflexivity.
  - reflexivity.
Qed.

Lemma mounts_in_sync_witness :
  let n := change [demo_mount #"/a"] (node0 []) in
  (waits example_io n -> is_seen n /\ replay (events (m_st n)) (keys (m_start n)) = keys (m_table n)) /\
  exists n', rtc (mstep example_io distinct false) n n' /\ waits example_io n' /\ m_table n' = m_table n.
Proof.
  intros n. destruct (mounts_in_sync example_io [] n) as [H1 H2].
  - apply base.NoDup_nil_2.
  - apply rtc_once, step_change; [apply list.NoDup_singleton|by right].
  - split; [exact H1|]. apply H2, example_io_fine.
Defined.

(** ** main with the procfs backend *)

(** The table that was read last. *)
Definition after_poll (t : list mntent) (p : poll_result) : list mntent :=
  match p with
  | P_READY revents i =>
      if negb (Z.land revents (poll_events procfs_backend) =? 0) then default [] (in_file i) else t
  | _ => t
  end.
Definition poll_fine (p : poll_result) : Prop :=
  match p with
  | P_EINTR => True
  | P_ERROR => False
  | P_READY _ i => exists t, in_file i = Some t /\ NoDup (line_key <$> t)
  end.

Section Loop.
Context (E : event_io) (statmount : Z -> option statmount_reply) (listmount : Z -> option (list Z)).

(** The list is the table, and the events lead to it from the table [t0]. *)
Definition follows (t0 t : list mntent) (s : mst) : Prop :=
  NoDup (key <$> mlist s) /\ (forall k, k ∈ key <$> mlist s <-> k ∈ line_key <$> t) /\
  replay (events s) (keys t0) = list_to_set (key <$> mlist s).

Lemma poll_loop_follows t0 ps t s :
  calls_fine E -> Forall poll_fine ps -> follows t0 t s ->
  exists s', poll_loop E statmount procfs_backend ps s = Ret s' /\ follows t0 (foldl after_poll t ps) s'.
Proof.
  intros HE Hps. revert t s. induction Hps as [|p ps Hp _ IH]; intros t s Hs; [by eexists|].
  destruct p as [| |revents i]; [by apply IH|done|]. destruct Hp as (t' & Hi & Hn). cbn [poll_loop foldl after_poll].
  destruct (negb _); [|by apply IH]. unfold dispatch. rewrite Hi. destruct Hs as (Hl & Hk & Hr).
  destruct (dispatch_fine E t' s HE) as (s' & Ed). rewrite Ed. destruct (dispatch_ok E t' s s' Hl Hn Ed) as (Hl' & Hk' & Hr'). cbn [obind default from_option id].
  apply IH. split_and!; [done..|by apply Hr'].
Qed.

(** ueventd-mounts on a kernel without events for mounts. When its directories exist,
    the files of the events can be written and /proc/self/mounts can be read, main comes through every sequence of wakeups; its
    list is then the table that was read last, and the events it has written lead from
    the table of the start to that table. *)
Theorem mounts_main_follows st opts level getenv d q fuel c t fd ps :
  calls_fine E -> mounts_options st opts LOG_INFO = Ret level -> getenv #"filterdir" = Some d ->
  0 <= qc_chdir q -> 0 <= qc_chdir_queue q -> 0 <= qc_open q -> 0 <= qc_openat q ->
  fc_init c < 0 -> 0 <= fd -> NoDup (line_key <$> t) -> Forall poll_fine ps ->
  exists s, mounts_main E statmount listmount st opts getenv q fuel c (Some t) fd ps = Ret s /\
    follows t (foldl after_poll t ps) s.
Proof.
  intros HE Ho Hg H1 H2 H3 H4 Hf Hfd Hn Hps. unfold mounts_main, get_param_dir. rewrite Ho, Hg. cbn [obind].
  rewrite !(fun x H => proj2 (Z.ltb_ge x 0) H) by done. unfold backend_select, fanotify_init_backend, setup_of. cbn [fan_init].
  rewrite Z.geb_leb, (proj2 (Z.leb_gt _ _)) by done. cbn [andb obind fst snd]. unfold procfs_init_backend.
  destruct (init_list_ok t {| mlist := []; queue := ∅; events := [] |}) as (s & -> & Hk & He); [done..|]. cbn [obind].
  rewrite (proj2 (Z.ltb_ge _ _)) by done. cbn [obind]. apply poll_loop_follows; [done|done|].
  unfold follows. rewrite Hk, He. done.
Qed.
End Loop.

Lemma mounts_main_follows_witness :
  exists s, mounts_main example_io example_stat (fun _ => None) {| log_priority := LOG_INFO; log_fd := 2; log_progname := None |} [O_l #"debug"]
      (fun _ => Some #"/d") {| qc_chdir := 0; qc_chdir_queue := 0; qc_open := 4; qc_openat := 5 |} 1
      {| fc_init := -1; fc_pidfd := -1; fc_ioctl := -1; fc_open := -1; fc_mark := -1 |} (Some []) 6
      [P_EINTR; P_READY POLLPRI {| in_file := Some [demo_mount #"/a"]; in_reads := [] |}] = Ret s /\ follows [] [demo_mount #"/a"] s.
Proof.
  eapply (mounts_main_follows example_io example_stat (fun _ => None) _ [O_l #"debug"] LOG_DEBUG); try done; try lia; try exact example_io_fine.
  - apply base.NoDup_nil_2.
  - repeat constructor. exists [demo_mount #"/a"]. split; [done|]. apply list.NoDup_singleton.
Defined.
