(* ===== verification/UeventdMain.v ===== *)
(** The life of the ueventd process (ueventd.c): the options and the environment, the
    file descriptors of the daemon, the child side of [spawn_worker], the main loop as a
    whole and the way out of it; and [write_loop] of path.c.

    [task] is what the kernel keeps of a process: its descriptors, the descriptors its
    epoll instance waits for, the blocked signals and the signal it gets when its parent
    dies. The result of every system call is a parameter ([calls]); a negative one is a
    failure. *)

From Stdlib Require Import ZArith Ascii String Lia.
From stdpp Require Import base list strings gmap tactics numbers.
From S2P Require Import Prelude Ueventd UeventdWorker Libinitramfs.

Open Scope Z_scope.
Open Scope cprog_scope.

(** ** Descriptors *)

Inductive fd_kind := K_INOTIFY | K_SIGNAL | K_PIPE_READ | K_PIPE_WRITE | K_TIMER | K_EPOLL | K_OTHER.

Record task := {
  t_fds : gmap Z fd_kind;
  t_epoll : list Z;
  t_blocked : list Z;
  t_pdeathsig : Z;
}.

Definition open_fd (fd : Z) (k : fd_kind) (t : task) : task :=
  {| t_fds := <[fd := k]> (t_fds t); t_epoll := t_epoll t; t_blocked := t_blocked t; t_pdeathsig := t_pdeathsig t |}.
Definition close_fd (fd : Z) (t : task) : task :=
  {| t_fds := delete fd (t_fds t); t_epoll := t_epoll t; t_blocked := t_blocked t; t_pdeathsig := t_pdeathsig t |}.
Definition set_epoll (l : list Z) (t : task) : task :=
  {| t_fds := t_fds t; t_epoll := l; t_blocked := t_blocked t; t_pdeathsig := t_pdeathsig t |}.
Definition set_blocked (l : list Z) (t : task) : task :=
  {| t_fds := t_fds t; t_epoll := t_epoll t; t_blocked := l; t_pdeathsig := t_pdeathsig t |}.
Definition set_pdeathsig (n : Z) (t : task) : task :=
  {| t_fds := t_fds t; t_epoll := t_epoll t; t_blocked := t_blocked t; t_pdeathsig := n |}.

Definition SIGHUP : Z := 1.
Definition SIGINT : Z := 2.
Definition SIGQUIT : Z := 3.
Definition SIGKILL : Z := 9.
Definition SIGTERM : Z := 15.

(** What the system calls return. *)
Record calls := {
  c_inotify_init1 : Z;
  c_signalfd : Z;
  c_sigprocmask : Z;
  c_pipe2 : Z;
  c_pipefd : Z * Z;
  c_timerfd_create : Z;
  c_epoll_create1 : Z;
  c_epoll_add : Z -> Z;
  c_epoll_del : Z -> Z;
  c_prctl : Z;
  c_sigprocmask_child : Z;
}.

Section Calls.
Context (c : calls).

Definition setup_inotify_fd (t : task) : out (Z * task) :=
  if c_inotify_init1 c <? 0 then Die EXIT_FAILURE "inotify_init1"
  else Ret (c_inotify_init1 c, open_fd (c_inotify_init1 c) K_INOTIFY t).

Definition setup_signal_fd (t : task) : out (Z * task) :=
  let mask := [SIGHUP; SIGINT; SIGQUIT; SIGTERM; SIGCHLD] in
  if c_signalfd c <? 0 then Die EXIT_FAILURE "signalfd"
  else if c_sigprocmask c <? 0 then Die EXIT_FAILURE "sigprocmask"
  else Ret (c_signalfd c, set_blocked (mask ++ t_blocked t) (open_fd (c_signalfd c) K_SIGNAL t)).

(** The handler reads from the first end; the second one is kept in pipefd. *)
Definition setup_pipe_fd (t : task) : out (Z * task) :=
  if c_pipe2 c <? 0 then Die EXIT_FAILURE "pipe2"
  else Ret (fst (c_pipefd c), open_fd (snd (c_pipefd c)) K_PIPE_WRITE (open_fd (fst (c_pipefd c)) K_PIPE_READ t)).

Definition setup_timer_fd (t : task) : out (Z * task) :=
  if c_timerfd_create c <? 0 then Die EXIT_FAILURE "timerfd_create"
  else Ret (c_timerfd_create c, open_fd (c_timerfd_create c) K_TIMER t).

Fixpoint epoll_add_all (fds : list Z) (t : task) : out task :=
  match fds with
  | [] => Ret t
  | fd :: fds =>
      if c_epoll_add c fd <? 0 then Die EXIT_FAILURE "epoll_ctl"
      else epoll_add_all fds (set_epoll (t_epoll t ++ [fd]) t)
  end.

Definition setup_epoll_fd (fds : list Z) (t : task) : out (Z * task) :=
  if c_epoll_create1 c <? 0 then Die EXIT_FAILURE "epoll_create1"
  else
    let! t := epoll_add_all fds (open_fd (c_epoll_create1 c) K_EPOLL t) in
    Ret (c_epoll_create1 c, t).

(** fd_handler_list, in the order of the enumeration, and the epoll descriptor. *)
Definition setup_fds (t : task) : out (list Z * Z * task) :=
  let! (ino, t) := setup_inotify_fd t in
  let! (sig, t) := setup_signal_fd t in
  let! (pip, t) := setup_pipe_fd t in
  let! (tim, t) := setup_timer_fd t in
  let! (ep, t) := setup_epoll_fd [ino; sig; pip; tim] t in
  Ret ([ino; sig; pip; tim], ep, t).

(** The child of spawn_worker, from fork to the end of process_events: its task, and
    what process_events leaves. *)
Definition close_handlers (fds : list Z) (t : task) : task :=
  foldl (fun t fd => if fd >=? 0 then close_fd fd t else t) t fds.

Definition worker_task (fds : list Z) (ep : Z) (t : task) : out task :=
  if c_prctl c <? 0 then Die EXIT_FAILURE "prctl(PR_SET_PDEATHSIG)" else
  let t := close_fd ep (close_handlers fds (set_pdeathsig SIGKILL t)) in
  if c_sigprocmask_child c <? 0 then Die EXIT_FAILURE "sigprocmask" else
  Ret (set_blocked [] t).

Definition spawned (h : list dirent -> list dirent) (written : bool) (fds : list Z) (ep : Z) (t : task) (queue : watch)
    (w : world) : out (task * (world * list Z)) :=
  let! t := worker_task fds ep t in
  let! r := process_events h written (q_name queue) (q_watchfd queue) w in
  Ret (t, r).

(** *** The way out *)

(** The loop over the watches: the pids that get SIGKILL, and the world. *)
Fixpoint kill_workers (l : list watch) (w : world) : list Z * world :=
  match l with
  | [] => ([], w)
  | e :: l =>
      let '(ks, w) := kill_workers l (inotify_rm_watch (q_watchfd e) w) in
      (if negb (q_pid e =? 0) then q_pid e :: ks else ks, w)
  end.

(** The loop over fd_handler_list; the number of epoll_ctl that fail is logged. *)
Fixpoint release_fds (fds : list Z) (t : task) : task * Z :=
  match fds with
  | [] => (t, 0)
  | fd :: fds =>
      if fd >=? 0 then
        let failed := c_epoll_del c fd <? 0 in
        let t := if failed then t else set_epoll (List.filter (fun x => negb (x =? fd)) (t_epoll t)) t in
        let '(t, n) := release_fds fds (close_fd fd t) in
        (t, if failed then n + 1 else n)
      else release_fds fds t
  end.

Record ending := { x_killed : list Z; x_world : world; x_task : task; x_errors : Z; x_status : Z }.

Definition shutdown (fds : list Z) (ep : Z) (t : task) (s : sys) : ending :=
  let '(ks, w) := kill_workers (watch_list (dm s)) (wld s) in
  let '(t, n) := release_fds fds t in
  {| x_killed := ks; x_world := w; x_task := close_fd ep t; x_errors := n; x_status := 0 |}.

End Calls.

(** ** The main loop *)

(** [fd_handlers] with the state at the [goto done]. *)
Fixpoint handlers_until (es : list fd_event) (s : sys) : out (bool * sys) :=
  match es with
  | [] => Ret (false, s)
  | e :: es =>
      let! (r, s) := fd_handler e s in
      if negb (r =? 0) then Ret (true, s) else handlers_until es s
  end.

(** What epoll_wait returns, with the world it wakes up in. *)
Inductive wakeup := W_EINTR | W_FAIL | W_READY (w : world) (es : list fd_event).

(** [Some s]: the loop is left in [s]; [None]: it waits after the given wakeups. *)
Fixpoint main_loop (fork : Z -> Z) (ws : list wakeup) (s : sys) : out (option sys) :=
  match ws with
  | [] => Ret None
  | W_EINTR :: ws => main_loop fork ws s
  | W_FAIL :: _ => Die EXIT_FAILURE "epoll_wait"
  | W_READY w es :: ws =>
      let s := {| dm := dm s; wld := w |} in
      let! (stop, s) := handlers_until es s in
      if stop then Ret (Some s) else
      let! s := (if timer_changed (dm s) then update_timerfd s else Ret s) in
      let! s := start_all fork s in
      main_loop fork ws s
  end.

(** ** Options and environment *)

Inductive ueventd_opt := O_h | O_l (arg : bytes) | O_unknown.

Fixpoint ueventd_options (st : log_state) (opts : list ueventd_opt) (loglevel : Z) : out Z :=
  match opts with
  | [] => Ret loglevel
  | O_h :: _ => Die 0 "Usage"
  | O_l arg :: opts => ueventd_options st opts (rd_logging_level st arg)
  | O_unknown :: _ => Die 1 ""
  end.

Section Main.
Context (getenv : bytes -> option bytes).

Definition get_param_dir (name : bytes) : out bytes :=
  match getenv name with
  | None => Die EXIT_FAILURE "please set env variable"
  | Some v => Ret v
  end.

Record params := {
  filter_dir : bytes; uevent_dir : bytes; uevent_confdb : bytes; handler_file : bytes; timer_dir : bytes;
}.

Definition get_params (handler : bytes) : out params :=
  let! f := get_param_dir #"filterdir" in
  let! u := get_param_dir #"ueventdir" in
  let! d := get_param_dir #"uevent_confdb" in
  let! t := get_param_dir #"timerdir" in
  Ret {| filter_dir := f; uevent_dir := u; uevent_confdb := d; handler_file := handler; timer_dir := t |}.

(** [args] are the arguments after the options. The world is that of the directories the
    parameters name. *)
Definition ueventd_main (c : calls) (fork : Z -> Z) (st : log_state) (opts : list ueventd_opt)
    (args : list bytes) (t : task) (world_of : params -> world) (ws : list wakeup) : out (option ending) :=
  let! loglevel := ueventd_options st opts LOG_INFO in
  match args with
  | [] => Die EXIT_FAILURE "specify handler program"
  | handler :: _ =>
      let! p := get_params handler in
      let! (fds, ep, t) := setup_fds c t in
      let! s := main_init {| dm := daemon0 (snd (c_pipefd c)); wld := world_of p |} in
      let! r := main_loop fork ws s in
      match r with
      | None => Ret None
      | Some s => Ret (Some (shutdown c fds ep t s))
      end
  end.

End Main.

(** ** path.c: write_loop

    [wr offset count] is what write returns for [count] bytes from [offset]; the result
    comes with the bytes written. *)
Fixpoint write_loop_from (fuel : nat) (wr : Z -> Z -> Z) (buffer : bytes) (offset : Z) (done : bytes)
    : out (Z * bytes) :=
  let count := lenZ buffer - offset in
  if count >? 0 then
    match fuel with
    | O => NoFuel
    | S fuel =>
        let block := wr offset count in
        if block <=? 0 then Ret (if negb (offset =? 0) then offset else block, done)
        else write_loop_from fuel wr buffer (offset + block) (done ++ takeZ block (dropZ offset buffer))
    end
  else Ret (offset, done).

Definition write_loop (wr : Z -> Z -> Z) (buffer : bytes) : out (Z * bytes) :=
  write_loop_from (length buffer) wr buffer 0 [].

(** ** What the kernel promises

    A successful call returns a descriptor that is not open. *)
Definition new_fds (c : calls) : list Z :=
  [c_inotify_init1 c; c_signalfd c; fst (c_pipefd c); snd (c_pipefd c); c_timerfd_create c; c_epoll_create1 c].

Definition fresh_fds (c : calls) (t : task) : Prop :=
  NoDup (new_fds c) /\ Forall (fun fd => 0 <= fd /\ t_fds t !! fd = None) (new_fds c).

(** The states the loop is left in. *)
Definition stopped (s : sys) : Prop :=
  exists s0 es, reachable s0 /\ handlers_until es s0 = Ret (true, s) /\
    exists signo pids failed, FD_SIGNAL (Some (signo, pids, failed)) ∈ es /\ (signo <> SIGCHLD \/ failed = true).

Definition demo_calls : calls :=
  {| c_inotify_init1 := 3; c_signalfd := 4; c_sigprocmask := 0; c_pipe2 := 0; c_pipefd := (5, 6);
     c_timerfd_create := 7; c_epoll_create1 := 8; c_epoll_add := fun _ => 0; c_epoll_del := fun _ => 0;
     c_prctl := 0; c_sigprocmask_child := 0 |}.
Definition demo_task : task :=
  {| t_fds := <[0 := K_OTHER]> (<[1 := K_OTHER]> (<[2 := K_OTHER]> ∅)); t_epoll := []; t_blocked := [];
     t_pdeathsig := 0 |}.
Definition demo_log : log_state := {| log_priority := LOG_INFO; log_fd := 2; log_progname := None |}.
Definition demo_env (n : bytes) : option bytes := Some #"/d".
(** An event arrives for "net" (not paused), the worker starts, then SIGTERM. *)
Definition demo_wakeups : list wakeup :=
  [W_EINTR; W_READY demo_boot [FD_INOTIFY]; W_READY demo_boot [FD_SIGNAL (Some (SIGTERM, [], false))]].

(** Every call of the set-up and of the child succeeds. *)
Definition calls_ok (c : calls) : Prop :=
  0 <= c_sigprocmask c /\ 0 <= c_pipe2 c /\ 0 <= c_prctl c /\ 0 <= c_sigprocmask_child c /\
  forall fd, 0 <= c_epoll_add c fd.

(** What is left of the daemon: nothing of what it has opened but the writing end of the
    pipe, which only the end of the process closes. *)
Definition good_end (c : calls) (t : task) (x : ending) : Prop :=
  exists s, stopped s /\
    x_killed x = List.filter (fun pid => negb (pid =? 0)) (map q_pid (watch_list (dm s))) /\
    kwatches (x_world x) =
      List.filter (fun k => negb (existsb (fun e => k_wd k =? q_watchfd e) (watch_list (dm s)))) (kwatches (wld s)) /\
    t_fds (x_task x) = <[snd (c_pipefd c) := K_PIPE_WRITE]> (t_fds t) /\ x_status x = 0.

(** ** Lemmas: descriptors *)

Lemma epoll_add_all_ok c fds t t' :
  epoll_add_all c fds t = Ret t' -> t' = set_epoll (t_epoll t ++ fds) t.
Proof.
  revert t. induction fds as [|fd fds IH]; intros t; cbn.
  - intros [= <-]. rewrite app_nil_r. by destruct t.
  - destruct (_ <? 0); [done|]. intros H. rewrite (IH _ H). cbn. by rewrite <- app_assoc.
Qed.

Lemma epoll_add_all_total c fds t : calls_ok c -> exists t', epoll_add_all c fds t = Ret t'.
Proof.
  intros (_ & _ & _ & _ & Hc). revert t. induction fds as [|fd fds IH]; intros t; cbn; [by eexists|].
  rewrite (proj2 (Z.ltb_ge _ _)) by apply Hc. apply IH.
Qed.

(** The descriptors after the set-up. *)
Definition opened (c : calls) (m : gmap Z fd_kind) : gmap Z fd_kind :=
  <[c_epoll_create1 c := K_EPOLL]> (<[c_timerfd_create c := K_TIMER]>
    (<[snd (c_pipefd c) := K_PIPE_WRITE]> (<[fst (c_pipefd c) := K_PIPE_READ]>
      (<[c_signalfd c := K_SIGNAL]> (<[c_inotify_init1 c := K_INOTIFY]> m))))).

Definition handler_fds (c : calls) : list Z :=
  [c_inotify_init1 c; c_signalfd c; fst (c_pipefd c); c_timerfd_create c].

Lemma setup_fds_ret c t fds ep t' :
  setup_fds c t = Ret (fds, ep, t') ->
  fds = handler_fds c /\ ep = c_epoll_create1 c /\ t_fds t' = opened c (t_fds t).
Proof.
  unfold setup_fds, setup_inotify_fd, setup_signal_fd, setup_pipe_fd, setup_timer_fd, setup_epoll_fd.
  repeat (case_match; [done|]; cbn [obind]).
  destruct (epoll_add_all _ _ _) as [t1| | |] eqn:E; cbn; try done.
  intros [= <- <- <-]. apply epoll_add_all_ok in E as ->. done.
Qed.

Lemma setup_fds_total c t : fresh_fds c t -> calls_ok c -> exists r, setup_fds c t = Ret r.
Proof.
  intros [_ Hf] Hc. unfold new_fds in Hf. rewrite !list.Forall_cons in Hf.
  pose proof Hc as (H1 & H2 & _).
  unfold setup_fds, setup_inotify_fd, setup_signal_fd, setup_pipe_fd, setup_timer_fd, setup_epoll_fd.
  repeat (rewrite (proj2 (Z.ltb_ge _ _)) by tauto; cbn [obind]).
  edestruct epoll_add_all_total as [t' ->]; [done|]. by eexists.
Qed.

(** Closing the handlers' descriptors and the epoll descriptor leaves the writing end. *)
Lemma close_opened c t :
  fresh_fds c t ->
  delete (c_epoll_create1 c) (foldl (fun m fd => if fd >=? 0 then delete fd m else m) (opened c (t_fds t)) (handler_fds c)) =
  <[snd (c_pipefd c) := K_PIPE_WRITE]> (t_fds t).
Proof.
  intros [Hd Hf]. unfold opened, handler_fds. unfold new_fds in *. cbn [foldl].
  rewrite !list.Forall_cons in Hf. destruct Hf as ([? ?] & [? ?] & [? ?] & [? ?] & [? ?] & [? ?] & _).
  rewrite !Z.geb_leb, !(fun x H => proj2 (Z.leb_le 0 x) H) by done.
  rewrite !list.NoDup_cons, !not_elem_of_cons in Hd.
  destruct Hd as ((? & ? & ? & ? & ? & _) & (? & ? & ? & ? & _) & (? & ? & ? & _) & (? & ? & _) & (? & _) & _).
  apply map_eq. intros i. rewrite !lookup_delete, !lookup_insert.
  destruct (t_fds t !! i) eqn:Ei;
  repeat (case_decide; [subst; repeat (rewrite decide_False by congruence); congruence|]); congruence.
Qed.

Lemma close_handlers_fds fds t :
  t_fds (close_handlers fds t) = foldl (fun m fd => if fd >=? 0 then delete fd m else m) (t_fds t) fds.
Proof.
  unfold close_handlers. revert t. induction fds as [|fd fds IH]; intros t; cbn; [done|].
  rewrite IH. by destruct (fd >=? 0).
Qed.

Lemma close_handlers_other fds t :
  t_pdeathsig (close_handlers fds t) = t_pdeathsig t /\ t_blocked (close_handlers fds t) = t_blocked t.
Proof.
  unfold close_handlers. revert t. induction fds as [|fd fds IH]; intros t; cbn; [done|].
  destruct (IH (if fd >=? 0 then close_fd fd t else t)) as [-> ->]. by destruct (fd >=? 0).
Qed.

Lemma release_fds_fds c fds t :
  t_fds (fst (release_fds c fds t)) = foldl (fun m fd => if fd >=? 0 then delete fd m else m) (t_fds t) fds.
Proof.
  revert t. induction fds as [|fd fds IH]; intros t; cbn; [done|].
  destruct (fd >=? 0) eqn:E; [|apply IH].
  match goal with |- context [release_fds c fds ?t'] => specialize (IH t'); destruct (release_fds c fds t') as [t1 n1] end.
  cbn in *. rewrite IH. by destruct (_ <? 0).
Qed.

(** ** Lemmas: the main loop *)

Lemma handlers_until_spec es s :
  fd_handlers es s = (let! (b, s') := handlers_until es s in Ret (if b : bool then None else Some s')).
Proof.
  revert s. induction es as [|e es IH]; intros s; cbn; [done|].
  destruct (fd_handler e s) as [[r s1]| | |]; cbn; try done. destruct (negb _); [done|apply IH].
Qed.

(** Only a signal other than SIGCHLD, or a waitpid that fails, ends the loop. *)
Lemma handlers_until_signal es s s' :
  handlers_until es s = Ret (true, s') ->
  exists signo pids failed, FD_SIGNAL (Some (signo, pids, failed)) ∈ es /\ (signo <> SIGCHLD \/ failed = true).
Proof.
  revert s. induction es as [|e es IH]; intros s; cbn; [done|].
  destruct (fd_handler e s) as [[r s1]| | |] eqn:E; cbn; try done.
  destruct (negb (r =? 0)) eqn:Hr.
  - intros _. unbool. destruct e as [[[[signo pids] failed]|]| | |]; cbn in E.
    + exists signo, pids, failed. split; [by left|]. destruct failed; [by right|left]. intros ->. cbn in E. congruence.
    + congruence.
    + destruct (process_inotify_events _ _); cbn in E; congruence.
    + congruence.
    + congruence.
  - intros H. destruct (IH _ H) as (signo & pids & failed & Hin & Hne). exists signo, pids, failed. split; [by right|done].
Qed.

Lemma main_loop_step fork w es ws s s' :
  handlers_until es {| dm := dm s; wld := w |} = Ret (false, s') ->
  main_loop fork (W_READY w es :: ws) s =
  (let! r := main_iteration fork es {| dm := dm s; wld := w |} in
   match r with None => Ret None | Some s => main_loop fork ws s end).
Proof.
  intros H. cbn. unfold main_iteration. rewrite handlers_until_spec, H. cbn.
  destruct (if timer_changed _ then _ else _); cbn; [|done..]. by destruct (start_all _ _).
Qed.

Lemma main_loop_stopped fork ws s s' :
  reachable s -> main_loop fork ws s = Ret (Some s') -> stopped s'.
Proof.
  revert s. induction ws as [|[| |w es] ws IH]; intros s Hs; [done|by apply IH|done|].
  assert (Hw : reachable {| dm := dm s; wld := w |}) by by apply reach_world.
  destruct (handlers_until es {| dm := dm s; wld := w |}) as [[[] s1]| | |] eqn:E.
  - cbn. rewrite E. cbn. intros [= <-]. exists {| dm := dm s; wld := w |}, es. split_and!; [done..|].
    by eapply handlers_until_signal.
  - rewrite (main_loop_step _ _ _ _ _ _ E).
    destruct (main_iteration _ _ _) as [[s2|]| | |] eqn:E2; cbn; try done.
    apply IH. by eapply reach_iteration.
  - cbn. by rewrite E.
  - cbn. by rewrite E.
  - cbn. by rewrite E.
Qed.

(** A signal that ends the daemon, after wakeups that do not. *)
Lemma main_loop_signal fork ws w signo pids failed es s :
  main_loop fork ws s = Ret None -> signo <> SIGCHLD ->
  exists s', main_loop fork (ws ++ [W_READY w (FD_SIGNAL (Some (signo, pids, failed)) :: es)]) s = Ret (Some s').
Proof.
  intros H Hne. revert s H. induction ws as [|[| |w' es'] ws IH]; intros s H.
  - cbn. apply Z.eqb_neq in Hne. rewrite Hne. cbn. by eexists.
  - by apply IH.
  - done.
  - cbn in *. destruct (handlers_until _ _) as [[[] s1]| | |]; cbn in *; try done.
    destruct (if timer_changed _ then _ else _); cbn in *; try done.
    destruct (start_all _ _); cbn in *; try done. by apply IH.
Qed.

Lemma kill_workers_spec l w :
  fst (kill_workers l w) = List.filter (fun pid => negb (pid =? 0)) (map q_pid l) /\
  kwatches (snd (kill_workers l w)) =
    List.filter (fun k => negb (existsb (fun e => k_wd k =? q_watchfd e) l)) (kwatches w).
Proof.
  revert w. induction l as [|e l IH]; intros w; cbn.
  - split; [done|]. induction (kwatches w) as [|k ks IHk]; cbn; congruence.
  - specialize (IH (inotify_rm_watch (q_watchfd e) w)).
    destruct (kill_workers l _) as [ks w1]. cbn in *. destruct IH as [-> ->]. split; [by destruct (negb _)|].
    induction (kwatches w) as [|k l' IHk]; cbn; [done|].
    destruct (k_wd k =? q_watchfd e); cbn; [done|]. destruct (existsb _ l); cbn; congruence.
Qed.

Lemma shutdown_good c t t1 s :
  fresh_fds c t -> t_fds t1 = opened c (t_fds t) -> stopped s ->
  good_end c t (shutdown c (handler_fds c) (c_epoll_create1 c) t1 s).
Proof.
  intros Hf Ht Hs. exists s. split; [done|]. unfold shutdown.
  pose proof (kill_workers_spec (watch_list (dm s)) (wld s)) as [H1 H2].
  pose proof (release_fds_fds c (handler_fds c) t1) as H3.
  destruct (kill_workers _ _) as [ks w], (release_fds _ _ _) as [t2 n]. cbn in *.
  split_and!; [done..| |done]. by rewrite H3, Ht, <- (close_opened c t Hf).
Qed.

(** ** write_loop *)

Lemma takeZ_add {A} a b (l : list A) :
  0 <= a -> 0 <= b -> a + b <= lenZ l -> takeZ (a + b) l = takeZ a l ++ takeZ b (dropZ a l).
Proof.
  intros Ha Hb Hl.
  assert (Hs : l = (takeZ a l ++ takeZ b (dropZ a l)) ++ dropZ b (dropZ a l)).
  { by rewrite <- app_assoc, takeZ_dropZ, takeZ_dropZ by (rewrite ?lenZ_dropZ; lia). }
  rewrite Hs at 1. apply takeZ_app. rewrite lenZ_app, !lenZ_takeZ; rewrite ?lenZ_dropZ; lia.
Qed.

(** With a write that takes at most what it is given, the loop ends, what is written is
    a prefix of the buffer, and all of it unless a write returns nothing. *)
Lemma write_loop_from_spec wr buf fuel off :
  (forall o n, wr o n <= n) -> 0 <= off <= lenZ buf -> lenZ buf - off <= Z.of_nat fuel ->
  exists r n, write_loop_from fuel wr buf off (takeZ off buf) = Ret (r, takeZ n buf) /\ 0 <= n <= lenZ buf /\
    (n = r \/ n = 0 /\ r <= 0) /\ (n = lenZ buf \/ wr n (lenZ buf - n) <= 0).
Proof.
  intros Hw. revert off. induction fuel as [|fuel IH]; intros off Ho Hf; cbn [write_loop_from].
  - rewrite Z.gtb_ltb, (proj2 (Z.ltb_ge _ _)) by lia. exists off, off. split_and!; [done|lia..].
  - rewrite Z.gtb_ltb. destruct (Z.ltb_spec 0 (lenZ buf - off)) as [Hlt|Hge].
    2: { exists off, off. split_and!; [done|lia..]. }
    destruct (Z.leb_spec (wr off (lenZ buf - off)) 0) as [Hz|Hp].
    + eexists _, off. split_and!; [done|lia..| |by right].
      destruct (off =? 0) eqn:E; cbn; unbool; [right|left]; lia.
    + specialize (Hw off (lenZ buf - off)).
      replace (takeZ off buf ++ takeZ (wr off (lenZ buf - off)) (dropZ off buf))
        with (takeZ (off + wr off (lenZ buf - off)) buf); [apply IH; lia|].
      apply takeZ_add; lia.
Qed.

Lemma write_loop_all wr buf :
  (forall o n, wr o n <= n) -> (forall o n, 0 < n -> 0 < wr o n) -> write_loop wr buf = Ret (lenZ buf, buf).
Proof.
  intros H1 H2. pose proof (lenZ_nonneg buf).
  destruct (write_loop_from_spec wr buf (length buf) 0) as (r & n & Hr & Hn & Hrn & Hall); [done|lia|unfold lenZ; lia|].
  rewrite takeZ_0 in Hr. unfold write_loop. rewrite Hr.
  assert (n = lenZ buf) as -> by (destruct Hall as [|Hall]; [done|]; destruct (decide (n = lenZ buf)); [done|];
    specialize (H2 n (lenZ buf - n)); lia).
  rewrite takeZ_all. destruct Hrn as [->|[Hz Hr0]]; [done|].
  destruct buf; [|unfold lenZ in Hz; cbn in Hz; lia].
  unfold write_loop_from in Hr. cbn in Hr. by injection Hr as <-.
Qed.

(** ** Properties *)

(** The descriptors of a worker. When the system calls succeed, the set-up of ueventd
    and the child of spawn_worker do too. The worker has the descriptors the daemon was
    started with and the writing end of the pipe, with which it reports that events are
    left, and none of the daemon's others: it can read neither its events nor its
    signals. No signal is blocked in it, and it is killed when the daemon dies. *)
Theorem worker_isolated c t :
  fresh_fds c t -> calls_ok c ->
  exists fds ep t1 t2, setup_fds c t = Ret (fds, ep, t1) /\ worker_task c fds ep t1 = Ret t2 /\
    t_fds t2 = <[snd (c_pipefd c) := K_PIPE_WRITE]> (t_fds t) /\ t_blocked t2 = [] /\ t_pdeathsig t2 = SIGKILL.
Proof.
  intros Hf Hc. destruct (setup_fds_total c t Hf Hc) as [[[fds ep] t1] E].
  destruct (setup_fds_ret _ _ _ _ _ E) as (-> & -> & Ht). destruct Hc as (_ & _ & H3 & H4 & _).
  exists (handler_fds c), (c_epoll_create1 c), t1. eexists. split; [done|]. unfold worker_task.
  rewrite !(fun x H => proj2 (Z.ltb_ge x 0) H) by done. split; [done|]. cbn [set_blocked close_fd t_fds t_blocked t_pdeathsig].
  split_and!; [|done|by rewrite (proj1 (close_handlers_other _ _))].
  rewrite close_handlers_fds. cbn [set_pdeathsig t_fds]. by rewrite Ht, <- (close_opened c t Hf).
Qed.

Lemma worker_isolated_witness :
  exists fds ep t1 t2, setup_fds demo_calls demo_task = Ret (fds, ep, t1) /\
    worker_task demo_calls fds ep t1 = Ret t2 /\
    t_fds t2 = <[6 := K_PIPE_WRITE]> (t_fds demo_task) /\ t_blocked t2 = [] /\ t_pdeathsig t2 = SIGKILL.
Proof.
  apply (worker_isolated demo_calls demo_task).
  - split; [apply (bool_decide_unpack _); vm_compute; exact I|].
    unfold new_fds. cbn. repeat (constructor; [split; [lia|vm_compute; reflexivity]|]). constructor.
  - unfold calls_ok. cbn. split_and!; lia.
Defined.


